(** * Contest snapshot importer ([cms/db/ImportFromDict.py])

    A shallow embedding of the [import_from_dict] class methods and the
    properties of the entity graph they rebuild.  The importer is Python
    code over mutable dictionaries, lists and class instances, so the model
    is a store of objects addressed by location, and every builder is a
    computation in a state-and-exception monad over that store. *)

From Stdlib Require Import ZArith String Ascii.
From stdpp Require Import base tactics option list strings.

Local Open Scope string_scope.
Local Open Scope list_scope.
Local Open Scope nat_scope.
Local Set Warnings "-register-all,-clear-no-such-hyp".

(** ** Values and objects *)

Abbreviation loc := nat (only parsing).

(** The fragment of Python values the importer handles: [None], integers,
    strings, pairs (2-tuples) and references to mutable objects. *)
Inductive value :=
| VNone
| VInt (z : Z)
| VStr (s : string)
| VPair (a b : value)
| VRef (l : loc).

Global Instance value_eq_dec : EqDecision value.
Proof. solve_decision. Defined.

(** The classes [ImportFromDict.py] attaches a builder to. *)
Inductive cls :=
| Contest | Announcement | RankingView | Score
| User | Message | Question
| Task | Manager | Testcase | Attachment | SubmissionFormatElement
| Submission | Token | Evaluation | File | Executable.

Global Instance cls_eq_dec : EqDecision cls.
Proof. solve_decision. Defined.

(** A dictionary is an association list with pairwise distinct keys; a
    new key goes to the end, an existing key keeps its place. *)
Section alist.
Context {K V : Type} `{EqDecision K}.

Fixpoint al_get (k : K) (d : list (K * V)) : option V :=
  match d with
  | [] => None
  | (k', v) :: d' => if decide (k = k') then Some v else al_get k d'
  end.

Fixpoint al_set (k : K) (v : V) (d : list (K * V)) : list (K * V) :=
  match d with
  | [] => [(k, v)]
  | (k', v') :: d' =>
      if decide (k = k') then (k, v) :: d' else (k', v') :: al_set k v d'
  end.

(** [dict(pairs)]: the pairs are inserted from left to right. *)
Definition al_of_list (ps : list (K * V)) : list (K * V) :=
  foldl (λ d p, al_set p.1 p.2 d) [] ps.
End alist.

Abbreviation dict := (list (value * value)) (only parsing).
Abbreviation attrs := (list (string * value)) (only parsing).

Inductive obj :=
| ODict (d : dict)
| OList (vs : list value)
| OInst (c : cls) (a : attrs).

(** ** The store

    Locations are positions in the list of objects, allocation appends.
    [patches] is a ghost record of the attribute assignments made on
    already constructed instances, oldest first. *)
Record state := State {
  heap : list obj;
  patches : list (loc * string * value)
}.

Inductive exn :=
| KeyError (k : value)
| IndexError
| TypeError
| AttributeError.

Inductive result (A : Type) :=
| Ok (a : A) (s : state)
| Err (e : exn).
Arguments Ok {A} a s.
Arguments Err {A} e.

Definition M (A : Type) := state → result A.

Global Instance M_ret : MRet M := λ A a s, Ok a s.
Global Instance M_bind : MBind M := λ A B f m s,
  match m s with
  | Ok a s' => f a s'
  | Err e => Err e
  end.

Definition raise {A} (e : exn) : M A := λ _, Err e.

Fixpoint mapM_M {A B} (f : A → M B) (xs : list A) : M (list B) :=
  match xs with
  | [] => mret []
  | x :: xs' => y ← f x; ys ← mapM_M f xs'; mret (y :: ys)
  end.

Fixpoint forM_ {A} (f : A → M unit) (xs : list A) : M unit :=
  match xs with
  | [] => mret tt
  | x :: xs' => f x;; forM_ f xs'
  end.

(** ** Primitive operations of the object model *)

Definition alloc (o : obj) : M value := λ s,
  Ok (VRef (length (heap s))) (State (heap s ++ [o]) (patches s)).

(** Dictionary keys must be hashable: lists and dictionaries are not,
    instances hash by identity, tuples hash when their components do. *)
Fixpoint hashable (h : list obj) (v : value) : bool :=
  match v with
  | VRef l => match h !! l with Some (OInst _ _) => true | _ => false end
  | VPair a b => hashable h a && hashable h b
  | _ => true
  end.

(** Python sequence indexing: [-n <= z < n], negative indices count from
    the end. *)
Definition py_index (n : nat) (z : Z) : option nat :=
  if bool_decide (0 ≤ z < Z.of_nat n)%Z then Some (Z.to_nat z)
  else if bool_decide (- Z.of_nat n ≤ z < 0)%Z then Some (Z.to_nat (Z.of_nat n + z))
  else None.

Definition seq_item (vs : list value) (k : value) : M value :=
  match k with
  | VInt z =>
      match py_index (length vs) z with
      | Some i => match vs !! i with Some v => mret v | None => raise IndexError end
      | None => raise IndexError
      end
  | _ => raise TypeError
  end.

Definition chars (s : string) : list value :=
  (λ c, VStr (String c EmptyString)) <$> list_ascii_of_string s.

(** [c[k]] *)
Definition getitem (c k : value) : M value := λ s,
  match c with
  | VRef l =>
      match heap s !! l with
      | Some (ODict d) =>
          if hashable (heap s) k then
            match al_get k d with
            | Some v => Ok v s
            | None => Err (KeyError k)
            end
          else Err TypeError
      | Some (OList vs) => seq_item vs k s
      | _ => Err TypeError
      end
  | VStr str => seq_item (chars str) k s
  | VPair a b => seq_item [a; b] k s
  | _ => Err TypeError
  end.

(** [c['k'] = v] for a literal string key: only a dictionary accepts it. *)
Definition setitem (c : value) (k : string) (v : value) : M unit := λ s,
  match c with
  | VRef l =>
      match heap s !! l with
      | Some (ODict d) =>
          Ok tt (State (<[l := ODict (al_set (VStr k) v d)]> (heap s)) (patches s))
      | _ => Err TypeError
      end
  | _ => Err TypeError
  end.

(** The elements [for x in c] runs over. *)
Definition iter (c : value) : M (list value) := λ s,
  match c with
  | VRef l =>
      match heap s !! l with
      | Some (OList vs) => Ok vs s
      | Some (ODict d) => Ok (d.*1) s
      | _ => Err TypeError
      end
  | VStr str => Ok (chars str) s
  | VPair a b => Ok [a; b] s
  | _ => Err TypeError
  end.

(** [o.name] *)
Definition getattr (o : value) (name : string) : M value := λ s,
  match o with
  | VRef l =>
      match heap s !! l with
      | Some (OInst _ a) =>
          match al_get name a with
          | Some v => Ok v s
          | None => Err AttributeError
          end
      | _ => Err AttributeError
      end
  | _ => Err AttributeError
  end.

(** [o.name = v] on an instance. *)
Definition setattr (o : value) (name : string) (v : value) : M unit := λ s,
  match o with
  | VRef l =>
      match heap s !! l with
      | Some (OInst c a) =>
          Ok tt (State (<[l := OInst c (al_set name v a)]> (heap s))
                       (patches s ++ [(l, name, v)]))
      | _ => Err AttributeError
      end
  | _ => Err AttributeError
  end.

(** The keyword arguments of a call [cls] [**data]: every key must be a
    string. *)
Fixpoint kwargs (d : dict) : option attrs :=
  match d with
  | [] => Some []
  | (VStr k, v) :: d' => a ← kwargs d'; Some ((k, v) :: a)
  | _ => None
  end.

(** Modelled from the spec: the entity constructors of [cms.db.Contest],
    [cms.db.View], [cms.db.User], [cms.db.Task] and [cms.db.Submission]
    are not part of the sources at hand.  The call [cls] [**data] builds a
    new instance whose fields are the entries of [data], field for field. *)
Definition construct (c : cls) (data : value) : M value := λ s,
  match data with
  | VRef l =>
      match heap s !! l with
      | Some (ODict d) =>
          match kwargs d with
          | Some a => alloc (OInst c a) s
          | None => Err TypeError
          end
      | _ => Err TypeError
      end
  | _ => Err TypeError
  end.

(** [[f(x) for x in src]]: a new list object. *)
Definition list_comp (f : value → M value) (src : value) : M value :=
  xs ← iter src; ys ← mapM_M f xs; alloc (OList ys).

(** [dict(ps)]: a new dictionary object; a key met again replaces the
    value bound before. *)
Definition new_dict (ps : list (value * value)) : M value := λ s,
  if forallb (hashable (heap s)) (ps.*1)
  then alloc (ODict (al_of_list ps)) s
  else Err TypeError.

(** [dict([(key(x), x) for x in src])] *)
Definition dict_by (key : value → M value) (src : value) : M value :=
  xs ← iter src;
  ps ← mapM_M (λ x, k ← key x; mret (k, x)) xs;
  new_dict ps.

(** ** The builders of [ImportFromDict.py] *)

Definition basic_import_from_dict (c : cls) (data : value) : M value :=
  construct c data.

Definition submission_import_from_dict (data tasks : value) : M value :=
  src ← getitem data (VStr "files");
  files ← list_comp (basic_import_from_dict File) src;
  setitem data "files" files;;
  src ← getitem data (VStr "files");
  files ← dict_by (λ file, getattr file "filename") src;
  setitem data "files" files;;
  src ← getitem data (VStr "executables");
  executables ← list_comp (basic_import_from_dict Executable) src;
  setitem data "executables" executables;;
  src ← getitem data (VStr "executables");
  executables ← dict_by (λ executable, getattr executable "filename") src;
  setitem data "executables" executables;;
  src ← getitem data (VStr "evaluations");
  evaluations ← list_comp (basic_import_from_dict Evaluation) src;
  setitem data "evaluations" evaluations;;
  token ← getitem data (VStr "token");
  (if decide (token = VNone) then mret tt
   else token ← getitem data (VStr "token");
        token ← basic_import_from_dict Token token;
        setitem data "token" token);;
  index ← getitem data (VStr "task");
  task ← getitem tasks index;
  setitem data "task" task;;
  setitem data "user" VNone;;
  construct Submission data.

Definition task_import_from_dict (data : value) : M value :=
  src ← getitem data (VStr "attachments");
  attachments ← list_comp (basic_import_from_dict Attachment) src;
  setitem data "attachments" attachments;;
  src ← getitem data (VStr "attachments");
  attachments ← dict_by (λ attachment, getattr attachment "filename") src;
  setitem data "attachments" attachments;;
  src ← getitem data (VStr "submission_format");
  sfes ← list_comp (basic_import_from_dict SubmissionFormatElement) src;
  setitem data "submission_format" sfes;;
  src ← getitem data (VStr "managers");
  managers ← list_comp (basic_import_from_dict Manager) src;
  setitem data "managers" managers;;
  src ← getitem data (VStr "managers");
  managers ← dict_by (λ manager, getattr manager "filename") src;
  setitem data "managers" managers;;
  src ← getitem data (VStr "testcases");
  testcases ← list_comp (basic_import_from_dict Testcase) src;
  setitem data "testcases" testcases;;
  construct Task data.

Definition user_import_from_dict (data tasks : value) : M value :=
  src ← getitem data (VStr "messages");
  messages ← list_comp (basic_import_from_dict Message) src;
  setitem data "messages" messages;;
  src ← getitem data (VStr "questions");
  questions ← list_comp (basic_import_from_dict Question) src;
  setitem data "questions" questions;;
  src ← getitem data (VStr "submissions");
  submissions ← list_comp (λ submission_data,
                   submission_import_from_dict submission_data tasks) src;
  setitem data "submissions" submissions;;
  obj ← construct User data;
  submissions ← getattr obj "submissions";
  xs ← iter submissions;
  forM_ (λ submission, setattr submission "user" obj) xs;;
  mret obj.

(** The local function [get_user] of [score_import_from_dict]. *)
Fixpoint get_user_loop (us : list value) (username : value) : M value :=
  match us with
  | [] => raise (KeyError (VStr "User not found"))
  | u :: us' =>
      name ← getattr u "username";
      if decide (name = username) then mret u else get_user_loop us' username
  end.

Definition get_user (users username : value) : M value :=
  us ← iter users; get_user_loop us username.

Definition score_import_from_dict (data tasks users : value) : M value :=
  index ← getitem data (VStr "task");
  task ← getitem tasks index;
  setitem data "task" task;;
  username ← getitem data (VStr "user");
  user ← get_user users username;
  setitem data "user" user;;
  construct Score data.

(** Modelled from the spec: [Score.rankingview_keyfunc] is defined in
    [cms.db.View], which is not part of the sources at hand; the spec has
    the key of a score derived from its (task, user) pair. *)
Definition rankingview_keyfunc (score : value) : M value :=
  task ← getattr score "task";
  user ← getattr score "user";
  mret (VPair task user).

Definition rankingview_import_from_dict (data tasks users : value) : M value :=
  src ← getitem data (VStr "scores");
  scores ← list_comp (λ score_data,
              score_import_from_dict score_data tasks users) src;
  setitem data "scores" scores;;
  src ← getitem data (VStr "scores");
  scores ← dict_by rankingview_keyfunc src;
  setitem data "scores" scores;;
  construct RankingView data.

Definition contest_import_from_dict (data : value) : M value :=
  src ← getitem data (VStr "tasks");
  tasks ← list_comp task_import_from_dict src;
  setitem data "tasks" tasks;;
  src ← getitem data (VStr "users");
  users ← list_comp (λ user_data,
             tasks ← getitem data (VStr "tasks");
             user_import_from_dict user_data tasks) src;
  setitem data "users" users;;
  src ← getitem data (VStr "announcements");
  announcements ← list_comp (basic_import_from_dict Announcement) src;
  setitem data "announcements" announcements;;
  src ← getitem data (VStr "ranking_view");
  tasks ← getitem data (VStr "tasks");
  users ← getitem data (VStr "users");
  ranking_view ← rankingview_import_from_dict src tasks users;
  setitem data "ranking_view" ranking_view;;
  construct Contest data.

(** ** The serialized form

    The nested-map representation handed to the importer (parsed JSON):
    [load] places it in the store as dictionaries and lists. *)
Inductive json :=
| JNone
| JInt (z : Z)
| JStr (s : string)
| JList (js : list json)
| JDict (fs : list (string * json)).

Fixpoint load (j : json) : M value :=
  match j with
  | JNone => mret VNone
  | JInt z => mret (VInt z)
  | JStr s => mret (VStr s)
  | JList js =>
      vs ← (fix go (js : list json) : M (list value) :=
              match js with
              | [] => mret []
              | j :: js' => v ← load j; vs ← go js'; mret (v :: vs)
              end) js;
      alloc (OList vs)
  | JDict fs =>
      ps ← (fix go (fs : list (string * json)) : M dict :=
              match fs with
              | [] => mret []
              | (k, j) :: fs' => v ← load j; ps ← go fs'; mret ((VStr k, v) :: ps)
              end) fs;
      alloc (ODict (al_of_list ps))
  end.

Definition empty : state := State [] [].

(** Importing a serialized contest into an empty store. *)
Definition import (j : json) : result value :=
  (data ← load j; contest_import_from_dict data) empty.

(** ** Sample snapshots *)

Module Sample.
Definition file (filename : string) (digest : string) : json :=
  JDict [("filename", JStr filename); ("digest", JStr digest)].

Definition submission (task : Z) (files : list json) : json :=
  JDict [("timestamp", JInt 7); ("language", JStr "cpp");
         ("files", JList files); ("executables", JList []);
         ("evaluations", JList []); ("token", JNone); ("task", JInt task)].

Definition task (name : string) (attachments : list json) : json :=
  JDict [("name", JStr name); ("attachments", JList attachments);
         ("submission_format", JList []); ("managers", JList []);
         ("testcases", JList [])].

Definition user (username : string) (submissions : list json) : json :=
  JDict [("username", JStr username); ("password", JStr "secret");
         ("messages", JList []); ("questions", JList []);
         ("submissions", JList submissions)].

Definition score (task : Z) (user : string) (points : Z) : json :=
  JDict [("task", JInt task); ("user", JStr user); ("score", JInt points)].

Definition contest (tasks users scores : list json) : json :=
  JDict [("name", JStr "contest"); ("tasks", JList tasks);
         ("users", JList users); ("announcements", JList []);
         ("ranking_view", JDict [("scores", JList scores)])].

(** Two tasks and a record whose task field is [t], in a store. *)
Definition resolving (t : Z) : state :=
  State [OInst Task [("name", VStr "t0")];
         OInst Task [("name", VStr "t1")];
         OList [VRef 0; VRef 1];
         OInst User [("username", VStr "alice")];
         OList [VRef 3];
         ODict [(VStr "task", VInt t); (VStr "user", VStr "alice")]] [].
End Sample.

(** ** Relations between stores *)

Definition inst_class (o : obj) : option cls :=
  match o with OInst c _ => Some c | _ => None end.

(** The classes of the instances in the store, in allocation order. *)
Definition classes (h : list obj) : list cls := omap inst_class h.

(** [ext P s s']: the store has only grown from [s] to [s'], and every
    object of [s] is still what it was, except that the dictionaries at
    the locations in [P] may have been assigned to. *)
Definition ext (P : loc → Prop) (s s' : state) : Prop :=
  length (heap s) ≤ length (heap s') ∧
  ∀ l o, heap s !! l = Some o →
    heap s' !! l = Some o ∨
    (P l ∧ ∃ d d', o = ODict d ∧ heap s' !! l = Some (ODict d')).

Definition any : loc → Prop := λ _, True.

(** [m] run from any store, when it returns, leaves a store related to the
    initial one by [R]. *)
Definition run_rel {A} (R : relation state) (m : M A) : Prop :=
  ∀ s a s', m s = Ok a s' → R s s'.

(** The object a value refers to. *)
Definition obj_at (s : state) (v : value) : option obj :=
  match v with VRef l => heap s !! l | _ => None end.

(** [v] is an instance of class [c] with fields [a] in [s]. *)
Definition is_inst (s : state) (v : value) (c : cls) (a : attrs) : Prop :=
  obj_at s v = Some (OInst c a).

Definition is_list (s : state) (v : value) (vs : list value) : Prop :=
  obj_at s v = Some (OList vs).

Definition is_dict (s : state) (v : value) (d : dict) : Prop :=
  obj_at s v = Some (ODict d).

(** [o.name] holds [v] in [s]. *)
Definition attr_of (s : state) (o : value) (name : string) : option value :=
  match obj_at s o with Some (OInst _ a) => al_get name a | _ => None end.

Definition field (s : state) (o : value) (name : string) (v : value) : Prop :=
  attr_of s o name = Some v.

(** [c[k]] holds [x] in [s], for a dictionary [c]. *)
Definition item_of (s : state) (c : value) (k : value) : option value :=
  match obj_at s c with Some (ODict d) => al_get k d | _ => None end.

Definition item (s : state) (c : value) (k : value) (x : value) : Prop :=
  item_of s c k = Some x.

(** [keeps k s s']: every dictionary of [s] is still a dictionary in [s']
    and binds the key [k] as before. *)
Definition keeps (k : value) (s s' : state) : Prop :=
  ∀ l d, heap s !! l = Some (ODict d) →
    ∃ d', heap s' !! l = Some (ODict d') ∧ al_get k d' = al_get k d.

(** [m] never raises [e]. *)
Definition never {A} (e : exn) (m : M A) : Prop := ∀ s, m s ≠ Err e.

(** The index [t] is one Python accepts for a sequence of [n] elements,
    and the position it then denotes. *)
Definition in_range (n : nat) (t : Z) : Prop :=
  (- Z.of_nat n ≤ t < Z.of_nat n)%Z.

Definition position (n : nat) (t : Z) : nat :=
  if bool_decide (0 ≤ t)%Z then Z.to_nat t else Z.to_nat (Z.of_nat n + t).

(** ** Navigating the object graph *)

Inductive step :=
| Attr (name : string)
| Index (i : nat)
| Key (k : value).

Definition walk1 (s : state) (v : value) (st : step) : option value :=
  match st, obj_at s v with
  | Attr name, Some (OInst _ a) => al_get name a
  | Index i, Some (OList vs) => vs !! i
  | Key k, Some (ODict d) => al_get k d
  | _, _ => None
  end.

Definition walk (s : state) (v : value) (path : list step) : option value :=
  foldl (λ ov st, v ← ov; walk1 s v st) (Some v) path.

(** The same, from the result of a run. *)
Definition reach (r : result value) (path : list step) : option value :=
  match r with Ok v s => walk s v path | Err _ => None end.

Definition error_of {A} (r : result A) : option exn :=
  match r with Ok _ _ => None | Err e => Some e end.

(** [u] is the first element of [us] whose username is [name]. *)
Definition first_named (s : state) (us : list value) (name u : value) : Prop :=
  ∃ i, us !! i = Some u ∧ field s u "username" name ∧
       ∀ j uj, j < i → us !! j = Some uj → ¬ field s uj "username" name.

(** No attribute of an existing instance is assigned between [s] and [s']. *)
Definition same_patches (s s' : state) : Prop := patches s' = patches s.

(** What a builder leaves untouched: every object of [s] other than the
    record [data] it was given, and the record of attribute assignments. *)
Definition frame (data : value) (s s' : state) : Prop :=
  (∀ l o, heap s !! l = Some o → data ≠ VRef l → heap s' !! l = Some o) ∧
  patches s' = patches s.

(** [x] is the last element of [xs] that satisfies [P]. *)
Definition last_with {A} (P : A → Prop) (xs : list A) (x : A) : Prop :=
  ∃ j, xs !! j = Some x ∧ P x ∧
       ∀ j' x', j < j' → xs !! j' = Some x' → ¬ P x'.

(** [dv] is a dictionary that binds every filename to the last entity of
    [xs] carrying it, and nothing else. *)
Definition collection (s : state) (dv : value) (xs : list value) : Prop :=
  ∃ d, is_dict s dv d ∧
    ∀ k x, al_get k d = Some x ↔ last_with (λ x, field s x "filename" k) xs x.

(** [xs] are distinct instances of [c], the i-th one built from the i-th
    record of [recs]: its fields are the entries of the record (the record
    [data] of the enclosing builder apart, which that builder overwrites). *)
Definition built (s s' : state) (c : cls) (data : value)
    (recs xs : list value) : Prop :=
  NoDup xs ∧
  Forall2 (λ r x, ∃ a, is_inst s' x c a ∧
             ∀ d, is_dict s r d → r ≠ data → kwargs d = Some a) recs xs.

(** The field [f] of the entity [v], built from the record [data], is a
    keyed collection of the entities of class [c] built from the records
    of [data[f]], in their order. *)
Definition keyed_field_of (s s' : state) (data v : value) (f : string)
    (c : cls) : Prop :=
  ∃ dv xs, field s' v f dv ∧ collection s' dv xs ∧
    ∀ src recs, item s data (VStr f) src → is_list s src recs →
      built s s' c data recs xs.

(** The value and the store a run returns ([None] and the empty store for
    a run that fails). *)
Definition value_of (r : result value) : value :=
  match r with Ok v _ => v | Err _ => VNone end.

Definition state_of {A} (r : result A) : state :=
  match r with Ok _ s => s | Err _ => empty end.

(** [f] returns new instances of class [c] and only extends the store. *)
Definition builds (c : cls) (f : value → M value) : Prop :=
  ∀ x s v s', f x s = Ok v s' →
    ext any s s' ∧
    ∃ l a, v = VRef l ∧ length (heap s) ≤ l ∧ is_inst s' v c a.

(** The attribute assignments [o.user = u] for the objects at [ls]. *)
Definition user_patches (u : value) (ls : list loc) : list (loc * string * value) :=
  (λ l, (l, "user", u)) <$> ls.

(** The back-references of the user [u] are closed in [s]: its submission
    sequence holds the distinct submissions at [ls], each with [u] as its
    user. *)
Definition owns (s : state) (u : value) (ls : list loc) : Prop :=
  NoDup ls ∧
  ∃ lsub, field s u "submissions" lsub ∧ is_list s lsub (VRef <$> ls) ∧
    Forall (λ l, (∃ a, is_inst s (VRef l) Submission a) ∧
                 field s (VRef l) "user" u) ls.

(** [f] imports a user: the store is extended, the submissions of the new
    user are new objects, and the only attribute assignments are the
    back-reference patches of these submissions, one each. *)
Definition imports_user (f : value → M value) : Prop :=
  ∀ x s u s', f x s = Ok u s' →
    ∃ ls, owns s' u ls ∧ patches s' = patches s ++ user_patches u ls ∧
      Forall (λ l, length (heap s) ≤ l < length (heap s')) ls ∧
      ext any s s'.

(** The key of the score [x] in a ranking view: the pair of its task and
    its user, as [rankingview_keyfunc] computes it. *)
Definition score_key (s : state) (x k : value) : Prop :=
  ∃ t u, field s x "task" t ∧ field s x "user" u ∧ k = VPair t u.

(** The scores mapping of the ranking view [rv] is a dictionary [d] that
    binds every (task, user) key to the last score of [xs] with that key,
    and nothing else. *)
Definition scores_of (s : state) (rv : value) (xs : list value)
    (d : list (value * value)) : Prop :=
  (∃ dv, field s rv "scores" dv ∧ is_dict s dv d) ∧
  ∀ k x, al_get k d = Some x ↔ last_with (λ x, score_key s x k) xs x.

(** The classes built by each stage of the contest import. *)
Definition task_classes : list cls :=
  [Attachment; SubmissionFormatElement; Manager; Testcase; Task].

Definition user_classes : list cls :=
  [Message; Question; File; Executable; Evaluation; Token; Submission; User].

Definition ranking_classes : list cls := [Score; RankingView].

(** [grows C s s']: the instances of [s] are still there in [s'], in their
    order of construction, and those constructed since then are of the
    classes in [C]. *)
Definition grows (C : list cls) (s s' : state) : Prop :=
  ∃ new, classes (heap s') = classes (heap s) ++ new ∧ Forall (λ c, c ∈ C) new.

(** ** The contest graph and its serialized form

    The structure of a contest graph, apart from the identity of its
    objects: entities carry their scalar fields, a submission and a score
    refer to their task by its position in the task sequence, and a score
    refers to its user by its position in the user sequence. *)

Abbreviation fields := (list (string * value)) (only parsing).

Record SubmissionG := {
  sub_fields : fields;
  sub_task : nat;
  sub_files : list fields;
  sub_executables : list fields;
  sub_evaluations : list fields;
  sub_token : option fields
}.

Record TaskG := {
  task_fields : fields;
  task_attachments : list fields;
  task_submission_format : list fields;
  task_managers : list fields;
  task_testcases : list fields
}.

Record UserG := {
  user_fields : fields;
  user_messages : list fields;
  user_questions : list fields;
  user_submissions : list SubmissionG
}.

Record ScoreG := {
  score_fields : fields;
  score_task : nat;
  score_user : nat
}.

Record ContestG := {
  contest_fields : fields;
  contest_tasks : list TaskG;
  contest_users : list UserG;
  contest_announcements : list fields;
  ranking_fields : fields;
  ranking_scores : list ScoreG
}.

Definition scalar (v : value) : Prop :=
  match v with VNone | VInt _ | VStr _ => True | _ => False end.

Definition json_of (v : value) : json :=
  match v with VInt z => JInt z | VStr s => JStr s | _ => JNone end.

Definition task_keys : list string :=
  ["attachments"; "submission_format"; "managers"; "testcases"].
Definition submission_keys : list string :=
  ["files"; "executables"; "evaluations"; "token"; "task"; "user"].
Definition user_keys : list string := ["messages"; "questions"; "submissions"].
Definition score_keys : list string := ["task"; "user"].
Definition ranking_keys : list string := ["scores"].
Definition contest_keys : list string :=
  ["tasks"; "users"; "announcements"; "ranking_view"].

Definition username_of (u : UserG) : value :=
  default VNone (al_get "username" (user_fields u)).

(** Modelled from the spec: the serializer ([export_to_dict]) is not part
    of the sources at hand.  Section 6 of the spec has a record per entity
    with its scalar fields, the owned sequences as sequences of records,
    the filename-keyed maps as sequences too, the task of a submission or
    score as its index in the task sequence, the user of a score as a
    username, a nullable token, and no user field in a submission. *)
Definition export_fields (f : fields) : list (string * json) :=
  (λ p, (p.1, json_of p.2)) <$> f.

Definition export_leaf (f : fields) : json := JDict (export_fields f).

Definition export_leaves (fs : list fields) : json := JList (export_leaf <$> fs).

Definition export_submission (g : SubmissionG) : json :=
  JDict (export_fields (sub_fields g) ++
         [("files", export_leaves (sub_files g));
          ("executables", export_leaves (sub_executables g));
          ("evaluations", export_leaves (sub_evaluations g));
          ("token", from_option export_leaf JNone (sub_token g));
          ("task", JInt (Z.of_nat (sub_task g)))]).

Definition export_task (g : TaskG) : json :=
  JDict (export_fields (task_fields g) ++
         [("attachments", export_leaves (task_attachments g));
          ("submission_format", export_leaves (task_submission_format g));
          ("managers", export_leaves (task_managers g));
          ("testcases", export_leaves (task_testcases g))]).

Definition export_user (g : UserG) : json :=
  JDict (export_fields (user_fields g) ++
         [("messages", export_leaves (user_messages g));
          ("questions", export_leaves (user_questions g));
          ("submissions", JList (export_submission <$> user_submissions g))]).

Definition export_score (users : list UserG) (g : ScoreG) : json :=
  JDict (export_fields (score_fields g) ++
         [("task", JInt (Z.of_nat (score_task g)));
          ("user", json_of (default VNone
                              (username_of <$> users !! score_user g)))]).

Definition export_ranking (g : ContestG) : json :=
  JDict (export_fields (ranking_fields g) ++
         [("scores", JList (export_score (contest_users g) <$> ranking_scores g))]).

Definition export_contest (g : ContestG) : json :=
  JDict (export_fields (contest_fields g) ++
         [("tasks", JList (export_task <$> contest_tasks g));
          ("users", JList (export_user <$> contest_users g));
          ("announcements", export_leaves (contest_announcements g));
          ("ranking_view", export_ranking g)]).

(** A validly constructed graph: fields are scalars under distinct names
    that are not those of the owned parts, the entities of a keyed map
    carry pairwise distinct filenames, usernames are pairwise distinct,
    task and user references are positions of the sequences, and no two
    scores have the same task and user. *)
Definition valid_fields (keys : list string) (f : fields) : Prop :=
  NoDup f.*1 ∧ Forall (λ p, scalar p.2 ∧ p.1 ∉ keys) f.

Definition valid_leaves (fs : list fields) : Prop := Forall (valid_fields []) fs.

Definition filename_of (f : fields) : value :=
  default VNone (al_get "filename" f).

Definition valid_keyed (fs : list fields) : Prop :=
  valid_leaves fs ∧ Forall (λ f, is_Some (al_get "filename" f)) fs ∧
  NoDup (filename_of <$> fs).

Definition valid_submission (ntasks : nat) (g : SubmissionG) : Prop :=
  valid_fields submission_keys (sub_fields g) ∧
  sub_task g < ntasks ∧
  valid_keyed (sub_files g) ∧ valid_keyed (sub_executables g) ∧
  valid_leaves (sub_evaluations g) ∧
  from_option (valid_fields []) True (sub_token g).

Definition valid_task (g : TaskG) : Prop :=
  valid_fields task_keys (task_fields g) ∧
  valid_keyed (task_attachments g) ∧ valid_leaves (task_submission_format g) ∧
  valid_keyed (task_managers g) ∧ valid_leaves (task_testcases g).

Definition valid_user (ntasks : nat) (g : UserG) : Prop :=
  valid_fields user_keys (user_fields g) ∧
  is_Some (al_get "username" (user_fields g)) ∧
  valid_leaves (user_messages g) ∧ valid_leaves (user_questions g) ∧
  Forall (valid_submission ntasks) (user_submissions g).

Definition valid_score (ntasks nusers : nat) (g : ScoreG) : Prop :=
  valid_fields score_keys (score_fields g) ∧
  score_task g < ntasks ∧ score_user g < nusers.

Definition valid_contest (g : ContestG) : Prop :=
  valid_fields contest_keys (contest_fields g) ∧
  Forall valid_task (contest_tasks g) ∧
  Forall (valid_user (length (contest_tasks g))) (contest_users g) ∧
  NoDup (username_of <$> contest_users g) ∧
  valid_leaves (contest_announcements g) ∧
  valid_fields ranking_keys (ranking_fields g) ∧
  Forall (valid_score (length (contest_tasks g)) (length (contest_users g)))
    (ranking_scores g) ∧
  NoDup ((λ x, (score_task x, score_user x)) <$> ranking_scores g).

(** [repr s j a b v]: the store [s] holds the serialized value [j] in the
    locations from [a] up to [b], as [load] lays it out, and [v] is the
    value that stands for it. *)
Inductive repr (s : state) : json → nat → nat → value → Prop :=
| repr_none a : repr s JNone a a VNone
| repr_int z a : repr s (JInt z) a a (VInt z)
| repr_str x a : repr s (JStr x) a a (VStr x)
| repr_list js a m vs :
    reprs s js a m vs → heap s !! m = Some (OList vs) →
    repr s (JList js) a (S m) (VRef m)
| repr_dict fs a m vs :
    reprs s fs.*2 a m vs →
    heap s !! m = Some (ODict (al_of_list (zip (VStr <$> fs.*1) vs))) →
    repr s (JDict fs) a (S m) (VRef m)
with reprs (s : state) : list json → nat → nat → list value → Prop :=
| reprs_nil a : reprs s [] a a []
| reprs_cons j js a m b v vs :
    repr s j a m v → reprs s js m b vs → reprs s (j :: js) a b (v :: vs).

Scheme repr_min := Minimality for repr Sort Prop
  with reprs_min := Minimality for reprs Sort Prop.
Combined Scheme repr_reprs_ind from repr_min, reprs_min.

(** The dictionary a record of scalar fields is loaded as. *)
Definition fields_dict (f : list (string * value)) : list (value * value) :=
  (λ p, (VStr p.1, p.2)) <$> f.

(** The entities built from the records of a sequence: a list [lv] of
    instances of [c] with the fields of [fs], in order. *)
Definition leaves_built (s : state) (lv : value) (c : cls)
    (fs : list (list (string * value))) : Prop :=
  ∃ vs, is_list s lv vs ∧ Forall2 (λ v f, is_inst s v c f) vs fs.

(** The same entities as a dictionary [dv] by filename, allocated at or
    after the location [n]. *)
Definition keyed_built (n : nat) (s : state) (dv : value) (c : cls)
    (fs : list (list (string * value))) : Prop :=
  ∃ l vs, dv = VRef l ∧ n ≤ l ∧
    heap s !! l = Some (ODict (zip (filename_of <$> fs) vs)) ∧
    Forall2 (λ v f, is_inst s v c f) vs fs.

(** The token of a submission: [None], or a [Token] instance. *)
Definition token_built (s : state) (tv : value) (tok : option (list (string * value)))
    : Prop :=
  match tok with
  | None => tv = VNone
  | Some f => is_inst s tv Token f
  end.

(** [tv] is the task [g]: a [Task] instance with the scalar fields of [g]
    and its owned collections. *)
Definition task_view (n : nat) (s : state) (tv : value) (g : TaskG) : Prop :=
  ∃ da lsf dm ltc,
    is_inst s tv Task
      (task_fields g ++ [("attachments", da); ("submission_format", lsf);
                         ("managers", dm); ("testcases", ltc)]) ∧
    keyed_built n s da Attachment (task_attachments g) ∧
    leaves_built s lsf SubmissionFormatElement (task_submission_format g) ∧
    keyed_built n s dm Manager (task_managers g) ∧
    leaves_built s ltc Testcase (task_testcases g).

(** [sv] is the submission [g] of the user [u]: its task is the task of
    [ts] at the position [g] names. *)
Definition submission_view (n : nat) (s : state) (ts : list value) (u sv : value)
    (g : SubmissionG) : Prop :=
  ∃ df de lev tv t,
    is_inst s sv Submission
      (sub_fields g ++ [("files", df); ("executables", de); ("evaluations", lev);
                        ("token", tv); ("task", t); ("user", u)]) ∧
    keyed_built n s df File (sub_files g) ∧
    keyed_built n s de Executable (sub_executables g) ∧
    leaves_built s lev Evaluation (sub_evaluations g) ∧
    token_built s tv (sub_token g) ∧
    ts !! sub_task g = Some t.

(** [u] is the user [g]: every submission of its sequence refers back to
    [u] itself. *)
Definition user_view (n : nat) (s : state) (ts : list value) (u : value)
    (g : UserG) : Prop :=
  ∃ lm lq ls svs,
    is_inst s u User
      (user_fields g ++ [("messages", lm); ("questions", lq); ("submissions", ls)]) ∧
    leaves_built s lm Message (user_messages g) ∧
    leaves_built s lq Question (user_questions g) ∧
    is_list s ls svs ∧
    Forall2 (submission_view n s ts u) svs (user_submissions g).

(** [sv] is the score [g]: its task and its user are the objects of [ts]
    and [us] at the positions [g] names. *)
Definition score_view (s : state) (ts us : list value) (sv : value) (g : ScoreG)
    : Prop :=
  ∃ t u, is_inst s sv Score (score_fields g ++ [("task", t); ("user", u)]) ∧
    ts !! score_task g = Some t ∧ us !! score_user g = Some u.

(** [rv] is the ranking view of [g]: its scores mapping has one entry per
    score of [g], in order, under the pair of the task and the user of the
    score. *)
Definition ranking_view_of (n : nat) (s : state) (ts us : list value) (rv : value)
    (g : ContestG) : Prop :=
  ∃ l d,
    is_inst s rv RankingView (ranking_fields g ++ [("scores", VRef l)]) ∧
    n ≤ l ∧ heap s !! l = Some (ODict d) ∧
    Forall2 (λ p x, ∃ t u, p.1 = VPair t u ∧
                      ts !! score_task x = Some t ∧ us !! score_user x = Some u ∧
                      score_view s ts us p.2 x) d (ranking_scores g).

(** [c] is the contest [g], structurally: field values, owned sequences
    in order, keyed collections by filename, references by identity.  The
    keyed collections are dictionaries allocated from [n] on. *)
Definition contest_view (n : nat) (s : state) (c : value) (g : ContestG) : Prop :=
  ∃ lt lu la rv ts us,
    is_inst s c Contest
      (contest_fields g ++ [("tasks", lt); ("users", lu); ("announcements", la);
                            ("ranking_view", rv)]) ∧
    is_list s lt ts ∧ NoDup ts ∧ Forall2 (task_view n s) ts (contest_tasks g) ∧
    is_list s lu us ∧ NoDup us ∧ Forall2 (user_view n s ts) us (contest_users g) ∧
    leaves_built s la Announcement (contest_announcements g) ∧
    ranking_view_of n s ts us rv g.

(** Validity is decidable. *)
Global Instance scalar_dec v : Decision (scalar v).
Proof. destruct v; simpl; apply _. Defined.

Global Instance valid_fields_dec keys f : Decision (valid_fields keys f).
Proof. unfold valid_fields. apply _. Defined.

Global Instance valid_leaves_dec fs : Decision (valid_leaves fs).
Proof. unfold valid_leaves. apply _. Defined.

Global Instance valid_keyed_dec fs : Decision (valid_keyed fs).
Proof. unfold valid_keyed. apply _. Defined.

Global Instance valid_submission_dec n g : Decision (valid_submission n g).
Proof. unfold valid_submission. destruct (sub_token g); simpl; apply _. Defined.

Global Instance valid_task_dec g : Decision (valid_task g).
Proof. unfold valid_task. apply _. Defined.

Global Instance valid_user_dec n g : Decision (valid_user n g).
Proof. unfold valid_user. apply _. Defined.

Global Instance valid_score_dec n k g : Decision (valid_score n k g).
Proof. unfold valid_score. apply _. Defined.

Global Instance valid_contest_dec g : Decision (valid_contest g).
Proof. unfold valid_contest. apply _. Defined.

(** A contest with two tasks, two users and three scores. *)
Definition sample_graph : ContestG := {|
  contest_fields := [("name", VStr "ioi"); ("token_initial", VInt 2)];
  contest_tasks :=
    [ {| task_fields := [("name", VStr "sum"); ("time_limit", VInt 1)];
         task_attachments :=
           [[("filename", VStr "sum.pdf"); ("digest", VStr "d0")];
            [("filename", VStr "sum.zip"); ("digest", VStr "d1")]];
         task_submission_format := [[("filename", VStr "sum.%l")]];
         task_managers := [[("filename", VStr "checker"); ("digest", VStr "d2")]];
         task_testcases := [[("input", VStr "i0"); ("output", VStr "o0")]] |};
      {| task_fields := [("name", VStr "sort"); ("time_limit", VInt 2)];
         task_attachments := [];
         task_submission_format := [];
         task_managers := [];
         task_testcases := [] |} ];
  contest_users :=
    [ {| user_fields := [("username", VStr "alice"); ("ip", VNone)];
         user_messages := [[("subject", VStr "hello")]];
         user_questions := [];
         user_submissions :=
           [ {| sub_fields := [("timestamp", VInt 10)];
                sub_task := 1;
                sub_files := [[("filename", VStr "sort.c"); ("digest", VStr "d3")]];
                sub_executables :=
                  [[("filename", VStr "sort"); ("digest", VStr "d4")]];
                sub_evaluations := [[("outcome", VStr "1.0")]];
                sub_token := Some [("timestamp", VInt 11)] |};
             {| sub_fields := [("timestamp", VInt 12)];
                sub_task := 0;
                sub_files := [];
                sub_executables := [];
                sub_evaluations := [];
                sub_token := None |} ] |};
      {| user_fields := [("username", VStr "bob"); ("ip", VStr "10.0.0.2")];
         user_messages := [];
         user_questions := [[("subject", VStr "limits")]];
         user_submissions := [] |} ];
  contest_announcements := [[("subject", VStr "welcome")]];
  ranking_fields := [("timestamp", VInt 20)];
  ranking_scores :=
    [ {| score_fields := [("score", VInt 100)]; score_task := 0; score_user := 0 |};
      {| score_fields := [("score", VInt 30)]; score_task := 1; score_user := 0 |};
      {| score_fields := [("score", VInt 0)]; score_task := 0; score_user := 1 |} ]
|}.

(** ** Further definitions *)

(** The fields each builder reads from its record. *)
Definition present (d : list (value * value)) (keys : list string) : Prop :=
  Forall (λ k, is_Some (al_get (VStr k) d)) keys.

(** [x] is an entity in [s]. *)
Definition entity (s : state) (x : value) : Prop := ∃ c a, is_inst s x c a.

(** [f] returns entities and leaves the entities and lists of the store
    as they are. *)
Definition makes_entities (f : value → M value) : Prop :=
  ∀ x s v s', f x s = Ok v s' → ext any s s' ∧ entity s' v.

(** What a contest record holds once it has been imported. *)
Definition consumed (s : state) (data : value) : Prop :=
  (∀ k, k ∈ ["tasks"; "users"; "announcements"] →
     ∃ lv xs, item s data (VStr k) lv ∧ is_list s lv xs ∧ Forall (entity s) xs) ∧
  ∃ rv, item s data (VStr "ranking_view") rv ∧ entity s rv.

(** [kept s s']: every entity and every list of [s] is in [s'] as it was,
    every dictionary of [s] is still a dictionary, and nothing was
    removed. *)
Definition kept (s s' : state) : Prop :=
  (∀ x c a, is_inst s x c a → is_inst s' x c a) ∧
  (∀ x vs, is_list s x vs → is_list s' x vs) ∧
  (∀ x d, is_dict s x d → ∃ d', is_dict s' x d') ∧
  length (heap s) ≤ length (heap s').

(** [v] is an object that was not in [s]. *)
Definition fresh (s : state) (v : value) : Prop :=
  ∃ l, v = VRef l ∧ length (heap s) ≤ l.

(** The field [f] of the entity [v], built from the record [data], is the
    list of the entities of class [c] built from the records of
    [data[f]], one each, in their order. *)
Definition listed_field_of (s s' : state) (data v : value) (f : string)
    (c : cls) : Prop :=
  ∃ lv xs, field s' v f lv ∧ is_list s' lv xs ∧
    ∀ src recs, item s data (VStr f) src → is_list s src recs →
      built s s' c data recs xs.

Global Instance exn_eq_dec : EqDecision exn.
Proof. solve_decision. Defined.

(** ** The records the builders read

    The input of a builder, as parsed JSON: the filenames of a keyed
    sequence need not be distinct, the task field of a submission or a
    score is any integer, and several scores may name the same task and
    user. *)

(** A keyed sequence of records: each has scalar fields, a filename among
    them. *)
Definition wf_keyed (fs : list fields) : Prop :=
  valid_leaves fs ∧ Forall (λ f, is_Some (al_get "filename" f)) fs.

Definition wf_task (g : TaskG) : Prop :=
  valid_fields task_keys (task_fields g) ∧
  wf_keyed (task_attachments g) ∧ valid_leaves (task_submission_format g) ∧
  wf_keyed (task_managers g) ∧ valid_leaves (task_testcases g).

Definition wf_submission (g : SubmissionG) : Prop :=
  valid_fields submission_keys (sub_fields g) ∧
  wf_keyed (sub_files g) ∧ wf_keyed (sub_executables g) ∧
  valid_leaves (sub_evaluations g) ∧
  from_option (valid_fields []) True (sub_token g).

(** The scalar entries of a record. *)
Definition record_fields (f : fields) : list (string * json) :=
  (λ p, (p.1, json_of p.2)) <$> f.

(** A record of scalar entries only, and a sequence of such records. *)
Definition leaf_record (f : fields) : json := JDict (record_fields f).

Definition leaf_records (fs : list fields) : json := JList (leaf_record <$> fs).

(** The record [task_import_from_dict] reads: scalar entries, and under
    the keys the builder subscripts the sequences of records it replaces
    by the entities built from them. *)
Definition task_record (g : TaskG) : json :=
  JDict (record_fields (task_fields g) ++
         [("attachments", leaf_records (task_attachments g));
          ("submission_format", leaf_records (task_submission_format g));
          ("managers", leaf_records (task_managers g));
          ("testcases", leaf_records (task_testcases g))]).

(** The record [submission_import_from_dict] reads, with the integer [t]
    under the key "task" and [None] or a record under the key "token". *)
Definition submission_record (g : SubmissionG) (t : Z) : json :=
  JDict (record_fields (sub_fields g) ++
         [("files", leaf_records (sub_files g));
          ("executables", leaf_records (sub_executables g));
          ("evaluations", leaf_records (sub_evaluations g));
          ("token", from_option leaf_record JNone (sub_token g));
          ("task", JInt t)]).

(** What a score record holds: scalar entries, an integer under the key
    "task" and a username under the key "user". *)
Record ScoreR := {
  rec_fields : fields;
  rec_task : Z;
  rec_user : value
}.

(** The record [score_import_from_dict] reads. *)
Definition score_record (x : ScoreR) : json :=
  JDict (record_fields (rec_fields x) ++
         [("task", JInt (rec_task x)); ("user", json_of (rec_user x))]).

(** The record [rankingview_import_from_dict] reads: scalar entries and
    the score records under the key "scores". *)
Definition ranking_record (f : fields) (xs : list ScoreR) : json :=
  JDict (record_fields f ++ [("scores", JList (score_record <$> xs))]).

(** The score record [x] can be resolved against [n] tasks and the users
    named [names]. *)
Definition wf_score (n : nat) (names : list value) (x : ScoreR) : Prop :=
  valid_fields score_keys (rec_fields x) ∧ in_range n (rec_task x) ∧
  scalar (rec_user x) ∧ rec_user x ∈ names.

(** [x] is the score built from the record [r]: a [Score] with the scalar
    fields of the record, the task of [ts] the task field indexes and the
    first user of [us] with the username of the record. *)
Definition score_built (s : state) (ts us : list value) (x : value) (r : ScoreR)
    : Prop :=
  ∃ t u, is_inst s x Score (rec_fields r ++ [("task", t); ("user", u)]) ∧
    ts !! position (length ts) (rec_task r) = Some t ∧
    first_named s us (rec_user r) u.

(** The field [f] of the entity [v] is a keyed collection of distinct
    instances of [c], one for each record of [fs] and with its fields, in
    the order of the records. *)
Definition keyed_from (s : state) (v : value) (f : string) (c : cls)
    (fs : list fields) : Prop :=
  ∃ dv xs, field s v f dv ∧ collection s dv xs ∧ NoDup xs ∧
    Forall2 (λ x a, is_inst s x c a) xs fs.

(** [i] is the first position of [names] that holds [name]. *)
Definition first_at (names : list value) (name : value) (i : nat) : Prop :=
  names !! i = Some name ∧ ∀ j n, j < i → names !! j = Some n → n ≠ name.

(** [score_built] for users whose usernames are [names], in order. *)
Definition score_built_at (ts us names : list value) (s : state) (x : value)
    (r : ScoreR) : Prop :=
  ∃ t u i, is_inst s x Score (rec_fields r ++ [("task", t); ("user", u)]) ∧
    ts !! position (length ts) (rec_task r) = Some t ∧
    us !! i = Some u ∧ first_at names (rec_user r) i.

(** The field [k] of the record [r] holds a sequence of records with the
    scalar fields [fs], none of them the record [r] itself. *)
Definition holds_records (s : state) (r : value) (k : string) (fs : list fields)
    : Prop :=
  ∃ src recs, item s r (VStr k) src ∧ is_list s src recs ∧
    Forall2 (λ x f, is_dict s x (fields_dict f) ∧ x ≠ r) recs fs.

(** The keys of the keyed field [f] of [v] are the filenames of the
    records [fs]. *)
Definition keys_from (s : state) (v : value) (f : string) (fs : list fields)
    : Prop :=
  ∃ dv d, field s v f dv ∧ is_dict s dv d ∧
    ∀ k, k ∈ d.*1 ↔ k ∈ filename_of <$> fs.

(** A task and a submission with records that share a filename. *)
Definition sample_task : TaskG := {|
  task_fields := [("name", VStr "t0")];
  task_attachments :=
    [[("filename", VStr "grader.cpp"); ("digest", VStr "first")];
     [("filename", VStr "notes.txt"); ("digest", VStr "other")];
     [("filename", VStr "grader.cpp"); ("digest", VStr "second")]];
  task_submission_format := [[("filename", VStr "sol.%l")]];
  task_managers :=
    [[("filename", VStr "checker"); ("digest", VStr "m0")];
     [("filename", VStr "checker"); ("digest", VStr "m1")]];
  task_testcases := [[("input", VStr "i0")]]
|}.

Definition sample_submission : SubmissionG := {|
  sub_fields := [("timestamp", VInt 7); ("language", VStr "cpp")];
  sub_task := 0;
  sub_files :=
    [[("filename", VStr "sol.cpp"); ("digest", VStr "f0")];
     [("filename", VStr "sol.cpp"); ("digest", VStr "f1")]];
  sub_executables :=
    [[("filename", VStr "sol"); ("digest", VStr "x0")];
     [("filename", VStr "sol"); ("digest", VStr "x1")]];
  sub_evaluations := [[("outcome", VStr "1.0")]];
  sub_token := Some [("timestamp", VInt 8)]
|}.

Global Instance field_dec s x name v : Decision (field s x name v).
Proof. unfold field. apply _. Defined.

Global Instance wf_keyed_dec fs : Decision (wf_keyed fs).
Proof. unfold wf_keyed. apply _. Defined.

Global Instance wf_task_dec g : Decision (wf_task g).
Proof. unfold wf_task. apply _. Defined.

Global Instance wf_submission_dec g : Decision (wf_submission g).
Proof. unfold wf_submission. destruct (sub_token g); simpl; apply _. Defined.

Global Instance wf_score_dec n names x : Decision (wf_score n names x).
Proof. unfold wf_score, in_range. apply _. Defined.

(** * Properties *)

(** ** Association lists *)

Section alist_facts.
Context {K V : Type} `{EqDecision K}.
Implicit Types (d : list (K * V)) (k : K) (v : V).

Lemma al_get_set_eq d k v : al_get k (al_set k v d) = Some v.
Proof.
  induction d as [|[k' v'] d IH]; simpl.
  - by rewrite decide_True.
  - destruct (decide (k = k')); simpl.
    + by rewrite decide_True.
    + by rewrite decide_False.
Qed.

Lemma al_get_set_ne d k k' v : k ≠ k' → al_get k' (al_set k v d) = al_get k' d.
Proof.
  intros Hne. induction d as [|[k0 v0] d IH]; simpl.
  - by rewrite decide_False.
  - destruct (decide (k = k0)) as [->|]; simpl.
    + by rewrite !(decide_False (P := k' = k0)).
    + by rewrite IH.
Qed.

Lemma al_get_set d k k' v :
  al_get k' (al_set k v d) = if decide (k' = k) then Some v else al_get k' d.
Proof.
  destruct (decide (k' = k)) as [->|].
  - apply al_get_set_eq.
  - by apply al_get_set_ne.
Qed.

Lemma al_get_Some_elem d k v : al_get k d = Some v → (k, v) ∈ d.
Proof.
  induction d as [|[k' v'] d IH]; simpl; [done|].
  destruct (decide (k = k')) as [->|]; intros Hg.
  - injection Hg as ->. left.
  - right. by apply IH.
Qed.

Lemma al_get_None d k : al_get k d = None ↔ k ∉ d.*1.
Proof.
  induction d as [|[k' v'] d IH]; simpl.
  - split; [intros _; apply not_elem_of_nil|done].
  - rewrite not_elem_of_cons. destruct (decide (k = k')) as [->|Hne].
    + split; [done|]. intros [? _]. done.
    + rewrite IH. split; [by intros|]. by intros [_ ?].
Qed.

Lemma al_set_keys d k v :
  (al_set k v d).*1 = if decide (k ∈ d.*1) then d.*1 else d.*1 ++ [k].
Proof.
  induction d as [|[k' v'] d IH]; cbn [al_set fmap list_fmap fst].
  - rewrite decide_False; [done|apply not_elem_of_nil].
  - destruct (decide (k = k')) as [->|Hne]; cbn [fmap list_fmap fst].
    + rewrite decide_True; [done|left].
    + rewrite IH. destruct (decide (k ∈ d.*1)).
      * rewrite decide_True; [done|by right].
      * rewrite decide_False; [done|]. rewrite not_elem_of_cons. by split.
Qed.

Lemma al_set_NoDup d k v : NoDup d.*1 → NoDup (al_set k v d).*1.
Proof.
  intros Hnd. rewrite al_set_keys. case_decide; [done|].
  apply NoDup_app. split_and!; [done| |apply NoDup_singleton].
  intros x Hx ->%list_elem_of_singleton. done.
Qed.

Lemma al_foldl_snoc (ps : list (K * V)) p d0 :
  foldl (λ d q, al_set q.1 q.2 d) d0 (ps ++ [p]) =
  al_set p.1 p.2 (foldl (λ d q, al_set q.1 q.2 d) d0 ps).
Proof. by rewrite foldl_app. Qed.

Lemma al_of_list_snoc (ps : list (K * V)) p :
  al_of_list (ps ++ [p]) = al_set p.1 p.2 (al_of_list ps).
Proof. apply al_foldl_snoc. Qed.

Lemma al_of_list_NoDup (ps : list (K * V)) : NoDup (al_of_list ps).*1.
Proof.
  induction ps as [|p ps IH] using rev_ind.
  - apply NoDup_nil_2.
  - rewrite al_of_list_snoc. by apply al_set_NoDup.
Qed.

(** Looking a key up in [dict(ps)] finds the last pair of [ps] with it. *)
Lemma al_get_of_list (ps : list (K * V)) k :
  al_get k (al_of_list ps) = al_get k (reverse ps).
Proof.
  induction ps as [|p ps IH] using rev_ind; [done|].
  rewrite al_of_list_snoc, reverse_snoc, al_get_set. destruct p as [k' v']; simpl.
  destruct (decide (k = k')); [done|]. apply IH.
Qed.

(** A list of pairs with distinct keys is its own dictionary. *)
Lemma al_foldl_NoDup (ps d0 : list (K * V)) :
  NoDup (d0 ++ ps).*1 → foldl (λ d q, al_set q.1 q.2 d) d0 ps = d0 ++ ps.
Proof.
  revert d0. induction ps as [|[k v] ps IH]; intros d0 Hnd; simpl.
  - by rewrite app_nil_r.
  - assert (al_set k v d0 = d0 ++ [(k, v)]) as ->.
    { rewrite fmap_app in Hnd. apply NoDup_app in Hnd as (_ & Hd & _).
      specialize (Hd k). clear -Hd.
      induction d0 as [|[k' v'] d0 IH]; simpl; [done|].
      rewrite decide_False.
      - f_equal. apply IH. intros Hin ?. apply Hd; [by right|done].
      - intros ->. apply Hd; [left|]. rewrite fmap_cons. left. }
    rewrite IH; rewrite <- (assoc_L (++)); done.
Qed.

Lemma al_of_list_NoDup_id (ps : list (K * V)) : NoDup ps.*1 → al_of_list ps = ps.
Proof. intros. by apply (al_foldl_NoDup ps []). Qed.
End alist_facts.

(** ** Reading the store *)

Lemma obj_at_ref s v o : obj_at s v = Some o ↔ ∃ l, v = VRef l ∧ heap s !! l = Some o.
Proof.
  destruct v; simpl; try (split; [done|by intros (? & ? & ?)]).
  split; [eauto|]. by intros (? & [= <-] & ?).
Qed.

Lemma is_inst_ref s v c a :
  is_inst s v c a ↔ ∃ l, v = VRef l ∧ heap s !! l = Some (OInst c a).
Proof. apply obj_at_ref. Qed.

Lemma is_list_ref s v vs :
  is_list s v vs ↔ ∃ l, v = VRef l ∧ heap s !! l = Some (OList vs).
Proof. apply obj_at_ref. Qed.

Lemma is_dict_ref s v d :
  is_dict s v d ↔ ∃ l, v = VRef l ∧ heap s !! l = Some (ODict d).
Proof. apply obj_at_ref. Qed.

Lemma field_inst s o name v :
  field s o name v ↔ ∃ c a, is_inst s o c a ∧ al_get name a = Some v.
Proof.
  unfold field, attr_of, is_inst. destruct (obj_at s o) as [[]|]; naive_solver.
Qed.

Lemma item_dict s c k x :
  item s c k x ↔ ∃ d, is_dict s c d ∧ al_get k d = Some x.
Proof.
  unfold item, item_of, is_dict. destruct (obj_at s c) as [[]|]; naive_solver.
Qed.

(** ** Running computations *)

Lemma bind_Ok {A B} (m : M A) (f : A → M B) s b s' :
  (m ≫= f) s = Ok b s' ↔ ∃ a s1, m s = Ok a s1 ∧ f a s1 = Ok b s'.
Proof.
  unfold mbind, M_bind. destruct (m s) as [a s1|e].
  - split; [eauto|]. intros (? & ? & [= <- <-] & ?). done.
  - split; [done|]. intros (? & ? & ? & ?). done.
Qed.

Lemma bind_Err {A B} (m : M A) (f : A → M B) s e :
  (m ≫= f) s = Err e ↔ m s = Err e ∨ ∃ a s1, m s = Ok a s1 ∧ f a s1 = Err e.
Proof.
  unfold mbind, M_bind. destruct (m s) as [a s1|e'].
  - split; [intros ?; right; eauto|]. intros [?|(a' & s2 & Heq & ?)]; [done|].
    by injection Heq as <- <-.
  - split; [intros ?; left; congruence|]. intros [?|(a' & s2 & Heq & ?)]; [congruence|done].
Qed.

Lemma bind_run {A B} (m : M A) (f : A → M B) s a s1 :
  m s = Ok a s1 → (m ≫= f) s = f a s1.
Proof. unfold mbind, M_bind. by intros ->. Qed.

Lemma ret_Ok {A} (a b : A) s s' : (mret a : M A) s = Ok b s' ↔ a = b ∧ s = s'.
Proof. unfold mret, M_ret. split; [by intros [= -> ->]|by intros [-> ->]]. Qed.

Ltac inv_run H :=
  repeat lazymatch type of H with
  | (_ ≫= _) _ = Ok _ _ =>
      let a := fresh "v" in
      let s := fresh "s" in
      let H1 := fresh "Hrun" in
      apply bind_Ok in H as (a & s & H1 & H)
  end.

(** A computation that only reads the store. *)
Definition pure {A} (m : M A) : Prop := ∀ s a s', m s = Ok a s' → s' = s.

Lemma seq_item_pure vs k : pure (seq_item vs k).
Proof.
  intros s a s'. unfold seq_item. repeat case_match; try done.
  by intros [_ ?]%ret_Ok.
Qed.

Lemma getitem_pure c k : pure (getitem c k).
Proof.
  intros s a s'. unfold getitem.
  repeat case_match; try done; try apply seq_item_pure. by intros [= _ ->].
Qed.

Lemma iter_pure c : pure (iter c).
Proof.
  intros s a s'. unfold iter. repeat case_match; try done; by intros [= _ ->].
Qed.

Lemma getattr_pure o name : pure (getattr o name).
Proof.
  intros s a s'. unfold getattr. repeat case_match; try done; by intros [= _ ->].
Qed.

Lemma ret_pure {A} (a : A) : pure (mret a : M A).
Proof. intros s b s'. by intros [_ ?]%ret_Ok. Qed.

Lemma bind_pure {A B} (m : M A) (f : A → M B) :
  pure m → (∀ a, pure (f a)) → pure (m ≫= f).
Proof.
  intros Hm Hf s b s' (a & s1 & H1 & H2)%bind_Ok.
  apply Hm in H1 as ->. by apply Hf in H2.
Qed.

Lemma rankingview_keyfunc_pure score : pure (rankingview_keyfunc score).
Proof.
  unfold rankingview_keyfunc.
  repeat (apply bind_pure; [apply getattr_pure|intros ?]). apply ret_pure.
Qed.

Lemma get_user_loop_pure us username : pure (get_user_loop us username).
Proof.
  induction us as [|u us IH]; simpl; [done|].
  apply bind_pure; [apply getattr_pure|intros name].
  case_decide; [apply ret_pure|done].
Qed.

Lemma get_user_pure users username : pure (get_user users username).
Proof.
  apply bind_pure; [apply iter_pure|intros ?]. apply get_user_loop_pure.
Qed.

(** What the primitives that change the store do. *)

Lemma alloc_Ok o s v s' :
  alloc o s = Ok v s' ↔
  v = VRef (length (heap s)) ∧ s' = State (heap s ++ [o]) (patches s).
Proof. unfold alloc. split; [by intros [= <- <-]|by intros [-> ->]]. Qed.

Lemma setitem_Ok c k v s u s' :
  setitem c k v s = Ok u s' ↔
  ∃ l d, c = VRef l ∧ heap s !! l = Some (ODict d) ∧
         s' = State (<[l := ODict (al_set (VStr k) v d)]> (heap s)) (patches s).
Proof.
  unfold setitem. split.
  - repeat case_match; try done. intros [= _ <-]. eauto.
  - intros (l & d & -> & -> & ->). by destruct u.
Qed.

Lemma setattr_Ok o name v s u s' :
  setattr o name v s = Ok u s' ↔
  ∃ l c a, o = VRef l ∧ heap s !! l = Some (OInst c a) ∧
           s' = State (<[l := OInst c (al_set name v a)]> (heap s))
                      (patches s ++ [(l, name, v)]).
Proof.
  unfold setattr. split.
  - repeat case_match; try done. intros [= _ <-]. eauto 6.
  - intros (l & c & a & -> & -> & ->). by destruct u.
Qed.

Lemma construct_Ok c data s v s' :
  construct c data s = Ok v s' ↔
  ∃ d a, is_dict s data d ∧ kwargs d = Some a ∧
         v = VRef (length (heap s)) ∧
         s' = State (heap s ++ [OInst c a]) (patches s).
Proof.
  unfold construct, is_dict, obj_at. split.
  - repeat case_match; try done. intros [-> ->]%alloc_Ok. eauto 8.
  - intros (d & a & Hd & Hk & -> & ->). destruct data; try done.
    by rewrite Hd, Hk.
Qed.

Lemma new_dict_Ok ps s v s' :
  new_dict ps s = Ok v s' ↔
  forallb (hashable (heap s)) ps.*1 = true ∧
  v = VRef (length (heap s)) ∧
  s' = State (heap s ++ [ODict (al_of_list ps)]) (patches s).
Proof.
  unfold new_dict. destruct (forallb _ _).
  - rewrite alloc_Ok. naive_solver.
  - naive_solver.
Qed.

Lemma getitem_dict s l d k :
  heap s !! l = Some (ODict d) →
  getitem (VRef l) (VStr k) s =
  match al_get (VStr k) d with
  | Some v => Ok v s
  | None => Err (KeyError (VStr k))
  end.
Proof. intros Hl. unfold getitem. by rewrite Hl. Qed.

Lemma getitem_str_Ok c k s v s' :
  getitem c (VStr k) s = Ok v s' ↔
  ∃ d, is_dict s c d ∧ al_get (VStr k) d = Some v ∧ s' = s.
Proof.
  unfold is_dict, obj_at. split.
  - unfold getitem, seq_item. repeat case_match; try done.
    intros [= <- <-]. eauto 8.
  - intros (d & Hl & Hg & ->). destruct c; try done.
    by rewrite (getitem_dict _ _ d), Hg.
Qed.

Lemma getattr_Ok o name s v s' :
  getattr o name s = Ok v s' ↔ field s o name v ∧ s' = s.
Proof.
  unfold field, attr_of, obj_at, getattr. split.
  - repeat case_match; try done. by intros [= <- <-].
  - intros [Hf ->]. repeat case_match; try done; congruence.
Qed.

(** ** Stores only grow *)

Global Instance ext_preorder P : PreOrder (ext P).
Proof.
  split.
  - intros s. split; [done|]. intros l o Hl. by left.
  - intros s1 s2 s3 [Hlen1 H1] [Hlen2 H2]. split; [lia|].
    intros l o Hl. destruct (H1 l o Hl) as [Hl2|(HP & d & d' & -> & Hl2)].
    + apply H2, Hl2.
    + destruct (H2 l _ Hl2) as [Hl3|(_ & d1 & d2 & _ & Hl3)]; right; eauto.
Qed.

Lemma ext_weaken (P Q : loc → Prop) s s' :
  (∀ l, P l → Q l) → ext P s s' → ext Q s s'.
Proof.
  intros HPQ [Hlen H]. split; [done|]. intros l o Hl.
  destruct (H l o Hl) as [?|(? & ?)]; [by left|right; eauto].
Qed.

Lemma ext_length P s s' : ext P s s' → length (heap s) ≤ length (heap s').
Proof. by intros [? _]. Qed.

Lemma ext_inst P s s' v c a : ext P s s' → is_inst s v c a → is_inst s' v c a.
Proof.
  intros [_ H] (l & -> & Hl)%is_inst_ref. apply is_inst_ref. exists l.
  split; [done|]. destruct (H l _ Hl) as [?|(_ & d & d' & ? & _)]; done.
Qed.

Lemma ext_list P s s' v vs : ext P s s' → is_list s v vs → is_list s' v vs.
Proof.
  intros [_ H] (l & -> & Hl)%is_list_ref. apply is_list_ref. exists l.
  split; [done|]. destruct (H l _ Hl) as [?|(_ & d & d' & ? & _)]; done.
Qed.

Lemma ext_field P s s' o name v : ext P s s' → field s o name v → field s' o name v.
Proof.
  intros He (c & a & Hi & Hg)%field_inst. apply field_inst.
  exists c, a. eauto using ext_inst.
Qed.

Lemma ext_dict P s s' l d :
  ext P s s' → ¬ P l → heap s !! l = Some (ODict d) → heap s' !! l = Some (ODict d).
Proof. intros [_ H] HP Hl. destruct (H l _ Hl) as [?|(? & _)]; done. Qed.

Lemma ext_is_dict P s s' v d :
  ext P s s' → is_dict s v d → ∃ d', is_dict s' v d'.
Proof.
  intros [_ H] (l & -> & Hl)%is_dict_ref.
  destruct (H l _ Hl) as [?|(_ & d1 & d2 & _ & ?)]; eexists; apply is_dict_ref;
    exists l; eauto.
Qed.

Lemma ext_alloc P s o : ext P s (State (heap s ++ [o]) (patches s)).
Proof.
  split; simpl.
  - rewrite length_app. lia.
  - intros l o' Hl. left. by apply lookup_app_l_Some.
Qed.

Lemma ext_setitem (P : loc → Prop) s l d d' :
  P l → heap s !! l = Some (ODict d) →
  ext P s (State (<[l := ODict d']> (heap s)) (patches s)).
Proof.
  intros HP Hl. split; simpl.
  - by rewrite length_insert.
  - intros l' o Hl'. destruct (decide (l = l')) as [<-|Hne].
    + right. split; [done|]. exists d, d'. split; [congruence|].
      apply list_lookup_insert_eq. by eapply lookup_lt_Some.
    + left. rewrite list_lookup_insert_ne by done. done.
Qed.

(** ** Relations kept along a run *)

Lemma run_rel_pure {A} (R : relation state) `{!Reflexive R} (m : M A) :
  pure m → run_rel R m.
Proof. intros Hm s a s' ->%Hm. done. Qed.

Lemma run_rel_ret {A} (R : relation state) `{!Reflexive R} (a : A) :
  run_rel R (mret a : M A).
Proof. apply run_rel_pure; [done|]. apply ret_pure. Qed.

Lemma run_rel_bind {A B} (R : relation state) `{!Transitive R}
    (m : M A) (f : A → M B) :
  run_rel R m → (∀ a, run_rel R (f a)) → run_rel R (m ≫= f).
Proof.
  intros Hm Hf s b s' (a & s1 & H1 & H2)%bind_Ok.
  etrans; [by eapply Hm|by eapply Hf].
Qed.

Lemma run_rel_mapM {A B} (R : relation state) `{!PreOrder R}
    (f : A → M B) (xs : list A) :
  (∀ x, x ∈ xs → run_rel R (f x)) → run_rel R (mapM_M f xs).
Proof.
  induction xs as [|x xs IH]; intros Hf; simpl.
  - apply run_rel_ret, _.
  - apply run_rel_bind; [apply _|apply Hf; left|intros y].
    apply run_rel_bind; [apply _| |intros ys; apply run_rel_ret, _].
    apply IH. intros ??. apply Hf. by right.
Qed.

Lemma run_rel_getitem R `{!Reflexive R} c k : run_rel R (getitem c k).
Proof. apply run_rel_pure, getitem_pure; done. Qed.

Lemma run_rel_iter R `{!Reflexive R} c : run_rel R (iter c).
Proof. apply run_rel_pure, iter_pure; done. Qed.

Lemma run_rel_getattr R `{!Reflexive R} o name : run_rel R (getattr o name).
Proof. apply run_rel_pure, getattr_pure; done. Qed.

Lemma ext_run_alloc P o : run_rel (ext P) (alloc o).
Proof. intros s v s' [_ ->]%alloc_Ok. apply ext_alloc. Qed.

Lemma ext_run_construct P c data : run_rel (ext P) (construct c data).
Proof. intros s v s' (d & a & _ & _ & _ & ->)%construct_Ok. apply ext_alloc. Qed.

Lemma ext_run_new_dict P ps : run_rel (ext P) (new_dict ps).
Proof. intros s v s' (_ & _ & ->)%new_dict_Ok. apply ext_alloc. Qed.

Lemma ext_run_setitem (P : loc → Prop) c k v :
  (∀ l, c = VRef l → P l) → run_rel (ext P) (setitem c k v).
Proof.
  intros HP s u s' (l & d & -> & Hl & ->)%setitem_Ok.
  eapply ext_setitem; eauto.
Qed.

Lemma ext_run_list_comp P f src :
  (∀ x, run_rel (ext P) (f x)) → run_rel (ext P) (list_comp f src).
Proof.
  intros Hf. unfold list_comp.
  apply run_rel_bind; [apply _|by apply run_rel_iter, _|intros xs].
  apply run_rel_bind; [apply _|by apply run_rel_mapM; [apply _|]|intros ys].
  apply ext_run_alloc.
Qed.

Lemma ext_run_dict_by P key src :
  (∀ x, pure (key x)) → run_rel (ext P) (dict_by key src).
Proof.
  intros Hk. unfold dict_by.
  apply run_rel_bind; [apply _|by apply run_rel_iter, _|intros xs].
  apply run_rel_bind; [apply _| |intros ps; apply ext_run_new_dict].
  apply run_rel_mapM; [apply _|]. intros x _. apply run_rel_pure; [apply _|].
  apply bind_pure; [done|intros ?; apply ret_pure].
Qed.

Global Instance keeps_preorder k : PreOrder (keeps k).
Proof.
  split.
  - intros s l d Hl. eauto.
  - intros s1 s2 s3 H1 H2 l d Hl.
    destruct (H1 l d Hl) as (d' & Hl' & Hg').
    destruct (H2 l d' Hl') as (d'' & Hl'' & Hg''). exists d''. split; congruence.
Qed.

Lemma keeps_alloc k s o : keeps k s (State (heap s ++ [o]) (patches s)).
Proof. intros l d Hl. exists d. split; [|done]. by apply lookup_app_l_Some. Qed.

Lemma keeps_run_alloc k o : run_rel (keeps k) (alloc o).
Proof. intros s v s' [_ ->]%alloc_Ok. apply keeps_alloc. Qed.

Lemma keeps_run_construct k c data : run_rel (keeps k) (construct c data).
Proof. intros s v s' (d & a & _ & _ & _ & ->)%construct_Ok. apply keeps_alloc. Qed.

Lemma keeps_run_new_dict k ps : run_rel (keeps k) (new_dict ps).
Proof. intros s v s' (_ & _ & ->)%new_dict_Ok. apply keeps_alloc. Qed.

Lemma keeps_run_setitem k c k' v :
  k ≠ VStr k' → run_rel (keeps k) (setitem c k' v).
Proof.
  intros Hne s u s' (l & d & -> & Hl & ->)%setitem_Ok l' d' Hl'; simpl.
  destruct (decide (l = l')) as [<-|Hll].
  - rewrite list_lookup_insert_eq by (by eapply lookup_lt_Some).
    rewrite Hl in Hl'. injection Hl' as <-.
    eexists. split; [done|]. by rewrite al_get_set_ne by congruence.
  - rewrite list_lookup_insert_ne by done. eauto.
Qed.

Lemma keeps_run_setattr k o name v : run_rel (keeps k) (setattr o name v).
Proof.
  intros s u s' (l & c & a & -> & Hl & ->)%setattr_Ok l' d' Hl'; simpl.
  destruct (decide (l = l')) as [<-|Hll].
  { rewrite Hl in Hl'. done. }
  rewrite list_lookup_insert_ne by done. eauto.
Qed.

Lemma run_rel_forM {A} (R : relation state) `{!PreOrder R}
    (f : A → M unit) (xs : list A) :
  (∀ x, x ∈ xs → run_rel R (f x)) → run_rel R (forM_ f xs).
Proof.
  induction xs as [|x xs IH]; intros Hf; simpl.
  - apply run_rel_ret, _.
  - apply run_rel_bind; [apply _|apply Hf; left|intros _].
    apply IH. intros ??. apply Hf. by right.
Qed.

Lemma run_rel_list_comp R `{!PreOrder R} f src :
  (∀ ys, run_rel R (alloc (OList ys))) →
  (∀ x, run_rel R (f x)) → run_rel R (list_comp f src).
Proof.
  intros Ha Hf. unfold list_comp.
  apply run_rel_bind; [apply _|by apply run_rel_iter, _|intros xs].
  apply run_rel_bind; [apply _|by apply run_rel_mapM; [apply _|]|intros ys].
  apply Ha.
Qed.

Lemma run_rel_dict_by R `{!PreOrder R} key src :
  (∀ ps, run_rel R (new_dict ps)) →
  (∀ x, pure (key x)) → run_rel R (dict_by key src).
Proof.
  intros Hn Hk. unfold dict_by.
  apply run_rel_bind; [apply _|by apply run_rel_iter, _|intros xs].
  apply run_rel_bind; [apply _| |intros ps; apply Hn].
  apply run_rel_mapM; [apply _|]. intros x _. apply run_rel_pure; [apply _|].
  apply bind_pure; [done|intros ?; apply ret_pure].
Qed.

Lemma run_rel_if {A} R (b : bool) (m1 m2 : M A) :
  run_rel R m1 → run_rel R m2 → run_rel R (if b then m1 else m2).
Proof. by destruct b. Qed.

Lemma run_rel_decide {A} R (P : Prop) `{!Decision P} (m1 m2 : M A) :
  run_rel R m1 → run_rel R m2 → run_rel R (if decide P then m1 else m2).
Proof. by destruct (decide P). Qed.

Lemma pure_decide {A} (P : Prop) `{!Decision P} (m1 m2 : M A) :
  pure m1 → pure m2 → pure (if decide P then m1 else m2).
Proof. by destruct (decide P). Qed.

(** Builders proved to keep a relation are registered in [run]. *)
Create HintDb run discriminated.

Ltac run_step :=
  lazymatch goal with
  | |- run_rel _ (_ ≫= _) => apply run_rel_bind; [apply _| |intros ?]
  | |- run_rel _ (mret _) => apply run_rel_ret, _
  | |- run_rel _ (getitem _ _) => apply run_rel_getitem, _
  | |- run_rel _ (iter _) => apply run_rel_iter, _
  | |- run_rel _ (getattr _ _) => apply run_rel_getattr, _
  | |- run_rel _ (get_user _ _) => apply run_rel_pure; [apply _|apply get_user_pure]
  | |- run_rel _ (if decide _ then _ else _) => apply run_rel_decide
  | |- run_rel _ (list_comp _ _) =>
      apply run_rel_list_comp; [apply _|intros ?|intros ?]
  | |- run_rel _ (dict_by _ _) =>
      apply run_rel_dict_by; [apply _|intros ?|intros ?]
  | |- run_rel _ (basic_import_from_dict _ _) => unfold basic_import_from_dict
  | |- run_rel (ext _) (alloc _) => apply ext_run_alloc
  | |- run_rel (ext _) (construct _ _) => apply ext_run_construct
  | |- run_rel (ext _) (new_dict _) => apply ext_run_new_dict
  | |- run_rel (ext _) (setitem _ _ _) =>
      apply ext_run_setitem; first [done | intros ? [= ->]; done | intros; exact I]
  | |- run_rel (keeps _) (alloc _) => apply keeps_run_alloc
  | |- run_rel (keeps _) (construct _ _) => apply keeps_run_construct
  | |- run_rel (keeps _) (new_dict _) => apply keeps_run_new_dict
  | |- run_rel (keeps _) (setattr _ _ _) => apply keeps_run_setattr
  | |- run_rel (keeps _) (setitem _ _ _) => apply keeps_run_setitem; discriminate
  | |- run_rel _ (forM_ _ _) => apply run_rel_forM; [apply _|intros ? _]
  | |- pure (getattr _ _) => apply getattr_pure
  | |- pure (rankingview_keyfunc _) => apply rankingview_keyfunc_pure
  | |- run_rel _ _ => solve [eauto with run]
  end.

Ltac run_auto := repeat run_step.

Lemma ext_run_submission_import P data tasks :
  (∀ l, data = VRef l → P l) →
  run_rel (ext P) (submission_import_from_dict data tasks).
Proof. intros HP. unfold submission_import_from_dict. run_auto. Qed.

Lemma ext_run_score_import P data tasks users :
  (∀ l, data = VRef l → P l) →
  run_rel (ext P) (score_import_from_dict data tasks users).
Proof. intros HP. unfold score_import_from_dict. run_auto. Qed.

Lemma ext_run_task_import P data :
  (∀ l, data = VRef l → P l) →
  run_rel (ext P) (task_import_from_dict data).
Proof. intros HP. unfold task_import_from_dict. run_auto. Qed.

Lemma keeps_run_submission_import k data tasks :
  Forall (λ k', k ≠ VStr k')
    ["files"; "executables"; "evaluations"; "token"; "task"; "user"] →
  run_rel (keeps k) (submission_import_from_dict data tasks).
Proof.
  intros Hk. unfold submission_import_from_dict. run_auto.
  all: apply keeps_run_setitem; intros ->; revert Hk.
  all: rewrite !Forall_cons; naive_solver.
Qed.

(** ** Exceptions a computation cannot raise *)

Lemma never_bind {A B} e (m : M A) (f : A → M B) :
  never e m → (∀ a, never e (f a)) → never e (m ≫= f).
Proof.
  intros Hm Hf s [H|(a & s1 & _ & H)]%bind_Err; [by eapply Hm|by eapply Hf].
Qed.

Lemma never_ret {A} e (a : A) : never e (mret a : M A).
Proof. done. Qed.

Lemma never_mapM {A B} e (f : A → M B) xs :
  (∀ x, never e (f x)) → never e (mapM_M f xs).
Proof.
  intros Hf. induction xs as [|x xs IH]; simpl; [done|].
  apply never_bind; [done|intros y].
  apply never_bind; [done|intros ys]. done.
Qed.

Lemma never_forM {A} e (f : A → M unit) xs :
  (∀ x, never e (f x)) → never e (forM_ f xs).
Proof.
  intros Hf. induction xs as [|x xs IH]; simpl; [done|].
  apply never_bind; [done|intros _]. done.
Qed.

Lemma never_decide {A} e (P : Prop) `{!Decision P} (m1 m2 : M A) :
  never e m1 → never e m2 → never e (if decide P then m1 else m2).
Proof. by destruct (decide P). Qed.

Lemma never_alloc e o : never e (alloc o).
Proof. done. Qed.

Lemma never_getitem_str e c k :
  e ≠ TypeError → e ≠ KeyError (VStr k) → never e (getitem c (VStr k)).
Proof.
  intros ?? s. unfold getitem, seq_item, raise. repeat case_match; congruence.
Qed.

Lemma never_iter e c : e ≠ TypeError → never e (iter c).
Proof. intros ? s. unfold iter. repeat case_match; congruence. Qed.

Lemma never_setitem e c k v : e ≠ TypeError → never e (setitem c k v).
Proof. intros ? s. unfold setitem. repeat case_match; congruence. Qed.

Lemma never_construct e c data : e ≠ TypeError → never e (construct c data).
Proof. intros ? s. unfold construct, alloc. repeat case_match; congruence. Qed.

Lemma never_new_dict e ps : e ≠ TypeError → never e (new_dict ps).
Proof. intros ? s. unfold new_dict, alloc. repeat case_match; congruence. Qed.

Lemma never_getattr e o name : e ≠ AttributeError → never e (getattr o name).
Proof. intros ? s. unfold getattr. repeat case_match; congruence. Qed.

Lemma never_setattr e o name v : e ≠ AttributeError → never e (setattr o name v).
Proof. intros ? s. unfold setattr. repeat case_match; congruence. Qed.

Lemma never_list_comp e f src :
  e ≠ TypeError → (∀ x, never e (f x)) → never e (list_comp f src).
Proof.
  intros ? Hf. unfold list_comp.
  apply never_bind; [by apply never_iter|intros xs].
  apply never_bind; [by apply never_mapM|intros ys]. apply never_alloc.
Qed.

Lemma never_dict_by e key src :
  e ≠ TypeError → (∀ x, never e (key x)) → never e (dict_by key src).
Proof.
  intros ? Hk. unfold dict_by.
  apply never_bind; [by apply never_iter|intros xs].
  apply never_bind; [|intros ps; by apply never_new_dict].
  apply never_mapM. intros x. apply never_bind; [done|intros k]. done.
Qed.

Lemma never_get_user_loop e us username :
  e ≠ AttributeError → e ≠ KeyError (VStr "User not found") →
  never e (get_user_loop us username).
Proof.
  intros ??. induction us as [|u us IH]; simpl.
  - intros s. unfold raise. congruence.
  - apply never_bind; [by apply never_getattr|intros name].
    by apply never_decide.
Qed.

Lemma never_get_user e users username :
  e ≠ TypeError → e ≠ AttributeError → e ≠ KeyError (VStr "User not found") →
  never e (get_user users username).
Proof.
  intros ???. apply never_bind; [by apply never_iter|intros us].
  by apply never_get_user_loop.
Qed.

Ltac never_step :=
  lazymatch goal with
  | |- never _ (_ ≫= _) => apply never_bind; [|intros ?]
  | |- never _ (mret _) => apply never_ret
  | |- never _ (getitem _ (VStr _)) => apply never_getitem_str; congruence
  | |- never _ (iter _) => apply never_iter; congruence
  | |- never _ (setitem _ _ _) => apply never_setitem; congruence
  | |- never _ (construct _ _) => apply never_construct; congruence
  | |- never _ (basic_import_from_dict _ _) => apply never_construct; congruence
  | |- never _ (new_dict _) => apply never_new_dict; congruence
  | |- never _ (getattr _ _) => apply never_getattr; congruence
  | |- never _ (setattr _ _ _) => apply never_setattr; congruence
  | |- never _ (alloc _) => apply never_alloc
  | |- never _ (if decide _ then _ else _) => apply never_decide
  | |- never _ (list_comp _ _) => apply never_list_comp; [congruence|intros ?]
  | |- never _ (dict_by _ _) => apply never_dict_by; [congruence|intros ?]
  | |- never _ (get_user _ _) => apply never_get_user; congruence
  | |- never _ (mapM_M _ _) => apply never_mapM; intros ?
  | |- never _ (forM_ _ _) => apply never_forM; intros ?
  end.

Ltac never_auto := repeat never_step.

(** Case analysis on a failed run: the steps that cannot raise the
    exception are discarded. *)
Ltac refute_err H :=
  lazymatch type of H with
  | ?m ?s = Err ?e =>
      exfalso; revert H; change (m s ≠ Err e);
      generalize s; change (never e m); solve [never_auto]
  end.

Ltac inv_err H :=
  repeat (apply bind_Err in H as [H|(? & ? & ? & H)]; [try refute_err H|]);
  try refute_err H.

(** ** What the store holds *)

Lemma is_dict_agree s v d d' : is_dict s v d → is_dict s v d' → d = d'.
Proof. unfold is_dict. congruence. Qed.

Lemma is_list_agree s v vs vs' : is_list s v vs → is_list s v vs' → vs = vs'.
Proof. unfold is_list. congruence. Qed.

Lemma is_inst_agree s v c a c' a' :
  is_inst s v c a → is_inst s v c' a' → c = c' ∧ a = a'.
Proof. unfold is_inst. intros H1 H2. split; congruence. Qed.

Lemma item_agree s c k x x' : item s c k x → item s c k x' → x = x'.
Proof. unfold item. congruence. Qed.

Lemma field_agree s o name v v' : field s o name v → field s o name v' → v = v'.
Proof. unfold field. congruence. Qed.

Lemma getitem_item c k s v s' :
  getitem c (VStr k) s = Ok v s' ↔ item s c (VStr k) v ∧ s' = s.
Proof. rewrite getitem_str_Ok, item_dict. naive_solver. Qed.

Lemma item_getitem s c k v : item s c (VStr k) v → getitem c (VStr k) s = Ok v s.
Proof. intros. by apply getitem_item. Qed.

Lemma setitem_item c k v s u s' :
  setitem c k v s = Ok u s' → item s' c (VStr k) v.
Proof.
  intros (l & d & -> & Hl & ->)%setitem_Ok. unfold item, item_of; simpl.
  rewrite list_lookup_insert_eq by (by eapply lookup_lt_Some).
  apply al_get_set_eq.
Qed.

Lemma keeps_item k s s' c x : keeps k s s' → item s c k x → item s' c k x.
Proof.
  intros Hk (d & (l & -> & Hl)%is_dict_ref & Hg)%item_dict.
  destruct (Hk l d Hl) as (d' & Hl' & Hg').
  unfold item, item_of; simpl. rewrite Hl'. congruence.
Qed.

Lemma kwargs_get d a name : kwargs d = Some a → al_get name a = al_get (VStr name) d.
Proof.
  revert a. induction d as [|[k v] d IH]; intros a; simpl.
  - by intros [= <-].
  - destruct k; try done. destruct (kwargs d) as [a'|]; simpl; [|done].
    intros [= <-]. simpl. rewrite (IH a') by done.
    destruct (decide (name = s)) as [->|Hne].
    + by rewrite decide_True.
    + rewrite decide_False; [done|congruence].
Qed.

Lemma construct_inst c data s v s' :
  construct c data s = Ok v s' →
  ∃ d a, is_dict s data d ∧ kwargs d = Some a ∧ is_inst s' v c a ∧
         v = VRef (length (heap s)) ∧ ext (λ _, False) s s'.
Proof.
  intros (d & a & Hd & Hk & -> & ->)%construct_Ok. exists d, a.
  split_and!; [done|done| |done|apply ext_alloc].
  unfold is_inst; simpl. by rewrite lookup_app_r, Nat.sub_diag.
Qed.

Lemma construct_field c data s v s' name x :
  construct c data s = Ok v s' → item s data (VStr name) x → field s' v name x.
Proof.
  intros (d & a & Hd & Hk & Hi & _)%construct_inst (d' & Hd' & Hg)%item_dict.
  rewrite <- (is_dict_agree _ _ _ _ Hd Hd') in Hg.
  apply field_inst. exists c, a. split; [done|]. by rewrite (kwargs_get d).
Qed.

(** ** Sequence indexing *)

Lemma py_index_in_range n t :
  in_range n t → py_index n t = Some (position n t) ∧ position n t < n.
Proof.
  unfold in_range, py_index, position. intros Hr.
  destruct (bool_decide (0 ≤ t)%Z) eqn:Hpos.
  - apply bool_decide_eq_true in Hpos. rewrite bool_decide_eq_true_2 by lia.
    split; [done|lia].
  - apply bool_decide_eq_false in Hpos. rewrite bool_decide_eq_false_2 by lia.
    rewrite bool_decide_eq_true_2 by lia. split; [done|lia].
Qed.

Lemma py_index_out_of_range n t : ¬ in_range n t → py_index n t = None.
Proof.
  unfold in_range, py_index. intros Hr.
  rewrite bool_decide_eq_false_2 by lia. by rewrite bool_decide_eq_false_2 by lia.
Qed.

Global Instance in_range_dec n t : Decision (in_range n t).
Proof. unfold in_range. apply _. Defined.

Lemma getitem_list s tasks ts t :
  is_list s tasks ts →
  (in_range (length ts) t ∧
   ∃ task, ts !! position (length ts) t = Some task ∧
           getitem tasks (VInt t) s = Ok task s) ∨
  (¬ in_range (length ts) t ∧ getitem tasks (VInt t) s = Err IndexError).
Proof.
  intros (l & -> & Hl)%is_list_ref. unfold getitem, seq_item. rewrite Hl.
  destruct (decide (in_range (length ts) t)) as [Hr|Hr].
  - left. split; [done|]. destruct (py_index_in_range _ _ Hr) as [-> Hlt].
    destruct (lookup_lt_is_Some_2 ts _ Hlt) as [task Htask].
    exists task. by rewrite Htask.
  - right. split; [done|]. by rewrite py_index_out_of_range.
Qed.

Lemma getitem_list_Ok s tasks ts t task s' :
  is_list s tasks ts → getitem tasks (VInt t) s = Ok task s' →
  in_range (length ts) t ∧ ts !! position (length ts) t = Some task ∧ s' = s.
Proof.
  intros Hl Hg. destruct (getitem_list s tasks ts t Hl)
    as [(Hr & task' & Ht & Hg')|(_ & Hg')]; [|congruence].
  rewrite Hg' in Hg. injection Hg as <- <-. done.
Qed.

Lemma getitem_list_Err s tasks ts t :
  is_list s tasks ts →
  getitem tasks (VInt t) s = Err IndexError ↔ ¬ in_range (length ts) t.
Proof.
  intros Hl. destruct (getitem_list s tasks ts t Hl)
    as [(Hr & task' & Ht & Hg')|(Hr & Hg')]; rewrite Hg'; naive_solver.
Qed.

(** ** Following a run step by step *)

(** Steps that only read the store leave it as it was. *)
Ltac pure_step H lem :=
  lazymatch type of H with
  | _ ?s = Ok _ ?s' =>
      is_var s'; tryif constr_eq s s' then fail else
        (let E := fresh in pose proof (lem _ _ _ H) as E; subst s')
  end.

Ltac pure_steps :=
  repeat match goal with
  | H : getitem ?c ?k _ = Ok _ _ |- _ => pure_step H (getitem_pure c k)
  | H : iter ?c _ = Ok _ _ |- _ => pure_step H (iter_pure c)
  | H : getattr ?o ?n _ = Ok _ _ |- _ => pure_step H (getattr_pure o n)
  | H : get_user ?us ?n _ = Ok _ _ |- _ => pure_step H (get_user_pure us n)
  | H : rankingview_keyfunc ?x _ = Ok _ _ |- _ =>
      pure_step H (rankingview_keyfunc_pure x)
  | H : mret _ _ = Ok _ _ |- _ => apply ret_Ok in H as [? ?]; subst
  end.

(** Every step of a run that is known to keep [R] yields a fact. *)
Ltac rel_steps R :=
  repeat match goal with
  | H : ?m ?s = Ok ?a ?s' |- _ =>
      lazymatch goal with
      | _ : R s s' |- _ => fail
      | _ => idtac
      end;
      tryif constr_eq s s' then fail else
        (let Hm := fresh in
         assert (run_rel R m) as Hm by (run_auto; done);
         let Hr := fresh "Hrel" in
         pose proof (Hm _ _ _ H) as Hr; clear Hm)
  end.

Ltac chain :=
  first [ eassumption | reflexivity | etrans; [eassumption|chain] ].

Lemma bind_fail {A B} (m : M A) (f : A → M B) s e :
  m s = Err e → (m ≫= f) s = Err e.
Proof. unfold mbind, M_bind. by intros ->. Qed.

(** ** Positional resolution of the task reference *)

Lemma score_import_resolves s data tasks users ts t :
  is_list s tasks ts → item s data (VStr "task") (VInt t) →
  (score_import_from_dict data tasks users s = Err IndexError ↔
   ¬ in_range (length ts) t) ∧
  (∀ v s', score_import_from_dict data tasks users s = Ok v s' →
     in_range (length ts) t ∧
     ∃ task, ts !! position (length ts) t = Some task ∧ field s' v "task" task).
Proof.
  intros Hl Hd. unfold score_import_from_dict. split; [split|].
  - intros H. inv_err H. pure_steps.
    match goal with H : getitem data _ _ = _ |- _ => apply getitem_item in H as [Hi _] end.
    rewrite (item_agree _ _ _ _ _ Hi Hd) in H. by apply (getitem_list_Err s tasks ts).
  - intros Hr. rewrite (bind_run _ _ _ _ _ (item_getitem _ _ _ _ Hd)).
    apply bind_fail. by apply (getitem_list_Err s tasks ts).
  - intros v s' H. inv_run H. pure_steps.
    match goal with H : getitem data (VStr "task") _ = _ |- _ =>
      apply getitem_item in H as [Hi _] end.
    rewrite (item_agree _ _ _ _ _ Hi Hd) in *.
    match goal with H : getitem tasks _ _ = _ |- _ =>
      apply (getitem_list_Ok _ _ ts) in H as (Hr & Ht & _); [|done] end.
    split; [done|]. eexists. split; [done|].
    match goal with H : setitem data "task" _ _ = _ |- _ =>
      pose proof (setitem_item _ _ _ _ _ _ H) as Hset end.
    rel_steps (keeps (VStr "task")).
    eapply construct_field; [done|]. eapply keeps_item; [|done]. chain.
Qed.

Lemma submission_import_resolves s data tasks ts t :
  is_list s tasks ts → item s data (VStr "task") (VInt t) →
  (submission_import_from_dict data tasks s = Err IndexError →
   ¬ in_range (length ts) t) ∧
  (∀ v s', submission_import_from_dict data tasks s = Ok v s' →
     in_range (length ts) t ∧
     ∃ task, ts !! position (length ts) t = Some task ∧ field s' v "task" task).
Proof.
  intros Hl Hd. unfold submission_import_from_dict. split.
  - intros H. inv_err H. pure_steps.
    rel_steps (keeps (VStr "task")). rel_steps (ext any).
    match goal with H : getitem data (VStr "task") ?s1 = _ |- _ =>
      apply getitem_item in H as [Hi _];
      assert (keeps (VStr "task") s s1) as Hk by chain;
      assert (ext any s s1) as He by chain end.
    rewrite (item_agree _ _ _ _ _ Hi (keeps_item _ _ _ _ _ Hk Hd)) in H.
    eapply getitem_list_Err; [|done]. by eapply ext_list.
  - intros v s' H. inv_run H. pure_steps.
    rel_steps (keeps (VStr "task")). rel_steps (ext any).
    match goal with H : getitem data (VStr "task") ?s1 = _ |- _ =>
      apply getitem_item in H as [Hi _];
      assert (keeps (VStr "task") s s1) as Hk by chain;
      assert (ext any s s1) as He by chain end.
    rewrite (item_agree _ _ _ _ _ Hi (keeps_item _ _ _ _ _ Hk Hd)) in *.
    match goal with H : getitem tasks _ _ = _ |- _ =>
      apply (getitem_list_Ok _ _ ts) in H as (Hr & Ht & _);
        [|by eapply ext_list] end.
    split; [done|]. eexists. split; [done|].
    match goal with H : setitem data "task" _ _ = _ |- _ =>
      pose proof (setitem_item _ _ _ _ _ _ H) as Hset end.
    eapply construct_field; [done|]. eapply keeps_item; [|done]. chain.
Qed.


(** On a store with two tasks the score record with task index 1 is
    imported and refers to the second task; with index 2 the resolution
    fails. *)
Example score_task_index_1 :
  reach (score_import_from_dict (VRef 5) (VRef 2) (VRef 4) (Sample.resolving 1))
    [Attr "task"] = Some (VRef 1).
Proof. by vm_compute. Qed.

Example score_task_index_2 :
  score_import_from_dict (VRef 5) (VRef 2) (VRef 4) (Sample.resolving 2)
  = Err IndexError.
Proof. by vm_compute. Qed.

Example score_task_index_minus_2 :
  reach (score_import_from_dict (VRef 5) (VRef 2) (VRef 4) (Sample.resolving (-2)))
    [Attr "task"] = Some (VRef 0).
Proof. by vm_compute. Qed.

(** ** Resolution of the user reference by username *)

Lemma get_user_loop_Ok us name s u s' :
  get_user_loop us name s = Ok u s' → s' = s ∧ first_named s us name u.
Proof.
  revert s'. induction us as [|u0 us IH]; intros s'; simpl; [done|].
  intros (n & s1 & [Hf ->]%getattr_Ok & H)%bind_Ok.
  destruct (decide (n = name)) as [->|Hne].
  - apply ret_Ok in H as [<- <-]. split; [done|]. exists 0.
    split_and!; [done|done|]. intros; lia.
  - destruct (IH _ H) as (-> & i & Hi & Hfi & Hfirst). split; [done|].
    exists (S i). split_and!; [done|done|]. intros [|j] uj Hj Huj Hfj.
    + injection Huj as <-. by rewrite (field_agree _ _ _ _ _ Hf Hfj) in Hne.
    + apply (Hfirst j uj); [lia|done|done].
Qed.

Lemma get_user_loop_not_found us name s :
  get_user_loop us name s = Err (KeyError (VStr "User not found")) ↔
  Forall (λ u, ∃ n, field s u "username" n ∧ n ≠ name) us.
Proof.
  induction us as [|u0 us IH]; simpl.
  - split; [by constructor|done].
  - rewrite bind_Err, Forall_cons. split.
    + intros [H|(n & s1 & [Hf ->]%getattr_Ok & H)].
      { by apply never_getattr in H. }
      destruct (decide (n = name)) as [->|Hne]; [done|].
      split; [eauto|by apply IH].
    + intros [(n & Hf & Hne) Hus]. right. exists n, s. split.
      * by apply getattr_Ok.
      * rewrite decide_False by done. by apply IH.
Qed.

Lemma get_user_Ok users us name s u s' :
  is_list s users us →
  get_user users name s = Ok u s' → s' = s ∧ first_named s us name u.
Proof.
  intros (l & -> & Hl)%is_list_ref (us' & s1 & Hit & H)%bind_Ok.
  unfold iter in Hit. rewrite Hl in Hit. injection Hit as <- <-.
  by apply get_user_loop_Ok.
Qed.

Lemma get_user_not_found users us name s :
  is_list s users us →
  get_user users name s = Err (KeyError (VStr "User not found")) ↔
  Forall (λ u, ∃ n, field s u "username" n ∧ n ≠ name) us.
Proof.
  intros (l & -> & Hl)%is_list_ref. rewrite <- get_user_loop_not_found.
  unfold get_user. rewrite bind_Err. unfold iter at 1 2. rewrite Hl. split.
  - intros [?|(us' & s1 & [= <- <-] & H)]; done.
  - intros H. right. eauto.
Qed.

(** With every user carrying a username, "none differs" is "none has it". *)
Lemma none_named s us name :
  Forall (λ u, ∃ n, field s u "username" n) us →
  Forall (λ u, ∃ n, field s u "username" n ∧ n ≠ name) us ↔
  ¬ ∃ u, u ∈ us ∧ field s u "username" name.
Proof.
  intros Hall. rewrite !Forall_forall in *. split.
  - intros Hne (u & Hu & Hf). destruct (Hne u Hu) as (n & Hf' & Hn).
    by rewrite (field_agree _ _ _ _ _ Hf Hf') in Hn.
  - intros Hno u Hu. destruct (Hall u Hu) as (n & Hf). exists n. split; [done|].
    intros ->. apply Hno. eauto.
Qed.

Lemma setitem_dict s c d k v :
  is_dict s c d →
  ∃ s', setitem c k v s = Ok tt s' ∧ ext (λ l, c = VRef l) s s' ∧
        patches s' = patches s.
Proof.
  intros (l & -> & Hl)%is_dict_ref. eexists. split.
  - apply setitem_Ok. eauto.
  - split; [|done]. by eapply ext_setitem.
Qed.

Lemma ext_field_back P s s' us name :
  ext P s s' → Forall (λ u, ∃ n, field s u name n) us →
  ∀ u n, u ∈ us → field s' u name n ↔ field s u name n.
Proof.
  intros He Hall u n Hu. rewrite Forall_forall in Hall.
  destruct (Hall u Hu) as (n' & Hf). split; [|by eapply ext_field].
  intros Hf'. by rewrite (field_agree _ _ _ _ _ Hf' (ext_field _ _ _ _ _ _ He Hf)).
Qed.

Lemma first_named_back P s s' us name u :
  ext P s s' → Forall (λ u, ∃ n, field s u "username" n) us →
  first_named s' us name u ↔ first_named s us name u.
Proof.
  intros He Hall. unfold first_named.
  assert (∀ i x, us !! i = Some x → x ∈ us) as Hin.
  { intros i x Hi. apply list_elem_of_lookup. eauto. }
  pose proof (ext_field_back P s s' us "username" He Hall) as Hb.
  split; intros (i & Hi & Hf & Hfirst); exists i; (split; [done|]); split.
  - apply (proj1 (Hb u name (Hin _ _ Hi))), Hf.
  - intros j uj Hj Huj Hfj. apply (Hfirst j uj Hj Huj).
    apply (proj2 (Hb uj name (Hin _ _ Huj))), Hfj.
  - apply (proj2 (Hb u name (Hin _ _ Hi))), Hf.
  - intros j uj Hj Huj Hfj. apply (Hfirst j uj Hj Huj).
    apply (proj1 (Hb uj name (Hin _ _ Huj))), Hfj.
Qed.

(** The run of [score_import_from_dict] up to the call of [get_user]. *)
Lemma score_import_to_get_user s data tasks users ts t name :
  is_list s tasks ts → item s data (VStr "task") (VInt t) →
  in_range (length ts) t → item s data (VStr "user") name →
  ∃ s1, ext any s s1 ∧
    score_import_from_dict data tasks users s =
    (user ← get_user users name;
     setitem data "user" user;; construct Score data) s1.
Proof.
  intros Hl Ht Hr Hu. unfold score_import_from_dict.
  rewrite (bind_run _ _ _ _ _ (item_getitem _ _ _ _ Ht)).
  destruct (getitem_list s tasks ts t Hl) as [(_ & task & _ & Hg)|[? _]]; [|done].
  rewrite (bind_run _ _ _ _ _ Hg).
  apply item_dict in Ht as Hd. destruct Hd as (d & Hd & _).
  destruct (setitem_dict s data d "task" task Hd) as (s1 & Hset & He & _).
  rewrite (bind_run _ _ _ _ _ Hset).
  assert (keeps (VStr "user") s s1) as Hk.
  { eapply (keeps_run_setitem (VStr "user") data "task" task); [done|apply Hset]. }
  rewrite (bind_run _ _ _ _ _ (item_getitem _ _ _ _ (keeps_item _ _ _ _ _ Hk Hu))).
  exists s1. split; [|done]. by eapply ext_weaken.
Qed.



(** A score of user "alice" is bound to her; a score naming an absent user
    is rejected (failure scenario (b) of the spec). *)
Example score_of_alice :
  reach (score_import_from_dict (VRef 5) (VRef 2) (VRef 4) (Sample.resolving 1))
    [Attr "user"; Attr "username"] = Some (VStr "alice").
Proof. by vm_compute. Qed.

Example score_of_absent_user :
  import (Sample.contest [Sample.task "t0" []] [Sample.user "alice" []]
            [Sample.score 0 "bob" 10])
  = Err (KeyError (VStr "User not found")).
Proof. by vm_compute. Qed.

(** ** What a context-resolving builder changes *)

Global Instance same_patches_preorder : PreOrder same_patches.
Proof. split; unfold same_patches; [done|intros ???; congruence]. Qed.

Lemma same_patches_alloc o : run_rel same_patches (alloc o).
Proof. by intros s v s' [_ ->]%alloc_Ok. Qed.

Lemma same_patches_construct c data : run_rel same_patches (construct c data).
Proof. by intros s v s' (d & a & _ & _ & _ & ->)%construct_Ok. Qed.

Lemma same_patches_new_dict ps : run_rel same_patches (new_dict ps).
Proof. by intros s v s' (_ & _ & ->)%new_dict_Ok. Qed.

Lemma same_patches_setitem c k v : run_rel same_patches (setitem c k v).
Proof. by intros s u s' (l & d & _ & _ & ->)%setitem_Ok. Qed.

Global Hint Resolve same_patches_alloc same_patches_construct
  same_patches_new_dict same_patches_setitem : run.

Lemma same_patches_submission_import data tasks :
  run_rel same_patches (submission_import_from_dict data tasks).
Proof. unfold submission_import_from_dict. run_auto. Qed.

Lemma same_patches_score_import data tasks users :
  run_rel same_patches (score_import_from_dict data tasks users).
Proof. unfold score_import_from_dict. run_auto. Qed.

Lemma ext_frame data s s' :
  ext (λ l, data = VRef l) s s' → same_patches s s' → frame data s s'.
Proof.
  intros [_ H] Hp. split; [|done]. intros l o Hl Hne.
  destruct (H l o Hl) as [?|[? _]]; done.
Qed.




(** ** Building a sequence of entities *)

Lemma mapM_M_Ok_cons {A B} (f : A → M B) x xs s ys s' :
  mapM_M f (x :: xs) s = Ok ys s' ↔
  ∃ y s1 ys', f x s = Ok y s1 ∧ mapM_M f xs s1 = Ok ys' s' ∧ ys = y :: ys'.
Proof.
  simpl. rewrite bind_Ok. split.
  - intros (y & s1 & Hf & (ys' & s2 & Hm & [<- <-]%ret_Ok)%bind_Ok). eauto 8.
  - intros (y & s1 & ys' & Hf & Hm & ->). exists y, s1. split; [done|].
    apply bind_Ok. exists ys', s'. split; [done|]. by apply ret_Ok.
Qed.

Lemma mapM_M_length {A B} (f : A → M B) xs s ys s' :
  mapM_M f xs s = Ok ys s' → length ys = length xs.
Proof.
  revert s ys. induction xs as [|x xs IH]; intros s ys.
  - by intros [<- _]%ret_Ok.
  - intros (y & s1 & ys' & _ & Hm & ->)%mapM_M_Ok_cons. simpl. f_equal. eauto.
Qed.

(** Reading with a computation that leaves the store alone. *)
Lemma mapM_M_pure {A B} (f : A → M B) xs s ys s' :
  (∀ x, pure (f x)) →
  mapM_M f xs s = Ok ys s' ↔ s' = s ∧ Forall2 (λ x y, f x s = Ok y s) xs ys.
Proof.
  intros Hf. revert ys. induction xs as [|x xs IH]; intros ys.
  - simpl. rewrite ret_Ok. split.
    + intros [<- <-]. by split; [|constructor].
    + intros [-> ->%Forall2_nil_inv_l]. done.
  - rewrite mapM_M_Ok_cons. split.
    + intros (y & s1 & ys' & Hy & Hm & ->). pose proof (Hf _ _ _ _ Hy) as ->.
      apply IH in Hm as [-> Hall]. split; [done|]. by constructor.
    + intros [-> (y & ys' & Hy & Hall & ->)%Forall2_cons_inv_l].
      exists y, s, ys'. split; [done|]. split; [|done]. by apply IH.
Qed.

Lemma is_dict_alloc s o v d :
  is_dict s v d → is_dict (State (heap s ++ [o]) (patches s)) v d.
Proof.
  intros (l & -> & Hl)%is_dict_ref. apply is_dict_ref. exists l.
  split; [done|]. by apply lookup_app_l_Some.
Qed.

Lemma is_dict_alloc_inst s c a v d :
  is_dict (State (heap s ++ [OInst c a]) (patches s)) v d ↔ is_dict s v d.
Proof.
  split; [|apply is_dict_alloc]. intros (l & -> & Hl)%is_dict_ref.
  apply is_dict_ref. exists l. split; [done|]. simpl in Hl.
  apply lookup_app_Some in Hl as [?|[_ Hl]]; [done|].
  by apply list_lookup_singleton_Some in Hl as [_ ?].
Qed.

(** A run of constructor calls over records appends one instance per
    record, in order. *)
Lemma mapM_M_construct c recs s xs s' :
  mapM_M (basic_import_from_dict c) recs s = Ok xs s' ↔
  ∃ fs, Forall2 (λ r a, ∃ d, is_dict s r d ∧ kwargs d = Some a) recs fs ∧
        xs = VRef <$> seq (length (heap s)) (length recs) ∧
        s' = State (heap s ++ (OInst c <$> fs)) (patches s).
Proof.
  revert s xs. induction recs as [|r recs IH]; intros s xs.
  - simpl. rewrite ret_Ok. split.
    + intros [<- <-]. exists []. split; [constructor|]. split; [done|].
      destruct s. simpl. by rewrite app_nil_r.
    + intros (fs & ->%Forall2_nil_inv_l & -> & ->). destruct s. simpl.
      by rewrite app_nil_r.
  - rewrite mapM_M_Ok_cons. unfold basic_import_from_dict at 1. split.
    + intros (y & s1 & ys' & (d & a & Hd & Hk & -> & ->)%construct_Ok & Hm & ->).
      apply IH in Hm as (fs & Hall & -> & ->). exists (a :: fs). simpl.
      split; [|split].
      * constructor; [eauto|]. eapply Forall2_impl; [done|].
        intros r' a' (d' & Hd' & Hk'). exists d'. split; [|done].
        by apply is_dict_alloc_inst in Hd'.
      * rewrite length_app. simpl. by rewrite Nat.add_1_r.
      * by rewrite <- (assoc_L (++)).
    + intros (fs & (a & fs' & (d & Hd & Hk) & Hall & ->)%Forall2_cons_inv_l & -> & ->).
      eexists _, _, _. split; [apply construct_Ok; eauto 8|]. split; [|done].
      apply IH. exists fs'. simpl. split; [|split].
      * eapply Forall2_impl; [done|]. intros r' a' (d' & Hd' & Hk').
        exists d'. split; [|done]. by apply is_dict_alloc_inst.
      * rewrite length_app. simpl. by rewrite Nat.add_1_r.
      * by rewrite <- (assoc_L (++)).
Qed.

Lemma list_comp_construct c src s l s' :
  list_comp (basic_import_from_dict c) src s = Ok l s' ↔
  ∃ recs fs, iter src s = Ok recs s ∧
    Forall2 (λ r a, ∃ d, is_dict s r d ∧ kwargs d = Some a) recs fs ∧
    l = VRef (length (heap s) + length recs) ∧
    s' = State (heap s ++ (OInst c <$> fs) ++
                [OList (VRef <$> seq (length (heap s)) (length recs))])
               (patches s).
Proof.
  unfold list_comp. rewrite bind_Ok. split.
  - intros (recs & s1 & Hit & (xs & s2 & Hm & Ha)%bind_Ok).
    pose proof (iter_pure _ _ _ _ Hit) as ->.
    apply mapM_M_construct in Hm as (fs & Hall & -> & ->).
    apply alloc_Ok in Ha as [-> ->]. exists recs, fs. simpl.
    split_and!; [done|done| |by rewrite <- (assoc_L (++))].
    by rewrite length_app, length_fmap, (Forall2_length _ _ _ Hall).
  - intros (recs & fs & Hit & Hall & -> & ->). exists recs, s. split; [done|].
    apply bind_Ok. eexists _, _. split.
    + apply mapM_M_construct. eauto.
    + apply alloc_Ok. simpl. split.
      * by rewrite length_app, length_fmap, (Forall2_length _ _ _ Hall).
      * by rewrite <- (assoc_L (++)).
Qed.

(** The dictionary of a sequence of entities keyed by filename. *)
Lemma dict_by_filename src s dv s' :
  dict_by (λ x, getattr x "filename") src s = Ok dv s' ↔
  ∃ xs ps, iter src s = Ok xs s ∧
    Forall2 (λ x p, p.2 = x ∧ field s x "filename" p.1) xs ps ∧
    forallb (hashable (heap s)) ps.*1 = true ∧
    dv = VRef (length (heap s)) ∧
    s' = State (heap s ++ [ODict (al_of_list ps)]) (patches s).
Proof.
  unfold dict_by.
  assert (∀ x, pure (k ← getattr x "filename"; mret (k, x))) as Hpure.
  { intros x. apply bind_pure; [apply getattr_pure|intros ?; apply ret_pure]. }
  assert (∀ x p, (k ← getattr x "filename"; mret (k, x)) s = Ok p s ↔
                 p.2 = x ∧ field s x "filename" p.1) as Hkey.
  { intros x [k y]. rewrite bind_Ok. simpl. split.
    - intros (k' & s1 & [Hf ->]%getattr_Ok & [[= <- <-] _]%ret_Ok). done.
    - intros [-> Hf]. exists k, s. split; [by apply getattr_Ok|by apply ret_Ok]. }
  rewrite bind_Ok. split.
  - intros (xs & s1 & Hit & (ps & s2 & Hm & Hn)%bind_Ok).
    pose proof (iter_pure _ _ _ _ Hit) as ->.
    apply mapM_M_pure in Hm as [-> Hall]; [|done].
    apply new_dict_Ok in Hn as (Hh & -> & ->). exists xs, ps.
    split_and!; [done| |done..]. eapply Forall2_impl; [done|].
    intros x p. apply Hkey.
  - intros (xs & ps & Hit & Hall & Hh & -> & ->). exists xs, s. split; [done|].
    apply bind_Ok. exists ps, s. split; [|by apply new_dict_Ok].
    apply mapM_M_pure; [done|]. split; [done|]. eapply Forall2_impl; [done|].
    intros x p. apply Hkey.
Qed.

(** ** Keyed collections *)

Lemma al_get_of_list_last {K V} `{EqDecision K} (ps : list (K * V)) k v :
  al_get k (al_of_list ps) = Some v ↔ last_with (λ p, p.1 = k) ps (k, v).
Proof.
  unfold last_with. induction ps as [|p ps IH] using rev_ind.
  - split; [done|]. by intros (j & Hj & _).
  - rewrite al_of_list_snoc, al_get_set. destruct (decide (k = p.1)) as [->|Hne].
    + split.
      * intros [= <-]. exists (length ps). split_and!.
        -- rewrite lookup_app_r, Nat.sub_diag by done. by destruct p.
        -- done.
        -- intros j' x' Hj' Hx'. apply lookup_lt_Some in Hx'.
           rewrite length_app in Hx'. simpl in Hx'. lia.
      * intros (j & Hj & _ & Hlast).
        destruct (decide (j = length ps)) as [->|Hj'].
        -- rewrite lookup_app_r, Nat.sub_diag in Hj by done.
           by injection Hj as ->.
        -- apply lookup_lt_Some in Hj as Hlt. rewrite length_app in Hlt.
           simpl in Hlt. exfalso. apply (Hlast (length ps) p); [lia| |done].
           by rewrite lookup_app_r, Nat.sub_diag.
    + rewrite IH. split.
      * intros (j & Hj & _ & Hlast). exists j. split_and!.
        -- by apply lookup_app_l_Some.
        -- done.
        -- intros j' x' Hj' Hx'. apply lookup_app_Some in Hx' as [Hx'|[_ Hx']].
           ++ by apply (Hlast j' x').
           ++ apply list_lookup_singleton_Some in Hx' as [_ <-]. congruence.
      * intros (j & Hj & _ & Hlast). exists j.
        apply lookup_app_Some in Hj as [Hj|[_ Hj]].
        -- split_and!; [done|done|]. intros j' x' Hj' Hx'.
           apply (Hlast j' x'); [done|]. by apply lookup_app_l_Some.
        -- apply list_lookup_singleton_Some in Hj as [_ ->]. done.
Qed.

Lemma obj_at_alloc s o v o' :
  obj_at (State (heap s ++ [o]) (patches s)) v = Some o' ↔
  obj_at s v = Some o' ∨ (v = VRef (length (heap s)) ∧ o' = o).
Proof.
  rewrite !obj_at_ref. simpl. split.
  - intros (l & -> & [Hl|[Hlen Hl]]%lookup_app_Some); [left; eauto|].
    apply list_lookup_singleton_Some in Hl as [Hl <-]. right.
    split; [f_equal; lia|done].
  - intros [(l & -> & Hl)|[-> ->]].
    + exists l. split; [done|]. by apply lookup_app_l_Some.
    + eexists. split; [done|]. by rewrite lookup_app_r, Nat.sub_diag.
Qed.

Lemma field_alloc_dict s d x name v :
  field (State (heap s ++ [ODict d]) (patches s)) x name v ↔ field s x name v.
Proof.
  rewrite !field_inst. unfold is_inst. split.
  - intros (c & a & [?|[_ ?]]%obj_at_alloc & Hg); [eauto|done].
  - intros (c & a & Hi & Hg). exists c, a. split; [|done].
    apply obj_at_alloc. by left.
Qed.

(** The dictionary [dict_by] builds from a list of entities. *)
Lemma dict_by_collection src s dv s' xs :
  is_list s src xs →
  dict_by (λ x, getattr x "filename") src s = Ok dv s' →
  collection s' dv xs ∧ dv = VRef (length (heap s)) ∧
  ∃ d, s' = State (heap s ++ [ODict d]) (patches s).
Proof.
  intros (l & -> & Hl)%is_list_ref (xs' & ps & Hit & Hall & _ & -> & ->)%dict_by_filename.
  unfold iter in Hit. rewrite Hl in Hit. injection Hit as <-.
  split; [|split; [done|eauto]]. exists (al_of_list ps). split.
  { apply obj_at_alloc. by right. }
  intros k x. rewrite al_get_of_list_last. unfold last_with.
  setoid_rewrite field_alloc_dict. split.
  - intros (j & Hj & _ & Hlast).
    destruct (Forall2_lookup_r _ _ _ _ _ Hall Hj) as (y & Hy & Heq & Hf).
    simpl in *. subst y. exists j. split_and!; [done|done|].
    intros j' x' Hj' Hx' Hf'.
    destruct (Forall2_lookup_l _ _ _ _ _ Hall Hx') as (p & Hp & _ & Hfp).
    apply (Hlast j' p Hj' Hp). eapply field_agree; eauto.
  - intros (j & Hj & Hf & Hlast).
    destruct (Forall2_lookup_l _ _ _ _ _ Hall Hj) as ([k' y] & Hp & Heq & Hfp).
    simpl in *. subst y. rewrite (field_agree _ _ _ _ _ Hf Hfp) in *.
    exists j. split_and!; [done|done|]. intros j' p Hj' Hp' Hk.
    destruct (Forall2_lookup_r _ _ _ _ _ Hall Hp') as (y & Hy & _ & Hfy).
    apply (Hlast j' y Hj' Hy). by rewrite Hk in Hfy.
Qed.

(** C2 (as stated, refuted).  Failure scenario (c) of the spec: a task
    with two attachment records both named "grader.cpp".  The import does
    not fail; the task's attachments bind the name to the second record. *)
Lemma equal_filenames_import :
  let r := import (Sample.contest
                     [Sample.task "t0" [Sample.file "grader.cpp" "first";
                                        Sample.file "grader.cpp" "second"]]
                     [] []) in
  error_of r = None ∧
  reach r [Attr "tasks"; Index 0; Attr "attachments"; Key (VStr "grader.cpp");
           Attr "digest"] = Some (VStr "second").
Proof. by vm_compute. Qed.

(** The two statements that turn the records of [data[f]] into a keyed
    collection: a list comprehension of constructor calls, then [dict]. *)
Lemma keyed_steps c data f src s0 l s1 u s2 src' dv s3 :
  list_comp (basic_import_from_dict c) src s0 = Ok l s1 →
  setitem data f l s1 = Ok u s2 →
  getitem data (VStr f) s2 = Ok src' s2 →
  dict_by (λ x, getattr x "filename") src' s2 = Ok dv s3 →
  ∃ recs xs,
    iter src s0 = Ok recs s0 ∧ NoDup xs ∧
    Forall2 (λ r x, ∃ d a, is_dict s0 r d ∧ kwargs d = Some a ∧
                           is_inst s3 x c a) recs xs ∧
    collection s3 dv xs ∧ dv ≠ data ∧
    ext (λ l, data = VRef l) s0 s3.
Proof.
  intros (recs & fs & Hit & Hall & -> & ->)%list_comp_construct Hset Hget Hdict.
  set (n := length (heap s0)) in *.
  set (xs := VRef <$> seq n (length recs)).
  set (s1 := State _ _) in Hset.
  assert (is_list s1 (VRef (n + length recs)) xs) as Hl1.
  { apply is_list_ref. eexists. split; [done|]. simpl.
    pose proof (Forall2_length _ _ _ Hall) as Hlen.
    rewrite lookup_app_r by (unfold n; lia).
    rewrite lookup_app_r by (rewrite length_fmap; unfold n; lia).
    rewrite length_fmap.
    by replace (n + length recs - length (heap s0) - length fs) with 0
      by (unfold n; lia). }
  assert (∀ i r, recs !! i = Some r → ∃ d a,
            is_dict s0 r d ∧ kwargs d = Some a ∧
            is_inst s1 (VRef (n + i)) c a) as Hinst.
  { intros i r Hr.
    destruct (Forall2_lookup_l _ _ _ _ _ Hall Hr) as (a & Ha & d & Hd & Hk).
    exists d, a. split_and!; [done..|]. apply is_inst_ref. eexists.
    split; [done|]. simpl. rewrite lookup_app_r by (unfold n; lia).
    replace (n + i - length (heap s0)) with i by (unfold n; lia).
    rewrite lookup_app_l by (rewrite length_fmap; apply (lookup_lt_Some _ _ _ Ha)).
    by rewrite list_lookup_fmap, Ha. }
  assert (ext (λ l, data = VRef l) s0 s1) as He01.
  { apply ext_weaken with (λ _, False); [done|]. split; simpl.
    - rewrite length_app. lia.
    - intros l o Hl. left. by apply lookup_app_l_Some. }
  pose proof (ext_run_setitem (λ l, data = VRef l) data f _
                ltac:(done) _ _ _ Hset) as He12.
  apply setitem_item in Hset as Hitem. apply getitem_item in Hget as [Hitem' _].
  rewrite (item_agree _ _ _ _ _ Hitem' Hitem) in Hdict.
  pose proof (ext_list _ _ _ _ _ He12 Hl1) as Hl2.
  destruct (dict_by_collection _ _ _ _ _ Hl2 Hdict) as (Hcol & -> & d & ->).
  assert (ext (λ l, data = VRef l) s2 (State (heap s2 ++ [ODict d]) (patches s2)))
    as He23 by apply ext_alloc.
  exists recs, xs. split_and!.
  - done.
  - apply NoDup_fmap; [by intros ?? [= ->]|apply NoDup_seq].
  - apply Forall2_same_length_lookup_2.
    { unfold xs. by rewrite length_fmap, length_seq. }
    intros i r x Hr Hx. unfold xs in Hx. rewrite list_lookup_fmap in Hx.
    apply lookup_lt_Some in Hr as Hlt. rewrite lookup_seq_lt in Hx by done.
    injection Hx as <-. destruct (Hinst i r Hr) as (d' & a & Hd & Hk & Hi).
    exists d', a. split_and!; [done..|]. eauto using ext_inst.
  - done.
  - apply setitem_Ok in Hset as (ld & d0 & -> & Hld & Hs2). intros [= Heq].
    apply lookup_lt_Some in Hld. rewrite Hs2 in Heq. simpl in Heq.
    rewrite length_insert in Heq. subst ld. unfold s1 in Hld. simpl in Hld. lia.
  - by repeat (etrans; [eassumption|]).
Qed.

Lemma last_with_iff {A} (P Q : A → Prop) xs x :
  (∀ y, y ∈ xs → P y ↔ Q y) → last_with P xs x ↔ last_with Q xs x.
Proof.
  intros HPQ. unfold last_with.
  assert (∀ i y, xs !! i = Some y → y ∈ xs) as Hin.
  { intros i y Hi. apply list_elem_of_lookup. eauto. }
  split; intros (j & Hj & HP & Hlast); exists j; split_and!; try done.
  - by apply HPQ; eauto.
  - intros j' x' Hj' Hx' HQ. apply (Hlast j' x' Hj' Hx'). by apply HPQ; eauto.
  - by apply HPQ; eauto.
  - intros j' x' Hj' Hx' HQ. apply (Hlast j' x' Hj' Hx'). by apply HPQ; eauto.
Qed.

Lemma ext_field_inst P s s' x c a name v :
  ext P s s' → is_inst s x c a → field s' x name v ↔ field s x name v.
Proof.
  intros He Hi. split; [|by eapply ext_field].
  intros (c' & a' & Hi' & Hg)%field_inst. apply field_inst.
  destruct (is_inst_agree _ _ _ _ _ _ Hi' (ext_inst _ _ _ _ _ _ He Hi)) as [-> ->].
  eauto.
Qed.

Lemma collection_ext (P : loc → Prop) s s' dv xs :
  collection s dv xs → Forall (λ x, ∃ c a, is_inst s x c a) xs →
  ext P s s' → (∀ l, dv = VRef l → ¬ P l) → collection s' dv xs.
Proof.
  intros (d & (l & -> & Hl)%is_dict_ref & Hd) Hall He HP. exists d. split.
  - apply is_dict_ref. exists l. split; [done|]. eapply ext_dict; eauto.
  - intros k x. rewrite Hd. apply last_with_iff. intros y Hy.
    rewrite Forall_forall in Hall. destruct (Hall y Hy) as (c & a & Hi).
    symmetry. by eapply ext_field_inst.
Qed.

Lemma iter_list s src xs : is_list s src xs → iter src s = Ok xs s.
Proof. intros (l & -> & Hl)%is_list_ref. unfold iter. by rewrite Hl. Qed.

(** A keyed field of a built entity: the statements of [keyed_steps], the
    assignment of the dictionary to [data[f]], and the constructor call
    at the end of the builder. *)
Lemma keyed_field c C data f s src s0 l s1 u1 s2 src' dv s3 u2 s4 s5 v s' :
  ext (λ l, data = VRef l) s s0 → keeps (VStr f) s s0 →
  getitem data (VStr f) s0 = Ok src s0 →
  list_comp (basic_import_from_dict c) src s0 = Ok l s1 →
  setitem data f l s1 = Ok u1 s2 →
  getitem data (VStr f) s2 = Ok src' s2 →
  dict_by (λ x, getattr x "filename") src' s2 = Ok dv s3 →
  setitem data f dv s3 = Ok u2 s4 →
  keeps (VStr f) s4 s5 → ext (λ l, data = VRef l) s4 s5 →
  construct C data s5 = Ok v s' →
  ∃ xs, field s' v f dv ∧ collection s' dv xs ∧
    ∀ src0 recs, item s data (VStr f) src0 → is_list s src0 recs →
      built s s' c data recs xs.
Proof.
  intros He0 Hk0 Hsrc Hcomp Hset1 Hget Hdict Hset2 Hk45 He45 Hcons.
  destruct (keyed_steps _ _ _ _ _ _ _ _ _ _ _ _ Hcomp Hset1 Hget Hdict)
    as (recs & xs & Hit & Hnd & Hall & Hcol & Hne & He03).
  assert (ext (λ l, data = VRef l) s3 s') as He3.
  { etrans; [by eapply (ext_run_setitem _ data f dv)|]. etrans; [done|].
    apply ext_weaken with (λ _, False); [done|by eapply ext_run_construct]. }
  exists xs. split_and!.
  - eapply construct_field; [done|]. eapply keeps_item; [done|].
    by eapply setitem_item.
  - eapply collection_ext; [done| |done|].
    + eapply Forall2_Forall_r; [done|]. apply Forall_forall.
      intros r _ x (d & a & _ & _ & Hi). eauto.
    + intros ld -> ->. done.
  - intros src0 recs0 Hitem Hl0. split; [done|].
    apply getitem_item in Hsrc as [Hsrc _].
    rewrite <- (item_agree _ _ _ _ _ Hsrc (keeps_item _ _ _ _ _ Hk0 Hitem)) in Hl0.
    pose proof (iter_list _ _ _ (ext_list _ _ _ _ _ He0 Hl0)) as Hit'.
    rewrite Hit' in Hit. injection Hit as <-.
    eapply Forall2_impl; [done|]. intros r x (d & a & Hd & Hkw & Hi).
    exists a. split; [by eapply ext_inst|]. intros d' Hd' Hr.
    apply is_dict_ref in Hd' as (lr & -> & Hlr).
    assert (is_dict s0 (VRef lr) d') as Hd0.
    { apply is_dict_ref. exists lr. split; [done|].
      eapply ext_dict; [done| |done]. simpl. congruence. }
    by rewrite (is_dict_agree _ _ _ _ Hd0 Hd).
Qed.

Ltac keyed s f c :=
  match goal with
  | Hsrc : getitem ?data (VStr f) ?s0 = Ok ?src ?s0,
    Hcomp : list_comp (basic_import_from_dict c) ?src ?s0 = Ok ?l ?s1,
    Hset1 : setitem ?data f ?l ?s1 = Ok _ ?s2,
    Hget : getitem ?data (VStr f) ?s2 = Ok ?src' ?s2,
    Hdict : dict_by _ ?src' ?s2 = Ok ?dv ?s3,
    Hset2 : setitem ?data f ?dv ?s3 = Ok _ ?s4,
    Hcons : construct _ ?data ?s5 = Ok _ _ |- _ =>
      let Hk := fresh in
      pose proof (λ H1 H2 H3 H4,
                    keyed_field c _ data f s _ _ _ _ _ _ _ _ _ _ _ _ _ _
                      H1 H2 Hsrc Hcomp Hset1 Hget Hdict Hset2 H3 H4 Hcons)
        as Hk;
      destruct Hk as (? & ? & ? & ?); [chain..|]
  end.

(** A task with two attachment records named "grader.cpp": the two
    attachment entities are at locations 7 and 8, and the dictionary
    holds the second one only. *)
Example later_attachment_wins :
  let r0 := load (Sample.task "t0" [Sample.file "grader.cpp" "first";
                                    Sample.file "grader.cpp" "second"]) empty in
  let r := task_import_from_dict (value_of r0) (state_of r0) in
  reach r [Attr "attachments"] = Some (VRef 10) ∧
  obj_at (state_of r) (VRef 10) = Some (ODict [(VStr "grader.cpp", VRef 8)]) ∧
  reach r [Attr "attachments"; Key (VStr "grader.cpp"); Attr "digest"]
    = Some (VStr "second") ∧
  attr_of (state_of r) (VRef 7) "digest" = Some (VStr "first").
Proof. by vm_compute. Qed.

(** ** Sequences of new instances *)

Lemma is_inst_lt s v c a l : is_inst s v c a → v = VRef l → l < length (heap s).
Proof. intros (l' & -> & Hl)%is_inst_ref [= <-]. by eapply lookup_lt_Some. Qed.

Lemma mapM_M_builds c f xs s vs s' :
  builds c f → mapM_M f xs s = Ok vs s' →
  ext any s s' ∧
  ∃ ls, vs = VRef <$> ls ∧ NoDup ls ∧ length ls = length xs ∧
    Forall (λ l, length (heap s) ≤ l ∧ ∃ a, is_inst s' (VRef l) c a) ls.
Proof.
  intros Hf. revert s vs. induction xs as [|x xs IH]; intros s vs.
  - intros [<- <-]%ret_Ok. split; [done|]. exists []. split_and!; try done.
    constructor.
  - intros (y & s1 & ys & Hy & Hm & ->)%mapM_M_Ok_cons.
    destruct (Hf _ _ _ _ Hy) as (He1 & l & a & -> & Hl & Hi).
    destruct (IH _ _ Hm) as (He2 & ls & -> & Hnd & Hlen & Hall).
    split; [by etrans|]. exists (l :: ls). split_and!.
    + done.
    + constructor; [|done]. intros Hin. rewrite Forall_forall in Hall.
      destruct (Hall l Hin) as [Hge _].
      pose proof (is_inst_lt _ _ _ _ l Hi eq_refl). lia.
    + simpl. by rewrite Hlen.
    + constructor.
      * split; [done|]. eauto using ext_inst.
      * eapply Forall_impl; [done|]. intros l' [Hge Hi'].
        split; [|done]. pose proof (ext_length _ _ _ He1). lia.
Qed.

Lemma list_comp_builds c f src s lv s' :
  builds c f → list_comp f src s = Ok lv s' →
  ext any s s' ∧
  ∃ xs ls, iter src s = Ok xs s ∧ is_list s' lv (VRef <$> ls) ∧ NoDup ls ∧
    length ls = length xs ∧
    Forall (λ l, length (heap s) ≤ l < length (heap s') ∧
                 ∃ a, is_inst s' (VRef l) c a) ls.
Proof.
  intros Hf (xs & s0 & Hit & (vs & s1 & Hm & [-> ->]%alloc_Ok)%bind_Ok)%bind_Ok.
  pose proof (iter_pure _ _ _ _ Hit) as ->.
  destruct (mapM_M_builds _ _ _ _ _ _ Hf Hm) as (He & ls & -> & Hnd & Hlen & Hall).
  split; [etrans; [done|apply ext_alloc]|]. exists xs, ls.
  split_and!; [done| |done|done|].
  - unfold is_list. simpl. by rewrite lookup_app_r, Nat.sub_diag.
  - eapply Forall_impl; [done|]. intros l (Hge & a & Hi). split.
    + pose proof (is_inst_lt _ _ _ _ l Hi eq_refl). simpl.
      rewrite length_app. simpl. lia.
    + exists a. eapply ext_inst; [apply (ext_alloc any)|done].
Qed.

Lemma construct_builds c : builds c (construct c).
Proof.
  intros x s v s' (d & a & _ & _ & Hi & -> & He)%construct_inst.
  split; [by eapply ext_weaken|]. eauto 6.
Qed.

Lemma builds_submission_import tasks :
  builds Submission (λ data, submission_import_from_dict data tasks).
Proof.
  intros data s v s' H.
  pose proof (ext_run_submission_import any data tasks ltac:(done) _ _ _ H) as He.
  split; [done|]. unfold submission_import_from_dict in H. inv_run H. pure_steps.
  rel_steps (ext any).
  destruct (construct_builds _ _ _ _ _ H) as (_ & l & a & -> & Hl & Hi).
  exists l, a. split_and!; [done| |done].
  match goal with H : construct _ _ ?s1 = _ |- _ =>
    assert (ext any s s1) as He1 by chain end.
  pose proof (ext_length _ _ _ He1). lia.
Qed.

(** ** The back-reference patch *)

Global Hint Extern 1 (run_rel (ext _) (submission_import_from_dict _ _)) =>
  apply ext_run_submission_import; first [done | intros; exact I] : run.
Global Hint Extern 1 (run_rel (ext _) (score_import_from_dict _ _ _)) =>
  apply ext_run_score_import; first [done | intros; exact I] : run.
Global Hint Extern 1 (run_rel (ext _) (task_import_from_dict _)) =>
  apply ext_run_task_import; first [done | intros; exact I] : run.
Global Hint Resolve same_patches_submission_import same_patches_score_import
  : run.

Lemma forM_setattr name v ls s u s' :
  forM_ (λ x, setattr x name v) (VRef <$> ls) s = Ok u s' →
  patches s' = patches s ++ ((λ l, (l, name, v)) <$> ls) ∧
  length (heap s') = length (heap s) ∧
  (∀ l, l ∉ ls → heap s' !! l = heap s !! l) ∧
  (∀ l, l ∈ ls → ∃ c a a', heap s !! l = Some (OInst c a) ∧
                          heap s' !! l = Some (OInst c a') ∧
                          al_get name a' = Some v).
Proof.
  revert s. induction ls as [|l ls IH]; intros s; simpl.
  - intros [_ <-]%ret_Ok. split_and!; [by rewrite app_nil_r|done|done|].
    by intros l ?%not_elem_of_nil.
  - intros (u1 & s1 & (l' & c & a & [= <-] & Hl & ->)%setattr_Ok & H)%bind_Ok.
    destruct (IH _ H) as (Hp & Hlen & Hout & Hin). simpl in *.
    split_and!.
    + by rewrite Hp, <- (assoc_L (++)).
    + by rewrite Hlen, length_insert.
    + intros l0 [Hne Hnin]%not_elem_of_cons.
      by rewrite Hout, list_lookup_insert_ne.
    + intros l0 Hl0. destruct (decide (l0 ∈ ls)) as [Hls|Hls].
      * destruct (Hin l0 Hls) as (c1 & a1 & a1' & Hl1 & Hl1' & Hg).
        destruct (decide (l = l0)) as [<-|Hne].
        -- rewrite list_lookup_insert_eq in Hl1 by (by eapply lookup_lt_Some).
           injection Hl1 as <- <-. eauto 6.
        -- rewrite list_lookup_insert_ne in Hl1 by done. eauto 6.
      * apply elem_of_cons in Hl0 as [->|?]; [|done].
        exists c, a, (al_set name v a). split_and!; [done| |apply al_get_set_eq].
        rewrite Hout by done. apply list_lookup_insert_eq. by eapply lookup_lt_Some.
Qed.

Lemma field_same_obj s s' l name v :
  heap s' !! l = heap s !! l → field s (VRef l) name v → field s' (VRef l) name v.
Proof. unfold field, attr_of, obj_at. by intros ->. Qed.

Lemma is_list_same_obj s s' l vs :
  heap s' !! l = heap s !! l → is_list s (VRef l) vs → is_list s' (VRef l) vs.
Proof. unfold is_list, obj_at. by intros ->. Qed.

Lemma is_inst_same_obj s s' l c a :
  heap s' !! l = heap s !! l → is_inst s (VRef l) c a → is_inst s' (VRef l) c a.
Proof. unfold is_inst, obj_at. by intros ->. Qed.

Lemma user_import_Ok data tasks s u s' :
  user_import_from_dict data tasks s = Ok u s' →
  ∃ ls, owns s' u ls ∧ patches s' = patches s ++ user_patches u ls ∧
    Forall (λ l, length (heap s) ≤ l < length (heap s')) ls ∧
    ext any s s' ∧
    ∃ l a, u = VRef l ∧ length (heap s) ≤ l ∧ is_inst s' u User a.
Proof.
  intros H. unfold user_import_from_dict in H. inv_run H. pure_steps.
  rel_steps (ext any). rel_steps same_patches.
  match goal with
  | Hcomp : list_comp _ _ ?sa = Ok ?lsubs ?sb,
    Hset : setitem data "submissions" ?lsubs ?sb = Ok _ ?sc,
    Hcons : construct User data ?sc = Ok ?obj ?sd,
    Hga : getattr ?obj "submissions" ?sd = Ok ?subsv ?sd,
    Hit : iter ?subsv ?sd = Ok ?xs ?sd,
    Hfor : forM_ _ ?xs ?sd = Ok _ _ |- _ =>
      destruct (list_comp_builds _ _ _ _ _ _ (builds_submission_import tasks) Hcomp)
        as (He_ab%ext_length & xs0 & ls & _ & Hlist & Hnd & _ & Hall);
      assert (ext any s sa) as He_a by chain;
      assert (ext any sb sd) as He_bd by chain;
      assert (ext any s sd) as He_d by chain;
      assert (same_patches s sd) as Hp_d by chain;
      pose proof (construct_field _ _ _ _ _ _ _ Hcons (setitem_item _ _ _ _ _ _ Hset))
        as Hfield;
      destruct (construct_builds _ _ _ _ _ Hcons) as (_ & lu & au & -> & Hlu & Hiu);
      apply getattr_Ok in Hga as [Hga _];
      rewrite (field_agree _ _ _ _ _ Hga Hfield) in *;
      pose proof (ext_list _ _ _ _ _ He_bd Hlist) as Hlist_d;
      rewrite (iter_list _ _ _ Hlist_d) in Hit; injection Hit as <-;
      destruct (forM_setattr _ _ _ _ _ _ Hfor) as (Hp & Hlen & Hout & Hin);
      pose proof (ext_length _ _ _ He_a) as Hlen_a;
      pose proof (ext_length _ _ _ He_bd) as Hlen_bd;
      pose proof (ext_run_setitem any _ _ _ ltac:(done) _ _ _ Hset) as He_bc;
      pose proof (ext_length _ _ _ He_bc) as Hlen_bc
  end.
  rewrite Forall_forall in Hall.
  assert (∀ l, l ∈ ls → l < lu) as Hlt.
  { intros l Hl. destruct (Hall l Hl) as [[_ ?] _]. lia. }
  assert (lu ∉ ls) as Hlu_out.
  { intros Hl. apply Hlt in Hl. lia. }
  exists ls. split_and!.
  - split; [done|]. apply is_list_ref in Hlist_d as (ll & -> & Hll).
    exists (VRef ll). split_and!.
    + eapply field_same_obj; [|done]. by apply Hout.
    + eapply is_list_same_obj; [|by apply is_list_ref; eauto]. apply Hout.
      intros Hl. destruct (Hin ll Hl) as (c & a & a' & Hc & _). congruence.
    + apply Forall_forall. intros l Hl.
      destruct (Hin l Hl) as (c & a & a' & Hc & Hc' & Hg).
      destruct (Hall l Hl) as (_ & a0 & Hi0).
      apply (ext_inst _ _ _ _ _ _ He_bd), is_inst_ref in Hi0
        as (? & [= <-] & Hi0).
      rewrite Hc in Hi0. injection Hi0 as -> ->. split.
      * exists a'. apply is_inst_ref. eauto.
      * unfold field, attr_of, obj_at. by rewrite Hc'.
  - rewrite Hp, Hp_d. done.
  - apply Forall_forall. intros l Hl. destruct (Hall l Hl) as [[? ?] _]. lia.
  - destruct He_d as [Hlen_d Hobj]. split; [lia|]. intros l o Hl.
    rewrite Hout; [by apply Hobj|]. intros Hin'. apply lookup_lt_Some in Hl.
    destruct (Hall l Hin') as [[? ?] _]. lia.
  - exists lu, au. split_and!; [done|lia|].
    eapply is_inst_same_obj; [|done]. by apply Hout.
Qed.

Lemma owns_ext P s s' u ls : ext P s s' → owns s u ls → owns s' u ls.
Proof.
  intros He (Hnd & lsub & Hf & Hl & Hall). split; [done|]. exists lsub.
  split_and!; [by eapply ext_field|by eapply ext_list|].
  eapply Forall_impl; [done|]. intros l [(a & Hi) Hu].
  split; [eauto using ext_inst|by eapply ext_field].
Qed.

Lemma imports_user_user_import data :
  imports_user (λ user_data,
    tasks ← getitem data (VStr "tasks"); user_import_from_dict user_data tasks).
Proof.
  intros x s u s' (tasks & s0 & Hg & H)%bind_Ok.
  pose proof (getitem_pure _ _ _ _ _ Hg) as ->.
  destruct (user_import_Ok _ _ _ _ _ H) as (ls & ? & ? & ? & ? & _). eauto.
Qed.

Lemma mapM_M_imports_user f xs s us s' :
  imports_user f → mapM_M f xs s = Ok us s' →
  ext any s s' ∧
  ∃ lss, Forall2 (owns s') us lss ∧ NoDup (concat lss) ∧
    Forall (λ l, length (heap s) ≤ l < length (heap s')) (concat lss) ∧
    patches s' = patches s ++ concat (zip_with user_patches us lss).
Proof.
  intros Hf. revert s us. induction xs as [|x xs IH]; intros s us.
  - intros [<- <-]%ret_Ok. split; [done|]. exists []. simpl.
    split_and!; [constructor|constructor|constructor|by rewrite app_nil_r].
  - intros (u & s1 & us' & Hu & Hm & ->)%mapM_M_Ok_cons.
    destruct (Hf _ _ _ _ Hu) as (ls & Hown & Hp1 & Hr1 & He1).
    destruct (IH _ _ Hm) as (He2 & lss & Hall & Hnd & Hr2 & Hp2).
    pose proof (ext_length _ _ _ He1). pose proof (ext_length _ _ _ He2).
    split; [by etrans|]. exists (ls :: lss). simpl. split_and!.
    + constructor; [by eapply owns_ext|done].
    + apply NoDup_app. split_and!; [by destruct Hown| |done].
      intros l Hl Hl'. rewrite Forall_forall in Hr1, Hr2.
      specialize (Hr1 l Hl). specialize (Hr2 l Hl'). lia.
    + apply Forall_app. split; (eapply Forall_impl; [done|]); simpl; intros; lia.
    + by rewrite Hp2, Hp1, <- (assoc_L (++)).
Qed.

(** What the remaining builders keep. *)

Lemma same_patches_task_import data :
  run_rel same_patches (task_import_from_dict data).
Proof. unfold task_import_from_dict. run_auto. Qed.

Lemma ext_run_rankingview_import data tasks users :
  run_rel (ext any) (rankingview_import_from_dict data tasks users).
Proof. unfold rankingview_import_from_dict. run_auto. Qed.

Lemma same_patches_rankingview_import data tasks users :
  run_rel same_patches (rankingview_import_from_dict data tasks users).
Proof. unfold rankingview_import_from_dict. run_auto. Qed.

Lemma keeps_run_score_import k data tasks users :
  Forall (λ k', k ≠ VStr k') ["task"; "user"] →
  run_rel (keeps k) (score_import_from_dict data tasks users).
Proof.
  intros Hk. unfold score_import_from_dict. run_auto.
  all: apply keeps_run_setitem; intros ->; revert Hk.
  all: rewrite !Forall_cons; naive_solver.
Qed.

Lemma keeps_run_rankingview_import k data tasks users :
  Forall (λ k', k ≠ VStr k') ["scores"; "task"; "user"] →
  run_rel (keeps k) (rankingview_import_from_dict data tasks users).
Proof.
  intros Hk. unfold rankingview_import_from_dict. run_auto.
  all: try (apply keeps_run_score_import; revert Hk; rewrite !Forall_cons;
            naive_solver).
  all: apply keeps_run_setitem; intros ->; revert Hk.
  all: rewrite !Forall_cons; naive_solver.
Qed.

Lemma keeps_run_user_import k data tasks :
  Forall (λ k', k ≠ VStr k')
    ["messages"; "questions"; "submissions";
     "files"; "executables"; "evaluations"; "token"; "task"; "user"] →
  run_rel (keeps k) (user_import_from_dict data tasks).
Proof.
  intros Hk. unfold user_import_from_dict. run_auto.
  all: try (apply keeps_run_submission_import; revert Hk; rewrite !Forall_cons;
            naive_solver).
  all: apply keeps_run_setitem; intros ->; revert Hk.
  all: rewrite !Forall_cons; naive_solver.
Qed.

Global Hint Extern 1 (run_rel (ext _) (rankingview_import_from_dict _ _ _)) =>
  apply ext_run_rankingview_import : run.
Global Hint Extern 1 (run_rel (keeps _) (rankingview_import_from_dict _ _ _)) =>
  apply keeps_run_rankingview_import; repeat constructor; discriminate : run.
Global Hint Extern 1 (run_rel (keeps _) (user_import_from_dict _ _)) =>
  apply keeps_run_user_import; repeat constructor; discriminate : run.
Global Hint Extern 1 (run_rel (keeps _) (submission_import_from_dict _ _)) =>
  apply keeps_run_submission_import; repeat constructor; discriminate : run.
Global Hint Extern 1 (run_rel (keeps _) (score_import_from_dict _ _ _)) =>
  apply keeps_run_score_import; repeat constructor; discriminate : run.
Global Hint Resolve same_patches_task_import same_patches_rankingview_import
  : run.

Lemma ext_run_user_import data tasks :
  run_rel (ext any) (user_import_from_dict data tasks).
Proof.
  intros s u s' H. by destruct (user_import_Ok _ _ _ _ _ H) as (? & _ & _ & _ & ? & _).
Qed.

Global Hint Extern 1 (run_rel (ext _) (user_import_from_dict _ _)) =>
  apply ext_run_user_import : run.

Lemma list_comp_imports_user f src s lv s' :
  imports_user f → list_comp f src s = Ok lv s' →
  ext any s s' ∧
  ∃ us lss, is_list s' lv us ∧ Forall2 (owns s') us lss ∧ NoDup (concat lss) ∧
    patches s' = patches s ++ concat (zip_with user_patches us lss).
Proof.
  intros Hf (xs & s0 & Hit & (us & s1 & Hm & [-> ->]%alloc_Ok)%bind_Ok)%bind_Ok.
  pose proof (iter_pure _ _ _ _ Hit) as ->.
  destruct (mapM_M_imports_user _ _ _ _ _ Hf Hm) as (He & lss & Hall & Hnd & _ & Hp).
  split; [etrans; [done|apply ext_alloc]|]. exists us, lss.
  split_and!; [|..|done|done].
  - unfold is_list. simpl. by rewrite lookup_app_r, Nat.sub_diag.
  - eapply Forall2_impl; [done|]. intros u ls. apply owns_ext with any, ext_alloc.
Qed.

(** C1.  After a user is imported, its submission sequence consists of
    distinct submissions whose user field is that very user object, and
    the attribute assignments made are exactly one [user] patch for each
    of them.  After a contest is imported this holds of every user of its
    user sequence: no submission that can be reached is left without its
    user, and no submission is patched twice. *)
Theorem back_references_closed :
  (∀ data tasks s u s', user_import_from_dict data tasks s = Ok u s' →
     ∃ ls, owns s' u ls ∧ patches s' = patches s ++ user_patches u ls) ∧
  (∀ data s c s', contest_import_from_dict data s = Ok c s' →
     ∃ lu us lss, field s' c "users" lu ∧ is_list s' lu us ∧
       Forall2 (owns s') us lss ∧ NoDup (concat lss) ∧
       patches s' = patches s ++ concat (zip_with user_patches us lss)).
Proof.
  split.
  - intros data tasks s u s' H.
    destruct (user_import_Ok _ _ _ _ _ H) as (ls & ? & ? & _). eauto.
  - intros data s c s' H. unfold contest_import_from_dict in H.
    inv_run H. pure_steps.
    rel_steps (ext any). rel_steps same_patches. rel_steps (keeps (VStr "users")).
    match goal with
    | Hcomp : list_comp _ _ ?s2 = Ok ?users ?s3,
      Hset : setitem data "users" ?users ?s3 = Ok _ ?s4,
      Hcons : construct Contest data ?s5 = Ok _ _ |- _ =>
        destruct (list_comp_imports_user _ _ _ _ _
                    (imports_user_user_import data) Hcomp)
          as (_ & us & lss & Hl & Hall & Hnd & Hp);
        assert (same_patches s s2) as Hp2 by chain;
        assert (same_patches s3 s') as Hp3 by chain;
        assert (ext any s3 s') as He3 by chain;
        assert (keeps (VStr "users") s4 s5) as Hk by chain;
        pose proof (construct_field _ _ _ _ _ _ _ Hcons
                      (keeps_item _ _ _ _ _ Hk (setitem_item _ _ _ _ _ _ Hset)))
          as Hfield;
        exists users, us, lss
    end.
    split_and!; [done|by eapply ext_list| |done|].
    + eapply Forall2_impl; [done|]. intros u ls. by apply owns_ext with any.
    + unfold same_patches in *. congruence.
Qed.

Lemma back_references_closed_witness :
  let r0 := load (Sample.contest [Sample.task "t0" []]
                    [Sample.user "alice" [Sample.submission 0 [];
                                          Sample.submission 0 []];
                     Sample.user "bob" [Sample.submission 0 []]] []) empty in
  let data := value_of r0 in
  let s := state_of r0 in
  let r := contest_import_from_dict data s in
  r = Ok (value_of r) (state_of r) ∧
  ∃ lu us lss, field (state_of r) (value_of r) "users" lu ∧
    is_list (state_of r) lu us ∧
    Forall2 (owns (state_of r)) us lss ∧ NoDup (concat lss) ∧
    patches (state_of r) = patches s ++ concat (zip_with user_patches us lss).
Proof.
  intros r0 data s r. split; [by vm_compute|].
  apply (proj2 back_references_closed data s (value_of r) (state_of r)).
  by vm_compute.
Defined.

(** In that run the three submissions are patched once each, with their
    own user, and the user field of each submission is its owner. *)
Example three_submissions_patched :
  let r := import (Sample.contest [Sample.task "t0" []]
                     [Sample.user "alice" [Sample.submission 0 [];
                                           Sample.submission 0 []];
                      Sample.user "bob" [Sample.submission 0 []]] []) in
  (∃ a b x y z,
     reach r [Attr "users"; Index 0] = Some a ∧
     reach r [Attr "users"; Index 1] = Some b ∧ a ≠ b ∧
     patches (state_of r) = [(x, "user", a); (y, "user", a); (z, "user", b)] ∧
     NoDup [x; y; z]) ∧
  reach r [Attr "users"; Index 0; Attr "submissions"; Index 1; Attr "user"]
    = reach r [Attr "users"; Index 0] ∧
  reach r [Attr "users"; Index 1; Attr "submissions"; Index 0; Attr "user";
           Attr "username"] = Some (VStr "bob").
Proof.
  intros r. split; [|by vm_compute].
  vm_compute. eexists _, _, _, _, _. split_and!; try reflexivity.
  - discriminate.
  - repeat constructor; rewrite ?elem_of_cons, ?elem_of_nil; intros H;
      repeat destruct H as [H|H]; discriminate || done.
Qed.

(** ** The ranking view *)

Lemma dict_by_pure keyf src s dv s' :
  (∀ x, pure (keyf x)) →
  dict_by keyf src s = Ok dv s' ↔
  ∃ xs ps, iter src s = Ok xs s ∧
    Forall2 (λ x p, p.2 = x ∧ keyf x s = Ok p.1 s) xs ps ∧
    forallb (hashable (heap s)) ps.*1 = true ∧
    dv = VRef (length (heap s)) ∧
    s' = State (heap s ++ [ODict (al_of_list ps)]) (patches s).
Proof.
  intros Hk. unfold dict_by.
  assert (∀ x, pure (k ← keyf x; mret (k, x))) as Hpure.
  { intros x. apply bind_pure; [done|intros ?; apply ret_pure]. }
  assert (∀ x p, (k ← keyf x; mret (k, x)) s = Ok p s ↔
                 p.2 = x ∧ keyf x s = Ok p.1 s) as Hkey.
  { intros x [k y]. rewrite bind_Ok. simpl. split.
    - intros (k' & s1 & Hf & [[= <- <-] <-]%ret_Ok). done.
    - intros [-> Hf]. exists k, s. split; [done|by apply ret_Ok]. }
  rewrite bind_Ok. split.
  - intros (xs & s1 & Hit & (ps & s2 & Hm & Hn)%bind_Ok).
    pose proof (iter_pure _ _ _ _ Hit) as ->.
    apply mapM_M_pure in Hm as [-> Hall]; [|done].
    apply new_dict_Ok in Hn as (Hh & -> & ->). exists xs, ps.
    split_and!; [done| |done..]. eapply Forall2_impl; [done|].
    intros x p. apply Hkey.
  - intros (xs & ps & Hit & Hall & Hh & -> & ->). exists xs, s. split; [done|].
    apply bind_Ok. exists ps, s. split; [|by apply new_dict_Ok].
    apply mapM_M_pure; [done|]. split; [done|]. eapply Forall2_impl; [done|].
    intros x p. apply Hkey.
Qed.

Lemma rankingview_keyfunc_Ok x s k s' :
  rankingview_keyfunc x s = Ok k s' ↔ score_key s x k ∧ s' = s.
Proof.
  unfold rankingview_keyfunc, score_key. rewrite bind_Ok. split.
  - intros (t & s1 & [Ht ->]%getattr_Ok &
            (u & s2 & [Hu ->]%getattr_Ok & [<- <-]%ret_Ok)%bind_Ok). eauto 6.
  - intros [(t & u & Ht & Hu & ->) ->]. exists t, s. split; [by apply getattr_Ok|].
    apply bind_Ok. exists u, s. split; [by apply getattr_Ok|by apply ret_Ok].
Qed.

Lemma score_key_agree s x k k' : score_key s x k → score_key s x k' → k = k'.
Proof.
  intros (t & u & Ht & Hu & ->) (t' & u' & Ht' & Hu' & ->).
  by rewrite (field_agree _ _ _ _ _ Ht Ht'), (field_agree _ _ _ _ _ Hu Hu').
Qed.

Lemma score_key_ext P s s' x c a k :
  ext P s s' → is_inst s x c a → score_key s' x k ↔ score_key s x k.
Proof.
  intros He Hi. unfold score_key.
  by setoid_rewrite (ext_field_inst P s s' x c a _ _ He Hi).
Qed.

Lemma builds_score_import tasks users :
  builds Score (λ data, score_import_from_dict data tasks users).
Proof.
  intros data s v s' H.
  pose proof (ext_run_score_import any data tasks users ltac:(done) _ _ _ H) as He.
  split; [done|]. unfold score_import_from_dict in H. inv_run H. pure_steps.
  rel_steps (ext any).
  destruct (construct_builds _ _ _ _ _ H) as (_ & l & a & -> & Hl & Hi).
  exists l, a. split_and!; [done| |done].
  match goal with H : construct _ _ ?s1 = _ |- _ =>
    assert (ext any s s1) as He1 by chain end.
  pose proof (ext_length _ _ _ He1). lia.
Qed.

Lemma rankingview_import_Ok data tasks users s rv s' :
  rankingview_import_from_dict data tasks users s = Ok rv s' →
  ∃ xs d, NoDup xs ∧ Forall (λ x, ∃ a, is_inst s' x Score a) xs ∧
          scores_of s' rv xs d.
Proof.
  intros H. unfold rankingview_import_from_dict in H. inv_run H. pure_steps.
  match goal with
  | Hcomp : list_comp _ _ s = Ok ?l ?s1,
    Hset1 : setitem data "scores" ?l ?s1 = Ok _ ?s2,
    Hget : getitem data (VStr "scores") ?s2 = Ok ?src' ?s2,
    Hdict : dict_by _ ?src' ?s2 = Ok ?dv ?s3,
    Hset2 : setitem data "scores" ?dv ?s3 = Ok _ ?s4 |- _ =>
      destruct (list_comp_builds _ _ _ _ _ _ (builds_score_import tasks users) Hcomp)
        as (_ & xs0 & ls & _ & Hlist & Hnd & _ & Hall);
      pose proof (ext_run_setitem (λ l, data = VRef l) data "scores" _
                    ltac:(done) _ _ _ Hset1) as He12;
      pose proof (ext_run_setitem (λ l, data = VRef l) data "scores" _
                    ltac:(done) _ _ _ Hset2) as He34;
      pose proof (ext_run_construct (λ l, data = VRef l) _ _ _ _ _ H) as He4;
      apply getitem_item in Hget as [Hget _];
      rewrite (item_agree _ _ _ _ _ Hget (setitem_item _ _ _ _ _ _ Hset1)) in *;
      pose proof (construct_field _ _ _ _ _ _ _ H (setitem_item _ _ _ _ _ _ Hset2))
        as Hfield;
      apply dict_by_pure in Hdict
        as (xs & ps & Hit & Hps & _ & -> & ->);
        [|apply rankingview_keyfunc_pure];
      pose proof (ext_list _ _ _ _ _ He12 Hlist) as Hlist2;
      rewrite (iter_list _ _ _ Hlist2) in Hit; injection Hit as <-;
      apply setitem_Ok in Hset1 as (ld & d0 & -> & Hld & Hs2)
  end.
  set (s3 := State (_ ++ _) _) in *.
  assert (ext (λ l, VRef ld = VRef l) s2 s3) as He23 by apply ext_alloc.
  assert (ext (λ l, VRef ld = VRef l) s3 s') as He3 by (by etrans).
  assert (Forall (λ x, ∃ a, is_inst s2 x Score a) (VRef <$> ls)) as Hinst.
  { apply Forall_fmap. eapply Forall_impl; [done|]. intros l (_ & a & Hi).
    exists a. by eapply ext_inst. }
  exists (VRef <$> ls), (al_of_list ps). split_and!.
  - apply NoDup_fmap; [by intros ?? [= ->]|done].
  - eapply Forall_impl; [done|]. intros x (a & Hi). exists a.
    eapply ext_inst; [|done]. by etrans.
  - split.
    + eexists. split; [done|]. apply is_dict_ref. eexists. split; [done|].
      eapply ext_dict; [done| |].
      * intros [= ->]. apply lookup_lt_Some in Hld. rewrite Hs2 in Hld.
        simpl in Hld. rewrite length_insert in Hld. lia.
      * unfold s3. simpl. by rewrite lookup_app_r, Nat.sub_diag.
    + intros k x. rewrite al_get_of_list_last.
      assert (∀ y k', y ∈ VRef <$> ls →
                score_key s' y k' ↔ rankingview_keyfunc y s2 = Ok k' s2) as Hkey.
      { intros y k' Hy. rewrite Forall_forall in Hinst.
        destruct (Hinst y Hy) as (a & Hi). rewrite rankingview_keyfunc_Ok.
        rewrite (score_key_ext (λ l, VRef ld = VRef l) s2 s' y Score a);
          [naive_solver| |done].
        by etrans. }
      assert (∀ i y, (VRef <$> ls) !! i = Some y → y ∈ VRef <$> ls) as Hin.
      { intros i y Hi. apply list_elem_of_lookup. eauto. }
      unfold last_with. split.
      * intros (j & Hj & _ & Hlast).
        destruct (Forall2_lookup_r _ _ _ _ _ Hps Hj) as (y & Hy & Heq & Hf).
        simpl in *. subst y. exists j. split_and!; [done|by apply Hkey; eauto|].
        intros j' x' Hj' Hx' Hf'.
        destruct (Forall2_lookup_l _ _ _ _ _ Hps Hx') as (p & Hp & _ & Hfp).
        apply (Hlast j' p Hj' Hp). apply Hkey in Hf'; [|by eauto]. congruence.
      * intros (j & Hj & Hf & Hlast).
        destruct (Forall2_lookup_l _ _ _ _ _ Hps Hj) as ([k' y] & Hp & Heq & Hfp).
        simpl in *. subst y. apply Hkey in Hf; [|by eauto].
        assert (k' = k) as -> by congruence.
        exists j. split_and!; [done|done|]. intros j' p Hj' Hp' Hk.
        destruct (Forall2_lookup_r _ _ _ _ _ Hps Hp') as (y & Hy & _ & Hfy).
        apply (Hlast j' y Hj' Hy). apply Hkey; [by eauto|]. by rewrite <- Hk.
Qed.

(** C5 (as stated, refuted).  Two score records of the same task and the
    same user are imported into two distinct Score entities, at locations
    31 and 32, that share their (task, user) key; looking that key up in
    the scores mapping returns the second entity, and the first one is not
    in the mapping. *)
Lemma scores_sharing_a_pair :
  let r := import (Sample.contest [Sample.task "t0" []] [Sample.user "alice" []]
                     [Sample.score 0 "alice" 10; Sample.score 0 "alice" 20]) in
  let s := state_of r in
  error_of r = None ∧
  obj_at s (VRef 31) =
    Some (OInst Score [("task", VRef 23); ("user", VRef 28); ("score", VInt 10)]) ∧
  obj_at s (VRef 32) =
    Some (OInst Score [("task", VRef 23); ("user", VRef 28); ("score", VInt 20)]) ∧
  reach r [Attr "ranking_view"; Attr "scores"; Key (VPair (VRef 23) (VRef 28))]
    = Some (VRef 32) ∧
  reach r [Attr "ranking_view"; Attr "scores"] = Some (VRef 34) ∧
  obj_at s (VRef 34) = Some (ODict [(VPair (VRef 23) (VRef 28), VRef 32)]).
Proof. by vm_compute. Qed.

(** ** The order of construction *)

Global Instance grows_preorder C : PreOrder (grows C).
Proof.
  split.
  - intros s. exists []. split; [by rewrite app_nil_r|constructor].
  - intros s1 s2 s3 (n1 & H1 & HC1) (n2 & H2 & HC2). exists (n1 ++ n2). split.
    + by rewrite H2, H1, <- (assoc_L (++)).
    + by apply Forall_app.
Qed.

Lemma grows_weaken C C' s s' : C ⊆ C' → grows C s s' → grows C' s s'.
Proof.
  intros HC (new & H & Hall). exists new. split; [done|].
  eapply Forall_impl; [done|]. intros c. apply HC.
Qed.

Lemma classes_app h1 h2 : classes (h1 ++ h2) = classes h1 ++ classes h2.
Proof. apply omap_app. Qed.

Lemma classes_insert h l o o' :
  h !! l = Some o → inst_class o' = inst_class o → classes (<[l := o']> h) = classes h.
Proof.
  revert l. induction h as [|o0 h IH]; intros [|l]; simpl; try done.
  - intros [= ->] Hc. unfold classes. simpl. by rewrite Hc.
  - intros Hl Hc. unfold classes in *. simpl. by rewrite (IH l).
Qed.

Lemma grows_alloc C s o :
  (∀ c, inst_class o = Some c → c ∈ C) →
  grows C s (State (heap s ++ [o]) (patches s)).
Proof.
  intros HC. exists (classes [o]). split; [apply classes_app|].
  unfold classes. simpl. destruct (inst_class o) as [c|]; simpl; [|constructor].
  constructor; [by apply HC|constructor].
Qed.

Lemma grows_run_alloc_list C vs : run_rel (grows C) (alloc (OList vs)).
Proof. intros s v s' [_ ->]%alloc_Ok. by apply grows_alloc. Qed.

Lemma grows_run_new_dict C ps : run_rel (grows C) (new_dict ps).
Proof. intros s v s' (_ & _ & ->)%new_dict_Ok. by apply grows_alloc. Qed.

Lemma grows_run_construct C c data : c ∈ C → run_rel (grows C) (construct c data).
Proof.
  intros HC s v s' (d & a & _ & _ & _ & ->)%construct_Ok.
  apply grows_alloc. by intros ? [= <-].
Qed.

Lemma grows_run_setitem C c k v : run_rel (grows C) (setitem c k v).
Proof.
  intros s u s' (l & d & -> & Hl & ->)%setitem_Ok. exists []. simpl.
  split; [|constructor]. rewrite app_nil_r. by eapply classes_insert.
Qed.

Lemma grows_run_setattr C o name v : run_rel (grows C) (setattr o name v).
Proof.
  intros s u s' (l & c & a & -> & Hl & ->)%setattr_Ok. exists []. simpl.
  split; [|constructor]. rewrite app_nil_r. by eapply classes_insert.
Qed.

Ltac solve_elem := solve [repeat first [left | right]].

Global Hint Extern 1 (run_rel (grows _) (alloc (OList _))) =>
  apply grows_run_alloc_list : run.
Global Hint Extern 1 (run_rel (grows _) (new_dict _)) =>
  apply grows_run_new_dict : run.
Global Hint Extern 1 (run_rel (grows _) (construct _ _)) =>
  apply grows_run_construct; solve_elem : run.
Global Hint Extern 1 (run_rel (grows _) (setitem _ _ _)) =>
  apply grows_run_setitem : run.
Global Hint Extern 1 (run_rel (grows _) (setattr _ _ _)) =>
  apply grows_run_setattr : run.

Lemma grows_run_submission_import data tasks :
  run_rel (grows user_classes) (submission_import_from_dict data tasks).
Proof. unfold submission_import_from_dict. run_auto. Qed.

Global Hint Resolve grows_run_submission_import : run.

Lemma grows_run_user_import data tasks :
  run_rel (grows user_classes) (user_import_from_dict data tasks).
Proof. unfold user_import_from_dict. run_auto. Qed.

Lemma grows_run_task_import data :
  run_rel (grows task_classes) (task_import_from_dict data).
Proof. unfold task_import_from_dict. run_auto. Qed.

Lemma grows_run_score_import data tasks users :
  run_rel (grows ranking_classes) (score_import_from_dict data tasks users).
Proof. unfold score_import_from_dict. run_auto. Qed.

Global Hint Resolve grows_run_user_import grows_run_task_import
  grows_run_score_import : run.

Lemma grows_run_rankingview_import data tasks users :
  run_rel (grows ranking_classes) (rankingview_import_from_dict data tasks users).
Proof. unfold rankingview_import_from_dict. run_auto. Qed.

Global Hint Resolve grows_run_rankingview_import : run.

Lemma mapM_M_tasks_context data tasks xs s us s' :
  item s data (VStr "tasks") tasks →
  mapM_M (λ user_data, tasks ← getitem data (VStr "tasks");
                       user_import_from_dict user_data tasks) xs s = Ok us s' →
  mapM_M (λ user_data, user_import_from_dict user_data tasks) xs s = Ok us s'.
Proof.
  revert s us. induction xs as [|x xs IH]; intros s us Hitem; [done|].
  rewrite !mapM_M_Ok_cons.
  intros (u & s1 & us' & (t & s0 & [Ht ->]%getitem_item & Hu)%bind_Ok & Hm & ->).
  rewrite (item_agree _ _ _ _ _ Ht Hitem) in Hu.
  exists u, s1, us'. split_and!; [done| |done]. apply IH; [|done].
  eapply keeps_item; [|done].
  eapply (keeps_run_user_import _ x tasks); [|done].
  repeat constructor; discriminate.
Qed.

Lemma list_comp_tasks_context data tasks src s users s' :
  item s data (VStr "tasks") tasks →
  list_comp (λ user_data, tasks ← getitem data (VStr "tasks");
                          user_import_from_dict user_data tasks) src s
    = Ok users s' →
  list_comp (λ user_data, user_import_from_dict user_data tasks) src s
    = Ok users s'.
Proof.
  intros Hitem (xs & s0 & Hit & (us & s1 & Hm & Ha)%bind_Ok)%bind_Ok.
  pose proof (iter_pure _ _ _ _ Hit) as ->.
  apply bind_Ok. exists xs, s. split; [done|]. apply bind_Ok. exists us, s1.
  split; [|done]. by apply (mapM_M_tasks_context data).
Qed.

(** C4.  A contest import that returns has run in this order: the list of
    tasks is built from [data['tasks']]; then the list of users, each user
    import receiving that completed list of tasks; then the list of
    announcements; then the ranking view, receiving the completed lists of
    tasks and of users; and then the Contest is constructed, with these
    four results as its fields.  Each stage starts in the store the stage
    before it ended in, and in the order of construction the entities of
    a stage all come after those of the stages before it. *)
Theorem contest_import_stages data s c s' :
  contest_import_from_dict data s = Ok c s' →
  ∃ src_t tasks s1 s1' src_u users s2 s2' src_a anns s3 s3' src_r rv s4 s4',
    item s data (VStr "tasks") src_t ∧
    list_comp task_import_from_dict src_t s = Ok tasks s1 ∧
    setitem data "tasks" tasks s1 = Ok () s1' ∧
    item s1' data (VStr "users") src_u ∧
    list_comp (λ user_data, user_import_from_dict user_data tasks) src_u s1'
      = Ok users s2 ∧
    setitem data "users" users s2 = Ok () s2' ∧
    item s2' data (VStr "announcements") src_a ∧
    list_comp (basic_import_from_dict Announcement) src_a s2' = Ok anns s3 ∧
    setitem data "announcements" anns s3 = Ok () s3' ∧
    item s3' data (VStr "ranking_view") src_r ∧
    rankingview_import_from_dict src_r tasks users s3' = Ok rv s4 ∧
    setitem data "ranking_view" rv s4 = Ok () s4' ∧
    construct Contest data s4' = Ok c s' ∧
    (field s' c "tasks" tasks ∧ field s' c "users" users ∧
     field s' c "announcements" anns ∧ field s' c "ranking_view" rv) ∧
    (grows task_classes s s1 ∧ grows user_classes s1 s2 ∧
     grows [Announcement] s2 s3 ∧ grows ranking_classes s3 s4 ∧
     grows [Contest] s4 s').
Proof.
  intros H. unfold contest_import_from_dict in H. inv_run H. pure_steps.
  repeat match goal with u : () |- _ => destruct u end.
  rel_steps (keeps (VStr "tasks")). rel_steps (keeps (VStr "users")).
  rel_steps (keeps (VStr "announcements")).
  rel_steps (keeps (VStr "ranking_view")).
  rel_steps (grows task_classes). rel_steps (grows user_classes).
  rel_steps (grows [Announcement]). rel_steps (grows ranking_classes).
  rel_steps (grows [Contest]).
  match goal with
  | Ht : getitem data (VStr "tasks") s = Ok ?src_t s,
    Hlt : list_comp task_import_from_dict ?src_t s = Ok ?tasks ?s1,
    Hst : setitem data "tasks" ?tasks ?s1 = Ok () ?s1',
    Hu : getitem data (VStr "users") ?s1' = Ok ?src_u _,
    Hlu : list_comp _ ?src_u ?s1' = Ok ?users ?s2,
    Hsu : setitem data "users" ?users ?s2 = Ok () ?s2',
    Ha : getitem data (VStr "announcements") ?s2' = Ok ?src_a _,
    Hla : list_comp (basic_import_from_dict Announcement) ?src_a ?s2'
          = Ok ?anns ?s3,
    Hsa : setitem data "announcements" ?anns ?s3 = Ok () ?s3',
    Hr : getitem data (VStr "ranking_view") ?s3' = Ok ?src_r _,
    Hrt : getitem data (VStr "tasks") ?s3' = Ok ?t' _,
    Hru : getitem data (VStr "users") ?s3' = Ok ?u' _,
    Hrv : rankingview_import_from_dict ?src_r ?t' ?u' ?s3' = Ok ?rv ?s4,
    Hsr : setitem data "ranking_view" ?rv ?s4 = Ok () ?s4' |- _ =>
      exists src_t, tasks, s1, s1', src_u, users, s2, s2', src_a, anns, s3, s3',
             src_r, rv, s4, s4';
      pose proof (setitem_item _ _ _ _ _ _ Hst) as It;
      pose proof (setitem_item _ _ _ _ _ _ Hsu) as Iu;
      pose proof (setitem_item _ _ _ _ _ _ Hsa) as Ia;
      pose proof (setitem_item _ _ _ _ _ _ Hsr) as Ir;
      apply getitem_item in Ht as [Ht _]; apply getitem_item in Hu as [Hu _];
      apply getitem_item in Ha as [Ha _]; apply getitem_item in Hr as [Hr _];
      apply getitem_item in Hrt as [Hrt _]; apply getitem_item in Hru as [Hru _];
      assert (keeps (VStr "tasks") s1' s3') as Kt by chain;
      assert (keeps (VStr "users") s2' s3') as Ku by chain;
      rewrite (item_agree _ _ _ _ _ Hrt (keeps_item _ _ _ _ _ Kt It)) in *;
      rewrite (item_agree _ _ _ _ _ Hru (keeps_item _ _ _ _ _ Ku Iu)) in *;
      assert (keeps (VStr "tasks") s1' s4') as Kt' by chain;
      assert (keeps (VStr "users") s2' s4') as Ku' by chain;
      assert (keeps (VStr "announcements") s3' s4') as Ka' by chain;
      assert (grows task_classes s s1) by chain;
      assert (grows user_classes s1 s2) by chain;
      assert (grows [Announcement] s2 s3) by chain;
      assert (grows ranking_classes s3 s4) by chain;
      assert (grows [Contest] s4 s') by chain;
      apply (list_comp_tasks_context _ _ _ _ _ _ It) in Hlu
  end.
  split_and!; try done.
  all: eapply construct_field; [done|]; try done; by eapply keeps_item.
Qed.

Lemma contest_import_stages_witness :
  let r0 := load (Sample.contest
                    [Sample.task "t0" [Sample.file "statement.pdf" "0a"]]
                    [Sample.user "alice" [Sample.submission 0
                                            [Sample.file "sol.cpp" "0b"]]]
                    [Sample.score 0 "alice" 10]) empty in
  let data := value_of r0 in
  let s := state_of r0 in
  let r := contest_import_from_dict data s in
  let c := value_of r in
  let s' := state_of r in
  r = Ok c s' ∧
  ∃ src_t tasks s1 s1' src_u users s2 s2' src_a anns s3 s3' src_r rv s4 s4',
    item s data (VStr "tasks") src_t ∧
    list_comp task_import_from_dict src_t s = Ok tasks s1 ∧
    setitem data "tasks" tasks s1 = Ok () s1' ∧
    item s1' data (VStr "users") src_u ∧
    list_comp (λ user_data, user_import_from_dict user_data tasks) src_u s1'
      = Ok users s2 ∧
    setitem data "users" users s2 = Ok () s2' ∧
    item s2' data (VStr "announcements") src_a ∧
    list_comp (basic_import_from_dict Announcement) src_a s2' = Ok anns s3 ∧
    setitem data "announcements" anns s3 = Ok () s3' ∧
    item s3' data (VStr "ranking_view") src_r ∧
    rankingview_import_from_dict src_r tasks users s3' = Ok rv s4 ∧
    setitem data "ranking_view" rv s4 = Ok () s4' ∧
    construct Contest data s4' = Ok c s' ∧
    (field s' c "tasks" tasks ∧ field s' c "users" users ∧
     field s' c "announcements" anns ∧ field s' c "ranking_view" rv) ∧
    (grows task_classes s s1 ∧ grows user_classes s1 s2 ∧
     grows [Announcement] s2 s3 ∧ grows ranking_classes s3 s4 ∧
     grows [Contest] s4 s').
Proof.
  intros r0 data s r c s'. split; [by vm_compute|].
  apply (contest_import_stages data s c s'). by vm_compute.
Defined.

(** The instances of that run, in their order of construction. *)
Example construction_order :
  classes (heap (state_of (import (Sample.contest
    [Sample.task "t0" [Sample.file "statement.pdf" "0a"]]
    [Sample.user "alice" [Sample.submission 0 [Sample.file "sol.cpp" "0b"]]]
    [Sample.score 0 "alice" 10]))))
  = [Attachment; Task; File; Submission; User; Score; RankingView; Contest].
Proof. by vm_compute. Qed.

(** * The round trip

    The serialized form of a contest graph is loaded into the store and
    imported.  Every builder is followed statement by statement on the
    records [load] lays out: each statement is shown to run, and what it
    leaves in the store is recorded, so that the import as a whole returns
    and its result can be read back as the graph. *)

(** ** Serialized values in the store *)

Lemma json_ind' (P : json → Prop) :
  P JNone → (∀ z, P (JInt z)) → (∀ x, P (JStr x)) →
  (∀ js, Forall P js → P (JList js)) →
  (∀ fs, Forall (λ p, P p.2) fs → P (JDict fs)) →
  ∀ j, P j.
Proof.
  intros HN HI HS HL HD. fix IH 1. intros [|z|x|js|fs]; [done..| |].
  - apply HL. induction js as [|j js IHjs]; constructor; [apply IH|apply IHjs].
  - apply HD. induction fs as [|[k j] fs IHfs]; constructor; [apply IH|apply IHfs].
Qed.


Lemma repr_bounds s :
  (∀ j a b v, repr s j a b v → a ≤ b) ∧
  (∀ js a b vs, reprs s js a b vs → a ≤ b ∧ length vs = length js).
Proof.
  apply repr_reprs_ind; intros; simpl in *; try lia.
  all: split; [lia|]; try done; f_equal; lia.
Qed.

Lemma repr_frame s s' :
  (∀ j a b v, repr s j a b v →
     (∀ l, a ≤ l < b → heap s' !! l = heap s !! l) → repr s' j a b v) ∧
  (∀ js a b vs, reprs s js a b vs →
     (∀ l, a ≤ l < b → heap s' !! l = heap s !! l) → reprs s' js a b vs).
Proof.
  apply repr_reprs_ind; try by constructor.
  - intros js a m vs Hrs IH Hm Hs'. pose proof (proj2 (repr_bounds s) _ _ _ _ Hrs).
    apply (repr_list _ _ _ _ vs); [apply IH; intros; apply Hs'; lia|]. rewrite Hs'; [done|lia].
  - intros fs a m vs Hrs IH Hm Hs'. pose proof (proj2 (repr_bounds s) _ _ _ _ Hrs).
    apply (repr_dict _ _ _ _ vs); [apply IH; intros; apply Hs'; lia|]. rewrite Hs'; [done|lia].
  - intros j js a m b v vs Hr IH1 Hrs IH2 Hs'.
    pose proof (proj1 (repr_bounds s) _ _ _ _ Hr).
    pose proof (proj2 (repr_bounds s) _ _ _ _ Hrs).
    econstructor; [apply IH1|apply IH2]; intros; apply Hs'; lia.
Qed.

Lemma repr_ext P s s' j a b v :
  repr s j a b v → ext P s s' → (∀ l, a ≤ l < b → ¬ P l) → b ≤ length (heap s) →
  repr s' j a b v.
Proof.
  intros Hr [_ He] HP Hb. apply (proj1 (repr_frame s s') _ _ _ _ Hr).
  intros l Hl. destruct (lookup_lt_is_Some_2 (heap s) l ltac:(lia)) as [o Ho].
  rewrite Ho. destruct (He l o Ho) as [?|[? _]]; [done|]. by destruct (HP l Hl).
Qed.

Lemma reprs_ext P s s' js a b vs :
  reprs s js a b vs → ext P s s' → (∀ l, a ≤ l < b → ¬ P l) → b ≤ length (heap s) →
  reprs s' js a b vs.
Proof.
  intros Hr [_ He] HP Hb. apply (proj2 (repr_frame s s') _ _ _ _ Hr).
  intros l Hl. destruct (lookup_lt_is_Some_2 (heap s) l ltac:(lia)) as [o Ho].
  rewrite Ho. destruct (He l o Ho) as [?|[? _]]; [done|]. by destruct (HP l Hl).
Qed.

Lemma repr_within s :
  (∀ j a b v, repr s j a b v → b ≤ length (heap s) ∨ a = b) ∧
  (∀ js a b vs, reprs s js a b vs → b ≤ length (heap s) ∨ a = b).
Proof.
  apply repr_reprs_ind; intros; try (by right).
  - left. by apply lookup_lt_Some in H1.
  - left. by apply lookup_lt_Some in H1.
  - destruct H2 as [?|<-]; [by left|]. done.
Qed.

(** [load] appends the layout of the value to the store. *)
Lemma load_repr j :
  ∀ s, ∃ v os,
    load j s = Ok v (State (heap s ++ os) (patches s)) ∧
    repr (State (heap s ++ os) (patches s)) j
      (length (heap s)) (length (heap s) + length os) v.
Proof.
  induction j as [|z|x|js IH|fs IH] using json_ind'; intros s.
  - exists VNone, []. simpl. rewrite app_nil_r, Nat.add_0_r. destruct s.
    split; [done|constructor].
  - exists (VInt z), []. simpl. rewrite app_nil_r, Nat.add_0_r. destruct s.
    split; [done|constructor].
  - exists (VStr x), []. simpl. rewrite app_nil_r, Nat.add_0_r. destruct s.
    split; [done|constructor].
  - simpl.
    assert (∃ vs os,
      (fix go (js : list json) : M (list value) :=
         match js with
         | [] => mret []
         | j :: js' => v ← load j; vs ← go js'; mret (v :: vs)
         end) js s = Ok vs (State (heap s ++ os) (patches s)) ∧
      reprs (State (heap s ++ os) (patches s)) js
        (length (heap s)) (length (heap s) + length os) vs) as (vs & os & Hgo & Hrs).
    { clear -IH. revert s. induction IH as [|j js Hj _ IHjs]; intros s.
      - exists [], []. rewrite app_nil_r, Nat.add_0_r. destruct s.
        split; [done|constructor].
      - destruct (Hj s) as (v & os1 & Hl & Hr).
        destruct (IHjs (State (heap s ++ os1) (patches s))) as (vs & os2 & Hgo & Hrs).
        simpl in *. exists (v :: vs), (os1 ++ os2).
        rewrite (assoc_L (++)). split.
        + rewrite (bind_run _ _ _ _ _ Hl), (bind_run _ _ _ _ _ Hgo). done.
        + rewrite length_app in Hrs. rewrite length_app, Nat.add_assoc.
          econstructor; [|done].
          apply (proj1 (repr_frame _ _) _ _ _ _ Hr). simpl. intros l Hl'.
          rewrite lookup_app_l; [done|rewrite length_app; lia]. }
    exists (VRef (length (heap s) + length os)), (os ++ [OList vs]).
    rewrite (bind_run _ _ _ _ _ Hgo). unfold alloc. simpl.
    rewrite length_app, (assoc_L (++)). split; [done|].
    rewrite length_app. simpl.
    replace (length (heap s) + (length os + 1)) with (S (length (heap s) + length os)) by lia.
    apply (repr_list _ _ _ _ vs).
    + apply (proj2 (repr_frame _ _) _ _ _ _ Hrs). simpl. intros l Hl.
      rewrite lookup_app_l; [done|rewrite length_app; lia].
    + simpl. rewrite lookup_app_r; rewrite length_app; [|lia].
      by rewrite Nat.sub_diag.
  - simpl.
    assert (∃ vs os,
      (fix go (fs : list (string * json)) : M (list (value * value)) :=
         match fs with
         | [] => mret []
         | (k, j) :: fs' => v ← load j; ps ← go fs'; mret ((VStr k, v) :: ps)
         end) fs s = Ok (zip (VStr <$> fs.*1) vs) (State (heap s ++ os) (patches s)) ∧
      reprs (State (heap s ++ os) (patches s)) fs.*2
        (length (heap s)) (length (heap s) + length os) vs) as (vs & os & Hgo & Hrs).
    { clear -IH. revert s. induction IH as [|[k j] fs Hj _ IHfs]; intros s.
      - exists [], []. rewrite app_nil_r, Nat.add_0_r. destruct s.
        split; [done|constructor].
      - destruct (Hj s) as (v & os1 & Hl & Hr).
        destruct (IHfs (State (heap s ++ os1) (patches s))) as (vs & os2 & Hgo & Hrs).
        simpl in *. exists (v :: vs), (os1 ++ os2).
        rewrite (assoc_L (++)). split.
        + rewrite (bind_run _ _ _ _ _ Hl), (bind_run _ _ _ _ _ Hgo). done.
        + rewrite length_app in Hrs. rewrite length_app, Nat.add_assoc.
          econstructor; [|done].
          apply (proj1 (repr_frame _ _) _ _ _ _ Hr). simpl. intros l Hl'.
          rewrite lookup_app_l; [done|rewrite length_app; lia]. }
    exists (VRef (length (heap s) + length os)),
           (os ++ [ODict (al_of_list (zip (VStr <$> fs.*1) vs))]).
    rewrite (bind_run _ _ _ _ _ Hgo). unfold alloc. simpl.
    rewrite length_app, (assoc_L (++)). split; [done|].
    rewrite length_app. simpl.
    replace (length (heap s) + (length os + 1)) with (S (length (heap s) + length os)) by lia.
    apply (repr_dict _ _ _ _ vs).
    + apply (proj2 (repr_frame _ _) _ _ _ _ Hrs). simpl. intros l Hl.
      rewrite lookup_app_l; [done|rewrite length_app; lia].
    + simpl. rewrite lookup_app_r; rewrite length_app; [|lia].
      by rewrite Nat.sub_diag.
Qed.

Lemma reprs_app_inv s js1 js2 a b vs :
  reprs s (js1 ++ js2) a b vs →
  ∃ m vs1 vs2, vs = vs1 ++ vs2 ∧ reprs s js1 a m vs1 ∧ reprs s js2 m b vs2.
Proof.
  revert a vs. induction js1 as [|j js1 IH]; intros a vs; simpl.
  - intros H. exists a, [], vs. split_and!; [done|constructor|done].
  - inversion 1 as [|? ? ? m ? v vs' Hr Hrs]; subst.
    destruct (IH _ _ Hrs) as (m' & vs1 & vs2 & -> & H1 & H2).
    exists m', (v :: vs1), vs2. split_and!; [done| |done]. by econstructor.
Qed.

Lemma repr_scalar s v a b v' :
  scalar v → repr s (json_of v) a b v' → a = b ∧ v' = v.
Proof. destruct v; simpl; try done; by inversion 2. Qed.

Lemma reprs_scalars s vs0 a b vs :
  Forall scalar vs0 → reprs s (json_of <$> vs0) a b vs → a = b ∧ vs = vs0.
Proof.
  intros Hall. revert a vs. induction Hall as [|v vs0 Hv _ IH]; intros a vs; simpl.
  - by inversion 1.
  - inversion 1 as [|? ? ? m ? v' vs' Hr Hrs]; subst.
    destruct (repr_scalar _ _ _ _ _ Hv Hr) as [<- ->].
    destruct (IH _ _ Hrs) as [<- ->]. done.
Qed.

Lemma kwargs_fields_dict f : kwargs (fields_dict f) = Some f.
Proof.
  induction f as [|[k v] f IH]; [done|].
  change (kwargs (fields_dict ((k, v) :: f)))
    with (a ← kwargs (fields_dict f); Some ((k, v) :: a)).
  by rewrite IH.
Qed.

Lemma kwargs_app d1 d2 a1 a2 :
  kwargs d1 = Some a1 → kwargs d2 = Some a2 → kwargs (d1 ++ d2) = Some (a1 ++ a2).
Proof.
  revert a1. induction d1 as [|[k v] d1 IH]; intros a1; simpl.
  - by intros [= <-].
  - destruct k; try done. destruct (kwargs d1) as [a|]; simpl; [|done].
    intros [= <-] H2. by rewrite (IH a eq_refl H2).
Qed.

Lemma fields_dict_keys f : (fields_dict f).*1 = VStr <$> f.*1.
Proof. unfold fields_dict. by rewrite <- !list_fmap_compose. Qed.

Lemma fields_dict_zip f : zip (VStr <$> f.*1) f.*2 = fields_dict f.
Proof. induction f as [|[k v] f IH]; [done|]. simpl. f_equal. apply IH. Qed.

Lemma export_fields_keys f : (export_fields f).*1 = f.*1.
Proof. unfold export_fields. rewrite <- list_fmap_compose. done. Qed.

Lemma export_fields_values f : (export_fields f).*2 = json_of <$> f.*2.
Proof. unfold export_fields. by rewrite <- !list_fmap_compose. Qed.

Lemma valid_fields_scalars keys f : valid_fields keys f → Forall scalar f.*2.
Proof.
  intros [_ Hall]. apply Forall_fmap. eapply Forall_impl; [done|]. by intros p [? _].
Qed.

(** A loaded record: scalar fields first, then the fields [extra]. *)
Lemma repr_record s f extra a b v keys :
  repr s (JDict (export_fields f ++ extra)) a b v →
  valid_fields keys f → NoDup extra.*1 → extra.*1 ⊆ keys →
  ∃ m vs, v = VRef m ∧ b = S m ∧ reprs s extra.*2 a m vs ∧
    heap s !! m = Some (ODict (fields_dict f ++ zip (VStr <$> extra.*1) vs)).
Proof.
  intros Hr Hf Hnd Hsub. inversion Hr as [| | | |? ? m vs0 Hrs Hm]; subst.
  rewrite fmap_app in Hrs.
  apply reprs_app_inv in Hrs as (m' & vs1 & vs & -> & H1 & H2).
  rewrite export_fields_values in H1.
  apply reprs_scalars in H1 as [<- ->]; [|by eapply valid_fields_scalars].
  exists m, vs. split_and!; [done..|].
  rewrite Hm. do 2 f_equal.
  pose proof (proj2 (repr_bounds s) _ _ _ _ H2) as [_ Hlen].
  rewrite length_fmap in Hlen.
  rewrite fmap_app, fmap_app, export_fields_keys.
  rewrite zip_with_app by (by rewrite !length_fmap).
  rewrite fields_dict_zip. apply al_of_list_NoDup_id.
  rewrite fmap_app, fields_dict_keys, fst_zip by (rewrite !length_fmap; lia).
  rewrite <- fmap_app. apply NoDup_fmap; [by intros ?? [= ->]|].
  destruct Hf as [Hndf Hall]. apply NoDup_app. split_and!; [done| |done].
  intros k Hk Hk'. apply list_elem_of_fmap in Hk as (p & -> & Hp).
  rewrite Forall_forall in Hall. destruct (Hall p Hp) as [_ Hnot].
  apply Hnot, Hsub, Hk'.
Qed.

Lemma repr_leaf s f a b v :
  repr s (export_leaf f) a b v → valid_fields [] f →
  v = VRef a ∧ b = S a ∧ heap s !! a = Some (ODict (fields_dict f)).
Proof.
  intros Hr Hf. unfold export_leaf in Hr. rewrite <- (app_nil_r (export_fields f)) in Hr.
  destruct (repr_record _ _ _ _ _ _ _ Hr Hf) as (m & vs & -> & -> & Hrs & Hm);
    [constructor|done|].
  inversion Hrs; subst. simpl in Hm. by rewrite app_nil_r in Hm.
Qed.

Lemma reprs_leaves s fs a b rs :
  reprs s (export_leaf <$> fs) a b rs → valid_leaves fs →
  Forall2 (λ r f, ∃ l, r = VRef l ∧ a ≤ l < b ∧
                       heap s !! l = Some (ODict (fields_dict f))) rs fs.
Proof.
  intros Hrs Hv. revert a rs Hrs. induction Hv as [|f fs Hf _ IH]; intros a rs; simpl.
  - inversion 1. constructor.
  - inversion 1 as [|? ? ? m ? v vs' Hr Hrs']; subst.
    destruct (repr_leaf _ _ _ _ _ Hr Hf) as (-> & -> & Hl).
    pose proof (proj2 (repr_bounds s) _ _ _ _ Hrs') as [? _].
    constructor.
    + exists a. split_and!; [done|lia|lia|done].
    + eapply Forall2_impl; [by apply IH|]. intros r f' (l & -> & ? & ?).
      exists l. split_and!; [done|lia|lia|done].
Qed.

Lemma repr_leaves s fs a b v :
  repr s (export_leaves fs) a b v → valid_leaves fs →
  ∃ m rs, v = VRef m ∧ b = S m ∧ heap s !! m = Some (OList rs) ∧
    Forall2 (λ r f, ∃ l, r = VRef l ∧ a ≤ l < m ∧
                         heap s !! l = Some (ODict (fields_dict f))) rs fs.
Proof.
  intros Hr Hv. inversion Hr as [| | |? ? m rs Hrs Hm|]; subst.
  exists m, rs. split_and!; [done..|]. by apply reprs_leaves.
Qed.

(** ** Records under construction *)

Section alist_more.
Context {K V : Type} `{EqDecision K}.
Implicit Types (d : list (K * V)) (k : K) (v : V).

Lemma al_set_app_r d1 d2 k v :
  k ∉ d1.*1 → al_set k v (d1 ++ d2) = d1 ++ al_set k v d2.
Proof.
  induction d1 as [|[k' v'] d1 IH]; simpl; [done|].
  intros [Hne Hk]%not_elem_of_cons. rewrite decide_False by done. by rewrite IH.
Qed.

Lemma al_get_app_r d1 d2 k : k ∉ d1.*1 → al_get k (d1 ++ d2) = al_get k d2.
Proof.
  induction d1 as [|[k' v'] d1 IH]; simpl; [done|].
  intros [Hne Hk]%not_elem_of_cons. rewrite decide_False by done. by apply IH.
Qed.

Lemma al_get_app_l d1 d2 k x : al_get k d1 = Some x → al_get k (d1 ++ d2) = Some x.
Proof.
  induction d1 as [|[k' v'] d1 IH]; simpl; [done|].
  destruct (decide (k = k')); [done|]. apply IH.
Qed.

Lemma al_set_set d k v w : al_set k v (al_set k w d) = al_set k v d.
Proof.
  induction d as [|[k' v'] d IH]; simpl.
  - by rewrite decide_True.
  - destruct (decide (k = k')) as [->|Hne]; simpl.
    + by rewrite decide_True.
    + rewrite decide_False by done. by rewrite IH.
Qed.
End alist_more.

Lemma fields_dict_fresh keys f k :
  valid_fields keys f → k ∈ keys → VStr k ∉ (fields_dict f).*1.
Proof.
  intros [_ Hall] Hk. rewrite fields_dict_keys.
  intros (k' & [= <-] & (p & -> & Hp)%list_elem_of_fmap)%list_elem_of_fmap.
  rewrite Forall_forall in Hall. by destruct (Hall p Hp).
Qed.

Lemma ext_app P s os : ext P s (State (heap s ++ os) (patches s)).
Proof.
  split; simpl.
  - rewrite length_app. lia.
  - intros l o' Hl. left. by apply lookup_app_l_Some.
Qed.

Lemma leaves_built_ext P s s' lv c fs :
  ext P s s' → leaves_built s lv c fs → leaves_built s' lv c fs.
Proof.
  intros He (vs & Hl & Hall). exists vs. split; [by eapply ext_list|].
  eapply Forall2_impl; [done|]. intros v f. by apply (ext_inst P).
Qed.

Lemma keyed_built_ext (P : loc → Prop) n s s' dv c fs :
  ext P s s' → (∀ l, P l → l < n) → keyed_built n s dv c fs →
  keyed_built n s' dv c fs.
Proof.
  intros He HP (l & vs & -> & Hn & Hl & Hall). exists l, vs.
  split_and!; [done..| |].
  - eapply ext_dict; [done| |done]. intros ?%HP. lia.
  - eapply Forall2_impl; [done|]. intros v f. by apply (ext_inst P).
Qed.

Lemma new_instances s s' c fs :
  (∀ i f, fs !! i = Some f → heap s' !! (length (heap s) + i) = Some (OInst c f)) →
  Forall2 (λ v f, is_inst s' v c f) (VRef <$> seq (length (heap s)) (length fs)) fs.
Proof.
  intros H. apply Forall2_same_length_lookup_2.
  - by rewrite length_fmap, length_seq.
  - intros i v f Hv Hf. rewrite list_lookup_fmap in Hv.
    apply fmap_Some in Hv as (l & Hl & ->). apply lookup_seq in Hl as [-> _].
    apply is_inst_ref. eexists. split; [done|]. by apply H.
Qed.

(** [data[k] = [c.import_from_dict(r) for r in data[k]]] on a record
    whose field [k] holds the serialized leaves [fs]. *)
Lemma step_leaves c k fs ld d0 tail src a b s :
  heap s !! ld = Some (ODict (d0 ++ tail)) → VStr k ∉ d0.*1 →
  al_get (VStr k) tail = Some src →
  repr s (export_leaves fs) a b src → b ≤ ld → valid_leaves fs →
  ∃ lv s',
    (∀ A (rest : M A),
       (src ← getitem (VRef ld) (VStr k);
        l ← list_comp (basic_import_from_dict c) src;
        setitem (VRef ld) k l;; rest) s = rest s') ∧
    ext (λ l, l = ld) s s' ∧ patches s' = patches s ∧
    heap s' !! ld = Some (ODict (d0 ++ al_set (VStr k) lv tail)) ∧
    leaves_built s' lv c fs.
Proof.
  intros Hd Hk Hget Hr Hb Hv.
  destruct (repr_leaves _ _ _ _ _ Hr Hv) as (m & rs & -> & -> & Hm & Hrs).
  pose proof (Forall2_length _ _ _ Hrs) as Hlen.
  pose proof (lookup_lt_Some _ _ _ Hd) as Hld.
  set (n := length (heap s)) in *.
  set (s1 := State (heap s ++ (OInst c <$> fs) ++ [OList (VRef <$> seq n (length rs))])
                   (patches s)).
  assert (getitem (VRef ld) (VStr k) s = Ok (VRef m) s) as Hg.
  { by rewrite (getitem_dict _ _ _ _ Hd), al_get_app_r, Hget by done. }
  assert (list_comp (basic_import_from_dict c) (VRef m) s
          = Ok (VRef (n + length rs)) s1) as Hlc.
  { apply list_comp_construct. exists rs, fs. split_and!; [|  |done..].
    - unfold iter. by rewrite Hm.
    - eapply Forall2_impl; [done|]. intros r f (l & -> & _ & Hl).
      exists (fields_dict f). split; [|apply kwargs_fields_dict].
      apply is_dict_ref. eauto. }
  assert (heap s1 !! ld = Some (ODict (d0 ++ tail))) as Hd1.
  { simpl. by apply lookup_app_l_Some. }
  set (lv := VRef (n + length rs)) in *.
  set (s2 := State (<[ld := ODict (al_set (VStr k) lv (d0 ++ tail))]> (heap s1))
                   (patches s1)).
  assert (setitem (VRef ld) k lv s1 = Ok tt s2) as Hs.
  { apply setitem_Ok. eauto. }
  exists lv, s2. split_and!.
  - intros A rest. rewrite (bind_run _ _ _ _ _ Hg), (bind_run _ _ _ _ _ Hlc).
    by rewrite (bind_run _ _ _ _ _ Hs).
  - etrans; [apply (ext_app _ s)|]. by eapply (ext_setitem _ s1).
  - done.
  - simpl. rewrite list_lookup_insert_eq; [|rewrite length_app; lia].
    by rewrite al_set_app_r.
  - exists (VRef <$> seq n (length rs)). split.
    + apply is_list_ref. exists (n + length rs). split; [done|]. simpl.
      rewrite list_lookup_insert_ne by lia.
      rewrite lookup_app_r by lia. rewrite lookup_app_r by (rewrite length_fmap; lia).
      rewrite length_fmap.
      match goal with |- _ !! ?i = _ => replace i with 0 by (unfold n; lia) end. done.
    + rewrite Hlen. apply (new_instances s s2). intros i f Hf. simpl.
      rewrite list_lookup_insert_ne by (unfold n in *; lia).
      rewrite lookup_app_r by lia. rewrite lookup_app_l.
      * replace (length (heap s) + i - length (heap s)) with i by lia.
        by rewrite list_lookup_fmap, Hf.
      * rewrite length_fmap. apply lookup_lt_Some in Hf. lia.
Qed.

Section alist_same.
Context {K V : Type} `{EqDecision K}.

Lemma al_set_same (d : list (K * V)) k v : al_get k d = Some v → al_set k v d = d.
Proof.
  induction d as [|[k' v'] d IH]; simpl; [done|].
  destruct (decide (k = k')) as [->|]; [by intros [= ->]|].
  intros Hg. by rewrite IH.
Qed.
End alist_same.

Lemma keyed_built_mono n n' s dv c fs :
  n' ≤ n → keyed_built n s dv c fs → keyed_built n' s dv c fs.
Proof.
  intros Hn (l & vs & -> & Hl & H). exists l, vs. split_and!; [done|lia|apply H..].
Qed.

Lemma scalar_hashable h v : scalar v → hashable h v = true.
Proof. by destruct v. Qed.

Lemma filename_scalar f : valid_fields [] f → scalar (filename_of f).
Proof.
  intros [_ Hall]. unfold filename_of.
  destruct (al_get "filename" f) as [v|] eqn:Hg; [|done]. simpl.
  induction Hall as [|[k w] f [Hs _] _ IH]; simpl in *; [done|].
  destruct (decide ("filename" = k)); [by simplify_eq|]. by apply IH.
Qed.

(** [data[k] = dict([(x.filename, x) for x in data[k]])] on a record
    whose field [k] holds the entities built from [fs]. *)
Lemma step_dict_by c k fs ld d0 tail lv s :
  heap s !! ld = Some (ODict (d0 ++ tail)) → VStr k ∉ d0.*1 →
  al_get (VStr k) tail = Some lv →
  leaves_built s lv c fs → valid_keyed fs →
  ∃ dv s',
    (∀ A (rest : M A),
       (src ← getitem (VRef ld) (VStr k);
        d ← dict_by (λ x, getattr x "filename") src;
        setitem (VRef ld) k d;; rest) s = rest s') ∧
    ext (λ l, l = ld) s s' ∧ patches s' = patches s ∧
    heap s' !! ld = Some (ODict (d0 ++ al_set (VStr k) dv tail)) ∧
    keyed_built (length (heap s)) s' dv c fs.
Proof.
  intros Hd Hk Hget (vs & Hlv & Hvs) (Hv & Hfn & Hnd).
  pose proof (Forall2_length _ _ _ Hvs) as Hlen.
  pose proof (lookup_lt_Some _ _ _ Hd) as Hld.
  set (ps := zip (filename_of <$> fs) vs).
  assert (ps.*1 = filename_of <$> fs) as Hps1.
  { unfold ps. rewrite fst_zip; [done|]. rewrite length_fmap. lia. }
  set (s1 := State (heap s ++ [ODict ps]) (patches s)).
  assert (getitem (VRef ld) (VStr k) s = Ok lv s) as Hg.
  { by rewrite (getitem_dict _ _ _ _ Hd), al_get_app_r, Hget by done. }
  assert (dict_by (λ x, getattr x "filename") lv s = Ok (VRef (length (heap s))) s1)
    as Hdb.
  { apply dict_by_filename. exists vs, ps. split_and!; [by apply iter_list| | |done|].
    - unfold ps. clear Hps1 s1 ps Hnd Hlen Hlv.
      induction Hvs as [|v f vs fs Hi Hvs IH]; simpl; [constructor|].
      apply Forall_cons in Hv as [Hf Hv]. apply Forall_cons in Hfn as [[x Hx] Hfn].
      constructor; [|by apply IH]. simpl. split; [done|].
      apply field_inst. exists c, f. split; [done|]. unfold filename_of.
      by rewrite Hx.
    - rewrite Hps1. apply Is_true_eq_true, forallb_True, Forall_fmap.
      eapply Forall_impl; [exact Hv|]. intros f Hf. simpl.
      rewrite scalar_hashable; [done|]. by apply filename_scalar.
    - unfold s1. rewrite al_of_list_NoDup_id; [done|]. by rewrite Hps1. }
  set (dv := VRef (length (heap s))) in *.
  assert (heap s1 !! ld = Some (ODict (d0 ++ tail))) as Hd1.
  { simpl. by apply lookup_app_l_Some. }
  set (s2 := State (<[ld := ODict (al_set (VStr k) dv (d0 ++ tail))]> (heap s1))
                   (patches s1)).
  assert (setitem (VRef ld) k dv s1 = Ok tt s2) as Hs.
  { apply setitem_Ok. eauto. }
  exists dv, s2. split_and!.
  - intros A rest. rewrite (bind_run _ _ _ _ _ Hg), (bind_run _ _ _ _ _ Hdb).
    by rewrite (bind_run _ _ _ _ _ Hs).
  - etrans; [apply (ext_app _ s)|]. by eapply (ext_setitem _ s1).
  - done.
  - simpl. rewrite list_lookup_insert_eq; [|rewrite length_app; lia].
    by rewrite al_set_app_r.
  - exists (length (heap s)), vs. split_and!; [done|lia| |].
    + simpl. rewrite list_lookup_insert_ne by lia.
      by rewrite lookup_app_r, Nat.sub_diag by lia.
    + eapply Forall2_impl; [done|]. intros v f Hi.
      apply (ext_inst (λ l, l = ld) s); [|done].
      etrans; [apply (ext_app _ s)|]. by eapply (ext_setitem _ s1).
Qed.

(** The two statements that build a keyed collection. *)
Lemma step_keyed c k fs ld d0 tail src a b n0 s :
  heap s !! ld = Some (ODict (d0 ++ tail)) → VStr k ∉ d0.*1 →
  al_get (VStr k) tail = Some src →
  repr s (export_leaves fs) a b src → b ≤ ld → valid_keyed fs →
  n0 ≤ length (heap s) →
  ∃ dv s',
    (∀ A (rest : M A),
       (src ← getitem (VRef ld) (VStr k);
        l ← list_comp (basic_import_from_dict c) src;
        setitem (VRef ld) k l;;
        src ← getitem (VRef ld) (VStr k);
        d ← dict_by (λ x, getattr x "filename") src;
        setitem (VRef ld) k d;; rest) s = rest s') ∧
    ext (λ l, l = ld) s s' ∧ patches s' = patches s ∧
    heap s' !! ld = Some (ODict (d0 ++ al_set (VStr k) dv tail)) ∧
    keyed_built n0 s' dv c fs.
Proof.
  intros Hd Hk Hget Hr Hb Hv Hn.
  destruct (step_leaves c _ _ _ _ _ _ _ _ _ Hd Hk Hget Hr Hb (proj1 Hv))
    as (lv & s1 & Hrun1 & He1 & Hp1 & Hd1 & Hl1).
  destruct (step_dict_by c _ _ _ _ _ _ _ Hd1 Hk (al_get_set_eq _ _ _) Hl1 Hv)
    as (dv & s2 & Hrun2 & He2 & Hp2 & Hd2 & Hk2).
  exists dv, s2. split_and!.
  - intros A rest. by rewrite Hrun1, Hrun2.
  - by etrans.
  - congruence.
  - by rewrite al_set_set in Hd2.
  - eapply keyed_built_mono; [|done]. apply ext_length in He1. lia.
Qed.

Lemma repr_step s s' j a b v ld :
  repr s j a b v → ext (λ l, l = ld) s s' → b ≤ ld → ld < length (heap s) →
  repr s' j a b v.
Proof. intros Hr He Hb Hld. eapply repr_ext; [done..| |]; intros; simpl; lia. Qed.

(** [if data['token'] is not None: data['token'] = Token.import_from_dict(data['token'])] *)
Lemma step_token tok ld d0 tail src a b s :
  heap s !! ld = Some (ODict (d0 ++ tail)) → VStr "token" ∉ d0.*1 →
  al_get (VStr "token") tail = Some src →
  repr s (from_option export_leaf JNone tok) a b src → b ≤ ld →
  from_option (valid_fields []) True tok →
  ∃ tv s',
    (∀ A (rest : M A),
       (token ← getitem (VRef ld) (VStr "token");
        (if decide (token = VNone) then mret tt
         else token ← getitem (VRef ld) (VStr "token");
              token ← basic_import_from_dict Token token;
              setitem (VRef ld) "token" token);; rest) s = rest s') ∧
    ext (λ l, l = ld) s s' ∧ patches s' = patches s ∧
    heap s' !! ld = Some (ODict (d0 ++ al_set (VStr "token") tv tail)) ∧
    token_built s' tv tok.
Proof.
  intros Hd Hk Hget Hr Hb Hv.
  pose proof (lookup_lt_Some _ _ _ Hd) as Hld.
  assert (getitem (VRef ld) (VStr "token") s = Ok src s) as Hg.
  { by rewrite (getitem_dict _ _ _ _ Hd), al_get_app_r, Hget by done. }
  destruct tok as [f|]; simpl in *.
  - destruct (repr_leaf _ _ _ _ _ Hr Hv) as (-> & -> & Ha).
    set (s1 := State (heap s ++ [OInst Token f]) (patches s)).
    set (tv := VRef (length (heap s))).
    assert (basic_import_from_dict Token (VRef a) s = Ok tv s1) as Hc.
    { apply construct_Ok. exists (fields_dict f), f.
      split_and!; [|apply kwargs_fields_dict|done..]. apply is_dict_ref. eauto. }
    assert (heap s1 !! ld = Some (ODict (d0 ++ tail))) as Hd1.
    { simpl. by apply lookup_app_l_Some. }
    set (s2 := State (<[ld := ODict (al_set (VStr "token") tv (d0 ++ tail))]> (heap s1))
                     (patches s1)).
    assert (setitem (VRef ld) "token" tv s1 = Ok tt s2) as Hs.
    { apply setitem_Ok. eauto. }
    exists tv, s2. split_and!.
    + intros A rest. rewrite (bind_run _ _ _ _ _ Hg).
      rewrite decide_False by done.
      erewrite (bind_run (_ ≫= _)); [done|].
      rewrite (bind_run _ _ _ _ _ Hg), (bind_run _ _ _ _ _ Hc). exact Hs.
    + etrans; [apply (ext_app _ s)|]. by eapply (ext_setitem _ s1).
    + done.
    + simpl. rewrite list_lookup_insert_eq; [|rewrite length_app; lia].
      by rewrite al_set_app_r.
    + apply is_inst_ref. exists (length (heap s)). split; [done|]. simpl.
      rewrite list_lookup_insert_ne by lia.
      by rewrite lookup_app_r, Nat.sub_diag by lia.
  - inversion Hr; subst. exists VNone, s. split_and!; [|done..| |done].
    + intros A rest. rewrite (bind_run _ _ _ _ _ Hg).
      rewrite decide_True by done. done.
    + by rewrite al_set_same.
Qed.

(** [data[k] = tasks[data[k]]] on a record whose field [k] holds a
    position of [tasks]. *)
Lemma step_index k i ts t tasks ld d0 tail s :
  heap s !! ld = Some (ODict (d0 ++ tail)) → VStr k ∉ d0.*1 →
  al_get (VStr k) tail = Some (VInt (Z.of_nat i)) →
  is_list s tasks ts → ts !! i = Some t →
  ∃ s',
    (∀ A (rest : M A),
       (index ← getitem (VRef ld) (VStr k);
        task ← getitem tasks index;
        setitem (VRef ld) k task;; rest) s = rest s') ∧
    ext (λ l, l = ld) s s' ∧ patches s' = patches s ∧
    heap s' !! ld = Some (ODict (d0 ++ al_set (VStr k) t tail)).
Proof.
  intros Hd Hk Hget (lt & -> & Hlt)%is_list_ref Hi.
  pose proof (lookup_lt_Some _ _ _ Hd) as Hld.
  pose proof (lookup_lt_Some _ _ _ Hi) as Hlen.
  assert (getitem (VRef ld) (VStr k) s = Ok (VInt (Z.of_nat i)) s) as Hg.
  { by rewrite (getitem_dict _ _ _ _ Hd), al_get_app_r, Hget by done. }
  assert (getitem (VRef lt) (VInt (Z.of_nat i)) s = Ok t s) as Hg2.
  { unfold getitem. rewrite Hlt. unfold seq_item, py_index.
    rewrite bool_decide_true by lia. by rewrite Nat2Z.id, Hi. }
  set (s2 := State (<[ld := ODict (al_set (VStr k) t (d0 ++ tail))]> (heap s))
                   (patches s)).
  assert (setitem (VRef ld) k t s = Ok tt s2) as Hs.
  { apply setitem_Ok. eauto. }
  exists s2. split_and!.
  - intros A rest. rewrite (bind_run _ _ _ _ _ Hg), (bind_run _ _ _ _ _ Hg2).
    by rewrite (bind_run _ _ _ _ _ Hs).
  - by eapply (ext_setitem _ s).
  - done.
  - simpl. rewrite list_lookup_insert_eq by done. by rewrite al_set_app_r.
Qed.

(** [data[k] = v] *)
Lemma step_setitem k v ld d0 tail s :
  heap s !! ld = Some (ODict (d0 ++ tail)) → VStr k ∉ d0.*1 →
  ∃ s',
    (∀ A (rest : M A), (setitem (VRef ld) k v;; rest) s = rest s') ∧
    ext (λ l, l = ld) s s' ∧ patches s' = patches s ∧
    heap s' !! ld = Some (ODict (d0 ++ al_set (VStr k) v tail)).
Proof.
  intros Hd Hk. pose proof (lookup_lt_Some _ _ _ Hd) as Hld.
  set (s2 := State (<[ld := ODict (al_set (VStr k) v (d0 ++ tail))]> (heap s))
                   (patches s)).
  assert (setitem (VRef ld) k v s = Ok tt s2) as Hs.
  { apply setitem_Ok. eauto. }
  exists s2. split_and!.
  - intros A rest. by rewrite (bind_run _ _ _ _ _ Hs).
  - by eapply (ext_setitem _ s).
  - done.
  - simpl. rewrite list_lookup_insert_eq by done. by rewrite al_set_app_r.
Qed.

(** The constructor call that ends a builder. *)
Lemma construct_record c ld f tail atail s :
  heap s !! ld = Some (ODict (fields_dict f ++ tail)) → kwargs tail = Some atail →
  construct c (VRef ld) s
  = Ok (VRef (length (heap s)))
       (State (heap s ++ [OInst c (f ++ atail)]) (patches s)).
Proof.
  intros Hd Hk. apply construct_Ok. exists (fields_dict f ++ tail), (f ++ atail).
  split_and!; [|by apply kwargs_app; [apply kwargs_fields_dict|] |done..].
  apply is_dict_ref. eauto.
Qed.

Lemma is_inst_new s c a :
  is_inst (State (heap s ++ [OInst c a]) (patches s)) (VRef (length (heap s))) c a.
Proof.
  apply is_inst_ref. eexists. split; [done|]. simpl.
  by rewrite lookup_app_r, Nat.sub_diag by lia.
Qed.

Ltac inv_reprs :=
  repeat match goal with
  | H : reprs _ (_ :: _) _ _ _ |- _ => inversion H; subst; clear H
  | H : reprs _ [] _ _ _ |- _ => inversion H; subst; clear H
  end.

Ltac repr_bounds :=
  repeat match goal with
  | H : repr ?s _ ?a ?b _ |- _ =>
      lazymatch goal with
      | _ : a ≤ b |- _ => fail
      | _ => pose proof (proj1 (repr_bounds s) _ _ _ _ H)
      end
  end.

Lemma token_built_ext P s s' tv tok :
  ext P s s' → token_built s tv tok → token_built s' tv tok.
Proof. intros He. destruct tok; simpl; [by apply (ext_inst P)|done]. Qed.

Ltac key_in := by apply (bool_decide_unpack _).

(** Moves what is known of the store [s] to the store [s'] the record at
    [ld] was assigned in. *)
Ltac transport s s' He :=
  repeat match goal with
  | H : repr s ?j ?a ?b ?v |- _ =>
      assert (repr s' j a b v)
        by (eapply repr_ext; [exact H|exact He|intros; simpl; lia|lia]);
      clear H
  | H : reprs s ?j ?a ?b ?v |- _ =>
      assert (reprs s' j a b v)
        by (eapply reprs_ext; [exact H|exact He|intros; simpl; lia|lia]);
      clear H
  | H : leaves_built s ?lv ?c ?fs |- _ =>
      apply (leaves_built_ext _ s s' lv c fs He) in H
  | H : keyed_built ?n s ?dv ?c ?fs |- _ =>
      apply (keyed_built_ext _ n s s' dv c fs He) in H; [|intros; simpl in *; lia]
  | H : token_built s ?tv ?tok |- _ =>
      apply (token_built_ext _ s s' tv tok He) in H
  | H : is_list s ?v ?vs |- _ =>
      apply (ext_list _ s s' v vs He) in H
  | H : is_inst s ?v ?c ?a |- _ =>
      apply (ext_inst _ s s' v c a He) in H
  end.

Lemma task_import_total g s a b r n0 :
  valid_task g → repr s (export_task g) a b r → b ≤ n0 → n0 ≤ length (heap s) →
  ∃ l s', task_import_from_dict r s = Ok (VRef l) s' ∧
    length (heap s) ≤ l < length (heap s') ∧
    ext (λ l, a ≤ l < b) s s' ∧ task_view n0 s' (VRef l) g.
Proof.
  intros (Hf & Hatt & Hsf & Hman & Htc) Hr Hb Hn. unfold export_task in Hr.
  destruct (repr_record _ _ _ _ _ _ task_keys Hr Hf)
    as (m & vs & -> & -> & Hrs & Hd);
    [by apply (bool_decide_unpack _)|done|].
  simpl in Hrs. inv_reprs. simpl in Hd. repr_bounds.
  pose proof (lookup_lt_Some _ _ _ Hd) as Hld.
  assert (∀ k, k ∈ task_keys → VStr k ∉ (fields_dict (task_fields g)).*1) as Hfresh
    by (intros; by eapply fields_dict_fresh).
  edestruct (step_keyed Attachment "attachments") with (n0 := n0) as (da & s1 & Hrun1 & He1 & _ & Hd1 & Hb1);
    [exact Hd|apply Hfresh; key_in|reflexivity|done|lia|done|done|].
  simpl in Hd1. transport s s1 He1.
  pose proof (ext_length _ _ _ He1).
  edestruct (step_leaves SubmissionFormatElement "submission_format")
    as (lsf & s2 & Hrun2 & He2 & _ & Hd2 & Hb2);
    [exact Hd1|apply Hfresh; key_in|reflexivity|done|lia|done|].
  simpl in Hd2. transport s1 s2 He2.
  pose proof (ext_length _ _ _ He2).
  edestruct (step_keyed Manager "managers") with (n0 := n0) as (dm & s3 & Hrun3 & He3 & _ & Hd3 & Hb3);
    [exact Hd2|apply Hfresh; key_in|reflexivity|done|lia|done|lia|].
  simpl in Hd3. transport s2 s3 He3.
  pose proof (ext_length _ _ _ He3).
  edestruct (step_leaves Testcase "testcases")
    as (ltc & s4 & Hrun4 & He4 & _ & Hd4 & Hb4);
    [exact Hd3|apply Hfresh; key_in|reflexivity|done|lia|done|].
  simpl in Hd4. transport s3 s4 He4.
  pose proof (ext_length _ _ _ He4).
  pose proof (construct_record Task _ _ _ _ _ Hd4 eq_refl) as Hc.
  set (s5 := State _ _) in Hc.
  assert (ext (λ l, l = m) s4 s5) as He5 by apply ext_alloc.
  transport s4 s5 He5.
  exists (length (heap s4)), s5. split_and!.
  - unfold task_import_from_dict. by rewrite Hrun1, Hrun2, Hrun3, Hrun4.
  - lia.
  - simpl. rewrite length_app. simpl. lia.
  - eapply ext_weaken; [|by repeat (etrans; [eassumption|])].
    intros l ->. lia.
  - exists da, lsf, dm, ltc. split_and!; [apply is_inst_new|done..].
Qed.

Lemma submission_import_total g s a b r n0 tasks ts :
  valid_submission (length ts) g → repr s (export_submission g) a b r →
  b ≤ n0 → n0 ≤ length (heap s) → is_list s tasks ts →
  ∃ l s', submission_import_from_dict r tasks s = Ok (VRef l) s' ∧
    length (heap s) ≤ l < length (heap s') ∧
    ext (λ l, a ≤ l < b) s s' ∧ submission_view n0 s' ts VNone (VRef l) g.
Proof.
  intros (Hf & Htask & Hfiles & Hexe & Hev & Htok) Hr Hb Hn Hts.
  unfold export_submission in Hr.
  destruct (repr_record _ _ _ _ _ _ submission_keys Hr Hf)
    as (m & vs & -> & -> & Hrs & Hd);
    [by apply (bool_decide_unpack _)|by apply (bool_decide_unpack _)|].
  simpl in Hrs. inv_reprs. simpl in Hd.
  match goal with H : repr _ (JInt _) _ _ _ |- _ => inversion H; subst; clear H end.
  repr_bounds.
  match goal with H : repr _ (from_option _ _ _) ?x ?y _ |- _ =>
    assert (x ≤ y) by (destruct (sub_token g); simpl in H;
                       [apply (proj1 (repr_bounds s) _ _ _ _ H)|inversion H; lia])
  end.
  pose proof (lookup_lt_Some _ _ _ Hd) as Hld.
  destruct (lookup_lt_is_Some_2 ts (sub_task g) Htask) as [t Ht].
  assert (∀ k, k ∈ submission_keys → VStr k ∉ (fields_dict (sub_fields g)).*1)
    as Hfresh by (intros; by eapply fields_dict_fresh).
  edestruct (step_keyed File "files") with (n0 := n0)
    as (df & s1 & Hrun1 & He1 & _ & Hd1 & Hb1);
    [exact Hd|apply Hfresh; key_in|reflexivity|done|lia|done|done|].
  simpl in Hd1. transport s s1 He1. pose proof (ext_length _ _ _ He1).
  edestruct (step_keyed Executable "executables") with (n0 := n0)
    as (de & s2 & Hrun2 & He2 & _ & Hd2 & Hb2);
    [exact Hd1|apply Hfresh; key_in|reflexivity|done|lia|done|lia|].
  simpl in Hd2. transport s1 s2 He2. pose proof (ext_length _ _ _ He2).
  edestruct (step_leaves Evaluation "evaluations")
    as (lev & s3 & Hrun3 & He3 & _ & Hd3 & Hb3);
    [exact Hd2|apply Hfresh; key_in|reflexivity|done|lia|done|].
  simpl in Hd3. transport s2 s3 He3. pose proof (ext_length _ _ _ He3).
  edestruct (step_token (sub_token g)) as (tv & s4 & Hrun4 & He4 & _ & Hd4 & Hb4);
    [exact Hd3|apply Hfresh; key_in|reflexivity|done|lia|done|].
  simpl in Hd4. transport s3 s4 He4. pose proof (ext_length _ _ _ He4).
  edestruct (step_index "task") as (s5 & Hrun5 & He5 & _ & Hd5);
    [exact Hd4|apply Hfresh; key_in|reflexivity|done|exact Ht|].
  simpl in Hd5. transport s4 s5 He5. pose proof (ext_length _ _ _ He5).
  edestruct (step_setitem "user" VNone) as (s6 & Hrun6 & He6 & _ & Hd6);
    [exact Hd5|apply Hfresh; key_in|].
  simpl in Hd6. transport s5 s6 He6. pose proof (ext_length _ _ _ He6).
  pose proof (construct_record Submission _ _ _ _ _ Hd6 eq_refl) as Hc.
  set (s7 := State _ _) in Hc.
  assert (ext (λ l, l = m) s6 s7) as He7 by apply ext_alloc.
  transport s6 s7 He7.
  exists (length (heap s6)), s7. split_and!.
  - unfold submission_import_from_dict.
    by rewrite Hrun1, Hrun2, Hrun3, Hrun4, Hrun5, Hrun6.
  - lia.
  - simpl. rewrite length_app. simpl. lia.
  - eapply ext_weaken; [|by repeat (etrans; [eassumption|])].
    intros l ->. lia.
  - exists df, de, lev, tv, t. split_and!; [apply is_inst_new|done..].
Qed.

(** ** Sequences of records *)

Section sequence.
Context {G : Type} (f : value → M value) (exp : G → json) (valid : G → Prop).
Context (Q : state → value → G → Prop) (P : loc → Prop) (a0 b0 : nat) (s0 : state).
Hypothesis HP : ∀ l, a0 ≤ l < b0 → P l.
Hypothesis Hf : ∀ g s a b r,
  valid g → repr s (exp g) a b r → a0 ≤ a → b ≤ b0 →
  ext (λ l, a0 ≤ l < b0) s0 s →
  ∃ l s', f r s = Ok (VRef l) s' ∧ length (heap s) ≤ l < length (heap s') ∧
    ext (λ l, a ≤ l < b) s s' ∧ Q s' (VRef l) g.
Hypothesis HQ : ∀ s s' v g, Q s v g → ext P s s' → Q s' v g.
Hypothesis Hb0 : b0 ≤ length (heap s0).

Lemma mapM_M_total gs : ∀ a rs s,
  Forall valid gs → reprs s (exp <$> gs) a b0 rs → a0 ≤ a →
  ext (λ l, a0 ≤ l < b0) s0 s →
  ∃ ls s', mapM_M f rs s = Ok (VRef <$> ls) s' ∧
    ext (λ l, a ≤ l < b0) s s' ∧ Forall2 (Q s') (VRef <$> ls) gs ∧
    Forall (λ l, length (heap s) ≤ l < length (heap s')) ls ∧ NoDup ls.
Proof.
  induction gs as [|g gs IH]; intros a rs s Hv Hrs Ha He; simpl in Hrs.
  - inversion Hrs; subst. exists [], s. split_and!; [done|done|constructor..].
  - inversion Hrs as [|? ? ? m ? r rs' Hr Hrs']; subst.
    apply Forall_cons in Hv as [Hg Hv].
    pose proof (proj1 (repr_bounds s) _ _ _ _ Hr) as Ham.
    pose proof (proj1 (proj2 (repr_bounds s) _ _ _ _ Hrs')) as Hmb.
    pose proof (ext_length _ _ _ He) as Hlen.
    destruct (Hf g s a m r Hg Hr Ha Hmb He) as (l & s1 & Hrun & Hl & He1 & HQ1).
    assert (ext (λ l, a0 ≤ l < b0) s s1) as He1'.
    { eapply ext_weaken; [|exact He1]. intros l' ?. simpl in *. lia. }
    assert (reprs s1 (exp <$> gs) m b0 rs') as Hrs1.
    { eapply reprs_ext; [exact Hrs'|exact He1| |lia]. intros; simpl; lia. }
    destruct (IH m rs' s1 Hv Hrs1) as (ls & s2 & Hrun2 & He2 & HQ2 & Hfresh & Hnd);
      [lia|by etrans|].
    assert (ext P s1 s2) as He2'.
    { eapply ext_weaken; [|exact He2]. intros l' ?. apply HP. simpl in *. lia. }
    pose proof (ext_length _ _ _ He2) as Hlen2.
    exists (l :: ls), s2. split_and!.
    + simpl. rewrite (bind_run _ _ _ _ _ Hrun), (bind_run _ _ _ _ _ Hrun2). done.
    + etrans; [eapply ext_weaken; [|exact He1]|eapply ext_weaken; [|exact He2]];
        intros l' ?; simpl in *; lia.
    + constructor; [by eapply HQ|done].
    + constructor; [lia|]. eapply Forall_impl; [done|]. intros; simpl in *; lia.
    + constructor; [|done]. intros Hin. rewrite Forall_forall in Hfresh.
      apply Hfresh in Hin. lia.
Qed.
End sequence.

(** [data[k] = [f(r) for r in data[k]]] on a record whose field [k]
    holds the serialized sequence [gs]. *)
Lemma step_list_comp {G} (f : value → M value) (exp : G → json) (valid : G → Prop)
    (Q : state → value → G → Prop) k gs ld d0 tail src a0 b s0 :
  (∀ g s a b' r,
     valid g → repr s (exp g) a b' r → a0 ≤ a → b' ≤ b →
     ext (λ l, a0 ≤ l < b) s0 s →
     ∃ l s', f r s = Ok (VRef l) s' ∧ length (heap s) ≤ l < length (heap s') ∧
       ext (λ l, a ≤ l < b') s s' ∧ Q s' (VRef l) g) →
  (∀ s s' v g, Q s v g → ext (λ l, a0 ≤ l < b ∨ l = ld) s s' → Q s' v g) →
  heap s0 !! ld = Some (ODict (d0 ++ tail)) → VStr k ∉ d0.*1 →
  al_get (VStr k) tail = Some src →
  repr s0 (JList (exp <$> gs)) a0 b src → b ≤ ld → Forall valid gs →
  ∃ lv ls s',
    (∀ A (rest : M A),
       (src ← getitem (VRef ld) (VStr k);
        l ← list_comp f src;
        setitem (VRef ld) k l;; rest) s0 = rest s') ∧
    ext (λ l, a0 ≤ l < b ∨ l = ld) s0 s' ∧
    heap s' !! ld = Some (ODict (d0 ++ al_set (VStr k) lv tail)) ∧
    is_list s' lv (VRef <$> ls) ∧ Forall2 (Q s') (VRef <$> ls) gs ∧
    Forall (λ l, length (heap s0) ≤ l < length (heap s')) ls ∧ NoDup ls.
Proof.
  intros Hf HQ Hd Hk Hget Hr Hb Hv.
  inversion Hr as [| | |? ? m rs Hrs Hm|]; subst.
  pose proof (lookup_lt_Some _ _ _ Hd) as Hld.
  set (P := λ l, a0 ≤ l < S m ∨ l = ld) in *.
  destruct (mapM_M_total f exp valid Q P a0 m s0) with (gs := gs) (a := a0) (rs := rs) (s := s0)
    as (ls & s1 & Hrun & He1 & HQ1 & Hfresh & Hnd);
    [intros; unfold P; lia| |done|lia|done|done|done|done|].
  { intros g s a b' r ???? He. apply Hf; [done..|lia|].
    eapply ext_weaken; [|exact He]. intros; simpl in *; lia. }
  assert (ext P s0 s1) as He1'.
  { eapply ext_weaken; [|done]. intros; unfold P; simpl in *; lia. }
  pose proof (ext_length _ _ _ He1) as Hlen1.
  assert (getitem (VRef ld) (VStr k) s0 = Ok (VRef m) s0) as Hg.
  { by rewrite (getitem_dict _ _ _ _ Hd), al_get_app_r, Hget by done. }
  set (s2 := State (heap s1 ++ [OList (VRef <$> ls)]) (patches s1)).
  set (lv := VRef (length (heap s1))).
  assert (list_comp f (VRef m) s0 = Ok lv s2) as Hlc.
  { unfold list_comp. erewrite bind_run; [|unfold iter; by rewrite Hm].
    by rewrite (bind_run _ _ _ _ _ Hrun). }
  assert (heap s1 !! ld = Some (ODict (d0 ++ tail))) as Hd1.
  { eapply ext_dict; [exact He1| |done]. simpl. lia. }
  assert (heap s2 !! ld = Some (ODict (d0 ++ tail))) as Hd2.
  { simpl. by apply lookup_app_l_Some. }
  set (s3 := State (<[ld := ODict (al_set (VStr k) lv (d0 ++ tail))]> (heap s2))
                   (patches s2)).
  assert (setitem (VRef ld) k lv s2 = Ok tt s3) as Hs.
  { apply setitem_Ok. eauto. }
  assert (ext P s1 s3) as He3.
  { etrans; [apply (ext_alloc _ s1)|]. eapply (ext_setitem _ s2); [|done].
    unfold P. by right. }
  exists lv, ls, s3. split_and!.
  - intros A rest. rewrite (bind_run _ _ _ _ _ Hg), (bind_run _ _ _ _ _ Hlc).
    by rewrite (bind_run _ _ _ _ _ Hs).
  - by etrans.
  - simpl. rewrite list_lookup_insert_eq; [|rewrite length_app; lia].
    by rewrite al_set_app_r.
  - apply is_list_ref. exists (length (heap s1)). split; [done|]. simpl.
    rewrite list_lookup_insert_ne by lia.
    by rewrite lookup_app_r, Nat.sub_diag by lia.
  - eapply Forall2_impl; [done|]. intros v g Hq. by eapply HQ.
  - eapply Forall_impl; [done|]. intros l ?. simpl in *.
    rewrite length_insert, length_app. simpl. lia.
  - done.
Qed.

(** ** Entities of a built graph in a later store *)

Lemma task_view_ext (P : loc → Prop) n s s' tv g :
  ext P s s' → (∀ l, P l → l < n) → task_view n s tv g → task_view n s' tv g.
Proof.
  intros He HP (da & lsf & dm & ltc & Hi & H1 & H2 & H3 & H4).
  exists da, lsf, dm, ltc.
  split_and!; eauto using ext_inst, leaves_built_ext, keyed_built_ext.
Qed.

Lemma submission_view_ext (P : loc → Prop) n s s' ts u sv g :
  ext P s s' → (∀ l, P l → l < n) →
  submission_view n s ts u sv g → submission_view n s' ts u sv g.
Proof.
  intros He HP (df & de & lev & tv & t & Hi & H1 & H2 & H3 & H4 & H5).
  exists df, de, lev, tv, t.
  split_and!;
    eauto using ext_inst, leaves_built_ext, keyed_built_ext, token_built_ext.
Qed.

Lemma user_view_ext (P : loc → Prop) n s s' ts u g :
  ext P s s' → (∀ l, P l → l < n) → user_view n s ts u g → user_view n s' ts u g.
Proof.
  intros He HP (lm & lq & ls & svs & Hi & H1 & H2 & H3 & H4).
  exists lm, lq, ls, svs.
  split_and!; eauto using ext_inst, ext_list, leaves_built_ext.
  eapply Forall2_impl; [done|]. intros sv g'. by apply (submission_view_ext P).
Qed.

Lemma score_view_ext P s s' ts us sv g :
  ext P s s' → score_view s ts us sv g → score_view s' ts us sv g.
Proof.
  intros He (t & u & Hi & H1 & H2). exists t, u. eauto using ext_inst.
Qed.

(** ** The back-reference patch on a built user *)

Lemma forM_setattr_total name v ls s :
  Forall (λ l, ∃ c a, heap s !! l = Some (OInst c a)) ls →
  ∃ s', forM_ (λ x, setattr x name v) (VRef <$> ls) s = Ok tt s' ∧
    length (heap s') = length (heap s) ∧
    (∀ l, l ∉ ls → heap s' !! l = heap s !! l) ∧
    (∀ l c a, l ∈ ls → heap s !! l = Some (OInst c a) →
       heap s' !! l = Some (OInst c (al_set name v a))).
Proof.
  revert s. induction ls as [|l0 ls IH]; intros s Hall.
  - exists s. split_and!; [done..|]. intros l c a Hin. by apply elem_of_nil in Hin.
  - apply Forall_cons in Hall as [(c0 & a0 & Hl0) Hall].
    pose proof (lookup_lt_Some _ _ _ Hl0) as Hlt.
    set (s1 := State (<[l0 := OInst c0 (al_set name v a0)]> (heap s))
                     (patches s ++ [(l0, name, v)])).
    assert (setattr (VRef l0) name v s = Ok tt s1) as Hs.
    { apply setattr_Ok. eauto 10. }
    assert (heap s1 !! l0 = Some (OInst c0 (al_set name v a0))) as Hl1.
    { simpl. by apply list_lookup_insert_eq. }
    destruct (IH s1) as (s' & Hrun & Hlen & Hout & Hin).
    { eapply Forall_impl; [done|]. intros l (c & a & Hl). simpl.
      destruct (decide (l = l0)) as [->|]; [eauto|].
      rewrite list_lookup_insert_ne by done. eauto. }
    exists s'. split_and!.
    + simpl. by rewrite (bind_run _ _ _ _ _ Hs).
    + rewrite Hlen. simpl. by rewrite length_insert.
    + intros l [Hne Hl]%not_elem_of_cons. rewrite Hout by done. simpl.
      by rewrite list_lookup_insert_ne.
    + intros l c a Hl Hs0. destruct (decide (l = l0)) as [->|Hne].
      * assert (c = c0 ∧ a = a0) as [-> ->] by (split; congruence).
        destruct (decide (l0 ∈ ls)) as [Hl0'|Hl0'].
        -- rewrite (Hin _ _ _ Hl0' Hl1). by rewrite al_set_set.
        -- by rewrite Hout.
      * apply elem_of_cons in Hl as [?|Hl]; [done|]. apply Hin; [done|].
        simpl. by rewrite list_lookup_insert_ne.
Qed.

Lemma valid_fields_fresh keys f k : valid_fields keys f → k ∈ keys → k ∉ f.*1.
Proof.
  intros [_ Hall] Hk (p & -> & Hp)%list_elem_of_fmap.
  rewrite Forall_forall in Hall. by destruct (Hall p Hp).
Qed.

Section patch.
Context (s s' : state) (ls : list loc) (u : value).
Hypothesis Hother : ∀ l o,
  heap s !! l = Some o → inst_class o ≠ Some Submission → heap s' !! l = Some o.
Hypothesis Hsub : ∀ l a,
  l ∈ ls → heap s !! l = Some (OInst Submission a) →
  heap s' !! l = Some (OInst Submission (al_set "user" u a)).

Lemma inst_patch v c a : c ≠ Submission → is_inst s v c a → is_inst s' v c a.
Proof.
  intros Hc (l & -> & Hl)%is_inst_ref. apply is_inst_ref. exists l.
  split; [done|]. apply Hother; [done|]. simpl. congruence.
Qed.

Lemma list_patch v vs : is_list s v vs → is_list s' v vs.
Proof.
  intros (l & -> & Hl)%is_list_ref. apply is_list_ref. exists l.
  split; [done|]. by apply Hother.
Qed.

Lemma leaves_built_patch lv c fs :
  c ≠ Submission → leaves_built s lv c fs → leaves_built s' lv c fs.
Proof.
  intros Hc (vs & Hl & Hall). exists vs. split; [by apply list_patch|].
  eapply Forall2_impl; [done|]. intros v f. by apply inst_patch.
Qed.

Lemma keyed_built_patch n dv c fs :
  c ≠ Submission → keyed_built n s dv c fs → keyed_built n s' dv c fs.
Proof.
  intros Hc (l & vs & -> & Hn & Hl & Hall). exists l, vs.
  split_and!; [done..|by apply Hother|].
  eapply Forall2_impl; [done|]. intros v f. by apply inst_patch.
Qed.

Lemma token_built_patch tv tok : token_built s tv tok → token_built s' tv tok.
Proof. destruct tok; simpl; [by apply inst_patch|done]. Qed.

Lemma submission_view_patch n ts l g :
  l ∈ ls → valid_fields submission_keys (sub_fields g) →
  submission_view n s ts VNone (VRef l) g → submission_view n s' ts u (VRef l) g.
Proof.
  intros Hl Hf (df & de & lev & tv & t & Hi & H1 & H2 & H3 & H4 & H5).
  exists df, de, lev, tv, t.
  split_and!;
    [|by apply keyed_built_patch|by apply keyed_built_patch
     |by apply leaves_built_patch|by apply token_built_patch|done].
  apply is_inst_ref in Hi as (l' & [= <-] & Hi). apply is_inst_ref. exists l.
  split; [done|]. rewrite (Hsub _ _ Hl Hi). do 2 f_equal.
  rewrite al_set_app_r; [done|]. eapply valid_fields_fresh; [done|key_in].
Qed.
End patch.

Lemma user_import_total g s a b r n0 tasks ts :
  valid_user (length ts) g → repr s (export_user g) a b r →
  b ≤ n0 → n0 ≤ length (heap s) → is_list s tasks ts →
  ∃ l s', user_import_from_dict r tasks s = Ok (VRef l) s' ∧
    length (heap s) ≤ l < length (heap s') ∧
    ext (λ l, a ≤ l < b) s s' ∧ user_view n0 s' ts (VRef l) g.
Proof.
  intros (Hf & Huname & Hmsg & Hq & Hsubs) Hr Hb Hn Hts.
  unfold export_user in Hr.
  destruct (repr_record _ _ _ _ _ _ user_keys Hr Hf)
    as (m & vs & -> & -> & Hrs & Hd);
    [by apply (bool_decide_unpack _)|done|].
  simpl in Hrs. inv_reprs. simpl in Hd. repr_bounds.
  pose proof (lookup_lt_Some _ _ _ Hd) as Hld.
  assert (∀ k, k ∈ user_keys → VStr k ∉ (fields_dict (user_fields g)).*1) as Hfresh
    by (intros; by eapply fields_dict_fresh).
  edestruct (step_leaves Message "messages")
    as (lm & s1 & Hrun1 & He1 & _ & Hd1 & Hb1);
    [exact Hd|apply Hfresh; key_in|reflexivity|done|lia|done|].
  simpl in Hd1. transport s s1 He1. pose proof (ext_length _ _ _ He1).
  edestruct (step_leaves Question "questions")
    as (lq & s2 & Hrun2 & He2 & _ & Hd2 & Hb2);
    [exact Hd1|apply Hfresh; key_in|reflexivity|done|lia|done|].
  simpl in Hd2. transport s1 s2 He2. pose proof (ext_length _ _ _ He2).
  match goal with H : repr s2 (JList _) ?x _ _ |- _ =>
    rename H into Hsr; rename x into a3 end.
  edestruct (step_list_comp (λ sd, submission_import_from_dict sd tasks)
               export_submission (valid_submission (length ts))
               (λ s v g, submission_view n0 s ts VNone v g) "submissions")
    with (s0 := s2) (a0 := a3) (b := m) (ld := m)
    as (lv & ls & s3 & Hrun3 & He3 & Hd3 & Hlist & Hviews & Hnew & Hnd);
    [| |exact Hd2|apply Hfresh; key_in|reflexivity|exact Hsr|lia|done|].
  { intros g' s' a' b' r' Hg' Hr' Ha' Hb' He'.
    pose proof (ext_length _ _ _ He').
    apply submission_import_total with (n0 := n0); [done..|lia|lia|].
    by apply (ext_list _ s2 s' _ _ He'). }
  { intros s' s'' sv g' Hv He'. eapply submission_view_ext; [done| |done].
    intros; simpl in *; lia. }
  simpl in Hd3. transport s2 s3 He3. pose proof (ext_length _ _ _ He3).
  pose proof (construct_record User _ _ _ _ _ Hd3 eq_refl) as Hc.
  set (s4 := State _ _) in Hc. set (u := VRef (length (heap s3))) in *.
  assert (ext (λ l, l = m) s3 s4) as He4 by apply ext_alloc.
  assert (is_inst s4 u User
            (user_fields g ++ [("messages", lm); ("questions", lq);
                               ("submissions", lv)])) as Hu by apply is_inst_new.
  transport s3 s4 He4.
  assert (Forall2 (λ v g, submission_view n0 s4 ts VNone v g) (VRef <$> ls)
            (user_submissions g)) as Hviews4.
  { eapply Forall2_impl; [done|]. intros sv g'.
    apply submission_view_ext with (P := λ l, l = m); [done|].
    intros; simpl in *; lia. }
  assert (getattr u "submissions" s4 = Ok lv s4) as Hga.
  { apply getattr_Ok. split; [|done]. apply field_inst. do 2 eexists.
    split; [exact Hu|]. rewrite al_get_app_r; [done|].
    eapply valid_fields_fresh; [done|key_in]. }
  pose proof (iter_list _ _ _ Hlist) as Hit.
  assert (Forall (λ l, ∃ a, heap s4 !! l = Some (OInst Submission a)) ls) as Hinst.
  { apply Forall_forall. intros l Hl.
    apply list_elem_of_lookup in Hl as [i Hi].
    assert ((VRef <$> ls) !! i = Some (VRef l)) as Hi'
      by (by rewrite list_lookup_fmap, Hi).
    destruct (Forall2_lookup_l _ _ _ _ _ Hviews4 Hi')
      as (g' & _ & (? & ? & ? & ? & ? & Hiv & _)).
    apply is_inst_ref in Hiv as (? & [= <-] & ?). eauto. }
  destruct (forM_setattr_total "user" u ls s4) as (s5 & Hfor & Hlen5 & Hout & Hin).
  { eapply Forall_impl; [done|]. intros l [? ?]. eauto. }
  assert (∀ l o, heap s4 !! l = Some o → inst_class o ≠ Some Submission →
                 heap s5 !! l = Some o) as Hother.
  { intros l o Hl Hc'. destruct (decide (l ∈ ls)) as [Hl'|Hl'].
    - rewrite Forall_forall in Hinst. destruct (Hinst l Hl') as [a' Ha'].
      rewrite Ha' in Hl. by simplify_eq.
    - by rewrite Hout. }
  assert (∀ l a', l ∈ ls → heap s4 !! l = Some (OInst Submission a') →
                  heap s5 !! l = Some (OInst Submission (al_set "user" u a')))
    as Hsub by (intros; by apply Hin).
  exists (length (heap s3)), s5. split_and!.
  - unfold user_import_from_dict. rewrite Hrun1, Hrun2, Hrun3.
    rewrite (bind_run _ _ _ _ _ Hc), (bind_run _ _ _ _ _ Hga).
    rewrite (bind_run _ _ _ _ _ Hit), (bind_run _ _ _ _ _ Hfor). done.
  - lia.
  - rewrite Hlen5. simpl. rewrite length_app. simpl. lia.
  - assert (ext (λ l, a ≤ l < S m) s s4) as He.
    { etrans; [eapply ext_weaken; [|exact He1]|]; [intros; simpl in *; lia|].
      etrans; [eapply ext_weaken; [|exact He2]|]; [intros; simpl in *; lia|].
      etrans; [eapply ext_weaken; [|exact He3]|]; [intros; simpl in *; lia|].
      eapply ext_weaken; [|exact He4]. intros; simpl in *; lia. }
    destruct He as [Hlen He]. split; [lia|]. intros l o Hl.
    assert (l ∉ ls) as Hl'.
    { intros Hl'. rewrite Forall_forall in Hnew. apply Hnew in Hl'.
      apply lookup_lt_Some in Hl. lia. }
    rewrite (Hout l Hl'). by apply He.
  - exists lm, lq, lv, (VRef <$> ls). split_and!.
    + by apply (inst_patch s4 s5 Hother).
    + by apply (leaves_built_patch s4 s5 Hother).
    + by apply (leaves_built_patch s4 s5 Hother).
    + by apply (list_patch s4 s5 Hother).
    + apply Forall2_fmap_l.
      pose proof (proj1 (Forall2_fmap_l _ _ _ _) Hviews4) as Hviews'.
      apply Forall2_same_length_lookup_2; [exact (Forall2_length _ _ _ Hviews')|].
      intros i l g' Hl Hg'.
      pose proof (Forall2_lookup_lr _ _ _ _ _ _ Hviews' Hl Hg') as Hview.
      simpl in Hview.
      eapply (submission_view_patch s4 s5 ls u Hother Hsub);
        [by eapply list_elem_of_lookup_2| |exact Hview].
      rewrite Forall_forall in Hsubs. eapply Hsubs, list_elem_of_lookup_2, Hg'.
Qed.

(** ** Scores and the ranking view *)

Lemma get_user_loop_total us names s : ∀ j u n,
  Forall2 (λ u n, field s u "username" n) us names → NoDup names →
  us !! j = Some u → names !! j = Some n →
  get_user_loop us n s = Ok u s.
Proof.
  intros j u n Hall. revert j. induction Hall as [|u0 n0 us names Hu0 Hall IH];
    intros j Hnd Hu Hn; [done|].
  apply NoDup_cons in Hnd as [Hn0 Hnd]. simpl.
  erewrite bind_run; [|apply getattr_Ok; split; [exact Hu0|done]].
  destruct j as [|j]; simpl in *.
  - simplify_eq. by rewrite decide_True.
  - rewrite decide_False; [by eapply IH|].
    intros ->. apply Hn0. by eapply list_elem_of_lookup_2.
Qed.

(** [data[k] = look(data[k])] for a lookup that leaves the store as it is. *)
Lemma step_resolve (look : value → M value) k x y ld d0 tail s :
  heap s !! ld = Some (ODict (d0 ++ tail)) → VStr k ∉ d0.*1 →
  al_get (VStr k) tail = Some x → look x s = Ok y s →
  ∃ s',
    (∀ A (rest : M A),
       (x ← getitem (VRef ld) (VStr k);
        y ← look x;
        setitem (VRef ld) k y;; rest) s = rest s') ∧
    ext (λ l, l = ld) s s' ∧ patches s' = patches s ∧
    heap s' !! ld = Some (ODict (d0 ++ al_set (VStr k) y tail)).
Proof.
  intros Hd Hk Hget Hlook.
  pose proof (lookup_lt_Some _ _ _ Hd) as Hld.
  assert (getitem (VRef ld) (VStr k) s = Ok x s) as Hg.
  { by rewrite (getitem_dict _ _ _ _ Hd), al_get_app_r, Hget by done. }
  set (s2 := State (<[ld := ODict (al_set (VStr k) y (d0 ++ tail))]> (heap s))
                   (patches s)).
  assert (setitem (VRef ld) k y s = Ok tt s2) as Hs.
  { apply setitem_Ok. eauto. }
  exists s2. split_and!.
  - intros A rest. rewrite (bind_run _ _ _ _ _ Hg), (bind_run _ _ _ _ _ Hlook).
    by rewrite (bind_run _ _ _ _ _ Hs).
  - by eapply (ext_setitem _ s).
  - done.
  - simpl. rewrite list_lookup_insert_eq by done. by rewrite al_set_app_r.
Qed.

Lemma username_scalar g : valid_fields user_keys (user_fields g) → scalar (username_of g).
Proof.
  intros [_ Hall]. unfold username_of.
  destruct (al_get "username" (user_fields g)) as [v|] eqn:Hg; [|done]. simpl.
  induction Hall as [|[k w] f [Hs _] _ IH]; simpl in *; [done|].
  destruct (decide ("username" = k)); [by simplify_eq|]. by apply IH.
Qed.

Lemma user_view_username n s ts u g :
  is_Some (al_get "username" (user_fields g)) → user_view n s ts u g →
  field s u "username" (username_of g).
Proof.
  intros [x Hx] (lm & lq & ls & svs & Hi & _). apply field_inst.
  do 2 eexists. split; [exact Hi|]. unfold username_of. rewrite Hx. simpl.
  by apply al_get_app_l.
Qed.

Lemma score_import_total users g s a b r tasks ts usersv us :
  valid_score (length ts) (length users) g → repr s (export_score users g) a b r →
  b ≤ length (heap s) →
  is_list s tasks ts → is_list s usersv us →
  Forall2 (λ u ug, field s u "username" (username_of ug)) us users →
  NoDup (username_of <$> users) → Forall (λ ug, scalar (username_of ug)) users →
  ∃ l s', score_import_from_dict r tasks usersv s = Ok (VRef l) s' ∧
    length (heap s) ≤ l < length (heap s') ∧
    ext (λ l, a ≤ l < b) s s' ∧ score_view s' ts us (VRef l) g.
Proof.
  intros (Hf & Htask & Huser) Hr Hb Hts Hus Hnames Hnd Hsc.
  destruct (lookup_lt_is_Some_2 ts (score_task g) Htask) as [t Ht].
  destruct (lookup_lt_is_Some_2 users (score_user g) Huser) as [ug Hug].
  pose proof (Forall2_length _ _ _ Hnames) as Hlen.
  destruct (lookup_lt_is_Some_2 us (score_user g)) as [u Hu]; [lia|].
  unfold export_score in Hr. rewrite Hug in Hr. simpl in Hr.
  destruct (repr_record _ _ _ _ _ _ score_keys Hr Hf)
    as (m & vs & -> & -> & Hrs & Hd);
    [by apply (bool_decide_unpack _)|done|].
  simpl in Hrs. inv_reprs. simpl in Hd.
  match goal with H : repr _ (JInt _) _ _ _ |- _ => inversion H; subst; clear H end.
  match goal with H : repr _ (json_of _) _ _ _ |- _ =>
    apply repr_scalar in H as [<- ->];
      [|by eapply (proj1 (Forall_forall _ _) Hsc), list_elem_of_lookup_2]
  end.
  match type of Hd with heap _ !! ?l = _ => rename l into ld end.
  pose proof (lookup_lt_Some _ _ _ Hd) as Hld.
  assert (∀ k, k ∈ score_keys → VStr k ∉ (fields_dict (score_fields g)).*1) as Hfresh
    by (intros; by eapply fields_dict_fresh).
  edestruct (step_index "task") as (s1 & Hrun1 & He1 & _ & Hd1);
    [exact Hd|apply Hfresh; key_in|reflexivity|exact Hts|exact Ht|].
  simpl in Hd1. transport s s1 He1. pose proof (ext_length _ _ _ He1).
  assert (get_user usersv (username_of ug) s1 = Ok u s1) as Hgu.
  { unfold get_user. rewrite (bind_run _ _ _ _ _ (iter_list _ _ _ Hus)).
    eapply get_user_loop_total; [|done|done|by rewrite list_lookup_fmap, Hug].
    apply Forall2_fmap_r. eapply Forall2_impl; [done|].
    intros ? ?. by apply (ext_field _ _ _ _ _ _ He1). }
  edestruct (step_resolve (get_user usersv) "user") as (s2 & Hrun2 & He2 & _ & Hd2);
    [exact Hd1|apply Hfresh; key_in|reflexivity|exact Hgu|].
  simpl in Hd2. transport s1 s2 He2. pose proof (ext_length _ _ _ He2).
  pose proof (construct_record Score _ _ _ _ _ Hd2 eq_refl) as Hc.
  set (s3 := State _ _) in Hc.
  assert (ext (λ l, l = ld) s2 s3) as He3 by apply ext_alloc.
  exists (length (heap s2)), s3. split_and!.
  - unfold score_import_from_dict. by rewrite Hrun1, Hrun2.
  - lia.
  - simpl. rewrite length_app. simpl. lia.
  - eapply ext_weaken; [|by repeat (etrans; [eassumption|])].
    intros l ->. lia.
  - exists t, u. split_and!; [apply is_inst_new|done..].
Qed.

Lemma rankingview_keyfunc_total s ts us sv x :
  valid_fields score_keys (score_fields x) → score_view s ts us sv x →
  ∃ t u, rankingview_keyfunc sv s = Ok (VPair t u) s ∧
    ts !! score_task x = Some t ∧ us !! score_user x = Some u.
Proof.
  intros Hf (t & u & Hi & Ht & Hu). exists t, u. split_and!; [|done..].
  unfold rankingview_keyfunc.
  erewrite bind_run; last first.
  { apply getattr_Ok. split; [|done]. apply field_inst. do 2 eexists.
    split; [exact Hi|]. rewrite al_get_app_r; [done|].
    eapply valid_fields_fresh; [done|key_in]. }
  erewrite bind_run; last first.
  { apply getattr_Ok. split; [|done]. apply field_inst. do 2 eexists.
    split; [exact Hi|]. rewrite al_get_app_r; [done|].
    eapply valid_fields_fresh; [done|key_in]. }
  done.
Qed.

Lemma instance_hashable s v c a : is_inst s v c a → hashable (heap s) v = true.
Proof. intros (l & -> & Hl)%is_inst_ref. simpl. by rewrite Hl. Qed.

(** The keys of the scores mapping are pairwise distinct when the task
    and user objects are, and no two scores have the same task and user. *)
Lemma score_keys_NoDup {A} (R : A → ScoreG → Prop) ts us (d : list (value * A))
    scores :
  Forall2 (λ p x, ∃ t u, p.1 = VPair t u ∧
             ts !! score_task x = Some t ∧ us !! score_user x = Some u ∧
             R p.2 x) d scores →
  NoDup ts → NoDup us →
  NoDup ((λ x, (score_task x, score_user x)) <$> scores) →
  NoDup d.*1.
Proof.
  intros Hps Hndt Hndu Hnd. apply NoDup_alt. intros i j k Hi Hj.
  rewrite list_lookup_fmap in Hi, Hj.
  apply fmap_Some in Hi as (pi & Hi & ->). apply fmap_Some in Hj as (pj & Hj & Hk).
  destruct (Forall2_lookup_l _ _ _ _ _ Hps Hi)
    as (xi & Hxi & ti & ui & Hki & Hti & Hui & _).
  destruct (Forall2_lookup_l _ _ _ _ _ Hps Hj)
    as (xj & Hxj & tj & uj & Hkj & Htj & Huj & _).
  rewrite Hki, Hkj in Hk. injection Hk as -> ->.
  pose proof (NoDup_lookup _ _ _ _ Hndt Hti Htj) as Het.
  pose proof (NoDup_lookup _ _ _ _ Hndu Hui Huj) as Heu.
  eapply (NoDup_lookup _ _ _ _ Hnd).
  - by rewrite list_lookup_fmap, Hxi.
  - rewrite list_lookup_fmap, Hxj. simpl. by rewrite Het, Heu.
Qed.

(** [dict([(Score.rankingview_keyfunc(x), x) for x in lv])] for the scores
    built from [scores]. *)
Lemma dict_by_keyfunc_total s lv svs ts us scores :
  is_list s lv svs → Forall2 (score_view s ts us) svs scores →
  Forall (λ x, valid_fields score_keys (score_fields x)) scores →
  NoDup ts → NoDup us →
  Forall (λ t, ∃ c a, is_inst s t c a) ts →
  Forall (λ u, ∃ c a, is_inst s u c a) us →
  NoDup ((λ x, (score_task x, score_user x)) <$> scores) →
  ∃ d, dict_by rankingview_keyfunc lv s
       = Ok (VRef (length (heap s))) (State (heap s ++ [ODict d]) (patches s)) ∧
    Forall2 (λ p x, ∃ t u, p.1 = VPair t u ∧
                      ts !! score_task x = Some t ∧ us !! score_user x = Some u ∧
                      score_view s ts us p.2 x) d scores.
Proof.
  intros Hlv Hviews Hf Hndt Hndu Hit Hiu Hnd.
  assert (∃ ps, mapM_M (λ x, k ← rankingview_keyfunc x; mret (k, x)) svs s = Ok ps s ∧
            Forall2 (λ p x, ∃ t u, p.1 = VPair t u ∧
                      ts !! score_task x = Some t ∧ us !! score_user x = Some u ∧
                      score_view s ts us p.2 x) ps scores) as (ps & Hrun & Hps).
  { clear Hnd Hlv. induction Hviews as [|sv x svs scores Hv Hviews IH].
    - exists []. split; [done|constructor].
    - apply Forall_cons in Hf as [Hx Hf]. destruct (IH Hf) as (ps & Hrun & Hps).
      destruct (rankingview_keyfunc_total _ _ _ _ _ Hx Hv) as (t & u & Hk & Ht & Hu).
      exists ((VPair t u, sv) :: ps). split.
      + assert ((k ← rankingview_keyfunc sv; mret (k, sv)) s
                = Ok (VPair t u, sv) s) as Hk'
          by (by rewrite (bind_run _ _ _ _ _ Hk)).
        simpl. by rewrite (bind_run _ _ _ _ _ Hk'), (bind_run _ _ _ _ _ Hrun).
      + constructor; [|done]. exists t, u. done. }
  exists ps. split; [|done].
  unfold dict_by. rewrite (bind_run _ _ _ _ _ (iter_list _ _ _ Hlv)).
  rewrite (bind_run _ _ _ _ _ Hrun). apply new_dict_Ok. split_and!; [| done |].
  - apply Is_true_eq_true, forallb_True, Forall_fmap, Forall_forall.
    intros p Hp. apply list_elem_of_lookup in Hp as [i Hi].
    destruct (Forall2_lookup_l _ _ _ _ _ Hps Hi) as (x & _ & t & u & Hk & Ht & Hu & _).
    simpl. rewrite Hk. simpl.
    rewrite Forall_forall in Hit. rewrite Forall_forall in Hiu.
    destruct (Hit t) as (? & ? & Hti); [by eapply list_elem_of_lookup_2|].
    destruct (Hiu u) as (? & ? & Hui); [by eapply list_elem_of_lookup_2|].
    by rewrite (instance_hashable _ _ _ _ Hti), (instance_hashable _ _ _ _ Hui).
  - rewrite al_of_list_NoDup_id; [done|].
    by apply (score_keys_NoDup (score_view s ts us) ts us ps scores).
Qed.

(** [data[k] = look(data[k])] for a computation that only extends the
    store. *)
Lemma step_compute (look : value → M value) k x y ld d0 tail s s1 :
  heap s !! ld = Some (ODict (d0 ++ tail)) → VStr k ∉ d0.*1 →
  al_get (VStr k) tail = Some x → look x s = Ok y s1 → ext (λ _, False) s s1 →
  ∃ s',
    (∀ A (rest : M A),
       (x ← getitem (VRef ld) (VStr k);
        y ← look x;
        setitem (VRef ld) k y;; rest) s = rest s') ∧
    ext (λ l, l = ld) s1 s' ∧
    heap s' !! ld = Some (ODict (d0 ++ al_set (VStr k) y tail)).
Proof.
  intros Hd Hk Hget Hlook He.
  assert (heap s1 !! ld = Some (ODict (d0 ++ tail))) as Hd1
    by (eapply ext_dict; [exact He|tauto|done]).
  pose proof (lookup_lt_Some _ _ _ Hd1) as Hld.
  assert (getitem (VRef ld) (VStr k) s = Ok x s) as Hg.
  { by rewrite (getitem_dict _ _ _ _ Hd), al_get_app_r, Hget by done. }
  set (s2 := State (<[ld := ODict (al_set (VStr k) y (d0 ++ tail))]> (heap s1))
                   (patches s1)).
  assert (setitem (VRef ld) k y s1 = Ok tt s2) as Hs.
  { apply setitem_Ok. eauto. }
  exists s2. split_and!.
  - intros A rest. rewrite (bind_run _ _ _ _ _ Hg), (bind_run _ _ _ _ _ Hlook).
    by rewrite (bind_run _ _ _ _ _ Hs).
  - by eapply (ext_setitem _ s1).
  - simpl. rewrite list_lookup_insert_eq by done. by rewrite al_set_app_r.
Qed.

Lemma views_instances {G} (Q : value → G → Prop) s vs gs :
  (∀ v g, Q v g → ∃ c a, is_inst s v c a) →
  Forall2 Q vs gs → Forall (λ v, ∃ c a, is_inst s v c a) vs.
Proof.
  intros HQ Hall. apply Forall_forall. intros v Hv.
  apply list_elem_of_lookup in Hv as [i Hi].
  destruct (Forall2_lookup_l _ _ _ _ _ Hall Hi) as (g & _ & Hq). by eapply HQ.
Qed.

Lemma rankingview_import_total g s a b r n0 tasks ts usersv us :
  valid_contest g → repr s (export_ranking g) a b r →
  b ≤ n0 → n0 ≤ length (heap s) →
  is_list s tasks ts → is_list s usersv us → NoDup ts → NoDup us →
  Forall2 (task_view n0 s) ts (contest_tasks g) →
  Forall2 (user_view n0 s ts) us (contest_users g) →
  ∃ l s', rankingview_import_from_dict r tasks usersv s = Ok (VRef l) s' ∧
    length (heap s) ≤ l < length (heap s') ∧
    ext (λ l, a ≤ l < b) s s' ∧ ranking_view_of n0 s' ts us (VRef l) g.
Proof.
  intros (_ & _ & Hvu & Hndn & _ & Hf & Hvs & Hndp) Hr Hb Hn Hts Hus Hndt Hndu
    Htv Huv.
  rewrite <- (Forall2_length _ _ _ Htv), <- (Forall2_length _ _ _ Huv) in Hvs.
  assert (Forall2 (λ u ug, field s u "username" (username_of ug)) us (contest_users g))
    as Hnames.
  { apply Forall2_same_length_lookup_2; [by eapply Forall2_length|].
    intros i u ug Hu Hug. rewrite Forall_lookup in Hvu.
    destruct (Hvu i ug Hug) as (_ & Hsome & _).
    eapply user_view_username; [done|]. by eapply (Forall2_lookup_lr _ _ _ _ _ _ Huv). }
  assert (Forall (λ ug, scalar (username_of ug)) (contest_users g)) as Hsc.
  { eapply Forall_impl; [exact Hvu|]. intros ug (Hfu & _). by apply username_scalar. }
  assert (Forall (λ t, ∃ c a, is_inst s t c a) ts) as Hit.
  { eapply views_instances; [|exact Htv]. intros v g' (? & ? & ? & ? & ? & _). eauto. }
  assert (Forall (λ u, ∃ c a, is_inst s u c a) us) as Hiu.
  { eapply views_instances; [|exact Huv]. intros v g' (? & ? & ? & ? & ? & _). eauto. }
  unfold export_ranking in Hr.
  destruct (repr_record _ _ _ _ _ _ ranking_keys Hr Hf)
    as (m & vs & -> & -> & Hrs & Hd);
    [by apply (bool_decide_unpack _)|done|].
  simpl in Hrs. inv_reprs. simpl in Hd. repr_bounds.
  match type of Hd with heap _ !! ?l = _ => rename l into ld end.
  pose proof (lookup_lt_Some _ _ _ Hd) as Hld.
  assert (∀ k, k ∈ ranking_keys → VStr k ∉ (fields_dict (ranking_fields g)).*1)
    as Hfresh by (intros; by eapply fields_dict_fresh).
  match goal with H : repr s (JList _) _ _ _ |- _ => rename H into Hsr end.
  edestruct (step_list_comp (λ sd, score_import_from_dict sd tasks usersv)
               (export_score (contest_users g))
               (valid_score (length ts) (length us))
               (λ s v g, score_view s ts us v g) "scores")
    with (s0 := s) (a0 := a) (b := ld) (ld := ld)
    as (lv & ls & s1 & Hrun1 & He1 & Hd1 & Hlist & Hviews & Hnew & _);
    [| |exact Hd|apply Hfresh; key_in|reflexivity|exact Hsr|lia|done|].
  { intros g' s' a' b' r' Hg' Hr' Ha' Hb' He'.
    pose proof (ext_length _ _ _ He').
    rewrite (Forall2_length _ _ _ Huv) in Hg'.
    apply score_import_total with (users := contest_users g);
      [done|done|lia| | | |done|done].
    - by apply (ext_list _ s s' _ _ He').
    - by apply (ext_list _ s s' _ _ He').
    - eapply Forall2_impl; [exact Hnames|]. intros ??.
      by apply (ext_field _ _ _ _ _ _ He'). }
  { intros s' s'' sv g' Hv He'. by eapply score_view_ext. }
  simpl in Hd1. pose proof (ext_length _ _ _ He1).
  destruct (dict_by_keyfunc_total s1 lv (VRef <$> ls) ts us (ranking_scores g))
    as (d & Hdb & Hd_rel); [done|done| |done|done| | |done|].
  { eapply Forall_impl; [exact Hvs|]. by intros ? (? & _). }
  { eapply Forall_impl; [exact Hit|]. intros ? (? & ? & ?).
    eauto using ext_inst. }
  { eapply Forall_impl; [exact Hiu|]. intros ? (? & ? & ?).
    eauto using ext_inst. }
  set (s2 := State _ _) in Hdb.
  edestruct (step_compute (dict_by rankingview_keyfunc) "scores")
    as (s3 & Hrun3 & He3 & Hd3);
    [exact Hd1|apply Hfresh; key_in|reflexivity|exact Hdb|apply ext_alloc|].
  simpl in Hd3.
  pose proof (construct_record RankingView _ _ _ _ _ Hd3 eq_refl) as Hc.
  set (s4 := State _ _) in Hc.
  assert (ext (λ l, l = ld) s3 s4) as He4 by apply ext_alloc.
  assert (ext (λ l, l = ld) s1 s4) as He14.
  { etrans; [apply (ext_alloc _ s1 (ODict d))|]. by etrans. }
  pose proof (ext_length _ _ _ He3) as Hlen3. simpl in Hlen3.
  rewrite length_app in Hlen3. simpl in Hlen3.
  exists (length (heap s3)), s4. split_and!.
  - unfold rankingview_import_from_dict. by rewrite Hrun1, Hrun3.
  - lia.
  - simpl. rewrite length_app. simpl. lia.
  - etrans; [eapply ext_weaken; [|exact He1]|eapply ext_weaken; [|exact He14]];
      intros; simpl in *; lia.
  - exists (length (heap s1)), d. split_and!; [apply is_inst_new|lia| |].
    + eapply (ext_dict _ s2 s4); [by etrans|simpl; lia|].
      simpl. by rewrite lookup_app_r, Nat.sub_diag by lia.
    + eapply Forall2_impl; [exact Hd_rel|].
      intros p x (t & u & ? & ? & ? & ?). exists t, u.
      split_and!; [done..|]. by eapply score_view_ext.
Qed.

(** ** The contest *)

Lemma ranking_view_of_ext (P : loc → Prop) n s s' ts us rv g :
  ext P s s' → (∀ l, P l → l < n) →
  ranking_view_of n s ts us rv g → ranking_view_of n s' ts us rv g.
Proof.
  intros He HP (l & d & Hi & Hn & Hl & Hall). exists l, d.
  split_and!; [by eapply ext_inst|done| |].
  - eapply ext_dict; [done| |done]. intros ?%HP. lia.
  - eapply Forall2_impl; [done|]. intros p x (t & u & ? & ? & ? & ?).
    exists t, u. split_and!; [done..|]. by eapply score_view_ext.
Qed.

Lemma contest_import_total g s a b r n0 :
  valid_contest g → repr s (export_contest g) a b r →
  b ≤ n0 → n0 ≤ length (heap s) →
  ∃ l s', contest_import_from_dict r s = Ok (VRef l) s' ∧
    contest_view n0 s' (VRef l) g.
Proof.
  intros Hvalid Hr Hb Hn.
  pose proof Hvalid as (Hf & Hvt & Hvu & Hndn & Hann & Hrf & Hvs & Hndp).
  unfold export_contest in Hr.
  destruct (repr_record _ _ _ _ _ _ contest_keys Hr Hf)
    as (m & vs & -> & -> & Hrs & Hd);
    [by apply (bool_decide_unpack _)|done|].
  cbn [fmap list_fmap snd fst] in Hrs. inv_reprs. cbn [fmap list_fmap snd fst zip_with] in Hd. repr_bounds.
  match type of Hd with heap _ !! ?l = _ => rename l into ld end.
  pose proof (lookup_lt_Some _ _ _ Hd) as Hld.
  assert (∀ k, k ∈ contest_keys → VStr k ∉ (fields_dict (contest_fields g)).*1)
    as Hfresh by (intros; by eapply fields_dict_fresh).
  match goal with H : repr s (JList (export_task <$> _)) _ ?y ?x |- _ =>
    rename H into Hr1; rename y into b1; rename x into w1 end.
  match goal with H : repr s (JList (export_user <$> _)) _ ?y ?x |- _ =>
    rename H into Hr2; rename y into b2; rename x into w2 end.
  match goal with H : repr s (export_leaves _) _ ?y ?x |- _ =>
    rename H into Hr3; rename y into b3; rename x into w3 end.
  match goal with H : repr s (export_ranking _) _ _ ?x |- _ =>
    rename H into Hr4; rename x into w4 end.
  (* the tasks *)
  edestruct (step_list_comp task_import_from_dict export_task valid_task
               (λ s v g, task_view n0 s v g) "tasks")
    with (s0 := s) (a0 := a) (b := b1) (ld := ld)
    as (lt & lts & s1 & Hrun1 & He1 & Hd1 & Hlist1 & Htv1 & Hnew1 & Hnd1);
    [| |exact Hd|apply Hfresh; key_in|reflexivity|exact Hr1|lia|done|].
  { intros g' s' a' b' r' Hg' Hr' Ha' Hb' He'.
    pose proof (ext_length _ _ _ He').
    apply task_import_total; [done|done|lia|lia]. }
  { intros s' s'' sv g' Hv He'. eapply task_view_ext; [done| |done].
    intros; simpl in *; lia. }
  simpl in Hd1. pose proof (ext_length _ _ _ He1).
  assert (repr s1 (JList (export_user <$> contest_users g)) b1 b2 w2) as Hr2'
    by (eapply repr_ext; [exact Hr2|exact He1|intros; simpl; lia|lia]).
  assert (repr s1 (export_leaves (contest_announcements g)) b2 b3 w3) as Hr3'
    by (eapply repr_ext; [exact Hr3|exact He1|intros; simpl; lia|lia]).
  assert (repr s1 (export_ranking g) b3 ld w4) as Hr4'
    by (eapply repr_ext; [exact Hr4|exact He1|intros; simpl; lia|lia]).
  clear Hr1 Hr2 Hr3 Hr4.
  set (ts := VRef <$> lts) in *.
  assert (length ts = length (contest_tasks g)) as Hlents
    by exact (Forall2_length _ _ _ Htv1).
  (* the users *)
  edestruct (step_list_comp
               (λ user_data, tasks ← getitem (VRef ld) (VStr "tasks");
                             user_import_from_dict user_data tasks)
               export_user (valid_user (length (contest_tasks g)))
               (λ s v g, user_view n0 s ts v g) "users")
    with (s0 := s1) (a0 := b1) (b := b2) (ld := ld)
    as (lu & lus & s2 & Hrun2 & He2 & Hd2 & Hlist2 & Huv2 & Hnew2 & Hnd2);
    [| |exact Hd1|apply Hfresh; key_in|reflexivity|exact Hr2'|lia|done|].
  { intros g' s' a' b' r' Hg' Hr' Ha' Hb' He'.
    pose proof (ext_length _ _ _ He').
    assert (heap s' !! ld = Some (ODict
              (fields_dict (contest_fields g) ++
               [(VStr "tasks", lt); (VStr "users", w2);
                (VStr "announcements", w3); (VStr "ranking_view", w4)]))) as Hd'.
    { eapply ext_dict; [exact He'|simpl; lia|exact Hd1]. }
    erewrite bind_run; last first.
    { rewrite (getitem_dict _ _ _ _ Hd'), al_get_app_r by (apply Hfresh; key_in).
      reflexivity. }
    rewrite <- Hlents in Hg'.
    apply user_import_total with (n0 := n0); [done|done|lia|lia|].
    by apply (ext_list _ s1 s' _ _ He'). }
  { intros s' s'' sv g' Hv He'. eapply user_view_ext; [done| |done].
    intros; simpl in *; lia. }
  simpl in Hd2. pose proof (ext_length _ _ _ He2).
  assert (repr s2 (export_leaves (contest_announcements g)) b2 b3 w3) as Hr3
    by (eapply repr_ext; [exact Hr3'|exact He2|intros; simpl; lia|lia]).
  assert (repr s2 (export_ranking g) b3 ld w4) as Hr4
    by (eapply repr_ext; [exact Hr4'|exact He2|intros; simpl; lia|lia]).
  clear Hr2' Hr3' Hr4'.
  set (us := VRef <$> lus) in *.
  (* the announcements *)
  edestruct (step_leaves Announcement "announcements")
    as (la & s3 & Hrun3 & He3 & _ & Hd3 & Hb3);
    [exact Hd2|apply Hfresh; key_in|reflexivity|exact Hr3|lia|done|].
  simpl in Hd3. pose proof (ext_length _ _ _ He3).
  assert (repr s3 (export_ranking g) b3 ld w4) as Hr4'
    by (eapply repr_ext; [exact Hr4|exact He3|intros; simpl; lia|lia]).
  clear Hr3 Hr4.
  (* the ranking view *)
  set (Pall := λ l : loc, l < n0).
  assert (ext Pall s1 s2) as Ha12
    by (eapply ext_weaken; [|exact He2]; intros; unfold Pall; simpl in *; lia).
  assert (ext Pall s2 s3) as Ha23
    by (eapply ext_weaken; [|exact He3]; intros; unfold Pall; simpl in *; lia).
  assert (NoDup ts) as Hndt by (apply NoDup_fmap_2; [by intros ?? [= ->]|done]).
  assert (NoDup us) as Hndu by (apply NoDup_fmap_2; [by intros ?? [= ->]|done]).
  destruct (rankingview_import_total g s3 b3 ld w4 n0 lt ts lu us)
    as (lr & s4 & Hrun4 & Hnew4 & He4 & Hrv4);
    [done|done|lia|lia| | |done|done| | |].
  { apply (ext_list _ s1 s3 _ _ (transitivity Ha12 Ha23)), Hlist1. }
  { apply (ext_list _ s2 s3 _ _ Ha23), Hlist2. }
  { eapply Forall2_impl; [exact Htv1|]. intros ??.
    by apply (task_view_ext Pall _ _ _ _ _ (transitivity Ha12 Ha23)). }
  { eapply Forall2_impl; [exact Huv2|]. intros ??.
    by apply (user_view_ext Pall _ _ _ _ _ _ Ha23). }
  pose proof (ext_length _ _ _ He4).
  assert (ext Pall s3 s4) as Ha34
    by (eapply ext_weaken; [|exact He4]; intros; unfold Pall; simpl in *; lia).
  assert (heap s4 !! ld = Some (ODict
            (fields_dict (contest_fields g) ++
             [(VStr "tasks", lt); (VStr "users", lu);
              (VStr "announcements", la); (VStr "ranking_view", w4)]))) as Hd4.
  { eapply ext_dict; [exact He4|simpl; lia|exact Hd3]. }
  edestruct (step_setitem "ranking_view" (VRef lr)) as (s5 & Hrun5 & He5 & _ & Hd5);
    [exact Hd4|apply Hfresh; key_in|].
  simpl in Hd5. pose proof (ext_length _ _ _ He5).
  assert (ext Pall s4 s5) as Ha45
    by (eapply ext_weaken; [|exact He5]; intros; unfold Pall; simpl in *; lia).
  pose proof (construct_record Contest _ _ _ _ _ Hd5 eq_refl) as Hc.
  set (s6 := State _ _) in Hc.
  assert (ext Pall s5 s6) as Ha56 by apply ext_alloc.
  assert (ext Pall s4 s6) as Ha46 by (by etrans).
  assert (ext Pall s3 s6) as Ha36 by (by etrans).
  assert (ext Pall s2 s6) as Ha26 by (by etrans).
  assert (ext Pall s1 s6) as Ha16 by (by etrans).
  exists (length (heap s5)), s6. split.
  - unfold contest_import_from_dict. rewrite Hrun1, Hrun2, Hrun3.
    erewrite bind_run; last first.
    { rewrite (getitem_dict _ _ _ _ Hd3), al_get_app_r by (apply Hfresh; key_in).
      reflexivity. }
    erewrite bind_run; last first.
    { rewrite (getitem_dict _ _ _ _ Hd3), al_get_app_r by (apply Hfresh; key_in).
      reflexivity. }
    erewrite bind_run; last first.
    { rewrite (getitem_dict _ _ _ _ Hd3), al_get_app_r by (apply Hfresh; key_in).
      reflexivity. }
    rewrite (bind_run _ _ _ _ _ Hrun4), Hrun5. exact Hc.
  - exists lt, lu, la, (VRef lr), ts, us. split_and!.
    + apply is_inst_new.
    + by apply (ext_list _ _ _ _ _ Ha16).
    + done.
    + eapply Forall2_impl; [exact Htv1|]. intros ??.
      by apply (task_view_ext Pall _ _ _ _ _ Ha16).
    + by apply (ext_list _ _ _ _ _ Ha26).
    + done.
    + eapply Forall2_impl; [exact Huv2|]. intros ??.
      by apply (user_view_ext Pall _ _ _ _ _ _ Ha26).
    + by apply (leaves_built_ext _ _ _ _ _ _ Ha36).
    + by apply (ranking_view_of_ext Pall _ _ _ _ _ _ _ Ha46).
Qed.

(** ** Reading a built graph by key *)

Lemma al_get_lookup {K V} `{EqDecision K} (d : list (K * V)) i k v :
  NoDup d.*1 → d !! i = Some (k, v) → al_get k d = Some v.
Proof.
  revert i. induction d as [|[k' v'] d IH]; intros i Hnd Hi; [done|].
  apply NoDup_cons in Hnd as [Hk' Hnd]. destruct i as [|i]; simpl in *.
  - simplify_eq. by rewrite decide_True.
  - rewrite decide_False; [by eapply IH|]. intros ->. apply Hk'.
    apply list_elem_of_fmap. exists (k', v). split; [done|].
    by eapply list_elem_of_lookup_2.
Qed.

(** In a keyed collection built from records with distinct filenames,
    every filename is bound to the entity built from its record. *)
Lemma keyed_built_lookup n s dv c fs i f :
  keyed_built n s dv c fs → NoDup (filename_of <$> fs) → fs !! i = Some f →
  ∃ v, item s dv (filename_of f) v ∧ is_inst s v c f.
Proof.
  intros (l & vs & -> & _ & Hl & Hall) Hnd Hf.
  destruct (Forall2_lookup_r _ _ _ _ _ Hall Hf) as (v & Hv & Hi).
  exists v. split; [|done]. apply item_dict. eexists. split; [by apply is_dict_ref; eauto|].
  pose proof (Forall2_length _ _ _ Hall) as Hlen.
  apply (al_get_lookup _ i).
  - rewrite fst_zip; [done|]. rewrite length_fmap. lia.
  - rewrite lookup_zip_with, list_lookup_fmap, Hf, Hv. done.
Qed.

(** In the ranking view of a valid contest, every score is bound under
    the pair of its task and its user. *)
Lemma ranking_view_lookup n s ts us rv g i x t u :
  valid_contest g → ranking_view_of n s ts us rv g → NoDup ts → NoDup us →
  ranking_scores g !! i = Some x →
  ts !! score_task x = Some t → us !! score_user x = Some u →
  ∃ dv sv, field s rv "scores" dv ∧ item s dv (VPair t u) sv ∧
    score_view s ts us sv x.
Proof.
  intros (_ & _ & _ & _ & _ & Hrf & _ & Hnd) (l & d & Hi & _ & Hl & Hall)
    Hndt Hndu Hx Ht Hu.
  destruct (Forall2_lookup_r _ _ _ _ _ Hall Hx)
    as ([k sv] & Hp & t' & u' & Hk & Ht' & Hu' & Hview).
  simpl in *. simplify_eq. exists (VRef l), sv. split_and!; [| |done].
  - apply field_inst. do 2 eexists. split; [exact Hi|].
    rewrite al_get_app_r; [done|]. eapply valid_fields_fresh; [done|key_in].
  - apply item_dict. eexists. split; [by apply is_dict_ref; eauto|].
    apply (al_get_lookup _ i); [|done].
    by apply (score_keys_NoDup (score_view s ts us) ts us d (ranking_scores g)).
Qed.

(** C7.  For every validly constructed contest graph [g], importing the
    serialized form of [g] succeeds and yields a contest that is [g]
    structurally: every entity carries the field values of its
    counterpart, owned sequences keep their order, keyed collections bind
    each filename to its entity, every submission and score refers to the
    task at its position, every score to the user with its username, and
    every submission to the user that owns it. *)
Theorem contest_round_trip g :
  valid_contest g →
  ∃ c s, import (export_contest g) = Ok c s ∧ ∃ n, contest_view n s c g.
Proof.
  intros Hv.
  destruct (load_repr (export_contest g) empty) as (data & os & Hload & Hr).
  simpl in Hload, Hr.
  destruct (contest_import_total g _ _ _ data (length os) Hv Hr)
    as (l & s' & Hrun & Hview); [lia|simpl; lia|].
  exists (VRef l), s'. split; [|by exists (length os)].
  unfold import. by rewrite (bind_run _ _ _ _ _ Hload).
Qed.

Lemma contest_round_trip_witness :
  valid_contest sample_graph ∧
  ∃ c s, import (export_contest sample_graph) = Ok c s ∧
         ∃ n, contest_view n s c sample_graph.
Proof.
  split; [apply (bool_decide_unpack _); by vm_compute|].
  apply (contest_round_trip sample_graph). apply (bool_decide_unpack _).
  by vm_compute.
Defined.

(** The sample contest, serialized and imported: fields, keyed
    collections, positional and username references, back-references. *)
Example sample_graph_round_trip :
  let r := import (export_contest sample_graph) in
  reach r [Attr "name"] = Some (VStr "ioi") ∧
  reach r [Attr "tasks"; Index 0; Attr "attachments"; Key (VStr "sum.zip");
           Attr "digest"] = Some (VStr "d1") ∧
  reach r [Attr "users"; Index 0; Attr "submissions"; Index 0; Attr "task"]
    = reach r [Attr "tasks"; Index 1] ∧
  reach r [Attr "users"; Index 0; Attr "submissions"; Index 0; Attr "user"]
    = reach r [Attr "users"; Index 0] ∧
  reach r [Attr "users"; Index 0; Attr "submissions"; Index 0; Attr "token";
           Attr "timestamp"] = Some (VInt 11) ∧
  reach r [Attr "users"; Index 0; Attr "submissions"; Index 1; Attr "token"]
    = Some VNone ∧
  ∃ t u, reach r [Attr "tasks"; Index 1] = Some t ∧
         reach r [Attr "users"; Index 0] = Some u ∧
         reach r [Attr "ranking_view"; Attr "scores"; Key (VPair t u);
                  Attr "score"] = Some (VInt 30).
Proof.
  intros r. vm_compute. split_and!; try reflexivity.
  eexists _, _. split_and!; reflexivity.
Qed.

(** * Imports of serialized records

    The builders on the records [load] lays out, for records that need
    not come from a valid graph. *)

(** ** Keyed collections with any filenames *)

Lemma filenames_hashable h fs :
  valid_leaves fs → forallb (hashable h) (filename_of <$> fs) = true.
Proof.
  intros Hv. apply Is_true_eq_true, forallb_True, Forall_fmap.
  eapply Forall_impl; [exact Hv|]. intros f Hf. simpl.
  rewrite scalar_hashable; [done|]. by apply filename_scalar.
Qed.

(** [data[k] = dict([(x.filename, x) for x in data[k]])] on a record
    whose field [k] holds the entities built from [fs], whatever their
    filenames are. *)
Lemma step_dict_by_any c k fs ld d0 tail lv s :
  heap s !! ld = Some (ODict (d0 ++ tail)) → VStr k ∉ d0.*1 →
  al_get (VStr k) tail = Some lv →
  leaves_built s lv c fs → wf_keyed fs →
  ∃ dv s',
    (∀ A (rest : M A),
       (src ← getitem (VRef ld) (VStr k);
        d ← dict_by (λ x, getattr x "filename") src;
        setitem (VRef ld) k d;; rest) s = rest s') ∧
    ext (λ l, l = ld) s s' ∧ patches s' = patches s ∧
    heap s' !! ld = Some (ODict (d0 ++ al_set (VStr k) dv tail)).
Proof.
  intros Hd Hk Hget (vs & Hlv & Hvs) (Hv & Hfn).
  pose proof (Forall2_length _ _ _ Hvs) as Hlen.
  pose proof (lookup_lt_Some _ _ _ Hd) as Hld.
  set (ps := zip (filename_of <$> fs) vs).
  assert (ps.*1 = filename_of <$> fs) as Hps1.
  { unfold ps. rewrite fst_zip; [done|]. rewrite length_fmap. lia. }
  set (s1 := State (heap s ++ [ODict (al_of_list ps)]) (patches s)).
  assert (getitem (VRef ld) (VStr k) s = Ok lv s) as Hg.
  { by rewrite (getitem_dict _ _ _ _ Hd), al_get_app_r, Hget by done. }
  assert (dict_by (λ x, getattr x "filename") lv s = Ok (VRef (length (heap s))) s1)
    as Hdb.
  { apply dict_by_filename. exists vs, ps. split_and!; [by apply iter_list| | |done..].
    - unfold ps. clear Hps1 s1 ps Hlen Hlv.
      induction Hvs as [|v f vs fs Hi Hvs IH]; simpl; [constructor|].
      apply Forall_cons in Hv as [Hf Hv]. apply Forall_cons in Hfn as [[x Hx] Hfn].
      constructor; [|by apply IH]. simpl. split; [done|].
      apply field_inst. exists c, f. split; [done|]. unfold filename_of.
      by rewrite Hx.
    - rewrite Hps1. by apply filenames_hashable. }
  set (dv := VRef (length (heap s))) in *.
  assert (heap s1 !! ld = Some (ODict (d0 ++ tail))) as Hd1.
  { simpl. by apply lookup_app_l_Some. }
  set (s2 := State (<[ld := ODict (al_set (VStr k) dv (d0 ++ tail))]> (heap s1))
                   (patches s1)).
  assert (setitem (VRef ld) k dv s1 = Ok tt s2) as Hs.
  { apply setitem_Ok. eauto. }
  exists dv, s2. split_and!.
  - intros A rest. rewrite (bind_run _ _ _ _ _ Hg), (bind_run _ _ _ _ _ Hdb).
    by rewrite (bind_run _ _ _ _ _ Hs).
  - etrans; [apply (ext_app _ s)|]. by eapply (ext_setitem _ s1).
  - done.
  - simpl. rewrite list_lookup_insert_eq; [|rewrite length_app; lia].
    by rewrite al_set_app_r.
Qed.

(** The two statements that build a keyed collection. *)
Lemma step_keyed_any c k fs ld d0 tail src a b s :
  heap s !! ld = Some (ODict (d0 ++ tail)) → VStr k ∉ d0.*1 →
  al_get (VStr k) tail = Some src →
  repr s (leaf_records fs) a b src → b ≤ ld → wf_keyed fs →
  ∃ dv s',
    (∀ A (rest : M A),
       (src ← getitem (VRef ld) (VStr k);
        l ← list_comp (basic_import_from_dict c) src;
        setitem (VRef ld) k l;;
        src ← getitem (VRef ld) (VStr k);
        d ← dict_by (λ x, getattr x "filename") src;
        setitem (VRef ld) k d;; rest) s = rest s') ∧
    ext (λ l, l = ld) s s' ∧ patches s' = patches s ∧
    heap s' !! ld = Some (ODict (d0 ++ al_set (VStr k) dv tail)).
Proof.
  intros Hd Hk Hget Hr Hb Hv.
  destruct (step_leaves c _ _ _ _ _ _ _ _ _ Hd Hk Hget Hr Hb (proj1 Hv))
    as (lv & s1 & Hrun1 & He1 & Hp1 & Hd1 & Hl1).
  destruct (step_dict_by_any c _ _ _ _ _ _ _ Hd1 Hk (al_get_set_eq _ _ _) Hl1 Hv)
    as (dv & s2 & Hrun2 & He2 & Hp2 & Hd2).
  exists dv, s2. split_and!.
  - intros A rest. by rewrite Hrun1, Hrun2.
  - by etrans.
  - congruence.
  - by rewrite al_set_set in Hd2.
Qed.

(** [data[k] = tasks[data[k]]] on a record whose field [k] holds an
    integer: the statement runs when the integer is an index of [tasks],
    and raises [IndexError] when it is not. *)
Lemma step_index_any k z ts tasks ld d0 tail s :
  heap s !! ld = Some (ODict (d0 ++ tail)) → VStr k ∉ d0.*1 →
  al_get (VStr k) tail = Some (VInt z) →
  is_list s tasks ts →
  (in_range (length ts) z →
   ∃ t s', ts !! position (length ts) z = Some t ∧
     (∀ A (rest : M A),
        (index ← getitem (VRef ld) (VStr k);
         task ← getitem tasks index;
         setitem (VRef ld) k task;; rest) s = rest s') ∧
     ext (λ l, l = ld) s s' ∧ patches s' = patches s ∧
     heap s' !! ld = Some (ODict (d0 ++ al_set (VStr k) t tail))) ∧
  (¬ in_range (length ts) z →
   ∀ A (rest : M A),
     (index ← getitem (VRef ld) (VStr k);
      task ← getitem tasks index;
      setitem (VRef ld) k task;; rest) s = Err IndexError).
Proof.
  intros Hd Hk Hget Hl.
  pose proof (lookup_lt_Some _ _ _ Hd) as Hld.
  assert (getitem (VRef ld) (VStr k) s = Ok (VInt z) s) as Hg.
  { by rewrite (getitem_dict _ _ _ _ Hd), al_get_app_r, Hget by done. }
  split.
  - intros Hr.
    destruct (getitem_list s tasks ts z Hl) as [(_ & t & Ht & Hg2)|[? _]]; [|done].
    set (s2 := State (<[ld := ODict (al_set (VStr k) t (d0 ++ tail))]> (heap s))
                     (patches s)).
    assert (setitem (VRef ld) k t s = Ok tt s2) as Hs.
    { apply setitem_Ok. eauto. }
    exists t, s2. split_and!.
    + done.
    + intros A rest. rewrite (bind_run _ _ _ _ _ Hg), (bind_run _ _ _ _ _ Hg2).
      by rewrite (bind_run _ _ _ _ _ Hs).
    + by eapply (ext_setitem _ s).
    + done.
    + simpl. rewrite list_lookup_insert_eq by done. by rewrite al_set_app_r.
  - intros Hr A rest. rewrite (bind_run _ _ _ _ _ Hg).
    apply bind_fail. by apply (getitem_list_Err s tasks ts).
Qed.

(** ** The records of a loaded record *)

Lemma holds_records_repr s r ld d0 tail k fs src a b :
  r = VRef ld → heap s !! ld = Some (ODict (d0 ++ tail)) → VStr k ∉ d0.*1 →
  al_get (VStr k) tail = Some src →
  repr s (leaf_records fs) a b src → b ≤ ld → valid_leaves fs →
  holds_records s r k fs.
Proof.
  intros -> Hd Hk Hget Hr Hb Hv.
  destruct (repr_leaves _ _ _ _ _ Hr Hv) as (m & rs & -> & -> & Hm & Hrs).
  exists (VRef m), rs. split_and!.
  - apply item_dict. exists (d0 ++ tail). split; [by apply is_dict_ref; eauto|].
    by rewrite al_get_app_r.
  - apply is_list_ref. eauto.
  - eapply Forall2_impl; [exact Hrs|]. intros x f (l & -> & Hl & Hx). split.
    + apply is_dict_ref. eauto.
    + intros [= ->]. lia.
Qed.

(** A keyed field read back against the records it was built from. *)
Lemma keyed_field_from s s' data v f c fs :
  keyed_field_of s s' data v f c → holds_records s data f fs →
  keyed_from s' v f c fs.
Proof.
  intros (dv & xs & Hf & Hcol & Hb) (src & recs & Hitem & Hl & Hrecs).
  destruct (Hb src recs Hitem Hl) as [Hnd Hall].
  exists dv, xs. split_and!; [done..|].
  apply Forall2_same_length_lookup_2.
  - by rewrite <- (Forall2_length _ _ _ Hall), (Forall2_length _ _ _ Hrecs).
  - intros i x a Hx Ha.
    destruct (Forall2_lookup_r _ _ _ _ _ Hall Hx) as (r & Hr & a' & Hi & Hk).
    destruct (Forall2_lookup_lr _ _ _ _ _ _ Hrecs Hr Ha) as [Hd Hne].
    specialize (Hk _ Hd Hne). rewrite kwargs_fields_dict in Hk.
    by injection Hk as ->.
Qed.

(** ** The import of a task record *)

Lemma task_import_runs g s a b r :
  wf_task g → repr s (task_record g) a b r →
  ∃ v s', task_import_from_dict r s = Ok v s' ∧
    holds_records s r "attachments" (task_attachments g) ∧
    holds_records s r "managers" (task_managers g).
Proof.
  intros (Hf & Hatt & Hsf & Hman & Htc) Hr. unfold task_record in Hr.
  destruct (repr_record _ _ _ _ _ _ task_keys Hr Hf)
    as (m & vs & -> & -> & Hrs & Hd);
    [by apply (bool_decide_unpack _)|done|].
  simpl in Hrs. inv_reprs. simpl in Hd. repr_bounds.
  pose proof (lookup_lt_Some _ _ _ Hd) as Hld.
  assert (∀ k, k ∈ task_keys → VStr k ∉ (fields_dict (task_fields g)).*1) as Hfresh
    by (intros; by eapply fields_dict_fresh).
  assert (holds_records s (VRef m) "attachments" (task_attachments g)) as Hra.
  { eapply holds_records_repr;
      [done|exact Hd|apply Hfresh; key_in|reflexivity|done|lia|apply Hatt]. }
  assert (holds_records s (VRef m) "managers" (task_managers g)) as Hrm.
  { eapply holds_records_repr;
      [done|exact Hd|apply Hfresh; key_in|reflexivity|done|lia|apply Hman]. }
  edestruct (step_keyed_any Attachment "attachments")
    as (da & s1 & Hrun1 & He1 & _ & Hd1);
    [exact Hd|apply Hfresh; key_in|reflexivity|done|lia|done|].
  simpl in Hd1. transport s s1 He1.
  pose proof (ext_length _ _ _ He1).
  edestruct (step_leaves SubmissionFormatElement "submission_format")
    as (lsf & s2 & Hrun2 & He2 & _ & Hd2 & Hb2);
    [exact Hd1|apply Hfresh; key_in|reflexivity|done|lia|done|].
  simpl in Hd2. transport s1 s2 He2.
  pose proof (ext_length _ _ _ He2).
  edestruct (step_keyed_any Manager "managers")
    as (dm & s3 & Hrun3 & He3 & _ & Hd3);
    [exact Hd2|apply Hfresh; key_in|reflexivity|done|lia|done|].
  simpl in Hd3. transport s2 s3 He3.
  pose proof (ext_length _ _ _ He3).
  edestruct (step_leaves Testcase "testcases")
    as (ltc & s4 & Hrun4 & He4 & _ & Hd4 & Hb4);
    [exact Hd3|apply Hfresh; key_in|reflexivity|done|lia|done|].
  simpl in Hd4.
  pose proof (construct_record Task _ _ _ _ _ Hd4 eq_refl) as Hc.
  eexists _, _. split_and!; [|done..].
  unfold task_import_from_dict. rewrite Hrun1, Hrun2, Hrun3, Hrun4. exact Hc.
Qed.

(** ** The import of a submission record *)

Lemma submission_import_runs g t s a b r tasks ts :
  wf_submission g → repr s (submission_record g t) a b r → is_list s tasks ts →
  item s r (VStr "task") (VInt t) ∧
  holds_records s r "files" (sub_files g) ∧
  holds_records s r "executables" (sub_executables g) ∧
  (in_range (length ts) t →
     ∃ v s', submission_import_from_dict r tasks s = Ok v s') ∧
  (¬ in_range (length ts) t →
     submission_import_from_dict r tasks s = Err IndexError).
Proof.
  intros (Hf & Hfiles & Hexe & Hev & Htok) Hr Hts.
  unfold submission_record in Hr.
  destruct (repr_record _ _ _ _ _ _ submission_keys Hr Hf)
    as (m & vs & -> & -> & Hrs & Hd);
    [by apply (bool_decide_unpack _)|by apply (bool_decide_unpack _)|].
  simpl in Hrs. inv_reprs. simpl in Hd.
  match goal with H : repr _ (JInt _) _ _ _ |- _ => inversion H; subst; clear H end.
  repr_bounds.
  match goal with H : repr _ (from_option _ _ _) ?x ?y _ |- _ =>
    assert (x ≤ y) by (destruct (sub_token g); simpl in H;
                       [apply (proj1 (repr_bounds s) _ _ _ _ H)|inversion H; lia])
  end.
  pose proof (lookup_lt_Some _ _ _ Hd) as Hld.
  assert (∀ k, k ∈ submission_keys → VStr k ∉ (fields_dict (sub_fields g)).*1)
    as Hfresh by (intros; by eapply fields_dict_fresh).
  assert (item s (VRef m) (VStr "task") (VInt t)) as Hitem.
  { apply item_dict. eexists. split; [by apply is_dict_ref; eauto|].
    rewrite al_get_app_r; [done|]. apply Hfresh; key_in. }
  assert (holds_records s (VRef m) "files" (sub_files g)) as Hrf.
  { eapply holds_records_repr;
      [done|exact Hd|apply Hfresh; key_in|reflexivity|done|lia|apply Hfiles]. }
  assert (holds_records s (VRef m) "executables" (sub_executables g)) as Hre.
  { eapply holds_records_repr;
      [done|exact Hd|apply Hfresh; key_in|reflexivity|done|lia|apply Hexe]. }
  split_and!; [done..| |].
  all: edestruct (step_keyed_any File "files")
    as (df & s1 & Hrun1 & He1 & _ & Hd1);
    [exact Hd|apply Hfresh; key_in|reflexivity|done|lia|done|];
  simpl in Hd1; transport s s1 He1; pose proof (ext_length _ _ _ He1);
  edestruct (step_keyed_any Executable "executables")
    as (de & s2 & Hrun2 & He2 & _ & Hd2);
    [exact Hd1|apply Hfresh; key_in|reflexivity|done|lia|done|];
  simpl in Hd2; transport s1 s2 He2; pose proof (ext_length _ _ _ He2);
  edestruct (step_leaves Evaluation "evaluations")
    as (lev & s3 & Hrun3 & He3 & _ & Hd3 & Hb3);
    [exact Hd2|apply Hfresh; key_in|reflexivity|done|lia|done|];
  simpl in Hd3; transport s2 s3 He3; pose proof (ext_length _ _ _ He3);
  edestruct (step_token (sub_token g)) as (tv & s4 & Hrun4 & He4 & _ & Hd4 & Hb4);
    [exact Hd3|apply Hfresh; key_in|reflexivity|done|lia|done|];
  simpl in Hd4; transport s3 s4 He4; pose proof (ext_length _ _ _ He4);
  edestruct (step_index_any "task" t ts tasks) as [Hin Hout];
    [exact Hd4|apply Hfresh; key_in|reflexivity|done|].
  - intros Hrange. destruct (Hin Hrange) as (tk & s5 & Htk & Hrun5 & He5 & _ & Hd5).
    simpl in Hd5.
    edestruct (step_setitem "user" VNone) as (s6 & Hrun6 & He6 & _ & Hd6);
      [exact Hd5|apply Hfresh; key_in|].
    simpl in Hd6.
    pose proof (construct_record Submission _ _ _ _ _ Hd6 eq_refl) as Hc.
    eexists _, _. unfold submission_import_from_dict.
    rewrite Hrun1, Hrun2, Hrun3, Hrun4, Hrun5, Hrun6. exact Hc.
  - intros Hrange. unfold submission_import_from_dict.
    rewrite Hrun1, Hrun2, Hrun3, Hrun4. by apply Hout.
Qed.

(** ** The import of a score record *)

Lemma first_at_exists names name : name ∈ names → ∃ i, first_at names name i.
Proof.
  induction names as [|n names IH]; [by intros ?%elem_of_nil|].
  destruct (decide (n = name)) as [->|Hne].
  - intros _. exists 0. split; [done|]. intros; lia.
  - intros [?|Hin]%elem_of_cons; [done|].
    destruct (IH Hin) as (i & Hi & Hfirst). exists (S i). split; [done|].
    intros [|j] n' Hj Hn'; simpl in *; [by simplify_eq|].
    apply (Hfirst j); [lia|done].
Qed.

Lemma get_user_loop_first us names s i u name :
  Forall2 (λ u n, field s u "username" n) us names →
  us !! i = Some u → first_at names name i →
  get_user_loop us name s = Ok u s.
Proof.
  intros Hall. revert i. induction Hall as [|u0 n0 us names Hu0 Hall IH];
    intros i Hu [Hn Hfirst]; [done|].
  simpl. erewrite bind_run; [|apply getattr_Ok; split; [exact Hu0|done]].
  destruct i as [|i]; simpl in *.
  - simplify_eq. by rewrite decide_True.
  - rewrite decide_False; [|by apply (Hfirst 0); [lia|]].
    apply (IH i); [done|]. split; [done|]. intros j n Hj Hn'.
    apply (Hfirst (S j)); [lia|done].
Qed.

Lemma first_at_named s us names name i u :
  Forall2 (λ u n, field s u "username" n) us names →
  us !! i = Some u → first_at names name i → first_named s us name u.
Proof.
  intros Hall Hu [Hn Hfirst]. exists i. split_and!; [done| |].
  - by apply (Forall2_lookup_lr _ _ _ _ _ _ Hall Hu Hn).
  - intros j uj Hj Huj Hf.
    destruct (Forall2_lookup_l _ _ _ _ _ Hall Huj) as (n & Hnj & Hfn).
    apply (Hfirst j n Hj Hnj). by eapply field_agree.
Qed.

Lemma score_built_at_ext P ts us names s s' v x :
  score_built_at ts us names s v x → ext P s s' → score_built_at ts us names s' v x.
Proof.
  intros (t & u & i & Hi & H) He. exists t, u, i. split; [|done].
  by eapply ext_inst.
Qed.

Lemma score_import_runs x s a b r tasks ts usersv us names :
  valid_fields score_keys (rec_fields x) → scalar (rec_user x) →
  repr s (score_record x) a b r → is_list s tasks ts → is_list s usersv us →
  Forall2 (λ u n, field s u "username" n) us names →
  item s r (VStr "task") (VInt (rec_task x)) ∧
  (¬ in_range (length ts) (rec_task x) →
     score_import_from_dict r tasks usersv s = Err IndexError) ∧
  (in_range (length ts) (rec_task x) → rec_user x ∈ names →
     ∃ l s', score_import_from_dict r tasks usersv s = Ok (VRef l) s' ∧
       length (heap s) ≤ l < length (heap s') ∧
       ext (λ l, a ≤ l < b) s s' ∧ score_built_at ts us names s' (VRef l) x).
Proof.
  intros Hf Hsc Hr Hts Hus Hnames. unfold score_record in Hr.
  destruct (repr_record _ _ _ _ _ _ score_keys Hr Hf)
    as (m & vs & -> & -> & Hrs & Hd);
    [by apply (bool_decide_unpack _)|done|].
  simpl in Hrs. inv_reprs. simpl in Hd.
  match goal with H : repr _ (JInt _) _ _ _ |- _ => inversion H; subst; clear H end.
  match goal with H : repr _ (json_of _) _ _ _ |- _ =>
    apply repr_scalar in H as [<- ->]; [|done] end.
  match type of Hd with heap _ !! ?l = _ => rename l into ld end.
  pose proof (lookup_lt_Some _ _ _ Hd) as Hld.
  assert (∀ k, k ∈ score_keys → VStr k ∉ (fields_dict (rec_fields x)).*1) as Hfresh
    by (intros; by eapply fields_dict_fresh).
  assert (item s (VRef ld) (VStr "task") (VInt (rec_task x))) as Hitem.
  { apply item_dict. eexists. split; [by apply is_dict_ref; eauto|].
    rewrite al_get_app_r; [done|]. apply Hfresh; key_in. }
  edestruct (step_index_any "task" (rec_task x) ts tasks) as [Hin Hout];
    [exact Hd|apply Hfresh; key_in|reflexivity|done|].
  split_and!; [done| |].
  - intros Hrange. unfold score_import_from_dict. by apply Hout.
  - intros Hrange Hname.
    destruct (Hin Hrange) as (t & s1 & Ht & Hrun1 & He1 & _ & Hd1).
    simpl in Hd1. pose proof (ext_length _ _ _ He1).
    destruct (first_at_exists _ _ Hname) as (i & Hfirst).
    destruct (lookup_lt_is_Some_2 us i) as [u Hu].
    { rewrite (Forall2_length _ _ _ Hnames). apply (lookup_lt_Some _ _ _ (proj1 Hfirst)). }
    assert (get_user usersv (rec_user x) s1 = Ok u s1) as Hgu.
    { unfold get_user.
      rewrite (bind_run _ _ _ _ _ (iter_list _ _ _ (ext_list _ _ _ _ _ He1 Hus))).
      eapply get_user_loop_first; [|done|done].
      eapply Forall2_impl; [exact Hnames|].
      intros ? ?. by apply (ext_field _ _ _ _ _ _ He1). }
    edestruct (step_resolve (get_user usersv) "user") as (s2 & Hrun2 & He2 & _ & Hd2);
      [exact Hd1|apply Hfresh; key_in|reflexivity|exact Hgu|].
    simpl in Hd2. pose proof (ext_length _ _ _ He2).
    pose proof (construct_record Score _ _ _ _ _ Hd2 eq_refl) as Hc.
    set (s3 := State _ _) in Hc.
    assert (ext (λ l, l = ld) s2 s3) as He3 by apply ext_alloc.
    exists (length (heap s2)), s3. split_and!.
    + unfold score_import_from_dict. by rewrite Hrun1, Hrun2.
    + lia.
    + simpl. rewrite length_app. simpl. lia.
    + eapply ext_weaken; [|by repeat (etrans; [eassumption|])].
      intros l ->. lia.
    + exists t, u, i. split_and!; [apply is_inst_new|done..].
Qed.

(** ** The import of a ranking view record *)

(** [dict(ps)] binds a key to the last entity of [xs] with that key. *)
Lemma scores_dict_last s xs ps :
  Forall2 (λ x p, p.2 = x ∧ rankingview_keyfunc x s = Ok p.1 s) xs ps →
  ∀ k x, al_get k (al_of_list ps) = Some x ↔ last_with (λ x, score_key s x k) xs x.
Proof.
  intros Hps k x. rewrite al_get_of_list_last. unfold last_with. split.
  - intros (j & Hj & _ & Hlast).
    destruct (Forall2_lookup_r _ _ _ _ _ Hps Hj) as (y & Hy & Heq & Hf).
    simpl in *. subst y. exists j. split_and!; [done| |].
    + by apply rankingview_keyfunc_Ok in Hf as [? _].
    + intros j' x' Hj' Hx' Hf'.
      destruct (Forall2_lookup_l _ _ _ _ _ Hps Hx') as (p & Hp & _ & Hfp).
      apply (Hlast j' p Hj' Hp).
      apply rankingview_keyfunc_Ok in Hfp as [Hfp _].
      by eapply score_key_agree.
  - intros (j & Hj & Hf & Hlast).
    destruct (Forall2_lookup_l _ _ _ _ _ Hps Hj) as ([k' y] & Hp & Heq & Hfp).
    simpl in *. subst y. apply rankingview_keyfunc_Ok in Hfp as [Hfp _].
    rewrite (score_key_agree _ _ _ _ Hfp Hf) in Hp.
    exists j. split_and!; [done|done|]. intros j' p Hj' Hp' Hk.
    destruct (Forall2_lookup_r _ _ _ _ _ Hps Hp') as (y & Hy & _ & Hfy).
    apply (Hlast j' y Hj' Hy). apply rankingview_keyfunc_Ok in Hfy as [Hfy _].
    by rewrite <- Hk.
Qed.

Lemma score_built_key ts us names s v x :
  valid_fields score_keys (rec_fields x) → score_built_at ts us names s v x →
  ∃ t u, score_key s v (VPair t u) ∧ t ∈ ts ∧ u ∈ us.
Proof.
  intros Hf (t & u & i & Hi & Ht & Hu & _). exists t, u. split_and!.
  - exists t, u. split_and!; [| |done]; apply field_inst; do 2 eexists;
      (split; [exact Hi|]); (rewrite al_get_app_r; [done|]);
      (eapply valid_fields_fresh; [done|key_in]).
  - by eapply list_elem_of_lookup_2.
  - by eapply list_elem_of_lookup_2.
Qed.

Lemma rankingview_import_runs f xs s a b r tasks ts usersv us names :
  valid_fields ranking_keys f → Forall (wf_score (length ts) names) xs →
  repr s (ranking_record f xs) a b r →
  is_list s tasks ts → is_list s usersv us →
  Forall2 (λ u n, field s u "username" n) us names →
  Forall (λ t, ∃ c a, is_inst s t c a) ts →
  ∃ rv s' ls d, rankingview_import_from_dict r tasks usersv s = Ok rv s' ∧
    ext any s s' ∧
    scores_of s' rv (VRef <$> ls) d ∧ NoDup ls ∧
    Forall2 (score_built_at ts us names s') (VRef <$> ls) xs.
Proof.
  intros Hf Hxs Hr Hts Hus Hnames Hit. unfold ranking_record in Hr.
  destruct (repr_record _ _ _ _ _ _ ranking_keys Hr Hf)
    as (m & vs & -> & -> & Hrs & Hd);
    [by apply (bool_decide_unpack _)|done|].
  simpl in Hrs. inv_reprs. simpl in Hd. repr_bounds.
  match type of Hd with heap _ !! ?l = _ => rename l into ld end.
  pose proof (lookup_lt_Some _ _ _ Hd) as Hld.
  assert (∀ k, k ∈ ranking_keys → VStr k ∉ (fields_dict f).*1)
    as Hfresh by (intros; by eapply fields_dict_fresh).
  match goal with H : repr s (JList _) _ _ _ |- _ => rename H into Hsr end.
  assert (Forall (λ u, ∃ c a, is_inst s u c a) us) as Hiu.
  { apply Forall_forall. intros u Hu. apply list_elem_of_lookup in Hu as [i Hi].
    destruct (Forall2_lookup_l _ _ _ _ _ Hnames Hi) as (n & _ & Hfn).
    apply field_inst in Hfn as (c & a' & ? & _). eauto. }
  edestruct (step_list_comp (λ sd, score_import_from_dict sd tasks usersv)
               score_record (wf_score (length ts) names)
               (score_built_at ts us names) "scores")
    with (s0 := s) (a0 := a) (b := ld) (ld := ld)
    as (lv & ls & s1 & Hrun1 & He1 & Hd1 & Hlist & Hviews & Hnew & Hnd);
    [| |exact Hd|apply Hfresh; key_in|reflexivity|exact Hsr|lia|done|].
  { intros x s' a' b' r' (Hfx & Hrange & Hsc & Hname) Hr' Ha' Hb' He'.
    pose proof (ext_length _ _ _ He').
    edestruct (score_import_runs x s' a' b' r' tasks ts usersv us names)
      as (_ & _ & Hok); [done|done|done| | | |by apply Hok].
    - by apply (ext_list _ s s' _ _ He').
    - by apply (ext_list _ s s' _ _ He').
    - eapply Forall2_impl; [exact Hnames|]. intros ??.
      by apply (ext_field _ _ _ _ _ _ He'). }
  { intros s' s'' sv x Hv He'. by eapply score_built_at_ext. }
  simpl in Hd1. pose proof (ext_length _ _ _ He1).
  assert (∃ ps, Forall2 (λ x p, p.2 = x ∧ rankingview_keyfunc x s1 = Ok p.1 s1)
                  (VRef <$> ls) ps ∧
                forallb (hashable (heap s1)) ps.*1 = true) as (ps & Hps & Hh).
  { assert (Forall (λ v, ∃ t u, score_key s1 v (VPair t u) ∧ t ∈ ts ∧ u ∈ us)
              (VRef <$> ls)) as Hkeys.
    { apply Forall_forall. intros sv Hsv.
      apply list_elem_of_lookup in Hsv as [i Hi].
      destruct (Forall2_lookup_l _ _ _ _ _ Hviews Hi) as (x & Hx & Hb).
      eapply score_built_key; [|exact Hb].
      rewrite Forall_lookup in Hxs. by destruct (Hxs i x Hx). }
    clear -Hkeys Hit Hiu He1.
    induction Hkeys as [|sv svs (t & u & Hk & Ht & Hu) _ IH].
    - exists []. split; [constructor|done].
    - destruct IH as (ps & Hps & Hh). exists ((VPair t u, sv) :: ps). split.
      + constructor; [|done]. split; [done|]. by apply rankingview_keyfunc_Ok.
      + rewrite fmap_cons. cbn [forallb fst hashable]. rewrite Hh.
        rewrite Forall_forall in Hit. rewrite Forall_forall in Hiu.
        destruct (Hit t Ht) as (? & ? & Hti). destruct (Hiu u Hu) as (? & ? & Hui).
        rewrite (instance_hashable _ _ _ _ (ext_inst _ _ _ _ _ _ He1 Hti)).
        by rewrite (instance_hashable _ _ _ _ (ext_inst _ _ _ _ _ _ He1 Hui)). }
  set (s2 := State (heap s1 ++ [ODict (al_of_list ps)]) (patches s1)).
  assert (dict_by rankingview_keyfunc lv s1 = Ok (VRef (length (heap s1))) s2) as Hdb.
  { apply dict_by_pure; [apply rankingview_keyfunc_pure|].
    exists (VRef <$> ls), ps. split_and!; [by apply iter_list|done..]. }
  edestruct (step_compute (dict_by rankingview_keyfunc) "scores")
    as (s3 & Hrun3 & He3 & Hd3);
    [exact Hd1|apply Hfresh; key_in|reflexivity|exact Hdb|apply ext_alloc|].
  simpl in Hd3.
  pose proof (construct_record RankingView _ _ _ _ _ Hd3 eq_refl) as Hc.
  set (s4 := State _ _) in Hc.
  assert (ext (λ l, l = ld) s3 s4) as He4 by apply ext_alloc.
  assert (ext (λ l, l = ld) s1 s2) as He12 by apply ext_alloc.
  assert (ext (λ l, l = ld) s2 s4) as He24 by (by etrans).
  assert (ext (λ l, l = ld) s1 s4) as He14 by (by etrans).
  pose proof (ext_length _ _ _ He3) as Hlen3. simpl in Hlen3.
  rewrite length_app in Hlen3. simpl in Hlen3.
  exists (VRef (length (heap s3))), s4, ls, (al_of_list ps). split_and!.
  - unfold rankingview_import_from_dict. by rewrite Hrun1, Hrun3.
  - etrans; [eapply ext_weaken; [|exact He1]|eapply ext_weaken; [|exact He14]]; done.
  - split.
    + exists (VRef (length (heap s1))). split.
      * apply field_inst. do 2 eexists. split; [apply is_inst_new|].
        rewrite al_get_app_r; [done|].
        eapply valid_fields_fresh; [done|key_in].
      * apply is_dict_ref. eexists. split; [done|].
        eapply (ext_dict _ s2 s4); [exact He24|simpl; lia|].
        simpl. by rewrite lookup_app_r, Nat.sub_diag by lia.
    + intros k x. rewrite (scores_dict_last s1 (VRef <$> ls) ps Hps).
      apply last_with_iff. intros y Hy.
      apply list_elem_of_lookup in Hy as [i Hi].
      destruct (Forall2_lookup_l _ _ _ _ _ Hviews Hi) as (x' & _ & t & u & j & Hinst & _).
      symmetry. by eapply score_key_ext.
  - done.
  - eapply Forall2_impl; [exact Hviews|]. intros sv x Hb.
    by eapply score_built_at_ext.
Qed.

(** ** Loading a record and importing it *)

Lemma load_record j s :
  ∃ data s0 a b, load j s = Ok data s0 ∧ repr s0 j a b data ∧
    ext (λ _, False) s s0 ∧ patches s0 = patches s.
Proof.
  destruct (load_repr j s) as (v & os & Hl & Hr).
  eexists _, _, _, _. split_and!; [done|done|apply ext_app|done].
Qed.

(** A keyed field of an imported task or submission, on any run. *)
Lemma task_import_keyed_fields data s v s' :
  task_import_from_dict data s = Ok v s' →
  keyed_field_of s s' data v "attachments" Attachment ∧
  keyed_field_of s s' data v "managers" Manager.
Proof.
  intros H. unfold task_import_from_dict in H.
  inv_run H. pure_steps.
  rel_steps (keeps (VStr "attachments")). rel_steps (keeps (VStr "managers")).
  rel_steps (ext (λ l, data = VRef l)).
  split; unfold keyed_field_of.
  - keyed s "attachments" Attachment. eauto.
  - keyed s "managers" Manager. eauto.
Qed.

Lemma submission_import_keyed_fields data tasks s v s' :
  submission_import_from_dict data tasks s = Ok v s' →
  keyed_field_of s s' data v "files" File ∧
  keyed_field_of s s' data v "executables" Executable.
Proof.
  intros H. unfold submission_import_from_dict in H.
  inv_run H. pure_steps.
  rel_steps (keeps (VStr "files")). rel_steps (keeps (VStr "executables")).
  rel_steps (ext (λ l, data = VRef l)).
  split; unfold keyed_field_of.
  - keyed s "files" File. eauto.
  - keyed s "executables" Executable. eauto.
Qed.

(** A well-formed task record is imported, whatever its filenames are. *)
Lemma task_record_import g s :
  wf_task g →
  ∃ v s', (data ← load (task_record g); task_import_from_dict data) s = Ok v s' ∧
    keyed_from s' v "attachments" Attachment (task_attachments g) ∧
    keyed_from s' v "managers" Manager (task_managers g).
Proof.
  intros Hg. destruct (load_record (task_record g) s) as (data & s0 & a & b & Hl & Hr & _).
  destruct (task_import_runs g s0 a b data Hg Hr) as (v & s' & Hrun & Ha & Hm).
  destruct (task_import_keyed_fields _ _ _ _ Hrun) as [Hka Hkm].
  exists v, s'. rewrite (bind_run _ _ _ _ _ Hl). split_and!; [done|..];
    by eapply keyed_field_from.
Qed.

(** A well-formed submission record is imported when its task field is
    an index of the task sequence, and rejected with [IndexError] when it
    is not. *)
Lemma submission_record_import g t s tasks ts :
  wf_submission g → is_list s tasks ts →
  let run := (data ← load (submission_record g t);
              submission_import_from_dict data tasks) s in
  (¬ in_range (length ts) t → run = Err IndexError) ∧
  (in_range (length ts) t →
     ∃ task v s', ts !! position (length ts) t = Some task ∧
       run = Ok v s' ∧ field s' v "task" task ∧
       keyed_from s' v "files" File (sub_files g) ∧
       keyed_from s' v "executables" Executable (sub_executables g)).
Proof.
  intros Hg Hts run. unfold run.
  destruct (load_record (submission_record g t) s)
    as (data & s0 & a & b & Hl & Hr & He & _).
  pose proof (ext_list _ _ _ _ _ He Hts) as Hts0.
  destruct (submission_import_runs g t s0 a b data tasks ts Hg Hr Hts0)
    as (Hitem & Hf & Hx & Hin & Hout).
  rewrite (bind_run _ _ _ _ _ Hl). split; [done|].
  intros Hrange. destruct (Hin Hrange) as (v & s' & Hrun).
  destruct (submission_import_keyed_fields _ _ _ _ _ Hrun) as [Hkf Hkx].
  destruct (proj2 (submission_import_resolves s0 data tasks ts t Hts0 Hitem)
              v s' Hrun) as (_ & task & Htask & Hfield).
  exists task, v, s'. split_and!; [done..| |]; by eapply keyed_field_from.
Qed.

(** A score record is imported when its task field is an index of the
    task sequence and a user has its username, and rejected with
    [IndexError] when the task field is not an index. *)
Lemma score_record_import x s tasks ts users us names :
  valid_fields score_keys (rec_fields x) → scalar (rec_user x) →
  is_list s tasks ts → is_list s users us →
  Forall2 (λ u n, field s u "username" n) us names →
  let run := (data ← load (score_record x);
              score_import_from_dict data tasks users) s in
  (¬ in_range (length ts) (rec_task x) → run = Err IndexError) ∧
  (in_range (length ts) (rec_task x) → rec_user x ∈ names →
     ∃ v s', run = Ok v s' ∧ score_built s' ts us v x).
Proof.
  intros Hf Hsc Hts Hus Hnames run. unfold run.
  destruct (load_record (score_record x) s) as (data & s0 & a & b & Hl & Hr & He & _).
  pose proof (ext_list _ _ _ _ _ He Hts) as Hts0.
  pose proof (ext_list _ _ _ _ _ He Hus) as Hus0.
  assert (Forall2 (λ u n, field s0 u "username" n) us names) as Hnames0.
  { eapply Forall2_impl; [exact Hnames|]. intros ??. by apply (ext_field _ _ _ _ _ _ He). }
  destruct (score_import_runs x s0 a b data tasks ts users us names
              Hf Hsc Hr Hts0 Hus0 Hnames0) as (_ & Hout & Hin).
  rewrite (bind_run _ _ _ _ _ Hl). split; [done|].
  intros Hrange Hname.
  destruct (Hin Hrange Hname) as (l & s' & Hrun & _ & He' & t & u & i & Hi & Ht & Hu & Hfirst).
  exists (VRef l), s'. split; [done|]. exists t, u. split_and!; [done..|].
  eapply first_at_named; [|done..].
  eapply Forall2_impl; [exact Hnames0|]. intros ??. by apply (ext_field _ _ _ _ _ _ He').
Qed.

Lemma score_built_task s ts us v x :
  valid_fields score_keys (rec_fields x) → score_built s ts us v x →
  ∃ task, ts !! position (length ts) (rec_task x) = Some task ∧
          field s v "task" task.
Proof.
  intros Hf (t & u & Hi & Ht & _). exists t. split; [done|].
  apply field_inst. do 2 eexists. split; [exact Hi|].
  rewrite al_get_app_r; [done|]. eapply valid_fields_fresh; [done|key_in].
Qed.

(** ** The positional resolution, on loaded records *)



(** A submission record with task index 1 of two tasks is imported and
    refers to the second task; with index 2 its import fails. *)
Example submission_task_index_1 :
  reach ((data ← load (submission_record sample_submission 1);
          submission_import_from_dict data (VRef 2)) (Sample.resolving 1))
    [Attr "task"] = Some (VRef 1).
Proof. by vm_compute. Qed.

Example submission_task_index_2 :
  (data ← load (submission_record sample_submission 2);
   submission_import_from_dict data (VRef 2)) (Sample.resolving 1)
  = Err IndexError.
Proof. by vm_compute. Qed.

(** C10.  A submission record and a score record whose task field is a
    negative integer [t] with [-n <= t <= -1], for [n] built tasks, are
    imported: the reference resolves to the task at position [n + t], and
    that task is the task reference of the imported entity.  For any task
    field, and on any record at all, the positional resolution fails only
    when the field is [>= n] or [< -n]. *)
Theorem negative_task_index g f name t s tasks ts users us names :
  wf_submission g → valid_fields score_keys f → scalar name → name ∈ names →
  is_list s tasks ts → is_list s users us →
  Forall2 (λ u n, field s u "username" n) us names →
  let n := Z.of_nat (length ts) in
  let sub t := (data ← load (submission_record g t);
                submission_import_from_dict data tasks) s in
  let sco t := (data ← load (score_record
                               {| rec_fields := f; rec_task := t; rec_user := name |});
                score_import_from_dict data tasks users) s in
  (- n ≤ t ≤ -1)%Z →
  (∃ task, ts !! Z.to_nat (n + t) = Some task ∧
     (∃ v s', sub t = Ok v s' ∧ field s' v "task" task) ∧
     (∃ v s', sco t = Ok v s' ∧ field s' v "task" task)) ∧
  (∀ t', sub t' = Err IndexError ∨ sco t' = Err IndexError →
     (n ≤ t' ∨ t' < - n)%Z) ∧
  (∀ data t', item s data (VStr "task") (VInt t') →
     submission_import_from_dict data tasks s = Err IndexError ∨
     score_import_from_dict data tasks users s = Err IndexError →
     (n ≤ t' ∨ t' < - n)%Z).
Proof.
  intros Hg Hf Hsc Hname Hts Hus Hnames n sub sco Hneg.
  assert (∀ t', (¬ in_range (length ts) t' → sub t' = Err IndexError) ∧
    (in_range (length ts) t' →
       ∃ task, ts !! position (length ts) t' = Some task ∧
         (∃ v s', sub t' = Ok v s' ∧ field s' v "task" task) ∧
         (∃ v s', sco t' = Ok v s' ∧ field s' v "task" task))) as Hres.
  { intros t'.
    destruct (submission_record_import g t' s tasks ts Hg Hts) as [Hsub_out Hsub_in].
    destruct (score_record_import
                {| rec_fields := f; rec_task := t'; rec_user := name |}
                s tasks ts users us names Hf Hsc Hts Hus Hnames) as [_ Hsco_in].
    cbv zeta in Hsub_out, Hsub_in, Hsco_in.
    cbn [rec_task rec_user rec_fields] in Hsco_in.
    subst sub sco. split; [done|]. intros Hr.
    destruct (Hsub_in Hr) as (task & v & s' & Htask & Hok & Hfield & _).
    destruct (Hsco_in Hr Hname) as (v2 & s2 & Hok2 & Hb).
    destruct (score_built_task _ _ _ _
                {| rec_fields := f; rec_task := t'; rec_user := name |} Hf Hb)
      as (task' & Htask' & Hfield').
    cbn [rec_task] in Htask'. rewrite Htask in Htask'. injection Htask' as <-.
    exists task. split_and!; eauto. }
  split_and!.
  - assert (in_range (length ts) t) as Hr by (unfold in_range; lia).
    assert (position (length ts) t = Z.to_nat (n + t)) as Hpos.
    { unfold position. by rewrite bool_decide_eq_false_2 by lia. }
    rewrite <- Hpos. by apply (Hres t).
  - intros t' Herr.
    destruct (decide (in_range (length ts) t')) as [Hr|Hr];
      [|unfold in_range in Hr; lia].
    destruct (proj2 (Hres t') Hr) as (? & _ & (? & ? & Hok1 & _) & (? & ? & Hok2 & _)).
    destruct Herr; congruence.
  - intros data t' Hitem Herr.
    assert (¬ in_range (length ts) t') as Hr; [|unfold in_range in Hr; lia].
    destruct Herr as [H|H].
    + by apply (proj1 (submission_import_resolves s data tasks ts t' Hts Hitem)).
    + by apply (proj1 (score_import_resolves s data tasks users ts t' Hts Hitem)).
Qed.

Lemma negative_task_index_witness :
  let s := Sample.resolving 1 in
  let g := sample_submission in
  let f := [("score", VInt 10)] in
  let sub t := (data ← load (submission_record g t);
                submission_import_from_dict data (VRef 2)) s in
  let sco t := (data ← load (score_record
                  {| rec_fields := f; rec_task := t; rec_user := VStr "alice" |});
                score_import_from_dict data (VRef 2) (VRef 4)) s in
  wf_submission g ∧ valid_fields score_keys f ∧ scalar (VStr "alice") ∧
  VStr "alice" ∈ [VStr "alice"] ∧
  is_list s (VRef 2) [VRef 0; VRef 1] ∧ is_list s (VRef 4) [VRef 3] ∧
  Forall2 (λ u n, field s u "username" n) [VRef 3] [VStr "alice"] ∧
  (- 2 ≤ -2 ≤ -1)%Z ∧
  (∃ task, [VRef 0; VRef 1] !! Z.to_nat (2 + -2) = Some task ∧
     (∃ v s', sub (-2)%Z = Ok v s' ∧ field s' v "task" task) ∧
     (∃ v s', sco (-2)%Z = Ok v s' ∧ field s' v "task" task)) ∧
  (∀ t', sub t' = Err IndexError ∨ sco t' = Err IndexError →
     (2 ≤ t' ∨ t' < - 2)%Z) ∧
  (∀ data t', item s data (VStr "task") (VInt t') →
     submission_import_from_dict data (VRef 2) s = Err IndexError ∨
     score_import_from_dict data (VRef 2) (VRef 4) s = Err IndexError →
     (2 ≤ t' ∨ t' < - 2)%Z).
Proof.
  intros s g f sub sco.
  assert (H1 : wf_submission g) by key_in.
  assert (H2 : valid_fields score_keys f) by key_in.
  assert (H3 : VStr "alice" ∈ [VStr "alice"]) by left.
  assert (H4 : Forall2 (λ u n, field s u "username" n) [VRef 3] [VStr "alice"])
    by (by repeat constructor).
  assert (H5 : (- 2 ≤ -2 ≤ -1)%Z) by lia.
  split; [exact H1|]. split; [exact H2|]. split; [exact I|]. split; [exact H3|].
  split; [reflexivity|]. split; [reflexivity|]. split; [exact H4|].
  split; [exact H5|].
  exact (negative_task_index g f (VStr "alice") (-2) s (VRef 2) [VRef 0; VRef 1]
           (VRef 4) [VRef 3] [VStr "alice"] H1 H2 I H3 eq_refl eq_refl H4 H5).
Defined.

(** With two tasks, the task field -2 of a submission record and of a
    score record resolves to the first task, and -3 is rejected. *)
Example submission_task_index_minus_2 :
  reach ((data ← load (submission_record sample_submission (-2));
          submission_import_from_dict data (VRef 2)) (Sample.resolving 1))
    [Attr "task"] = Some (VRef 0).
Proof. by vm_compute. Qed.

Example submission_task_index_minus_3 :
  (data ← load (submission_record sample_submission (-3));
   submission_import_from_dict data (VRef 2)) (Sample.resolving 1)
  = Err IndexError.
Proof. by vm_compute. Qed.

(** ** Keyed collections, on loaded records *)

Lemma inst_filename s x c a k :
  is_inst s x c a → field s x "filename" k ↔ al_get "filename" a = Some k.
Proof.
  intros Hi. rewrite field_inst. split.
  - intros (c' & a' & Hi' & Hg). by destruct (is_inst_agree _ _ _ _ _ _ Hi Hi') as [_ ->].
  - intros Hg. eauto.
Qed.

(** The later of two records with the same filename wins. *)
Lemma later_entity_wins s dv c xs fs i j fi fj xi xj fn :
  collection s dv xs → NoDup xs → Forall2 (λ x a, is_inst s x c a) xs fs →
  i < j → fs !! i = Some fi → fs !! j = Some fj →
  al_get "filename" fi = Some fn → al_get "filename" fj = Some fn →
  (∀ j' f', j < j' → fs !! j' = Some f' → al_get "filename" f' ≠ Some fn) →
  xs !! i = Some xi → xs !! j = Some xj →
  item s dv fn xj ∧ ∀ k, ¬ item s dv k xi.
Proof.
  intros (d & Hd & Hcol) Hnd Hall Hij Hfi Hfj Hni Hnj Hlast Hxi Hxj.
  pose proof (Forall2_lookup_lr _ _ _ _ _ _ Hall Hxi Hfi) as Hii.
  pose proof (Forall2_lookup_lr _ _ _ _ _ _ Hall Hxj Hfj) as Hij'.
  split.
  - apply item_dict. exists d. split; [done|]. apply Hcol. exists j.
    split_and!; [done|by apply (inst_filename _ _ _ _ _ Hij')|].
    intros j' x' Hj' Hx' Hf'.
    destruct (Forall2_lookup_l _ _ _ _ _ Hall Hx') as (f' & Hf'' & Hi').
    apply (Hlast j' f' Hj' Hf''). by apply (inst_filename _ _ _ _ _ Hi').
  - intros k (d' & Hd' & Hg)%item_dict.
    rewrite <- (is_dict_agree _ _ _ _ Hd Hd') in Hg.
    apply Hcol in Hg as (i' & Hi' & Hfk & Hlast').
    pose proof (NoDup_lookup _ _ _ _ Hnd Hxi Hi') as <-.
    apply (inst_filename _ _ _ _ _ Hii) in Hfk.
    assert (k = fn) as -> by congruence.
    apply (Hlast' j xj Hij Hxj). by apply (inst_filename _ _ _ _ _ Hij').
Qed.

(** C9.  A task record and a submission record are loaded and imported;
    records of the same keyed sequence (a task's attachments or managers,
    a submission's files or executables) may yield the same filename.
    The import succeeds, and each of these fields of the imported entity
    is a dictionary over the entities built from the records, one for
    each record and in their order, that binds a filename to the entity
    built from the last record yielding it: of two records with the same
    filename, the entity of the later one is bound to the filename and
    the entity of the earlier one is absent from the mapping. *)
Theorem later_record_wins gt gs t s tasks ts :
  wf_task gt → wf_submission gs → is_list s tasks ts → in_range (length ts) t →
  (∃ v s',
     (data ← load (task_record gt); task_import_from_dict data) s = Ok v s' ∧
     keyed_from s' v "attachments" Attachment (task_attachments gt) ∧
     keyed_from s' v "managers" Manager (task_managers gt)) ∧
  (∃ v s',
     (data ← load (submission_record gs t);
      submission_import_from_dict data tasks) s = Ok v s' ∧
     keyed_from s' v "files" File (sub_files gs) ∧
     keyed_from s' v "executables" Executable (sub_executables gs)) ∧
  (∀ s dv c xs fs i j fi fj xi xj fn,
     collection s dv xs → NoDup xs → Forall2 (λ x a, is_inst s x c a) xs fs →
     i < j → fs !! i = Some fi → fs !! j = Some fj →
     al_get "filename" fi = Some fn → al_get "filename" fj = Some fn →
     (∀ j' f', j < j' → fs !! j' = Some f' → al_get "filename" f' ≠ Some fn) →
     xs !! i = Some xi → xs !! j = Some xj →
     item s dv fn xj ∧ ∀ k, ¬ item s dv k xi).
Proof.
  intros Hgt Hgs Hts Hr. split_and!.
  - apply task_record_import, Hgt.
  - destruct (submission_record_import gs t s tasks ts Hgs Hts) as [_ Hin].
    destruct (Hin Hr) as (task & v & s' & _ & Hok & _ & Hf & Hx). eauto.
  - intros. by eapply later_entity_wins.
Qed.

Lemma later_record_wins_witness :
  let s := Sample.resolving 1 in
  wf_task sample_task ∧ wf_submission sample_submission ∧
  is_list s (VRef 2) [VRef 0; VRef 1] ∧ in_range 2 0 ∧
  (∃ v s',
     (data ← load (task_record sample_task); task_import_from_dict data) s
       = Ok v s' ∧
     keyed_from s' v "attachments" Attachment (task_attachments sample_task) ∧
     keyed_from s' v "managers" Manager (task_managers sample_task)) ∧
  (∃ v s',
     (data ← load (submission_record sample_submission 0);
      submission_import_from_dict data (VRef 2)) s = Ok v s' ∧
     keyed_from s' v "files" File (sub_files sample_submission) ∧
     keyed_from s' v "executables" Executable (sub_executables sample_submission)) ∧
  (∀ s dv c xs fs i j fi fj xi xj fn,
     collection s dv xs → NoDup xs → Forall2 (λ x a, is_inst s x c a) xs fs →
     i < j → fs !! i = Some fi → fs !! j = Some fj →
     al_get "filename" fi = Some fn → al_get "filename" fj = Some fn →
     (∀ j' f', j < j' → fs !! j' = Some f' → al_get "filename" f' ≠ Some fn) →
     xs !! i = Some xi → xs !! j = Some xj →
     item s dv fn xj ∧ ∀ k, ¬ item s dv k xi).
Proof.
  intros s.
  assert (H1 : wf_task sample_task) by key_in.
  assert (H2 : wf_submission sample_submission) by key_in.
  assert (H3 : in_range 2 0) by key_in.
  split; [exact H1|]. split; [exact H2|]. split; [reflexivity|]. split; [exact H3|].
  exact (later_record_wins sample_task sample_submission 0 s (VRef 2)
           [VRef 0; VRef 1] H1 H2 eq_refl H3).
Defined.

(** In the import of the sample submission the files mapping holds the
    entity of the second file record only, and so for the executables. *)
Example later_file_wins :
  let r := (data ← load (submission_record sample_submission 0);
            submission_import_from_dict data (VRef 2)) (Sample.resolving 1) in
  reach r [Attr "files"; Key (VStr "sol.cpp"); Attr "digest"] = Some (VStr "f1") ∧
  reach r [Attr "executables"; Key (VStr "sol"); Attr "digest"] = Some (VStr "x1") ∧
  error_of r = None.
Proof. by vm_compute. Qed.

(** ** No check for equal filenames *)

Lemma last_with_exists {A} (P : A → Prop) `{!∀ x, Decision (P x)} xs :
  (∃ x, x ∈ xs ∧ P x) → ∃ x, last_with P xs x.
Proof.
  induction xs as [|y xs IH] using rev_ind.
  - by intros (x & ?%elem_of_nil & _).
  - intros (x & Hx & HP). destruct (decide (P y)) as [Hy|Hy].
    + exists y, (length xs). split_and!.
      * by rewrite lookup_app_r, Nat.sub_diag.
      * done.
      * intros j' x' Hj' Hx'. apply lookup_lt_Some in Hx'.
        rewrite length_app in Hx'. simpl in Hx'. lia.
    + apply elem_of_app in Hx as [Hx|Hx%list_elem_of_singleton]; [|by subst].
      destruct IH as (x0 & j & Hj & HP0 & Hlast); [eauto|].
      exists x0, j. split_and!; [by apply lookup_app_l_Some|done|].
      intros j' x' Hj' Hx'. apply lookup_app_Some in Hx' as [Hx'|[_ Hx']].
      * by apply (Hlast j' x').
      * by apply list_lookup_singleton_Some in Hx' as [_ <-].
Qed.

(** The keys of a keyed field are the filenames of its records. *)
Lemma keyed_from_keys s v f c fs :
  wf_keyed fs → keyed_from s v f c fs → keys_from s v f fs.
Proof.
  intros [_ Hfn] (dv & xs & Hf & (d & Hd & Hcol) & _ & Hall).
  exists dv, d. split_and!; [done..|]. intros k.
  assert (k ∈ d.*1 ↔ ∃ x, al_get k d = Some x) as ->.
  { destruct (al_get k d) as [x|] eqn:Hg.
    - split; [eauto|]. intros _. apply dec_stable. intros Hn.
      apply al_get_None in Hn. congruence.
    - split; [by intros ?%al_get_None|by intros [? ?]]. }
  rewrite list_elem_of_fmap. split.
  - intros (x & (j & Hj & Hfx & _)%Hcol).
    destruct (Forall2_lookup_l _ _ _ _ _ Hall Hj) as (a & Ha & Hi).
    exists a. split; [|by eapply list_elem_of_lookup_2].
    apply (inst_filename _ _ _ _ _ Hi) in Hfx. unfold filename_of. by rewrite Hfx.
  - intros (a & -> & Ha). apply list_elem_of_lookup in Ha as [j Hj].
    destruct (Forall2_lookup_r _ _ _ _ _ Hall Hj) as (x & Hx & Hi).
    destruct (last_with_exists (λ x, field s x "filename" (filename_of a)) xs)
      as (x0 & Hlast).
    + exists x. split; [by eapply list_elem_of_lookup_2|].
      apply (inst_filename _ _ _ _ _ Hi). unfold filename_of.
      rewrite Forall_lookup in Hfn. by destruct (Hfn j a Hj) as [k' ->].
    + exists x0. by apply Hcol.
Qed.

(** C2 (amended).  No check rejects equal filenames: a task record and a
    submission record whose keyed sequences (attachments, managers, files,
    executables) hold records with any filenames, equal ones included,
    are imported without failure.  Each keyed field of the imported
    entity is a dictionary whose keys are exactly the filenames of the
    records, and that binds a filename to the last of the entities, built
    one for each record in their order, that carries it. *)
Theorem equal_filenames_do_not_fail gt gs t s tasks ts :
  wf_task gt → wf_submission gs → is_list s tasks ts → in_range (length ts) t →
  (∃ v s',
     (data ← load (task_record gt); task_import_from_dict data) s = Ok v s' ∧
     keys_from s' v "attachments" (task_attachments gt) ∧
     keyed_from s' v "attachments" Attachment (task_attachments gt) ∧
     keys_from s' v "managers" (task_managers gt) ∧
     keyed_from s' v "managers" Manager (task_managers gt)) ∧
  (∃ v s',
     (data ← load (submission_record gs t);
      submission_import_from_dict data tasks) s = Ok v s' ∧
     keys_from s' v "files" (sub_files gs) ∧
     keyed_from s' v "files" File (sub_files gs) ∧
     keys_from s' v "executables" (sub_executables gs) ∧
     keyed_from s' v "executables" Executable (sub_executables gs)).
Proof.
  intros Hgt Hgs Hts Hr. split.
  - destruct (task_record_import gt s Hgt) as (v & s' & Hok & Ha & Hm).
    destruct Hgt as (_ & Hwa & _ & Hwm & _).
    exists v, s'. split_and!; [done| |done| |done]; by eapply keyed_from_keys.
  - destruct (submission_record_import gs t s tasks ts Hgs Hts) as [_ Hin].
    destruct (Hin Hr) as (task & v & s' & _ & Hok & _ & Hf & Hx).
    destruct Hgs as (_ & Hwf & Hwx & _).
    exists v, s'. split_and!; [done| |done| |done]; by eapply keyed_from_keys.
Qed.

Lemma equal_filenames_do_not_fail_witness :
  let s := Sample.resolving 1 in
  let gt := sample_task in
  let gs := sample_submission in
  wf_task gt ∧ wf_submission gs ∧
  is_list s (VRef 2) [VRef 0; VRef 1] ∧ in_range 2 0 ∧
  (∃ v s',
     (data ← load (task_record gt); task_import_from_dict data) s = Ok v s' ∧
     keys_from s' v "attachments" (task_attachments gt) ∧
     keyed_from s' v "attachments" Attachment (task_attachments gt) ∧
     keys_from s' v "managers" (task_managers gt) ∧
     keyed_from s' v "managers" Manager (task_managers gt)) ∧
  (∃ v s',
     (data ← load (submission_record gs 0);
      submission_import_from_dict data (VRef 2)) s = Ok v s' ∧
     keys_from s' v "files" (sub_files gs) ∧
     keyed_from s' v "files" File (sub_files gs) ∧
     keys_from s' v "executables" (sub_executables gs) ∧
     keyed_from s' v "executables" Executable (sub_executables gs)).
Proof.
  intros s gt gs.
  assert (H1 : wf_task gt) by key_in.
  assert (H2 : wf_submission gs) by key_in.
  assert (H3 : in_range 2 0) by key_in.
  split; [exact H1|]. split; [exact H2|]. split; [reflexivity|]. split; [exact H3|].
  exact (equal_filenames_do_not_fail gt gs 0 s (VRef 2) [VRef 0; VRef 1]
           H1 H2 eq_refl H3).
Defined.

(** The sample task has three attachment records, two of them named
    "grader.cpp": its import returns a task with two attachments. *)
Example equal_filenames_task :
  let r := (data ← load (task_record sample_task); task_import_from_dict data)
             empty in
  error_of r = None ∧
  (∃ l d, reach r [Attr "attachments"] = Some (VRef l) ∧
          obj_at (state_of r) (VRef l) = Some (ODict d) ∧
          d.*1 = [VStr "grader.cpp"; VStr "notes.txt"]) ∧
  reach r [Attr "attachments"; Key (VStr "grader.cpp"); Attr "digest"]
    = Some (VStr "second").
Proof.
  intros r. split; [by vm_compute|]. split; [|by vm_compute].
  eexists _, _. split; [by vm_compute|]. split; by vm_compute.
Qed.

(** ** The scores of a ranking view, on loaded records *)

Lemma score_built_score_key s ts us x r :
  valid_fields score_keys (rec_fields r) → score_built s ts us x r →
  ∃ k, score_key s x k.
Proof.
  intros Hf (t & u & Hi & _). exists (VPair t u), t, u.
  split_and!; [| |done]; apply field_inst; do 2 eexists;
    (split; [exact Hi|]); (rewrite al_get_app_r; [done|]);
    (eapply valid_fields_fresh; [done|key_in]).
Qed.

(** C5 (amended).  A ranking view record is loaded and imported; several
    of its score records may resolve to the same task and user.  The
    import succeeds and builds one Score for each record, in their order,
    with the fields of the record, the task its task field indexes and
    the first user with its username.  Every entry of the scores mapping
    is one of these scores, bound to the key derived from its own (task,
    user) pair, so that looking the pair up returns exactly that entry,
    and two distinct entries never share a pair.  A score is an entry
    exactly when no score built from a later record has its pair: of two
    scores with the same pair the earlier one is not in the mapping. *)
Theorem score_entries_addressable f xs s tasks ts users us names :
  valid_fields ranking_keys f → Forall (wf_score (length ts) names) xs →
  is_list s tasks ts → is_list s users us →
  Forall2 (λ u n, field s u "username" n) us names →
  Forall (λ t, ∃ c a, is_inst s t c a) ts →
  ∃ rv s' es d,
    (data ← load (ranking_record f xs);
     rankingview_import_from_dict data tasks users) s = Ok rv s' ∧
    scores_of s' rv es d ∧ NoDup es ∧
    Forall2 (score_built s' ts us) es xs ∧
    (∀ k x, al_get k d = Some x →
       x ∈ es ∧ score_key s' x k ∧
       ∀ k', score_key s' x k' → al_get k' d = Some x) ∧
    (∀ k k' x x', al_get k d = Some x → al_get k' d = Some x' → x ≠ x' →
       ∀ p p', score_key s' x p → score_key s' x' p' → p ≠ p') ∧
    (∀ i j xi xj k, i < j → es !! i = Some xi → es !! j = Some xj →
       score_key s' xi k → score_key s' xj k →
       ∀ k', al_get k' d ≠ Some xi) ∧
    (∀ j xj, es !! j = Some xj →
       (∀ j' x' k, j < j' → es !! j' = Some x' →
          score_key s' xj k → ¬ score_key s' x' k) →
       ∃ k, al_get k d = Some xj).
Proof.
  intros Hf Hxs Hts Hus Hnames Hit.
  destruct (load_record (ranking_record f xs) s) as (data & s0 & a & b & Hl & Hr & He & _).
  pose proof (ext_list _ _ _ _ _ He Hts) as Hts0.
  pose proof (ext_list _ _ _ _ _ He Hus) as Hus0.
  assert (Forall2 (λ u n, field s0 u "username" n) us names) as Hnames0.
  { eapply Forall2_impl; [exact Hnames|]. intros ??. by apply (ext_field _ _ _ _ _ _ He). }
  assert (Forall (λ t, ∃ c a, is_inst s0 t c a) ts) as Hit0.
  { eapply Forall_impl; [exact Hit|]. intros ? (? & ? & ?). eauto using ext_inst. }
  destruct (rankingview_import_runs f xs s0 a b data tasks ts users us names
              Hf Hxs Hr Hts0 Hus0 Hnames0 Hit0)
    as (rv & s' & ls & d & Hrun & He' & Hscores & Hnd & Hviews).
  assert (Forall2 (score_built s' ts us) (VRef <$> ls) xs) as Hbuilt.
  { eapply Forall2_impl; [exact Hviews|].
    intros v x (t & u & i & Hi & Ht & Hu & Hfirst). exists t, u.
    split_and!; [done..|]. eapply first_at_named; [|done..].
    eapply Forall2_impl; [exact Hnames0|]. intros ??.
    by apply (ext_field _ _ _ _ _ _ He'). }
  assert (NoDup (VRef <$> ls)) as Hnd'.
  { apply NoDup_fmap; [by intros ?? [= ->]|done]. }
  exists rv, s', (VRef <$> ls), d. rewrite (bind_run _ _ _ _ _ Hl).
  split_and!; [done..| | | |]; destruct Hscores as [_ Hd].
  - intros k x (j & Hj & Hk & Hlast)%Hd. split_and!.
    + by eapply list_elem_of_lookup_2.
    + done.
    + intros k' Hk'. rewrite (score_key_agree _ _ _ _ Hk' Hk).
      apply Hd. by exists j.
  - intros k k' x x' Hx Hx' Hne p p' Hp Hp' Heq.
    destruct (proj1 (Hd _ _) Hx) as (j & _ & Hk & _).
    destruct (proj1 (Hd _ _) Hx') as (j' & _ & Hk' & _).
    pose proof (score_key_agree _ _ _ _ Hp Hk).
    pose proof (score_key_agree _ _ _ _ Hp' Hk'). subst.
    rewrite Hx in Hx'. by injection Hx'.
  - intros i j xi xj k Hij Hi Hj Hki Hkj k' (i' & Hi' & Hk' & Hlast)%Hd.
    pose proof (NoDup_lookup _ _ _ _ Hnd' Hi Hi') as <-.
    rewrite (score_key_agree _ _ _ _ Hk' Hki) in Hlast. by apply (Hlast j xj).
  - intros j xj Hj Hlast.
    destruct (Forall2_lookup_l _ _ _ _ _ Hbuilt Hj) as (r & Hr' & Hb).
    destruct (score_built_score_key _ _ _ _ _
                (proj1 (proj1 (Forall_lookup _ _) Hxs j r Hr')) Hb) as (k & Hk).
    exists k. apply Hd. exists j. split_and!; [done..|].
    intros j' x' Hj' Hx'. by eapply Hlast.
Qed.

Lemma score_entries_addressable_witness :
  let s := Sample.resolving 1 in
  let f := [("timestamp", VInt 20)] in
  let names := [VStr "alice"] in
  let xs := [ {| rec_fields := [("score", VInt 10)]; rec_task := 0;
                 rec_user := VStr "alice" |};
              {| rec_fields := [("score", VInt 20)]; rec_task := 1;
                 rec_user := VStr "alice" |};
              {| rec_fields := [("score", VInt 30)]; rec_task := -2;
                 rec_user := VStr "alice" |} ] in
  let ts := [VRef 0; VRef 1] in
  let us := [VRef 3] in
  valid_fields ranking_keys f ∧ Forall (wf_score (length ts) names) xs ∧
  is_list s (VRef 2) ts ∧ is_list s (VRef 4) us ∧
  Forall2 (λ u n, field s u "username" n) us names ∧
  Forall (λ t, ∃ c a, is_inst s t c a) ts ∧
  ∃ rv s' es d,
    (data ← load (ranking_record f xs);
     rankingview_import_from_dict data (VRef 2) (VRef 4)) s = Ok rv s' ∧
    scores_of s' rv es d ∧ NoDup es ∧
    Forall2 (score_built s' ts us) es xs ∧
    (∀ k x, al_get k d = Some x →
       x ∈ es ∧ score_key s' x k ∧
       ∀ k', score_key s' x k' → al_get k' d = Some x) ∧
    (∀ k k' x x', al_get k d = Some x → al_get k' d = Some x' → x ≠ x' →
       ∀ p p', score_key s' x p → score_key s' x' p' → p ≠ p') ∧
    (∀ i j xi xj k, i < j → es !! i = Some xi → es !! j = Some xj →
       score_key s' xi k → score_key s' xj k →
       ∀ k', al_get k' d ≠ Some xi) ∧
    (∀ j xj, es !! j = Some xj →
       (∀ j' x' k, j < j' → es !! j' = Some x' →
          score_key s' xj k → ¬ score_key s' x' k) →
       ∃ k, al_get k d = Some xj).
Proof.
  intros s f names xs ts us.
  assert (H1 : valid_fields ranking_keys f) by key_in.
  assert (H2 : Forall (wf_score (length ts) names) xs) by key_in.
  assert (H3 : Forall2 (λ u n, field s u "username" n) us names)
    by (by repeat constructor).
  assert (H4 : Forall (λ t, ∃ c a, is_inst s t c a) ts).
  { repeat constructor; by eexists _, _. }
  split; [exact H1|]. split; [exact H2|]. split; [reflexivity|].
  split; [reflexivity|]. split; [exact H3|]. split; [exact H4|].
  exact (score_entries_addressable f xs s (VRef 2) ts (VRef 4) us names
           H1 H2 eq_refl eq_refl H3 H4).
Defined.

(** In that run the first and the third record resolve to the first task
    and to alice: three scores are built, and the mapping has two
    entries, the one for the first task being the third score. *)
Example score_entries_of_sample :
  let f := [("timestamp", VInt 20)] in
  let xs := [ {| rec_fields := [("score", VInt 10)]; rec_task := 0;
                 rec_user := VStr "alice" |};
              {| rec_fields := [("score", VInt 20)]; rec_task := 1;
                 rec_user := VStr "alice" |};
              {| rec_fields := [("score", VInt 30)]; rec_task := -2;
                 rec_user := VStr "alice" |} ] in
  let r := (data ← load (ranking_record f xs);
            rankingview_import_from_dict data (VRef 2) (VRef 4))
             (Sample.resolving 1) in
  reach r [Attr "scores"; Key (VPair (VRef 0) (VRef 3)); Attr "score"]
    = Some (VInt 30) ∧
  reach r [Attr "scores"; Key (VPair (VRef 1) (VRef 3)); Attr "score"]
    = Some (VInt 20) ∧
  (∃ l d, reach r [Attr "scores"] = Some (VRef l) ∧
          obj_at (state_of r) (VRef l) = Some (ODict d) ∧ length d = 2).
Proof.
  intros f xs r. split; [by vm_compute|]. split; [by vm_compute|].
  eexists _, _. split; [by vm_compute|]. split; by vm_compute.
Qed.

(** * Further properties of the builders *)

(** ** Input that is not a record *)

Lemma getitem_not_dict s data k :
  (∀ d, ¬ is_dict s data d) → getitem data (VStr k) s = Err TypeError.
Proof.
  intros Hnd. unfold getitem, seq_item, raise.
  destruct data as [| | | |l]; try done.
  destruct (heap s !! l) as [[d| |]|] eqn:Hl; try done.
  destruct (Hnd d). by apply is_dict_ref; eauto.
Qed.

Lemma construct_not_dict s c data :
  (∀ d, ¬ is_dict s data d) → construct c data s = Err TypeError.
Proof.
  intros Hnd. unfold construct.
  destruct data as [| | | |l]; try done.
  destruct (heap s !! l) as [[d| |]|] eqn:Hl; try done.
  destruct (Hnd d). by apply is_dict_ref; eauto.
Qed.

(** X1.  Every builder raises [TypeError] when it is given something that
    is not a dictionary: [None], a number, a string, a tuple, a list or an
    entity. *)
Theorem not_a_record_is_TypeError s data c tasks users :
  (∀ d, ¬ is_dict s data d) →
  basic_import_from_dict c data s = Err TypeError ∧
  contest_import_from_dict data s = Err TypeError ∧
  rankingview_import_from_dict data tasks users s = Err TypeError ∧
  score_import_from_dict data tasks users s = Err TypeError ∧
  user_import_from_dict data tasks s = Err TypeError ∧
  task_import_from_dict data s = Err TypeError ∧
  submission_import_from_dict data tasks s = Err TypeError.
Proof.
  intros Hnd. split_and!.
  - by apply construct_not_dict.
  - by apply bind_fail, getitem_not_dict.
  - by apply bind_fail, getitem_not_dict.
  - by apply bind_fail, getitem_not_dict.
  - by apply bind_fail, getitem_not_dict.
  - by apply bind_fail, getitem_not_dict.
  - by apply bind_fail, getitem_not_dict.
Qed.

Lemma not_a_record_is_TypeError_witness :
  let s := Sample.resolving 0 in
  (∀ d, ¬ is_dict s (VRef 2) d) ∧
  contest_import_from_dict (VRef 2) s = Err TypeError ∧
  task_import_from_dict (VRef 2) s = Err TypeError.
Proof.
  intros s.
  assert (∀ d, ¬ is_dict s (VRef 2) d) as H by (intros d; by vm_compute).
  split; [exact H|].
  destruct (not_a_record_is_TypeError s (VRef 2) Task VNone VNone H)
    as (_ & ? & _ & _ & _ & ? & _).
  done.
Defined.

(** ** Fields a record must have *)

Lemma keeps_run_task_import k data :
  Forall (λ k', k ≠ VStr k')
    ["attachments"; "submission_format"; "managers"; "testcases"] →
  run_rel (keeps k) (task_import_from_dict data).
Proof.
  intros Hk. unfold task_import_from_dict. run_auto.
  all: apply keeps_run_setitem; intros ->; revert Hk.
  all: rewrite !Forall_cons; naive_solver.
Qed.

Global Hint Extern 1 (run_rel (keeps _) (task_import_from_dict _)) =>
  apply keeps_run_task_import; repeat constructor; discriminate : run.

(** A field read after steps that do not assign it was in the record from
    the start. *)
Lemma keeps_item_back k s s' data d x :
  keeps k s s' → is_dict s data d → item s' data k x → al_get k d = Some x.
Proof.
  intros Hk (l & -> & Hl)%is_dict_ref
    (d' & (l' & [= <-] & Hl')%is_dict_ref & Hx)%item_dict.
  destruct (Hk l d Hl) as (d'' & Hl'' & <-). congruence.
Qed.

Ltac read_back k :=
  rel_steps (keeps (VStr k));
  match goal with
  | Hd : is_dict ?s ?data ?d, H : getitem ?data (VStr k) ?s' = Ok ?x _
    |- is_Some (al_get (VStr k) ?d) =>
      exists x; apply (keeps_item_back (VStr k) s s' data d x); [chain|exact Hd|];
      by apply getitem_item in H as [? _]
  end.

Lemma contest_import_reads s data d v s' :
  is_dict s data d → contest_import_from_dict data s = Ok v s' →
  present d ["tasks"; "users"; "announcements"; "ranking_view"].
Proof.
  intros Hd H. unfold contest_import_from_dict in H. inv_run H. pure_steps.
  repeat apply Forall_cons_2; [..|constructor].
  - read_back "tasks".
  - read_back "users".
  - read_back "announcements".
  - read_back "ranking_view".
Qed.

Lemma rankingview_import_reads s data d tasks users v s' :
  is_dict s data d → rankingview_import_from_dict data tasks users s = Ok v s' →
  present d ["scores"].
Proof.
  intros Hd H. unfold rankingview_import_from_dict in H. inv_run H. pure_steps.
  repeat apply Forall_cons_2; [..|constructor]. read_back "scores".
Qed.

Lemma score_import_reads s data d tasks users v s' :
  is_dict s data d → score_import_from_dict data tasks users s = Ok v s' →
  present d ["task"; "user"].
Proof.
  intros Hd H. unfold score_import_from_dict in H. inv_run H. pure_steps.
  repeat apply Forall_cons_2; [..|constructor].
  - read_back "task".
  - read_back "user".
Qed.

Lemma user_import_reads s data d tasks v s' :
  is_dict s data d → user_import_from_dict data tasks s = Ok v s' →
  present d ["messages"; "questions"; "submissions"].
Proof.
  intros Hd H. unfold user_import_from_dict in H. inv_run H. pure_steps.
  repeat apply Forall_cons_2; [..|constructor].
  - read_back "messages".
  - read_back "questions".
  - read_back "submissions".
Qed.

Lemma task_import_reads s data d v s' :
  is_dict s data d → task_import_from_dict data s = Ok v s' →
  present d ["attachments"; "submission_format"; "managers"; "testcases"].
Proof.
  intros Hd H. unfold task_import_from_dict in H. inv_run H. pure_steps.
  repeat apply Forall_cons_2; [..|constructor].
  - read_back "attachments".
  - read_back "submission_format".
  - read_back "managers".
  - read_back "testcases".
Qed.

Lemma submission_import_reads s data d tasks v s' :
  is_dict s data d → submission_import_from_dict data tasks s = Ok v s' →
  present d ["files"; "executables"; "evaluations"; "token"; "task"].
Proof.
  intros Hd H. unfold submission_import_from_dict in H. inv_run H. pure_steps.
  repeat apply Forall_cons_2; [..|constructor].
  - read_back "files".
  - read_back "executables".
  - read_back "evaluations".
  - read_back "token".
  - read_back "task".
Qed.

(** X2.  A builder returns only for a record that has every field the
    builder reads: a contest needs tasks, users, announcements and
    ranking_view, a ranking view scores, a score task and user, a user
    messages, questions and submissions, a task attachments,
    submission_format, managers and testcases, a submission files,
    executables, evaluations, token and task (its user field is not
    read). *)
Theorem required_fields s data d :
  is_dict s data d →
  (∀ v s', contest_import_from_dict data s = Ok v s' →
     present d ["tasks"; "users"; "announcements"; "ranking_view"]) ∧
  (∀ tasks users v s', rankingview_import_from_dict data tasks users s = Ok v s' →
     present d ["scores"]) ∧
  (∀ tasks users v s', score_import_from_dict data tasks users s = Ok v s' →
     present d ["task"; "user"]) ∧
  (∀ tasks v s', user_import_from_dict data tasks s = Ok v s' →
     present d ["messages"; "questions"; "submissions"]) ∧
  (∀ v s', task_import_from_dict data s = Ok v s' →
     present d ["attachments"; "submission_format"; "managers"; "testcases"]) ∧
  (∀ tasks v s', submission_import_from_dict data tasks s = Ok v s' →
     present d ["files"; "executables"; "evaluations"; "token"; "task"]).
Proof.
  intros Hd. split_and!; intros.
  - by eapply contest_import_reads.
  - by eapply rankingview_import_reads.
  - by eapply score_import_reads.
  - by eapply user_import_reads.
  - by eapply task_import_reads.
  - by eapply submission_import_reads.
Qed.

Lemma required_fields_witness :
  let r0 := load (Sample.contest [Sample.task "t0" []] [] []) empty in
  let data := value_of r0 in
  let s := state_of r0 in
  let d := default [] (o ← obj_at s data;
                       match o with ODict d => Some d | _ => None end) in
  let r := contest_import_from_dict data s in
  is_dict s data d ∧ r = Ok (value_of r) (state_of r) ∧
  present d ["tasks"; "users"; "announcements"; "ranking_view"].
Proof.
  intros r0 data s d r.
  assert (is_dict s data d) as Hd by (by vm_compute).
  assert (r = Ok (value_of r) (state_of r)) as Hr by (by vm_compute).
  split_and!; [done..|].
  destruct (required_fields s data d Hd) as (Hc & _). exact (Hc _ _ Hr).
Defined.

(** ** A record without a task field *)

(** X3.  A record that has no task field is not taken for one whose task
    index is out of range: a score import raises [KeyError] for the field,
    and a submission import fails with an exception other than
    [IndexError]. *)
Theorem absent_task_field s data d tasks users :
  is_dict s data d → al_get (VStr "task") d = None →
  score_import_from_dict data tasks users s = Err (KeyError (VStr "task")) ∧
  (∃ e, submission_import_from_dict data tasks s = Err e ∧ e ≠ IndexError).
Proof.
  intros Hd Hnone. split.
  - apply bind_fail. apply is_dict_ref in Hd as (l & -> & Hl).
    by rewrite (getitem_dict _ _ _ _ Hl), Hnone.
  - destruct (submission_import_from_dict data tasks s) as [v s'|e] eqn:H.
    + pose proof (submission_import_reads _ _ _ _ _ _ Hd H) as Hp.
      unfold present in Hp. rewrite !Forall_cons in Hp.
      destruct Hp as (_ & _ & _ & _ & [x Hx] & _). congruence.
    + exists e. split; [done|]. intros ->.
      unfold submission_import_from_dict in H. inv_err H. pure_steps.
      rel_steps (keeps (VStr "task")).
      match goal with
      | Hg : getitem data (VStr "task") ?s1 = Ok ?x _ |- _ =>
          apply getitem_item in Hg as [Hg _];
          assert (al_get (VStr "task") d = Some x)
            by (eapply (keeps_item_back _ s s1); [chain|done|done])
      end.
      congruence.
Qed.

Lemma absent_task_field_witness :
  let r0 := load (JDict [("user", JStr "alice")]) empty in
  let data := value_of r0 in
  let s := state_of r0 in
  let d := [(VStr "user", VStr "alice")] in
  (is_dict s data d ∧ al_get (VStr "task") d = None) ∧
  score_import_from_dict data VNone VNone s = Err (KeyError (VStr "task")) ∧
  (∃ e, submission_import_from_dict data VNone s = Err e ∧ e ≠ IndexError).
Proof.
  intros r0 data s d.
  assert (is_dict s data d) as Hd by (by vm_compute).
  assert (al_get (VStr "task") d = None) as Hn by (by vm_compute).
  split; [done|]. exact (absent_task_field s data d VNone VNone Hd Hn).
Defined.

(** ** A record is used up by its import *)

Lemma entity_ext P s s' x : ext P s s' → entity s x → entity s' x.
Proof. intros He (c & a & Hi). exists c, a. by eapply ext_inst. Qed.

Lemma entity_not_dict s x : entity s x → ∀ d, ¬ is_dict s x d.
Proof. intros (c & a & Hi) d Hd. unfold is_inst, is_dict in *. congruence. Qed.

Lemma mapM_M_makes_entities f xs s ys s' :
  makes_entities f → mapM_M f xs s = Ok ys s' →
  ext any s s' ∧ Forall (entity s') ys.
Proof.
  intros Hf. revert s ys. induction xs as [|x xs IH]; intros s ys; simpl.
  - intros [<- <-]%ret_Ok. split; [done|constructor].
  - intros H. inv_run H. apply ret_Ok in H as [<- <-].
    destruct (Hf _ _ _ _ Hrun) as [He1 Hv].
    destruct (IH _ _ Hrun0) as [He2 Hall].
    split; [by etrans|]. constructor; [by eapply entity_ext|done].
Qed.

Lemma list_comp_makes_entities f src s lv s' :
  makes_entities f → list_comp f src s = Ok lv s' →
  ext any s s' ∧ ∃ ys, is_list s' lv ys ∧ Forall (entity s') ys.
Proof.
  intros Hf H. unfold list_comp in H. inv_run H. pure_steps.
  apply alloc_Ok in H as [-> ->].
  destruct (mapM_M_makes_entities _ _ _ _ _ Hf Hrun0) as [He Hall].
  split; [etrans; [done|apply ext_alloc]|]. exists v0. split.
  - apply is_list_ref. eexists. split; [done|]. simpl.
    by rewrite lookup_app_r, Nat.sub_diag by lia.
  - eapply Forall_impl; [done|]. intros y. apply (entity_ext any), ext_alloc.
Qed.

Lemma construct_makes_entities c : makes_entities (construct c).
Proof.
  intros x s v s' H. destruct (construct_inst _ _ _ _ _ H) as (d & a & _ & _ & Hi & _ & He).
  split; [by eapply ext_weaken|]. by exists c, a.
Qed.

Lemma task_import_makes_entities : makes_entities task_import_from_dict.
Proof.
  intros x s v s' H.
  pose proof (ext_run_task_import any x ltac:(done) _ _ _ H) as He.
  split; [done|]. unfold task_import_from_dict in H. inv_run H.
  by destruct (construct_makes_entities _ _ _ _ _ H).
Qed.

Lemma user_import_makes_entities (tasks_of : M value) :
  pure tasks_of →
  makes_entities (λ user_data, tasks ← tasks_of;
                               user_import_from_dict user_data tasks).
Proof.
  intros Hp x s v s' H. inv_run H. apply Hp in Hrun as ->.
  destruct (user_import_Ok _ _ _ _ _ H) as (_ & _ & _ & _ & He & l & a & _ & _ & Hi).
  split; [done|]. by exists User, a.
Qed.

(** A comprehension over entities where records are expected fails on the
    first entity; over no entity at all it returns an empty list. *)
Lemma list_comp_over_entities f src xs s :
  is_list s src xs → Forall (entity s) xs →
  (∀ x, entity s x → f x s = Err TypeError) →
  list_comp f src s = Err TypeError ∨
  (xs = [] ∧ list_comp f src s
             = Ok (VRef (length (heap s))) (State (heap s ++ [OList []]) (patches s))).
Proof.
  intros Hl Hall Hf. unfold list_comp. rewrite (bind_run _ _ _ _ _ (iter_list _ _ _ Hl)).
  destruct Hall as [|x xs Hx _].
  - right. split; [done|]. done.
  - left. apply bind_fail. simpl. apply bind_fail. by apply Hf.
Qed.

Lemma contest_import_consumes data s c s' :
  contest_import_from_dict data s = Ok c s' → consumed s' data.
Proof.
  intros H. unfold contest_import_from_dict in H. inv_run H. pure_steps.
  rel_steps (ext any).
  match goal with
  | Ht : list_comp task_import_from_dict _ _ = Ok ?lt ?s1,
    Hst : setitem data "tasks" ?lt ?s1 = Ok _ ?s1',
    Hu : list_comp _ _ _ = Ok ?lu ?s2,
    Hsu : setitem data "users" ?lu ?s2 = Ok _ ?s2',
    Ha : list_comp (basic_import_from_dict _) _ _ = Ok ?la ?s3,
    Hsa : setitem data "announcements" ?la ?s3 = Ok _ ?s3',
    Hr : rankingview_import_from_dict _ _ _ _ = Ok ?rv ?s4,
    Hsr : setitem data "ranking_view" ?rv ?s4 = Ok _ ?s4' |- _ =>
      destruct (list_comp_makes_entities _ _ _ _ _ task_import_makes_entities Ht)
        as (_ & ts & Hlt & Hts);
      destruct (list_comp_makes_entities _ _ _ _ _
                  (user_import_makes_entities _ (getitem_pure _ _)) Hu)
        as (_ & us & Hlu & Hus);
      destruct (list_comp_makes_entities _ _ _ _ _
                  (construct_makes_entities Announcement) Ha)
        as (_ & anns & Hla & Hanns);
      assert (entity s4 rv) as Hrv
        by (unfold rankingview_import_from_dict in Hr; inv_run Hr;
            by destruct (construct_makes_entities _ _ _ _ _ Hr));
      assert (ext any s1 s') as He1 by chain;
      assert (ext any s2 s') as He2 by chain;
      assert (ext any s3 s') as He3 by chain;
      assert (ext any s4 s') as He4 by chain;
      pose proof (setitem_item _ _ _ _ _ _ Hst) as Hit;
      pose proof (setitem_item _ _ _ _ _ _ Hsu) as Hiu;
      pose proof (setitem_item _ _ _ _ _ _ Hsa) as Hia;
      pose proof (setitem_item _ _ _ _ _ _ Hsr) as Hir;
      rename lt into lt0; rename lu into lu0; rename la into la0;
      rename rv into rv0
  end.
  split.
  - intros k Hk. rewrite !elem_of_cons, elem_of_nil in Hk.
    destruct Hk as [->|[->|[->|[]]]].
    + rel_steps (keeps (VStr "tasks")). exists lt0, ts. split_and!.
      * eapply keeps_item; [|exact Hit]. chain.
      * exact (ext_list _ _ _ _ _ He1 Hlt).
      * eapply Forall_impl; [exact Hts|]. intros ?. by apply (entity_ext any).
    + rel_steps (keeps (VStr "users")). exists lu0, us. split_and!.
      * eapply keeps_item; [|exact Hiu]. chain.
      * exact (ext_list _ _ _ _ _ He2 Hlu).
      * eapply Forall_impl; [exact Hus|]. intros ?. by apply (entity_ext any).
    + rel_steps (keeps (VStr "announcements")). exists la0, anns. split_and!.
      * eapply keeps_item; [|exact Hia]. chain.
      * exact (ext_list _ _ _ _ _ He3 Hla).
      * eapply Forall_impl; [exact Hanns|]. intros ?. by apply (entity_ext any).
  - rel_steps (keeps (VStr "ranking_view")). exists rv0. split.
    + eapply keeps_item; [|exact Hir]. chain.
    + exact (entity_ext _ _ _ _ He4 Hrv).
Qed.

Lemma stage_over_entities f k data s :
  k ∈ ["tasks"; "users"; "announcements"] → consumed s data →
  (∀ x, entity s x → f x s = Err TypeError) →
  (∀ A (rest : M A),
     (src ← getitem data (VStr k); l ← list_comp f src;
      setitem data k l;; rest) s = Err TypeError) ∨
  ∃ s', (∀ A (rest : M A),
           (src ← getitem data (VStr k); l ← list_comp f src;
            setitem data k l;; rest) s = rest s') ∧ consumed s' data.
Proof.
  intros Hk Hc Hf. pose proof Hc as [Hlists (rv & Hrv & Hrve)].
  destruct (Hlists k Hk) as (lv & xs & Hi & Hl & Hall).
  destruct (list_comp_over_entities f lv xs s Hl Hall Hf) as [Herr|[-> Hrun]].
  { left. intros A rest. rewrite (bind_run _ _ _ _ _ (item_getitem _ _ _ _ Hi)).
    by apply bind_fail. }
  right.
  set (s1 := State (heap s ++ [OList []]) (patches s)) in *.
  set (l1 := VRef (length (heap s))) in *.
  pose proof Hi as Hitem.
  apply item_dict in Hi as (d & (ld & -> & Hd)%is_dict_ref & _).
  assert (heap s1 !! ld = Some (ODict d)) as Hd1 by (by apply lookup_app_l_Some).
  set (s2 := State (<[ld := ODict (al_set (VStr k) l1 d)]> (heap s1)) (patches s1)).
  assert (setitem (VRef ld) k l1 s1 = Ok tt s2) as Hs by (apply setitem_Ok; eauto).
  exists s2. split.
  { intros A rest. rewrite (bind_run _ _ _ _ _ (item_getitem _ _ _ _ Hitem)).
    by rewrite (bind_run _ _ _ _ _ Hrun), (bind_run _ _ _ _ _ Hs). }
  assert (ext any s s2) as He.
  { etrans; [apply (ext_alloc _ s)|]. by eapply (ext_setitem _ s1). }
  assert (∀ k', k' ≠ k → keeps (VStr k') s s2) as Hkeeps.
  { intros k' Hne. etrans; [apply keeps_alloc|].
    apply (keeps_run_setitem (VStr k') (VRef ld) k l1 ltac:(congruence) _ _ _ Hs). }
  split.
  - intros k0 Hk0. destruct (decide (k0 = k)) as [->|Hne].
    + exists l1, []. split_and!; [by eapply setitem_item| |constructor].
      apply (ext_list any s1); [by eapply (ext_setitem _ s1)|].
      apply is_list_ref. eexists. split; [done|]. simpl.
      by rewrite lookup_app_r, Nat.sub_diag by lia.
    + destruct (Hlists k0 Hk0) as (lv0 & xs0 & Hi0 & Hl0 & Hall0).
      exists lv0, xs0. split_and!.
      * eapply keeps_item; [by apply Hkeeps|done].
      * by eapply ext_list.
      * eapply Forall_impl; [done|]. intros ?. by apply (entity_ext any).
  - exists rv. split.
    + eapply keeps_item; [|done]. apply Hkeeps. intros <-.
      rewrite !elem_of_cons, elem_of_nil in Hk. naive_solver.
    + by eapply entity_ext.
Qed.

(** X4.  A contest import uses up its record: the record then holds the
    built entities in place of the serialized ones, and importing the
    same record again raises [TypeError]. *)
Theorem contest_record_is_consumed data s c s' :
  contest_import_from_dict data s = Ok c s' →
  consumed s' data ∧ contest_import_from_dict data s' = Err TypeError.
Proof.
  intros H. pose proof (contest_import_consumes _ _ _ _ H) as Hc.
  split; [done|]. clear H s c. unfold contest_import_from_dict.
  destruct (stage_over_entities task_import_from_dict "tasks" data s'
              ltac:(key_in) Hc) as [->|(s1 & -> & Hc1)]; [|done|].
  { intros x Hx. by apply bind_fail, getitem_not_dict, entity_not_dict. }
  clear Hc.
  destruct (stage_over_entities
              (λ user_data, tasks ← getitem data (VStr "tasks");
                            user_import_from_dict user_data tasks)
              "users" data s1 ltac:(key_in) Hc1) as [->|(s2 & -> & Hc2)];
    [|done|].
  { intros x Hx. destruct Hc1 as [Hlists _].
    destruct (Hlists "tasks" ltac:(key_in)) as (lt & _ & Hi & _).
    rewrite (bind_run _ _ _ _ _ (item_getitem _ _ _ _ Hi)).
    by apply bind_fail, getitem_not_dict, entity_not_dict. }
  clear Hc1.
  destruct (stage_over_entities (basic_import_from_dict Announcement)
              "announcements" data s2 ltac:(key_in) Hc2)
    as [->|(s3 & -> & Hc3)]; [|done|].
  { intros x Hx. by apply construct_not_dict, entity_not_dict. }
  clear Hc2. destruct Hc3 as [Hlists (rv & Hrv & Hrve)].
  destruct (Hlists "tasks" ltac:(key_in)) as (lt & _ & Hit & _).
  destruct (Hlists "users" ltac:(key_in)) as (lu & _ & Hiu & _).
  rewrite (bind_run _ _ _ _ _ (item_getitem _ _ _ _ Hrv)).
  rewrite (bind_run _ _ _ _ _ (item_getitem _ _ _ _ Hit)).
  rewrite (bind_run _ _ _ _ _ (item_getitem _ _ _ _ Hiu)).
  by apply bind_fail, bind_fail, getitem_not_dict, entity_not_dict.
Qed.

Lemma contest_record_is_consumed_witness :
  let r0 := load (Sample.contest [Sample.task "t0" []]
                    [Sample.user "alice" [Sample.submission 0 []]]
                    [Sample.score 0 "alice" 10]) empty in
  let data := value_of r0 in
  let s := state_of r0 in
  let r := contest_import_from_dict data s in
  r = Ok (value_of r) (state_of r) ∧
  consumed (state_of r) data ∧
  contest_import_from_dict data (state_of r) = Err TypeError.
Proof.
  intros r0 data s r.
  assert (r = Ok (value_of r) (state_of r)) as Hr by (by vm_compute).
  split; [done|]. exact (contest_record_is_consumed data s _ _ Hr).
Defined.

(** ** Objects that were there before an import *)

Lemma ext_kept P s s' : ext P s s' → kept s s'.
Proof.
  intros He. split_and!.
  - intros x c a. by apply (ext_inst P).
  - intros x vs. by apply (ext_list P).
  - intros x d. by apply (ext_is_dict P).
  - by eapply ext_length.
Qed.

Lemma construct_fresh c data s v s' s0 :
  construct c data s = Ok v s' → ext any s0 s → fresh s0 v.
Proof.
  intros (d & a & _ & _ & _ & -> & _)%construct_inst He%ext_length.
  eexists. split; [done|lia].
Qed.

Lemma ext_run_contest_import data :
  run_rel (ext any) (contest_import_from_dict data).
Proof. unfold contest_import_from_dict. run_auto. Qed.

(** X5.  An import changes no entity and no list that was in the store
    before it, removes nothing, and returns an object that was not there
    before: a graph imported earlier keeps its entities and sequences
    when another record is imported. *)
Theorem import_keeps_existing_objects s :
  (∀ data v s', contest_import_from_dict data s = Ok v s' →
     kept s s' ∧ fresh s v) ∧
  (∀ data tasks users v s',
     rankingview_import_from_dict data tasks users s = Ok v s' →
     kept s s' ∧ fresh s v) ∧
  (∀ data tasks v s', user_import_from_dict data tasks s = Ok v s' →
     kept s s' ∧ fresh s v) ∧
  (∀ data v s', task_import_from_dict data s = Ok v s' →
     kept s s' ∧ fresh s v) ∧
  (∀ c data v s', basic_import_from_dict c data s = Ok v s' →
     kept s s' ∧ fresh s v).
Proof.
  split_and!.
  - intros data v s' H.
    split; [by eapply (ext_kept any), ext_run_contest_import|].
    unfold contest_import_from_dict in H. inv_run H. pure_steps.
    rel_steps (ext any). eapply construct_fresh; [done|chain].
  - intros data tasks users v s' H.
    split; [by eapply (ext_kept any), ext_run_rankingview_import|].
    unfold rankingview_import_from_dict in H. inv_run H. pure_steps.
    rel_steps (ext any). eapply construct_fresh; [done|chain].
  - intros data tasks v s' H.
    destruct (user_import_Ok _ _ _ _ _ H) as (_ & _ & _ & _ & He & l & a & -> & ? & _).
    split; [by eapply ext_kept|]. by exists l.
  - intros data v s' H.
    split; [by eapply (ext_kept any), (ext_run_task_import any)|].
    unfold task_import_from_dict in H. inv_run H. pure_steps.
    rel_steps (ext any). eapply construct_fresh; [done|chain].
  - intros c data v s' H. unfold basic_import_from_dict in H.
    split; [by eapply (ext_kept any), ext_run_construct|].
    by eapply construct_fresh.
Qed.

Lemma import_keeps_existing_objects_witness :
  let r0 := load (Sample.contest [Sample.task "t0" []]
                    [Sample.user "alice" [Sample.submission 0 []]]
                    [Sample.score 0 "alice" 10]) empty in
  let data := value_of r0 in
  let s := state_of r0 in
  let r := contest_import_from_dict data s in
  r = Ok (value_of r) (state_of r) ∧
  kept s (state_of r) ∧ fresh s (value_of r).
Proof.
  intros r0 data s r.
  assert (r = Ok (value_of r) (state_of r)) as Hr by (by vm_compute).
  split; [done|].
  destruct (import_keeps_existing_objects s) as (Hc & _). exact (Hc _ _ _ Hr).
Defined.

(** ** Owned sequences *)

Lemma listed_steps c src s0 l s1 :
  list_comp (basic_import_from_dict c) src s0 = Ok l s1 →
  ∃ recs xs,
    iter src s0 = Ok recs s0 ∧ NoDup xs ∧
    Forall2 (λ r x, ∃ d a, is_dict s0 r d ∧ kwargs d = Some a ∧
                           is_inst s1 x c a) recs xs ∧
    is_list s1 l xs ∧ ext (λ _, False) s0 s1.
Proof.
  intros (recs & fs & Hit & Hall & -> & ->)%list_comp_construct.
  set (n := length (heap s0)) in *.
  set (xs := VRef <$> seq n (length recs)).
  set (s1 := State _ _).
  pose proof (Forall2_length _ _ _ Hall) as Hlen.
  exists recs, xs. split_and!.
  - done.
  - apply NoDup_fmap; [by intros ?? [= ->]|apply NoDup_seq].
  - apply Forall2_same_length_lookup_2.
    { unfold xs. by rewrite length_fmap, length_seq. }
    intros i r x Hr Hx. unfold xs in Hx. rewrite list_lookup_fmap in Hx.
    apply lookup_lt_Some in Hr as Hlt. rewrite lookup_seq_lt in Hx by done.
    injection Hx as <-.
    destruct (Forall2_lookup_l _ _ _ _ _ Hall Hr) as (a & Ha & d & Hd & Hk).
    exists d, a. split_and!; [done..|]. apply is_inst_ref. eexists.
    split; [done|]. simpl. rewrite lookup_app_r by (unfold n; lia).
    replace (n + i - length (heap s0)) with i by (unfold n; lia).
    rewrite lookup_app_l by (rewrite length_fmap; apply (lookup_lt_Some _ _ _ Ha)).
    by rewrite list_lookup_fmap, Ha.
  - apply is_list_ref. eexists. split; [done|]. simpl.
    rewrite lookup_app_r by (unfold n; lia).
    rewrite lookup_app_r by (rewrite length_fmap; unfold n; lia).
    rewrite length_fmap.
    by replace (n + length recs - length (heap s0) - length fs) with 0
      by (unfold n; lia).
  - split; simpl.
    + rewrite length_app. lia.
    + intros l o Hl. left. by apply lookup_app_l_Some.
Qed.

(** A list field of a built entity: the comprehension, the assignment to
    [data[f]], and what follows up to the end of the builder, which keeps
    the field and the objects built. *)
Lemma listed_field c data f s src s0 l s1 u1 s2 v s' :
  ext (λ l, data = VRef l) s s0 → keeps (VStr f) s s0 →
  getitem data (VStr f) s0 = Ok src s0 →
  list_comp (basic_import_from_dict c) src s0 = Ok l s1 →
  setitem data f l s1 = Ok u1 s2 →
  kept s2 s' → field s' v f l →
  listed_field_of s s' data v f c.
Proof.
  intros He0 Hk0 Hsrc Hcomp Hset (Hinst & Hlist & _) Hfield.
  destruct (listed_steps _ _ _ _ _ Hcomp)
    as (recs & xs & Hit & Hnd & Hall & Hl1 & He01).
  pose proof (ext_run_setitem (λ l, data = VRef l) data f _
                ltac:(done) _ _ _ Hset) as He12.
  exists l, xs. split_and!; [done|by eapply Hlist, ext_list|].
  intros src0 recs0 Hitem Hl0. split; [done|].
  apply getitem_item in Hsrc as [Hsrc _].
  rewrite <- (item_agree _ _ _ _ _ Hsrc (keeps_item _ _ _ _ _ Hk0 Hitem)) in Hl0.
  pose proof (iter_list _ _ _ (ext_list _ _ _ _ _ He0 Hl0)) as Hit'.
  rewrite Hit' in Hit. injection Hit as <-.
  eapply Forall2_impl; [done|]. intros r x (d & a & Hd & Hkw & Hi).
  exists a. split; [by eapply Hinst, ext_inst|]. intros d' Hd' Hr.
  apply is_dict_ref in Hd' as (lr & -> & Hlr).
  assert (is_dict s0 (VRef lr) d') as Hd0.
  { apply is_dict_ref. exists lr. split; [done|].
    eapply ext_dict; [done| |done]. simpl. congruence. }
  by rewrite (is_dict_agree _ _ _ _ Hd0 Hd).
Qed.

Ltac listed s f c :=
  match goal with
  | Hsrc : getitem ?data (VStr f) ?s0 = Ok ?src ?s0,
    Hcomp : list_comp (basic_import_from_dict c) ?src ?s0 = Ok ?l ?s1,
    Hset1 : setitem ?data f ?l ?s1 = Ok ?u ?s2,
    Hcons : construct _ ?data ?s5 = Ok ?v ?s' |- _ =>
      apply (listed_field c data f s src s0 l s1 u s2 v s');
        [chain|chain|exact Hsrc|exact Hcomp|exact Hset1
        |apply (ext_kept any); chain
        |eapply construct_field; [exact Hcons|];
         eapply keeps_item; [|by eapply setitem_item]; chain]
  end.

Lemma task_import_lists data s v s' :
  task_import_from_dict data s = Ok v s' →
  listed_field_of s s' data v "submission_format" SubmissionFormatElement ∧
  listed_field_of s s' data v "testcases" Testcase.
Proof.
  intros H. unfold task_import_from_dict in H. inv_run H. pure_steps.
  rel_steps (keeps (VStr "submission_format")).
  rel_steps (keeps (VStr "testcases")).
  rel_steps (ext (λ l, data = VRef l)). rel_steps (ext any).
  split.
  - listed s "submission_format" SubmissionFormatElement.
  - listed s "testcases" Testcase.
Qed.

Lemma submission_import_lists data tasks s v s' :
  submission_import_from_dict data tasks s = Ok v s' →
  listed_field_of s s' data v "evaluations" Evaluation.
Proof.
  intros H. unfold submission_import_from_dict in H. inv_run H. pure_steps.
  rel_steps (keeps (VStr "evaluations")).
  rel_steps (ext (λ l, data = VRef l)). rel_steps (ext any).
  listed s "evaluations" Evaluation.
Qed.

(** The end of a user import, from the submissions on: the objects that
    were there before the submissions were built are not touched by the
    back-reference patch, and neither is the user. *)
Lemma user_import_tail data tasks src sa lsubs sb u sc obj sd subsv xs u' se s0 :
  list_comp (λ submission_data,
               submission_import_from_dict submission_data tasks) src sa
    = Ok lsubs sb →
  setitem data "submissions" lsubs sb = Ok u sc →
  construct User data sc = Ok obj sd →
  getattr obj "submissions" sd = Ok subsv sd →
  iter subsv sd = Ok xs sd →
  forM_ (λ submission, setattr submission "user" obj) xs sd = Ok u' se →
  ext any s0 sa →
  ext any s0 se ∧ ∀ name v, field sd obj name v → field se obj name v.
Proof.
  intros Hcomp Hset Hcons Hga Hit Hfor He0.
  destruct (list_comp_builds _ _ _ _ _ _ (builds_submission_import tasks) Hcomp)
    as (He_ab & xs0 & ls & _ & Hlist & Hnd & _ & Hall).
  pose proof (ext_run_setitem any _ _ _ ltac:(done) _ _ _ Hset) as He_bc.
  pose proof (ext_run_construct any _ _ _ _ _ Hcons) as He_cd.
  pose proof (construct_field _ _ _ _ _ _ _ Hcons (setitem_item _ _ _ _ _ _ Hset))
    as Hfield.
  destruct (construct_builds _ _ _ _ _ Hcons) as (_ & lu & au & -> & Hlu & Hiu).
  apply getattr_Ok in Hga as [Hga _].
  rewrite (field_agree _ _ _ _ _ Hga Hfield) in *.
  assert (ext any sb sd) as He_bd by (by etrans).
  pose proof (ext_list _ _ _ _ _ He_bd Hlist) as Hlist_d.
  rewrite (iter_list _ _ _ Hlist_d) in Hit. injection Hit as <-.
  destruct (forM_setattr _ _ _ _ _ _ Hfor) as (_ & Hlen & Hout & _).
  pose proof (ext_length _ _ _ He0). pose proof (ext_length _ _ _ He_ab).
  pose proof (ext_length _ _ _ He_bc).
  rewrite Forall_forall in Hall.
  assert (ext any s0 sd) as He_d by (etrans; [done|]; by etrans).
  split.
  - destruct He_d as [Hlen_d Hobj]. split; [lia|]. intros l o Hl.
    rewrite Hout; [by apply Hobj|]. intros Hin. apply lookup_lt_Some in Hl.
    destruct (Hall l Hin) as [[? ?] _]. lia.
  - intros name v. apply field_same_obj, Hout. intros Hin.
    destruct (Hall lu Hin) as [[? ?] _]. lia.
Qed.

Lemma user_import_lists data tasks s v s' :
  user_import_from_dict data tasks s = Ok v s' →
  listed_field_of s s' data v "messages" Message ∧
  listed_field_of s s' data v "questions" Question.
Proof.
  intros H. unfold user_import_from_dict in H. inv_run H. pure_steps.
  rel_steps (keeps (VStr "messages")). rel_steps (keeps (VStr "questions")).
  rel_steps (ext (λ l, data = VRef l)). rel_steps (ext any).
  match goal with
  | Hcomp : list_comp (λ _, submission_import_from_dict _ _) _ ?sa = Ok ?lsubs ?sb,
    Hset : setitem data "submissions" ?lsubs ?sb = Ok _ ?sc,
    Hcons : construct User data ?sc = Ok ?obj ?sd,
    Hga : getattr ?obj "submissions" ?sd = Ok ?subsv ?sd,
    Hit : iter ?subsv ?sd = Ok ?xs ?sd,
    Hfor : forM_ _ ?xs ?sd = Ok _ ?se |- _ =>
      pose proof (λ s0, user_import_tail _ _ _ _ _ _ _ _ _ _ _ _ _ _ s0
                          Hcomp Hset Hcons Hga Hit Hfor) as Htail
  end.
  split.
  - match goal with
    | Hsrc : getitem data (VStr "messages") ?s0 = Ok ?src ?s0,
      Hcomp : list_comp (basic_import_from_dict Message) ?src ?s0 = Ok ?l ?s1,
      Hset1 : setitem data "messages" ?l ?s1 = Ok ?u ?s2,
      Hcons : construct _ data ?s5 = Ok ?obj ?s6 |- _ =>
        destruct (Htail s2) as [He Hf]; [chain|];
        apply (listed_field Message data "messages" s src s0 l s1 u s2 obj s');
          [chain|chain|exact Hsrc|exact Hcomp|exact Hset1
          |by apply (ext_kept any)
          |apply Hf; eapply construct_field; [exact Hcons|];
           eapply keeps_item; [|by eapply setitem_item]; chain]
    end.
  - match goal with
    | Hsrc : getitem data (VStr "questions") ?s0 = Ok ?src ?s0,
      Hcomp : list_comp (basic_import_from_dict Question) ?src ?s0 = Ok ?l ?s1,
      Hset1 : setitem data "questions" ?l ?s1 = Ok ?u ?s2,
      Hcons : construct _ data ?s5 = Ok ?obj ?s6 |- _ =>
        destruct (Htail s2) as [He Hf]; [chain|];
        apply (listed_field Question data "questions" s src s0 l s1 u s2 obj s');
          [chain|chain|exact Hsrc|exact Hcomp|exact Hset1
          |by apply (ext_kept any)
          |apply Hf; eapply construct_field; [exact Hcons|];
           eapply keeps_item; [|by eapply setitem_item]; chain]
    end.
Qed.

(** X6.  The plain owned sequences (a task's submission format and
    testcases, a submission's evaluations, a user's messages and
    questions) are rebuilt record by record: the field of the built
    entity is a list with one new entity per record, in the order of the
    records, each carrying the entries of its record. *)
Theorem owned_sequences_in_order :
  (∀ data s v s', task_import_from_dict data s = Ok v s' →
     listed_field_of s s' data v "submission_format" SubmissionFormatElement ∧
     listed_field_of s s' data v "testcases" Testcase) ∧
  (∀ data tasks s v s', submission_import_from_dict data tasks s = Ok v s' →
     listed_field_of s s' data v "evaluations" Evaluation) ∧
  (∀ data tasks s v s', user_import_from_dict data tasks s = Ok v s' →
     listed_field_of s s' data v "messages" Message ∧
     listed_field_of s s' data v "questions" Question).
Proof.
  split_and!.
  - intros data s v s' H. by apply task_import_lists.
  - intros data tasks s v s' H. by eapply submission_import_lists.
  - intros data tasks s v s' H. by eapply user_import_lists.
Qed.

Lemma owned_sequences_in_order_witness :
  let r0 := load (JDict [("username", JStr "alice");
                         ("messages", JList [JDict [("subject", JStr "hello")];
                                             JDict [("subject", JStr "bye")]]);
                         ("questions", JList [JDict [("subject", JStr "limits")]]);
                         ("submissions", JList [])]) empty in
  let data := value_of r0 in
  let s := state_of r0 in
  let r := user_import_from_dict data VNone s in
  r = Ok (value_of r) (state_of r) ∧
  listed_field_of s (state_of r) data (value_of r) "messages" Message ∧
  listed_field_of s (state_of r) data (value_of r) "questions" Question.
Proof.
  intros r0 data s r.
  assert (r = Ok (value_of r) (state_of r)) as Hr by (by vm_compute).
  split; [done|].
  destruct owned_sequences_in_order as (_ & _ & Hu). exact (Hu _ _ _ _ _ Hr).
Defined.

(** ** The token and the owner of a submission *)

(** X7.  A built submission has [None] as its user, whatever the record
    says; its token is [None] when the record's token is, and otherwise a
    new [Token] entity carrying the entries of the token record. *)
Theorem submission_token_and_owner data tasks s v s' :
  submission_import_from_dict data tasks s = Ok v s' →
  field s' v "user" VNone ∧
  ∀ tok, item s data (VStr "token") tok →
    (tok = VNone → field s' v "token" VNone) ∧
    (tok ≠ VNone →
       ∃ t a, field s' v "token" t ∧ is_inst s' t Token a ∧ fresh s t ∧
         ∀ d, is_dict s tok d → tok ≠ data → kwargs d = Some a).
Proof.
  intros H. unfold submission_import_from_dict in H. inv_run H. pure_steps.
  rel_steps (keeps (VStr "token")). rel_steps (keeps (VStr "user")).
  rel_steps (ext (λ l, data = VRef l)). rel_steps (ext any).
  match goal with
  | Htok : getitem data (VStr "token") ?si = Ok ?token ?si,
    Hif : (if decide (?token = VNone) then _ else _) ?si = Ok _ ?sj,
    Hidx : getitem data (VStr "task") ?sj = Ok _ ?sj,
    Huser : setitem data "user" VNone ?sk = Ok _ ?sl,
    Hcons : construct Submission data ?sl = Ok v s' |- _ =>
      rename token into tok0; rename si into s_i; rename sj into s_j;
      rename sl into s_l;
      assert (keeps (VStr "token") s s_i) as Hk_i by chain;
      assert (keeps (VStr "token") s_j s_l) as Hk_j by chain;
      assert (ext (λ l, data = VRef l) s s_i) as He_i by chain;
      assert (ext any s_j s') as He_s by chain;
      assert (ext any s s_i) as He_a by chain;
      apply getitem_item in Htok as [Htok _];
      rename Htok into Hitem0; rename Hif into Hbranch; rename Huser into Hsetu
  end.
  split.
  - eapply construct_field; [done|]. by eapply setitem_item.
  - intros tok Hitem.
    rewrite <- (item_agree _ _ _ _ _ Hitem0 (keeps_item _ _ _ _ _ Hk_i Hitem)).
    clear tok Hitem. split.
    + intros ->. rewrite decide_True in Hbranch by done.
      apply ret_Ok in Hbranch as [_ <-].
      eapply construct_field; [done|]. by eapply keeps_item.
    + intros Hne. rewrite decide_False in Hbranch by done.
      inv_run Hbranch. pure_steps.
      match goal with
      | Hg : getitem data (VStr "token") s_i = Ok ?tok' s_i,
        Hc : basic_import_from_dict Token ?tok' s_i = Ok ?t ?sm |- _ =>
          apply getitem_item in Hg as [Hg _];
          rewrite (item_agree _ _ _ _ _ Hg Hitem0) in *;
          destruct (construct_inst _ _ _ _ _ Hc)
            as (d0 & a & Hd0 & Hkw & Hi & -> & He_m);
          pose proof (ext_run_setitem any data "token" _ ltac:(done) _ _ _ Hbranch)
            as He_mj;
          pose proof (setitem_item _ _ _ _ _ _ Hbranch) as Hit_j;
          exists (VRef (length (heap s_i))), a
      end.
      split_and!.
      * eapply construct_field; [done|]. by eapply keeps_item.
      * eapply ext_inst; [exact He_s|]. eapply ext_inst; [exact He_mj|done].
      * eexists. split; [done|]. by apply ext_length in He_a.
      * intros d Hd Hdata. apply is_dict_ref in Hd as (lr & -> & Hlr).
        assert (is_dict s_i (VRef lr) d) as Hd_i.
        { apply is_dict_ref. exists lr. split; [done|].
          eapply ext_dict; [exact He_i| |done]. simpl. congruence. }
        by rewrite (is_dict_agree _ _ _ _ Hd_i Hd0).
Qed.

Lemma submission_token_and_owner_witness :
  let s0 := state_of (alloc (OList [VStr "t0"]) empty) in
  let r0 := load (JDict [("files", JList []); ("executables", JList []);
                         ("evaluations", JList []);
                         ("token", JDict [("timestamp", JInt 11)]);
                         ("task", JInt 0); ("user", JStr "mallory")]) s0 in
  let data := value_of r0 in
  let s := state_of r0 in
  let r := submission_import_from_dict data (VRef 0) s in
  r = Ok (value_of r) (state_of r) ∧
  field (state_of r) (value_of r) "user" VNone ∧
  ∃ t, field (state_of r) (value_of r) "token" t ∧
       is_inst (state_of r) t Token [("timestamp", VInt 11)].
Proof.
  intros s0 r0 data s r.
  assert (r = Ok (value_of r) (state_of r)) as Hr by (by vm_compute).
  split; [done|].
  destruct (submission_token_and_owner data (VRef 0) s _ _ Hr) as [Hu Htok].
  split; [done|].
  destruct (Htok (VRef 4) ltac:(by vm_compute)) as [_ Hsome].
  destruct (Hsome ltac:(done)) as (t & a & Hf & Hi & _ & Hd).
  exists t. split; [done|].
  pose proof (Hd [(VStr "timestamp", VInt 11)] ltac:(by vm_compute)
                ltac:(by vm_compute)) as Hk.
  injection Hk as <-. exact Hi.
Defined.

(** ** The exceptions of each builder *)

Lemma getitem_list_Err_kind s tasks ts k e :
  is_list s tasks ts → getitem tasks k s = Err e → e = IndexError ∨ e = TypeError.
Proof.
  intros (l & -> & Hl)%is_list_ref. unfold getitem, seq_item, raise, mret, M_ret.
  rewrite Hl. repeat case_match; naive_solver.
Qed.

(** X8.  The exceptions a builder can raise: a basic import only
    [TypeError]; a task import [TypeError], [AttributeError] or [KeyError]
    of one of its four fields, never [IndexError]; a submission import,
    given a list of tasks, these or [IndexError], with [KeyError] only of
    one of the five fields it reads; a score import, given lists of tasks
    and users, these or [KeyError] of "User not found", with [KeyError]
    otherwise only of task or user. *)
Theorem builder_exceptions :
  (∀ c data s e, basic_import_from_dict c data s = Err e → e = TypeError) ∧
  (∀ data s e, task_import_from_dict data s = Err e →
     e = TypeError ∨ e = AttributeError ∨
     ∃ k, k ∈ ["attachments"; "submission_format"; "managers"; "testcases"] ∧
          e = KeyError (VStr k)) ∧
  (∀ data tasks ts s e,
     is_list s tasks ts → submission_import_from_dict data tasks s = Err e →
     e = TypeError ∨ e = AttributeError ∨ e = IndexError ∨
     ∃ k, k ∈ ["files"; "executables"; "evaluations"; "token"; "task"] ∧
          e = KeyError (VStr k)) ∧
  (∀ data tasks users ts us s e,
     is_list s tasks ts → is_list s users us →
     score_import_from_dict data tasks users s = Err e →
     e = TypeError ∨ e = AttributeError ∨ e = IndexError ∨
     ∃ k, k ∈ ["task"; "user"; "User not found"] ∧ e = KeyError (VStr k)).
Proof.
  split_and!.
  - intros c data s e H. destruct (decide (e = TypeError)) as [|Hne]; [done|].
    unfold basic_import_from_dict in H. refute_err H.
  - intros data s e H.
    destruct (decide (e = TypeError)) as [|Hn1]; [by left|].
    destruct (decide (e = AttributeError)) as [|Hn2]; [by right; left|].
    destruct (decide (e = KeyError (VStr "attachments"))) as [->|Hn3];
      [right; right; eexists; split; [|done]; key_in|].
    destruct (decide (e = KeyError (VStr "submission_format"))) as [->|Hn4];
      [right; right; eexists; split; [|done]; key_in|].
    destruct (decide (e = KeyError (VStr "managers"))) as [->|Hn5];
      [right; right; eexists; split; [|done]; key_in|].
    destruct (decide (e = KeyError (VStr "testcases"))) as [->|Hn6];
      [right; right; eexists; split; [|done]; key_in|].
    unfold task_import_from_dict in H. refute_err H.
  - intros data tasks ts s e Hts H.
    destruct (decide (e = TypeError)) as [|Hn1]; [by left|].
    destruct (decide (e = AttributeError)) as [|Hn2]; [by right; left|].
    destruct (decide (e = IndexError)) as [|Hn0]; [by right; right; left|].
    destruct (decide (e = KeyError (VStr "files"))) as [->|Hn3];
      [do 3 right; eexists; split; [|done]; key_in|].
    destruct (decide (e = KeyError (VStr "executables"))) as [->|Hn4];
      [do 3 right; eexists; split; [|done]; key_in|].
    destruct (decide (e = KeyError (VStr "evaluations"))) as [->|Hn5];
      [do 3 right; eexists; split; [|done]; key_in|].
    destruct (decide (e = KeyError (VStr "token"))) as [->|Hn6];
      [do 3 right; eexists; split; [|done]; key_in|].
    destruct (decide (e = KeyError (VStr "task"))) as [->|Hn7];
      [do 3 right; eexists; split; [|done]; key_in|].
    exfalso. unfold submission_import_from_dict in H. inv_err H. pure_steps.
    rel_steps (ext any).
    match goal with
    | Hg : getitem tasks _ ?si = Err e |- _ =>
        assert (ext any s si) as He by chain;
        destruct (getitem_list_Err_kind _ _ _ _ _ (ext_list _ _ _ _ _ He Hts) Hg);
        done
    end.
  - intros data tasks users ts us s e Hts Hus H.
    destruct (decide (e = TypeError)) as [|Hn1]; [by left|].
    destruct (decide (e = AttributeError)) as [|Hn2]; [by right; left|].
    destruct (decide (e = IndexError)) as [|Hn0]; [by right; right; left|].
    destruct (decide (e = KeyError (VStr "task"))) as [->|Hn3];
      [do 3 right; eexists; split; [|done]; key_in|].
    destruct (decide (e = KeyError (VStr "user"))) as [->|Hn4];
      [do 3 right; eexists; split; [|done]; key_in|].
    destruct (decide (e = KeyError (VStr "User not found"))) as [->|Hn5];
      [do 3 right; eexists; split; [|done]; key_in|].
    exfalso. unfold score_import_from_dict in H. inv_err H. pure_steps.
    destruct (getitem_list_Err_kind _ _ _ _ _ Hts H); done.
Qed.

Lemma builder_exceptions_witness :
  let r0 := load (JDict [("name", JStr "t0"); ("attachments", JList [])]) empty in
  let data := value_of r0 in
  let s := state_of r0 in
  let e := KeyError (VStr "submission_format") in
  task_import_from_dict data s = Err e ∧
  (e = TypeError ∨ e = AttributeError ∨
   ∃ k, k ∈ ["attachments"; "submission_format"; "managers"; "testcases"] ∧
        e = KeyError (VStr k)).
Proof.
  intros r0 data s e.
  assert (task_import_from_dict data s = Err e) as Hr by (by vm_compute).
  split; [done|].
  destruct builder_exceptions as (_ & Ht & _). exact (Ht _ _ _ Hr).
Defined.
